(* ===== verification/_CoqProject ===== *)
-Q . S2P
Prelude.v
GoStrings.v
Effects.v
Versions.v
GoTime.v
Schema.v
Samples.v
AuditLog.v
Jobs.v
JobsInvariant.v
JobsSpec.v
JobsCreate.v
JobsOutcome.v
JobsWitness.v
Scheduler.v
SchedulerSpec.v
JobsLives.v
SchedulerCycles.v
SchedulerWitness.v
Http.v
Auth.v
Agents.v
AuthSpec.v
AuthWitness.v
Artifacts.v
Retention.v
ArtifactsSpec.v
ArtifactsWitness.v
Signing.v
SigningSpec.v
Refresh.v
RefreshSpec.v
Base64.v
Guard.v
Worker.v
WorkerSpec.v
WorkerState.v
WorkerWitness.v
Reports.v
ReportsSpec.v
Net.v
Host.v
WorkerAgent.v
WorkerAgentSpec.v
Uploads.v
UploadsSpec.v
Accounts.v
AccountsSpec.v
AccountsWitness.v
Sources.v
SourcesSpec.v
Catalog.v
CatalogSpec.v
Updates.v
UpdatesSpec.v
StoreInstall.v
StoreInstallSpec.v
StoreWitness.v
Discovery.v
DiscoverySpec.v
Certificates.v
CertificatesSpec.v
DevicesAdmin.v
DevicesAdminSpec.v
ControlPlane.v
ControlPlaneSpec.v
Mdns.v
DeviceSocket.v
Dashboard.v
DashboardSpec.v
Lists.v
Integrity.v
IntegrityStatements.v
IntegrityPrograms.v
ListsSpec.v
System.v
SystemSpec.v
SystemHistory.v
SystemWitness.v
