(* ===== verification/Prelude.v ===== *)
(** Sidey: a control plane that keeps sideloaded iOS and tvOS applications
    signed, installed and refreshed.

    * The program

    The control plane (cmd/control-plane, internal/) is a Go server over
    PostgreSQL.  Operators and companion apps upload IPA archives, approve them
    and deploy them to devices; the work itself is done by agents that claim
    jobs over HTTP.  The signing worker (cmd/signing-worker) is the one agent
    that logs into Apple; the device service, on the same host, installs.  A
    scheduler creates a refresh job for every deployment whose profile is about
    to expire, a reaper takes back the jobs of agents that went away, a retention
    pass deletes expired signed archives.  An app store merges the catalogues of
    community sources, imports what the operator picks and tells of updates.
    Companion apps find the server on the network and enrol with one tap.

    The parts meet in the tables: [jobs] (queue, scheduler, every handler that
    enqueues), [deployments] and [installation_records] (scheduler, outcome of
    refreshes), [artifacts] and [signed_artifacts] with the blob store (uploads,
    signing, retention), [agents] and the token tables (authentication).

    * How it is modelled

    Effects.v: a service method or handler is a [prog], a tree of SQL statements
    and file operations, each of which may fail; [run] executes it against a list
    of faults, so a theorem about all fault lists covers every way the database or
    the disk can fail.  [txn] is Begin/defer Rollback/Commit.  [wp] is the weakest
    precondition calculus the proofs use, [ewp] its variant for runs without
    faults, [dwp] the one for programs on files only ([disk_only]), [lwp] the one
    that also remembers whether the last operation failed, [istep] the
    statement-level interleaving with other actors.

    Schema.v: the tables as maps from key to row, with the foreign keys and unique
    indexes as checks of the statements that can violate them; [world] adds the
    blobs, the clock and the source of uuids.  Every SQL statement is a function on
    [world], written next to the handler that issues it.  Integers are [Z] with
    the width's wrap-around where the code computes with them; instants are int64
    nanoseconds; Go strings are byte strings (GoStrings.v, GoTime.v).

    | File              | Source                                                     |
    | Jobs*             | internal/jobs/jobs.go                                      |
    | AuditLog          | internal/audit/audit.go                                    |
    | Scheduler*        | internal/scheduler/scheduler.go                            |
    | Versions          | compareVersions (store.go), looksPrerelease                |
    | Http, Auth, Agents, AuthSpec | internal/auth/auth.go, internal/api/{api,       |
    |                   | device_tokens,agents,jobs,device}.go                       |
    | Artifacts*        | internal/artifacts/*.go, internal/api/artifacts.go         |
    | Retention         | internal/retention/prune.go                                |
    | Signing*          | internal/api/signing.go                                    |
    | Refresh*          | internal/api/device_refresh.go                             |
    | Base64, Guard, Worker, WorkerSpec, WorkerState | cmd/signing-worker/main.go:   |
    |                   | claim loop, jobs, guard, sealed state                      |
    | Reports*          | postJobStatus and the endpoint that receives it            |
    | WorkerAgent*      | ensureAgent, heartbeat, start of main, and enrolment       |
    | Uploads*          | uploadSignedIPA and the endpoint that reads the form       |
    | Host              | the files beside the database                              |
    | Accounts*         | internal/api/accounts.go                                   |
    | Sources*          | store.go: sources, the list of discovered feeds            |
    | Catalog*          | store.go: feeds, releases, catalogue, cache, snapshots     |
    | Updates*          | store.go: subscriptions, available updates                 |
    | StoreInstall*     | store.go: download, import, routing of an installation     |
    | StoreWitness      | concrete runs for the four                                 |
    | Net, Discovery*   | internal/api/discovery.go                                  |
    | Certificates*     | internal/api/{certificates,certstore}.go                   |
    | DevicesAdmin*     | internal/api/devices_admin.go                              |
    | ControlPlane*     | cmd/control-plane/main.go: settings and loops              |
    | DeviceSocket      | listenDeviceSocket, DeviceHandler                          |
    | Mdns              | internal/api/discovery_mdns.go                             |
    | Dashboard*        | dashboard.go: the refresh calendar and its neighbours      |
    | Lists*            | dashboard.go, signing.go, certificates.go: the other lists |
    | Integrity*        | the constraints of migrations/ as an invariant             |
    | System*           | api.go Handler, device.go DeviceHandler, main.go: the whole |

    A file X.v holds the definitions, XSpec.v (or JobsInvariant, JobsCreate,
    JobsOutcome, SchedulerCycles, WorkerState) the theorems, XWitness.v concrete
    inputs on which their hypotheses hold.  Components use each other through
    classes: [RefreshQueue] is what the scheduler asks of the queue, with its laws
    discharged by JobsCreate.v; [SecretOps], [ArchiveOps], [UuidText] and [AeadOps]
    stand for libraries the code calls, with the documented behaviour the proofs
    rely on as laws, and Samples.v and the witness files instantiate them, as they
    do [SortSlice] (sort.Slice: a sorted permutation, not stable) and [Sha1Ops].
    A handler that touches more than the tables is a program on a larger state:
    [Lens] says that one state is part of another and [zoom] runs a program of the
    part in the whole (tables in the host with its files, the host in the state
    with the catalogue's cache, the tables beside the rate limiter, the control
    plane and the worker's machine in one [site]).  Where both ends of a request are
    in the repository (reports, enrolment, uploads), the worker's program and the
    handler are composed and the theorem is about the two.
    ControlPlane.v composes the loops: [lifetime] interleaves the passes of the
    five loops with the calls of the queue.
    System.v composes everything: [system] is the state of the process and its
    disk, [endpoint] the requests the two listeners route, [route_of] and
    [guard_of] the table of api.go, [respond] a request through the recovery
    middleware, the route's guard and its handler.  A [history] is a sequence of
    requests and passes of the loops, each with its own faults; they run one after
    another.  Where a handler waits for the work of others, what they do meanwhile
    is an argument; [honest] says that it keeps the tables orderly and
    [occurrence_honest] that every history of the system itself does.
    Integrity.v states what the constraints promise as one invariant with the
    relation [remembers] (nothing audited, issued or revoked is forgotten, jobs
    live on);
    [orderly] is a property of programs closed under the combinators, so a
    handler's proof is that of its statements.

    * What is shown

    - The queue: [lifecycle] is the abstract specification of a job; every
      operation, whatever fails, refines it (JobsInvariant, JobsSpec).  Claim,
      Update, Reap and Create are specified exactly; failed calls change no table;
      completed jobs never change; retries are finite and their delays bounded.
    - The scheduler: after a tick without faults every due deployment has its job,
      and an endangered one an active refresh, unless the refresh its guard forces
      on that day was on record already (the guard does not revive a dead one, a
      flaw); a second tick changes nothing, cycles that died for good stay dead,
      keys do not collide.
    - Authentication: which credentials open which routes; enrolment tokens admit
      one agent; an agent's role bounds what it can claim.
    - Artifacts: every row stays backed by its blob, unless the archive of a failed
      upload is also the content of a signed artifact (a flaw); retention removes exactly the
      expired archives; a signed upload needs the caller's own active sign job.
    - The signing worker: over every history at most twelve Apple runs per hour,
      none while the breaker is open; the sealed state is restored; a sign or
      export job wipes the plain state and stops its heartbeat, provided the
      temporary directory is made and the removal works; the account is never
      guessed.
    - Worker and control plane together: a dispatched job ends in one last report,
      and that report settles the row of the queue, unless it holds a zero
      character, which the columns refuse (a flaw); the form of an upload is read
      as it was meant and the answer names the stored row; a first start enrols, no
      history of restarts enrols twice, and a key lost on the way locks out.
    - Refreshes: the sign and install steps follow the recorded lineage, and an
      update is taken only with consent and from an approved artifact.
    - Accounts: what a deployment enqueues and for which account; credentials that
      were saved are the ones the worker uses.
    - The store: the mirror only adds; a deleted feed stays deleted through any
      later syncs; feeds are
      grouped into one app per identifier and the catalogue is well formed; updates
      are newer; what is imported is quarantined.
    - Discovery: the default networks are the private ones exactly; an address
      passes at most ten times in a minute, whatever the others do; the token
      opens the control routes and nothing else changes.
    - Certificates: a revocation and its event go together; the archive that is
      served or pushed is the one the worker exported for that account, and a
      download that waits long enough for it gets it.
    - Devices: a registration keeps the owner, a deletion leaves no row that names
      the device.
    - The process: no order of loops and calls, whatever fails, loses a completed
      job; the durations of the settings are exact up to a stated bound; the socket
      of the device service admits no stranger, however an earlier run left it;
      what is announced on the network is what is served.
    - The system: over every history of requests and loop passes, whatever fails,
      the keys and references of the tables hold, the queue is well formed and
      nothing is forgotten; every job stays on its life cycle and none is lost
      (JobsLives.v); every route but the eight open ones refuses and changes nothing
      without its credential, though [GET /], which is open, hands out the cookie
      of the admin (a flaw); a revoked API token never opens a route again; an
      invitation admits one agent; a reader's token changes no table but its own
      last use.
    - The dashboard: its lists show every row once, in order; the refresh calendar has a row per deployment and is ordered,
      and one malformed install job hides all of it.
    - What the modelling showed to be wrong is stated as theorems and examples too
      (blobs lost on failed commits, the rollback reference, the leaked session
      cookie, ...).

    * Bounds and fuel

    Loops are recursions over lists or over the statement tree; no definition uses
    fuel except where a comment says so.  Retry counts are bounded by the theorem
    that uses them (attempts below 59, so that shifting 30 s fits an int).

    * Not modelled

    Reading zip archives, property lists and CMS profiles, bcrypt, sha256, AES-GCM
    and uuid parsing are parameters, and so are the answers of upstream servers
    and the order in which concurrent fetches end.  SQL isolation is
    statement-level.  A file write that fails leaves the file as it was, except in
    the worker's enrolment, where it leaves it empty; decryptState's
    errors of stat and of the walk are one failure.  Texts that Postgres refuses, a
    zero character or bytes that are not text, fail the statements that store the
    reports of jobs, names of devices, uploads, certificates, feeds and
    subscriptions ([pg_text], [pg_json]); the rows of new jobs, agents and tokens
    ([insert_job], [insert_agent], [store_token]) are taken to hold valid text, so
    a request that smuggles in such a character succeeds here and is answered
    with an internal error there.  JSON texts are taken as parsed values with valid UTF-8, their members matched by
    the exact name; errors of libraries are not spelled out in answers; a request
    whose deadline passes is cut between two statements.  Lower case is that of
    ASCII.  An Apple ID is taken to be printable where it is quoted with %q.  The
    row of server_identity is a parameter: only a migration writes it.  The
    casts of the refresh calendar are evaluated for every candidate row, in UTC.
    Columns the lists read and no code writes are parameters ([Unwritten]); the
    tables users and application_channels, which no code touches, are left out.
    The page GET / is an embedded asset: of the endpoint [Index] only the cookie
    is modelled ([index_cookie]).  The path of the device socket is taken to name a
    file, not an abstract socket (a name that begins with @).  The requests of a [history] run one after another; where
    two calls race, the theorem is in the component's file and about [istep].
    Listeners, signals and shutdown of the processes, the multicast responder,
    connection pooling and the code in other languages (web, iOS, Python, Rust,
    scripts) are not modelled; of the migrations only the keys and constraints
    are. *)
From stdpp Require Export base tactics list gmap strings sorting pretty.
From Stdlib Require Export ZArith Lia Ascii.

#[global] Open Scope Z_scope.
#[global] Set Default Proof Using "Type".
#[export] Set Warnings "-clear-no-such-hyp".

(** ** Notations of the development *)

(** Identifiers are the 128-bit values of a uuid; [uuid_nil] is [uuid.Nil]. *)
Abbreviation uuid := N (only parsing).
Abbreviation uuid_nil := (0%N).

(** Instants and durations are [int64] nanoseconds, as in package time. *)
Abbreviation instant := Z (only parsing).
Abbreviation duration := Z (only parsing).

Declare Scope sidey_scope.
Delimit Scope sidey_scope with sidey.
#[global] Open Scope sidey_scope.

(** [a =s b] is Go's [a == b] on strings. *)
Notation "a =s b" := (bool_decide (a =@{string} b)) (at level 70) : sidey_scope.
Notation "a ++s b" := (String.append a b) (at level 60, right associativity) : sidey_scope.

(** ** Time constants (package time) *)

Definition Second : duration := 1000000000.
Definition Minute : duration := 60 * Second.
Definition Hour : duration := 60 * Minute.
Definition Day : duration := 24 * Hour.

(** [int(d.Seconds())]: whole seconds of a duration, truncated toward zero. *)
Definition whole_seconds (d : duration) : Z := Z.quot d Second.

(** ** Machine integers *)

(** Two's complement wrap-around of a 64-bit [int]. *)
Definition wrap64 (z : Z) : Z := (z + 2 ^ 63) mod 2 ^ 64 - 2 ^ 63.

Lemma wrap64_id z : - 2 ^ 63 <= z < 2 ^ 63 -> wrap64 z = z.
Proof. intros H. unfold wrap64. rewrite Z.mod_small; lia. Qed.

Lemma wrap64_range z : - 2 ^ 63 <= wrap64 z < 2 ^ 63.
Proof.
  unfold wrap64.
  pose proof (Z.mod_pos_bound (z + 2 ^ 63) (2 ^ 64) ltac:(lia)). lia.
Qed.

(** Go's [x << n] on [int], for a non-negative shift count: bits past the
    word are lost and a count of 64 or more gives 0. *)
Definition shl64 (x n : Z) : Z := if 64 <=? n then 0 else wrap64 (Z.shiftl x n).

(** ** Options *)

(** Go's comparison of a nullable value with a present one:
    [p != nil && *p == v]. *)
Definition opt_is {A} `{EqDecision A} (o : option A) (v : A) : bool :=
  match o with Some x => bool_decide (x = v) | None => false end.

Lemma opt_is_true {A} `{EqDecision A} (o : option A) (v : A) :
  opt_is o v = true <-> o = Some v.
Proof.
  destruct o as [x|]; simpl; [|naive_solver].
  rewrite bool_decide_eq_true. naive_solver.
Qed.

(** SQL [COALESCE(o, d)]. *)
Definition coalesce {A} (o : option A) (d : A) : A := default d o.

(** ** Boolean conditions *)

(** Membership of a string in a list, Go's map-as-set lookup and SQL
    [= ANY(...)]. *)
Definition in_strs (s : string) (l : list string) : bool := bool_decide (s ∈ l).
Definition in_ids (i : uuid) (l : list uuid) : bool := bool_decide (i ∈ l).

Lemma in_strs_true s l : in_strs s l = true <-> s ∈ l.
Proof. apply bool_decide_eq_true. Qed.
Lemma in_ids_true i l : in_ids i l = true <-> i ∈ l.
Proof. apply bool_decide_eq_true. Qed.

Lemma in_strs_false s l : in_strs s l = false <-> s ∉ l.
Proof. apply bool_decide_eq_false. Qed.
Lemma in_ids_false i l : in_ids i l = false <-> i ∉ l.
Proof. apply bool_decide_eq_false. Qed.

Create HintDb sidey discriminated.
Create Rewrite HintDb sidey_bool.

#[export] Hint Rewrite @opt_is_true in_strs_true in_ids_true
  in_strs_false in_ids_false
  andb_true_iff orb_true_iff negb_true_iff andb_false_iff orb_false_iff negb_false_iff
  Z.leb_le Z.ltb_lt Z.leb_gt Z.ltb_ge Z.eqb_eq Z.eqb_neq
  @bool_decide_eq_true @bool_decide_eq_false : sidey_bool.

(** [bools] turns the boolean conditions of the hypotheses into propositions. *)
Ltac bools := autorewrite with sidey_bool in *.

(** Case analysis on the innermost condition of the goal or of a hypothesis. *)
Ltac case_cond :=
  match goal with
  | |- context [if ?b then _ else _] =>
      lazymatch b with context [if _ then _ else _] => fail | _ => destruct b eqn:? end
  | H : context [if ?b then _ else _] |- _ =>
      lazymatch b with context [if _ then _ else _] => fail | _ => destruct b eqn:? end
  end.

(** ** Rows of a table *)

(** The rows a [SELECT] ranges over.  Without [ORDER BY] the order is not
    specified by SQL; the model uses the order of the map's enumeration. *)
Definition rows {A} (m : gmap uuid A) : list A := (map_to_list m).*2.

Lemma elem_of_rows {A} (m : gmap uuid A) (x : A) :
  x ∈ rows m <-> exists i, m !! i = Some x.
Proof.
  unfold rows. rewrite list_elem_of_fmap. split.
  - intros ([i y] & -> & Hin). exists i. by apply elem_of_map_to_list in Hin.
  - intros [i Hi]. exists (i, x). split; [done|]. by apply elem_of_map_to_list.
Qed.

Lemma rows_lookup {A} (m : gmap uuid A) i x : m !! i = Some x -> x ∈ rows m.
Proof. intros. apply elem_of_rows. eauto. Qed.
#[export] Hint Resolve rows_lookup : sidey.

(** The rows that satisfy a [WHERE] clause. *)
Definition select {A} (p : A -> bool) (l : list A) : list A := List.filter p l.

Lemma elem_of_select {A} (p : A -> bool) (l : list A) x :
  x ∈ select p l <-> x ∈ l /\ p x = true.
Proof. unfold select. rewrite !list_elem_of_In. apply filter_In. Qed.

Lemma select_app {A} (p : A -> bool) (l k : list A) : select p (l ++ k) = select p l ++ select p k.
Proof. apply List.filter_app. Qed.

Lemma select_select {A} (p q : A -> bool) (l : list A) :
  select p (select q l) = select (fun x => q x && p x) l.
Proof. induction l as [|x l IH]; [done|]. simpl. destruct (q x); simpl; [destruct (p x)|]; by rewrite IH. Qed.

Lemma select_ext_in {A} (p q : A -> bool) (l : list A) :
  (forall x, x ∈ l -> p x = q x) -> select p l = select q l.
Proof.
  induction l as [|x l IH]; intros H; [done|]. simpl. rewrite (H x) by (by left).
  rewrite IH by (intros; apply H; by right). done.
Qed.

Lemma select_ext {A} (p q : A -> bool) (l : list A) : (forall x, p x = q x) -> select p l = select q l.
Proof. intros H. induction l as [|x l IH]; [done|]. simpl. by rewrite H, IH. Qed.

Lemma select_nil {A} (p : A -> bool) (l : list A) :
  select p l = [] <-> forall x, x ∈ l -> p x = false.
Proof.
  split.
  - intros H x Hx. destruct (p x) eqn:E; [|done].
    assert (x ∈ select p l) as Hin by (apply elem_of_select; auto).
    rewrite H in Hin. set_solver.
  - induction l as [|a l IH]; intros H; [done|]. simpl.
    rewrite (H a) by set_solver. apply IH. set_solver.
Qed.

(** [ORDER BY key LIMIT 1] for a total boolean order [le]. *)
Fixpoint first_by {A} (le : A -> A -> bool) (l : list A) : option A :=
  match l with
  | [] => None
  | x :: l' =>
      match first_by le l' with
      | None => Some x
      | Some y => if le x y then Some x else Some y
      end
  end.

Lemma first_by_elem {A} (le : A -> A -> bool) l x :
  first_by le l = Some x -> x ∈ l.
Proof.
  revert x. induction l as [|a l IH]; intros x; [done|]. simpl.
  destruct (first_by le l) as [y|]; [case_cond|]; intros [= <-]; set_solver.
Qed.

Lemma first_by_None {A} (le : A -> A -> bool) l : first_by le l = None <-> l = [].
Proof.
  destruct l as [|a l]; simpl; [done|].
  destruct (first_by le l); [case_cond|]; naive_solver.
Qed.

Lemma first_by_least {A} (le : A -> A -> bool) l x y
    (Htot : forall a b, le a b = true \/ le b a = true)
    (Htr : forall a b c, le a b = true -> le b c = true -> le a c = true) :
  first_by le l = Some x -> y ∈ l -> le x y = true.
Proof.
  revert x. induction l as [|a l IH]; intros x; [done|]. simpl.
  destruct (first_by le l) as [z|] eqn:E.
  - intros Hx [->|Hy]%elem_of_cons.
    + case_cond; injection Hx as <-; [|destruct (Htot a z); congruence].
      destruct (Htot a a); done.
    + specialize (IH _ eq_refl Hy). case_cond; injection Hx as <-; eauto.
  - apply first_by_None in E as ->. intros [= <-] ->%list_elem_of_singleton.
    destruct (Htot a a); done.
Qed.

(** Insertion sort: [ORDER BY] of a whole result and Go's [sort] of short
    slices. *)
Fixpoint insert_by {A} (le : A -> A -> bool) (x : A) (l : list A) : list A :=
  match l with
  | [] => [x]
  | y :: l' => if le x y then x :: y :: l' else y :: insert_by le x l'
  end.

Definition sort_by {A} (le : A -> A -> bool) (l : list A) : list A :=
  foldr (insert_by le) [] l.

Lemma insert_by_Permutation {A} (le : A -> A -> bool) x l :
  insert_by le x l ≡ₚ x :: l.
Proof.
  induction l as [|y l IH]; simpl; [done|]. case_cond; [done|].
  rewrite IH. apply Permutation_swap.
Qed.

Lemma sort_by_Permutation {A} (le : A -> A -> bool) l : sort_by le l ≡ₚ l.
Proof.
  induction l as [|y l IH]; simpl; [done|].
  rewrite insert_by_Permutation. by rewrite IH.
Qed.

Lemma elem_of_sort_by {A} (le : A -> A -> bool) l x : x ∈ sort_by le l <-> x ∈ l.
Proof. by rewrite sort_by_Permutation. Qed.

Section sorted.
Context {A : Type} (le : A -> A -> bool).
Context (Htot : forall a b, le a b = true \/ le b a = true).
Context (Htr : forall a b c, le a b = true -> le b c = true -> le a c = true).

Lemma insert_by_sorted x l :
  StronglySorted (fun a b => le a b = true) l ->
  StronglySorted (fun a b => le a b = true) (insert_by le x l).
Proof using Htot Htr.
  induction 1 as [|y l Hs IH Hall]; simpl; [repeat constructor|].
  case_cond.
  - constructor; [by constructor|]. constructor; [done|].
    eapply Forall_impl; [exact Hall|]. eauto.
  - constructor; [exact IH|]. rewrite insert_by_Permutation.
    constructor; [|done]. destruct (Htot x y); congruence.
Qed.

Lemma sort_by_sorted l : StronglySorted (fun a b => le a b = true) (sort_by le l).
Proof using Htot Htr.
  induction l; simpl; [constructor|]. by apply insert_by_sorted.
Qed.
End sorted.

(** ** Bulk updates of a table *)

(** [UPDATE t SET .. WHERE p]: rewrite the rows that satisfy [p]. *)
Definition update_where {A} (p : A -> bool) (f : A -> A) (m : gmap uuid A) : gmap uuid A :=
  (fun x => if p x then f x else x) <$> m.

Lemma lookup_update_where {A} (p : A -> bool) (f : A -> A) (m : gmap uuid A) i :
  update_where p f m !! i = (fun x => if p x then f x else x) <$> m !! i.
Proof. unfold update_where. by rewrite lookup_fmap. Qed.

(** The number of rows an [UPDATE] or [DELETE] affects. *)
Definition count_where {A} (p : A -> bool) (m : gmap uuid A) : Z :=
  Z.of_nat (length (select p (rows m))).

(** [DELETE FROM t WHERE p]. *)
Definition delete_where {A} (p : A -> bool) (m : gmap uuid A) : gmap uuid A :=
  filter (fun ix => p ix.2 = false) m.

Lemma lookup_delete_where_Some {A} (p : A -> bool) (m : gmap uuid A) i x :
  delete_where p m !! i = Some x <-> m !! i = Some x /\ p x = false.
Proof. unfold delete_where. by rewrite map_lookup_filter_Some. Qed.

(** Whether some row satisfies [p] (SQL [EXISTS]). *)
Definition exists_row {A} (p : A -> bool) (m : gmap uuid A) : bool := existsb p (rows m).

Lemma exists_row_true {A} (p : A -> bool) (m : gmap uuid A) :
  exists_row p m = true <-> exists i x, m !! i = Some x /\ p x = true.
Proof.
  unfold exists_row. rewrite existsb_exists. split.
  - intros (x & Hin & Hp). apply list_elem_of_In, elem_of_rows in Hin as [i Hi]. eauto.
  - intros (i & x & Hi & Hp). exists x. split; [|done].
    apply list_elem_of_In, elem_of_rows. eauto.
Qed.

Lemma exists_row_false {A} (p : A -> bool) (m : gmap uuid A) i x :
  exists_row p m = false -> m !! i = Some x -> p x = false.
Proof.
  intros H Hi. destruct (p x) eqn:E; [|done].
  assert (exists_row p m = true) as Ht by (apply exists_row_true; eauto). congruence.
Qed.

(** The unique row with a property, SQL lookups by a unique column. *)
Definition find_row {A} (p : A -> bool) (m : gmap uuid A) : option A :=
  List.find p (rows m).

Lemma find_row_Some {A} (p : A -> bool) (m : gmap uuid A) x :
  find_row p m = Some x -> exists i, m !! i = Some x /\ p x = true.
Proof.
  intros [Hin Hp]%find_some. apply list_elem_of_In, elem_of_rows in Hin as [i Hi]. eauto.
Qed.

Lemma find_row_None {A} (p : A -> bool) (m : gmap uuid A) :
  find_row p m = None <-> forall i x, m !! i = Some x -> p x = false.
Proof.
  split.
  - intros H i x Hi. eapply find_none in H; [exact H|].
    apply list_elem_of_In, elem_of_rows. eauto.
  - intros H. unfold find_row. destruct (List.find p (rows m)) eqn:E; [|done].
    apply find_row_Some in E as (i & Hi & Hp). by rewrite (H _ _ Hi) in Hp.
Qed.

Lemma select_Permutation {A} (p : A -> bool) (l l' : list A) :
  l ≡ₚ l' -> select p l ≡ₚ select p l'.
Proof.
  unfold select. induction 1; simpl.
  - done.
  - case_cond; [by constructor|done].
  - repeat case_cond; try done. apply Permutation_swap.
  - by etrans.
Qed.

(** An [UPDATE] whose condition only one row satisfies affects one row. *)
Lemma count_where_unique {A} (p : A -> bool) (m : gmap uuid A) i x :
  m !! i = Some x -> p x = true ->
  (forall j y, m !! j = Some y -> p y = true -> j = i) -> count_where p m = 1.
Proof.
  intros Hx Hp Honly. unfold count_where, rows.
  rewrite <- (insert_delete_id m i x Hx).
  rewrite (select_Permutation p _ (x :: (map_to_list (delete i m)).*2)).
  2: { rewrite map_to_list_insert by apply lookup_delete_eq. done. }
  simpl. rewrite Hp. simpl. fold (rows (delete i m)).
  rewrite (proj2 (select_nil p (rows (delete i m)))); [done|].
  intros y [j Hj]%elem_of_rows. apply lookup_delete_Some in Hj as [Hne Hj].
  destruct (p y) eqn:E; [|done]. destruct Hne. symmetry. eauto.
Qed.

(** Updating the only row that satisfies the condition. *)
Lemma update_where_unique {A} (p : A -> bool) (f : A -> A) (m : gmap uuid A) i x :
  m !! i = Some x -> p x = true ->
  (forall j y, m !! j = Some y -> p y = true -> j = i) -> update_where p f m = <[i := f x]> m.
Proof.
  intros Hx Hp Honly. apply map_eq. intros j. rewrite lookup_update_where, lookup_insert.
  case_decide as Hj; [subst; by rewrite Hx; simpl; rewrite Hp|].
  destruct (m !! j) as [y|] eqn:Ey; [|done]. simpl. f_equal.
  destruct (p y) eqn:E; [|done]. destruct Hj. symmetry. eauto.
Qed.

(** ** Counting rows *)

Lemma count_where_insert {A} (p : A -> bool) (m : gmap uuid A) i x :
  m !! i = None -> count_where p (<[i := x]> m) = (if p x then 1 else 0) + count_where p m.
Proof.
  intros Hi. unfold count_where, rows.
  rewrite (select_Permutation p _ (x :: (map_to_list m).*2)) by (by rewrite map_to_list_insert).
  simpl. destruct (p x); simpl length; lia.
Qed.

Lemma count_where_ext {A} (p q : A -> bool) (m : gmap uuid A) :
  (forall i x, m !! i = Some x -> p x = q x) -> count_where p m = count_where q m.
Proof.
  induction m as [|i x m Hi IH] using map_ind; intros Hpq; [done|].
  rewrite !count_where_insert by done. rewrite (Hpq i x) by (by rewrite lookup_insert_eq).
  rewrite IH; [done|]. intros j y Hj. apply (Hpq j). rewrite lookup_insert_ne; [done|congruence].
Qed.

Lemma count_where_zero {A} (p : A -> bool) (m : gmap uuid A) :
  count_where p m = 0 <-> forall i x, m !! i = Some x -> p x = false.
Proof.
  unfold count_where. rewrite <- Nat2Z.inj_0, Nat2Z.inj_iff, length_zero_iff_nil, select_nil. split.
  - intros H i x Hi. apply H, elem_of_rows. eauto.
  - intros H x [i Hi]%elem_of_rows. eauto.
Qed.

Lemma delete_where_insert {A} (p : A -> bool) (m : gmap uuid A) i x :
  m !! i = None ->
  delete_where p (<[i := x]> m) = if p x then delete_where p m else <[i := x]> (delete_where p m).
Proof.
  intros Hi. unfold delete_where. destruct (p x) eqn:Hp.
  - rewrite map_filter_insert_False by (simpl; congruence). by rewrite delete_id.
  - by rewrite map_filter_insert_True.
Qed.

(** Deleting in two steps counts every row once. *)
Lemma count_where_delete {A} (p q : A -> bool) (m : gmap uuid A) :
  count_where p m + count_where q (delete_where p m) = count_where (fun x => p x || q x) m.
Proof.
  induction m as [|i x m Hi IH] using map_ind; [done|].
  assert (delete_where p m !! i = None).
  { apply eq_None_not_Some. intros [y [Hy _]%lookup_delete_where_Some]. congruence. }
  rewrite delete_where_insert, !count_where_insert by done.
  destruct (p x); simpl; rewrite ?count_where_insert by done; lia.
Qed.

Lemma delete_where_delete {A} (p q r : A -> bool) (m : gmap uuid A) :
  (forall i x, m !! i = Some x -> r x = p x || q x) ->
  delete_where q (delete_where p m) = delete_where r m.
Proof.
  intros Hr. apply map_eq. intros i. apply option_eq. intros x.
  rewrite !lookup_delete_where_Some. split.
  - intros [[Hi Hp] Hq]. by rewrite (Hr i x Hi), Hp.
  - intros [Hi Hx]. rewrite (Hr i x Hi), orb_false_iff in Hx. tauto.
Qed.

Lemma delete_where_none {A} (p : A -> bool) (m : gmap uuid A) :
  (forall i x, m !! i = Some x -> p x = false) -> delete_where p m = m.
Proof.
  intros Hp. apply map_eq. intros i. apply option_eq. intros x.
  rewrite lookup_delete_where_Some. naive_solver.
Qed.
