(* ===== verification/GoStrings.v ===== *)
(** Package strings (and the pieces of strconv and bytes the program uses) on
    Go strings.  A Go string is a sequence of bytes, which is what [string] is
    here.  Case mapping and white space are those of the ASCII range: the other
    bytes are left as they are. *)
From S2P Require Import Prelude.

#[global] Arguments String.append : simpl nomatch.

(** ** Lemmas on appending and length *)

Lemma str_app_nil_r s : s ++s "" = s.
Proof. induction s as [|c s IH]; simpl; congruence. Qed.

Lemma str_app_assoc a b c : (a ++s b) ++s c = a ++s (b ++s c).
Proof. induction a as [|x a IH]; simpl; congruence. Qed.

Lemma str_length_app a b : String.length (a ++s b) = (String.length a + String.length b)%nat.
Proof. induction a as [|x a IH]; simpl; congruence. Qed.

Lemma str_app_inj_l a b c : a ++s b = a ++s c -> b = c.
Proof. induction a as [|x a IH]; simpl; [done|]. intros [= H]. auto. Qed.

(** ** Bytes *)

(** Does the byte occur in the string. *)
Fixpoint has_byte (c : ascii) (s : string) : bool :=
  match s with
  | EmptyString => false
  | String d s' => Ascii.eqb c d || has_byte c s'
  end.

Lemma has_byte_app c a b : has_byte c (a ++s b) = has_byte c a || has_byte c b.
Proof. induction a as [|x a IH]; simpl; [done|]. by rewrite IH, orb_assoc. Qed.

(** Two strings cut at the first occurrence of a byte are equal piecewise. *)
Lemma cut_inj c a1 b1 a2 b2 :
  has_byte c a1 = false -> has_byte c a2 = false ->
  a1 ++s String c b1 = a2 ++s String c b2 -> a1 = a2 /\ b1 = b2.
Proof.
  revert a2. induction a1 as [|x a1 IH]; intros [|y a2]; simpl; intros H1 H2.
  - by intros [= ->].
  - intros [= <- _]. by rewrite Ascii.eqb_refl in H2.
  - intros [= -> _]. by rewrite Ascii.eqb_refl in H1.
  - intros [= <- Heq]. apply orb_false_iff in H1 as [_ H1], H2 as [_ H2].
    destruct (IH a2 H1 H2 Heq) as [-> ->]. done.
Qed.

(** [strings.IndexByte]: [None] is -1. *)
Fixpoint index_byte (c : ascii) (s : string) : option nat :=
  match s with
  | EmptyString => None
  | String d s' => if Ascii.eqb c d then Some O else S <$> index_byte c s'
  end.

Fixpoint str_take (n : nat) (s : string) : string :=
  match n, s with
  | S n', String c s' => String c (str_take n' s')
  | _, _ => EmptyString
  end.

Fixpoint str_drop (n : nat) (s : string) : string :=
  match n, s with
  | S n', String _ s' => str_drop n' s'
  | _, _ => s
  end.

Lemma str_take_drop n s : str_take n s ++s str_drop n s = s.
Proof. revert s. induction n; intros [|c s]; simpl; f_equal; auto. Qed.

Lemma str_take_app a b : str_take (String.length a) (a ++s b) = a.
Proof. induction a as [|x a IH]; simpl; [by destruct b|]. by rewrite IH. Qed.

Lemma str_drop_app a b : str_drop (String.length a) (a ++s b) = b.
Proof. induction a as [|x a IH]; simpl; auto. Qed.

Lemma str_take_length n s : (String.length (str_take n s) <= n)%nat.
Proof. revert s. induction n; intros [|c s]; simpl; try lia. specialize (IHn s). lia. Qed.

Lemma index_byte_app c a b :
  has_byte c a = false -> index_byte c (a ++s String c b) = Some (String.length a).
Proof.
  induction a as [|x a IH]; simpl; intros H.
  - by rewrite Ascii.eqb_refl.
  - apply orb_false_iff in H as [-> H]. by rewrite IH.
Qed.

Lemma index_byte_Some c s n :
  index_byte c s = Some n ->
  has_byte c (str_take n s) = false /\ s = str_take n s ++s String c (str_drop (S n) s).
Proof.
  revert n. induction s as [|d s IH]; intros n; [done|]. simpl.
  destruct (Ascii.eqb_spec c d) as [->|Hne].
  - intros [= <-]. done.
  - intros Hf. apply fmap_Some in Hf as (m & Hm & ->). simpl.
    destruct (IH _ Hm) as [H1 H2]. split.
    + rewrite H1, orb_false_r. by apply Ascii.eqb_neq.
    + by f_equal.
Qed.

(** ** Prefixes and suffixes *)

(** [strings.HasPrefix s p]. *)
Fixpoint has_prefix (p s : string) : bool :=
  match p, s with
  | EmptyString, _ => true
  | String a p', String b s' => Ascii.eqb a b && has_prefix p' s'
  | _, _ => false
  end.

Lemma has_prefix_true p s : has_prefix p s = true <-> exists r, s = p ++s r.
Proof.
  revert s. induction p as [|a p IH]; intros s; simpl; [naive_solver|].
  destruct s as [|b s]; [naive_solver|].
  rewrite andb_true_iff, IH, Ascii.eqb_eq. naive_solver.
Qed.

Lemma has_prefix_app p s : has_prefix p (p ++s s) = true.
Proof. apply has_prefix_true. eauto. Qed.

(** [strings.TrimPrefix]. *)
Definition trim_prefix (p s : string) : string :=
  if has_prefix p s then str_drop (String.length p) s else s.

(** [strings.HasSuffix s x]. *)
Definition has_suffix (x s : string) : bool :=
  (String.length x <=? String.length s)%nat
  && (str_drop (String.length s - String.length x) s =s x).

Lemma has_suffix_true x s : has_suffix x s = true <-> exists r, s = r ++s x.
Proof.
  unfold has_suffix. rewrite andb_true_iff, bool_decide_eq_true, Nat.leb_le. split.
  - intros [Hl Hd]. exists (str_take (String.length s - String.length x) s).
    rewrite <- Hd at 2. by rewrite str_take_drop.
  - intros [r ->]. rewrite str_length_app. split; [lia|].
    replace (String.length r + String.length x - String.length x)%nat
      with (String.length r) by lia. apply str_drop_app.
Qed.

(** [strings.TrimSuffix]. *)
Definition trim_suffix (x s : string) : string :=
  if has_suffix x s then str_take (String.length s - String.length x) s else s.

Lemma trim_suffix_app r x : trim_suffix x (r ++s x) = r.
Proof.
  unfold trim_suffix. rewrite (proj2 (has_suffix_true x _)) by eauto.
  rewrite str_length_app, Nat.add_sub. apply str_take_app.
Qed.

(** ** Searching *)

(** [strings.Index] and [bytes.Index]: the first position where the pattern
    occurs. *)
Fixpoint index_str (p s : string) : option nat :=
  if has_prefix p s then Some O
  else match s with
       | EmptyString => None
       | String _ s' => S <$> index_str p s'
       end.

Definition contains (s p : string) : bool :=
  match index_str p s with Some _ => true | None => false end.

Lemma index_str_Some p s n :
  index_str p s = Some n ->
  (n <= String.length s)%nat /\
  has_prefix p (str_drop n s) = true /\
  forall m, (m < n)%nat -> has_prefix p (str_drop m s) = false.
Proof.
  revert n. induction s as [|c s IH]; intros n; cbn [index_str].
  - destruct (has_prefix p "") eqn:E; [|done]. intros [= <-].
    split; [done|]. split; [done|]. lia.
  - destruct (has_prefix p (String c s)) eqn:E.
    + intros [= <-]. split; [simpl; lia|]. split; [done|]. lia.
    + intros Hf'. apply fmap_Some in Hf' as (k & Hk & ->). destruct (IH _ Hk) as (Hl & Hp & Hf).
      split; [simpl; lia|]. split; [done|].
      intros [|m] Hm; [done|]. simpl. apply Hf. lia.
Qed.

Lemma index_str_None p s n : index_str p s = None -> has_prefix p (str_drop n s) = false.
Proof.
  revert n. induction s as [|c s IH]; intros n; cbn [index_str].
  - destruct (has_prefix p "") eqn:E; [done|]. by destruct n.
  - destruct (has_prefix p (String c s)) eqn:E; [done|].
    intros H%fmap_None. destruct n as [|n]; [done|]. simpl. auto.
Qed.

Lemma contains_true s p : contains s p = true <-> exists a b, s = a ++s p ++s b.
Proof.
  unfold contains. split.
  - destruct (index_str p s) as [n|] eqn:E; [|done]. intros _.
    apply index_str_Some in E as (_ & Hp & _).
    apply has_prefix_true in Hp as [r Hr].
    exists (str_take n s), r. by rewrite <- Hr, str_take_drop.
  - intros (a & b & ->). destruct (index_str _ _) eqn:E; [done|].
    apply (index_str_None _ _ (String.length a)) in E.
    by rewrite str_drop_app, has_prefix_app in E.
Qed.

(** ** Splitting and joining *)

(** [strings.Split] on a single-byte separator. *)
Fixpoint split_byte (c : ascii) (s : string) : list string :=
  match s with
  | EmptyString => [""]
  | String d s' =>
      if Ascii.eqb c d then "" :: split_byte c s'
      else match split_byte c s' with
           | [] => [String d ""]
           | f :: fs => String d f :: fs
           end
  end.

(** [strings.FieldsFunc]: the maximal runs of bytes that are not separators;
    [cur] is the field being read, in order. *)
Fixpoint fields_from (sep : ascii -> bool) (cur : string) (s : string) : list string :=
  match s with
  | EmptyString => if cur =s "" then [] else [cur]
  | String c s' =>
      if sep c then
        if cur =s "" then fields_from sep "" s' else cur :: fields_from sep "" s'
      else fields_from sep (cur ++s String c "") s'
  end.

Definition fields_func (sep : ascii -> bool) (s : string) : list string :=
  fields_from sep "" s.

(** [strings.Join]. *)
Fixpoint join (sep : string) (l : list string) : string :=
  match l with
  | [] => ""
  | [x] => x
  | x :: l' => x ++s sep ++s join sep l'
  end.

(** ** Case, white space, replacement *)

Definition byte_n (c : ascii) : N := N_of_ascii c.

Definition is_upper (c : ascii) : bool := (65 <=? byte_n c)%N && (byte_n c <=? 90)%N.
Definition lower_byte (c : ascii) : ascii :=
  if is_upper c then ascii_of_N (byte_n c + 32) else c.

Fixpoint str_map (f : ascii -> ascii) (s : string) : string :=
  match s with
  | EmptyString => EmptyString
  | String c s' => String (f c) (str_map f s')
  end.

(** [strings.ToLower] and [strings.EqualFold]. *)
Definition to_lower (s : string) : string := str_map lower_byte s.
Definition equal_fold (a b : string) : bool := to_lower a =s to_lower b.

Definition is_space_byte (c : ascii) : bool :=
  let n := byte_n c in (n =? 32)%N || ((9 <=? n)%N && (n <=? 13)%N).

Fixpoint trim_left (p : ascii -> bool) (s : string) : string :=
  match s with
  | String c s' => if p c then trim_left p s' else s
  | EmptyString => EmptyString
  end.

Fixpoint trim_right (p : ascii -> bool) (s : string) : string :=
  match s with
  | EmptyString => EmptyString
  | String c s' =>
      let r := trim_right p s' in
      if (r =s "") && p c then "" else String c r
  end.

(** [strings.TrimSpace] and [strings.Fields]. *)
Definition trim_space (s : string) : string := trim_right is_space_byte (trim_left is_space_byte s).
Definition fields (s : string) : list string := fields_func is_space_byte s.

(** [strings.ReplaceAll] of a single byte. *)
Fixpoint replace_byte (c : ascii) (r s : string) : string :=
  match s with
  | EmptyString => EmptyString
  | String d s' =>
      if Ascii.eqb c d then r ++s replace_byte c r s' else String d (replace_byte c r s')
  end.

(** ** Comparison *)

(** [strings.Compare] as a [comparison]: bytewise lexicographic. *)
Fixpoint str_compare (a b : string) : comparison :=
  match a, b with
  | EmptyString, EmptyString => Eq
  | EmptyString, String _ _ => Lt
  | String _ _, EmptyString => Gt
  | String x a', String y b' =>
      match (byte_n x ?= byte_n y)%N with
      | Eq => str_compare a' b'
      | c => c
      end
  end.

Lemma byte_n_inj x y : byte_n x = byte_n y -> x = y.
Proof.
  unfold byte_n. intros H.
  by rewrite <- (ascii_N_embedding x), <- (ascii_N_embedding y), H.
Qed.

Lemma str_compare_refl a : str_compare a a = Eq.
Proof. induction a as [|x a IH]; simpl; [done|]. by rewrite N.compare_refl. Qed.

Lemma str_compare_eq a b : str_compare a b = Eq -> a = b.
Proof.
  revert b. induction a as [|x a IH]; intros [|y b]; simpl; try done.
  destruct (N.compare_spec (byte_n x) (byte_n y)) as [He|?|?]; try done.
  intros H. f_equal; [by apply byte_n_inj|auto].
Qed.

Lemma str_compare_antisym a b : str_compare b a = CompOpp (str_compare a b).
Proof.
  revert b. induction a as [|x a IH]; intros [|y b]; simpl; try done.
  rewrite (N.compare_antisym (byte_n x)). rewrite IH.
  by destruct (byte_n x ?= byte_n y)%N.
Qed.

Lemma str_compare_lt_trans a b c :
  str_compare a b = Lt -> str_compare b c = Lt -> str_compare a c = Lt.
Proof.
  revert b c. induction a as [|x a IH]; intros [|y b] [|z c]; simpl; try done.
  destruct (N.compare_spec (byte_n x) (byte_n y)) as [E1|H1|H1];
    destruct (N.compare_spec (byte_n y) (byte_n z)) as [E2|H2|H2]; try done;
    intros Ha Hb;
    destruct (N.compare_spec (byte_n x) (byte_n z)) as [E3|H3|H3]; try done; try lia.
  eauto.
Qed.

(** [a > b] on strings. *)
Definition str_gt (a b : string) : bool :=
  match str_compare a b with Gt => true | _ => false end.

(** [fmt.Sprintf "%d"]. *)
Definition itoa (z : Z) : string := pretty z.

(** [s[:n]] on a string at least that long; the program guards each use with
    the length. *)
Definition truncate_str (n : nat) (s : string) : string :=
  if (n <? String.length s)%nat then str_take n s else s.

Lemma truncate_str_length n s : (String.length (truncate_str n s) <= n)%nat.
Proof.
  unfold truncate_str. destruct (Nat.ltb_spec n (String.length s)); [|done].
  apply str_take_length.
Qed.

#[export] Hint Rewrite has_prefix_app str_app_assoc str_app_nil_r str_length_app
  str_take_app str_drop_app : sidey_bool.

(** ** Text columns *)

Definition utf8_tail (c : ascii) : bool := (128 <=? N_of_ascii c)%N && (N_of_ascii c <? 192)%N.

(** Well-formed UTF-8 (RFC 3629): no stray or missing continuation bytes, no
    overlong forms, no surrogates. *)
Fixpoint utf8_valid (s : string) : bool :=
  match s with
  | EmptyString => true
  | String a s1 =>
      let n := N_of_ascii a in
      if (n <? 128)%N then utf8_valid s1 else
      match s1 with
      | EmptyString => false
      | String b s2 =>
          let m := N_of_ascii b in
          if (194 <=? n)%N && (n <? 224)%N then utf8_tail b && utf8_valid s2 else
          match s2 with
          | EmptyString => false
          | String c s3 =>
              if (224 <=? n)%N && (n <? 240)%N then
                utf8_tail b && utf8_tail c && ((225 <=? n)%N || (160 <=? m)%N)
                && (negb (n =? 237)%N || (m <? 160)%N) && utf8_valid s3
              else
              match s3 with
              | EmptyString => false
              | String d s4 =>
                  (240 <=? n)%N && (n <? 245)%N && utf8_tail b && utf8_tail c && utf8_tail d
                  && ((241 <=? n)%N || (144 <=? m)%N) && (negb (n =? 244)%N || (m <? 144)%N)
                  && utf8_valid s4
              end
          end
      end
  end.

(** What PostgreSQL accepts in a [text] value: UTF-8 without a zero byte. *)
Definition pg_text (s : string) : bool := utf8_valid s && negb (has_byte Ascii.zero s).

Definition is_ascii (c : ascii) : bool := (N_of_ascii c <? 128)%N.

Lemma utf8_valid_ascii s : forallb is_ascii (String.list_ascii_of_string s) = true -> utf8_valid s = true.
Proof.
  induction s as [|a s IH]; simpl; [done|]. unfold is_ascii at 1.
  rewrite andb_true_iff. intros [-> ?]. auto.
Qed.

#[global] Arguments has_prefix : simpl never.
#[global] Arguments pg_text : simpl never.

(** ** Lines and trimming *)

Lemma split_byte_app c a b :
  has_byte c a = false -> split_byte c (a ++s String c b) = a :: split_byte c b.
Proof.
  induction a as [|d a IH]; simpl; [by rewrite Ascii.eqb_refl|].
  destruct (Ascii.eqb c d); [done|]. intros Ha. by rewrite IH.
Qed.

Lemma trim_prefix_app p s : trim_prefix p (p ++s s) = s.
Proof. unfold trim_prefix. by rewrite has_prefix_app, str_drop_app. Qed.

Lemma trim_right_app p a s : trim_right p s <> "" -> trim_right p (a ++s s) = a ++s trim_right p s.
Proof.
  intros Hs. induction a as [|c a IH]; simpl; [done|]. rewrite IH.
  rewrite bool_decide_eq_false_2; [done|]. by destruct a.
Qed.

Lemma trim_right_idem p s : trim_right p (trim_right p s) = trim_right p s.
Proof.
  induction s as [|c s IH]; simpl; [done|]. destruct ((trim_right p s =s "") && p c) eqn:E; [done|].
  simpl. by rewrite IH, E.
Qed.

Lemma trim_right_space s : trim_right is_space_byte (trim_space s) = trim_space s.
Proof. apply trim_right_idem. Qed.
