(* ===== verification/Effects.v ===== *)
(** Effectful Go code as syntax trees of statements.

    A handler or service method is a [prog]: a tree whose nodes are SQL
    statements and file-system calls ([Stmt], which may fail) and infallible
    actions ([Act], such as reading the clock).  Every [if err != nil] of the
    code is a branch of a continuation.  [run] executes a tree against a list of
    faults, one per fallible node, so a theorem about all fault lists covers
    every way the database or the disk can fail.  [txn] is the pattern
    [Begin / defer Rollback / Commit].  [wp] is the weakest precondition, with a
    rule per construct; [istep] is the statement-level interleaving of a tree
    with the steps of other actors. *)
From S2P Require Import Prelude.

(** What a failed statement reports: a driver or I/O failure (also what every
    statement of an aborted transaction reports) or a rejected row. *)
Inductive sqlerr := Fault | FkViolation | UniqueViolation | CheckViolation | SyntaxError.

(** Which connection a node uses: the pool, the open transaction, the disk. *)
Inductive conn := Pool | Tx | Fs.

#[global] Instance sqlerr_eq_dec : EqDecision sqlerr.
Proof. solve_decision. Defined.

Inductive prog (S E A : Type) : Type :=
| Ret (a : A)
| Throw (e : E)
| Act {X : Type} (f : S -> X * S) (k : X -> prog S E A)
| Stmt {X : Type} (c : conn) (f : S -> sqlerr + X * S) (k : sqlerr + X -> prog S E A).

Arguments Ret {S E A} a.
Arguments Throw {S E A} e.
Arguments Act {S E A X} f k.
Arguments Stmt {S E A X} c f k.

Fixpoint prog_bind {S E A B} (p : prog S E A) (f : A -> prog S E B) : prog S E B :=
  match p with
  | Ret a => f a
  | Throw e => Throw e
  | Act g k => Act g (fun x => prog_bind (k x) f)
  | Stmt c g k => Stmt c g (fun x => prog_bind (k x) f)
  end.

#[global] Instance prog_mret S E : MRet (prog S E) := fun _ a => Ret a.
#[global] Instance prog_mbind S E : MBind (prog S E) := fun _ _ f p => prog_bind p f.

(** ** Statements *)

Section statements.
Context {S E : Type}.

(** A statement whose error the code inspects or ignores. *)
Definition try_ {X} (c : conn) (f : S -> sqlerr + X * S) : prog S E (sqlerr + X) :=
  Stmt c f Ret.

(** A statement whose error ends the function: [if err != nil { return .. }]. *)
Definition must {X} (c : conn) (f : S -> sqlerr + X * S) (e : sqlerr -> E) : prog S E X :=
  Stmt c f (fun o => match o with inl er => Throw (e er) | inr x => Ret x end).

(** A read statement and a write statement that no constraint can reject. *)
Definition reads {X} (g : S -> X) : S -> sqlerr + X * S := fun s => inr (g s, s).
Definition writes (g : S -> S) : S -> sqlerr + unit * S := fun s => inr (tt, g s).

(** Infallible reads and writes of the state (clock, best-effort calls). *)
Definition get_ {X} (g : S -> X) : prog S E X := Act (fun s => (g s, s)) Ret.
Definition put_ (g : S -> S) : prog S E unit := Act (fun s => (tt, g s)) Ret.

Definition when (b : bool) (p : prog S E unit) : prog S E unit := if b then p else Ret tt.

(** [for _, x := range l { .. }]. *)
Fixpoint for_ {X} (l : list X) (body : X -> prog S E unit) : prog S E unit :=
  match l with
  | [] => Ret tt
  | x :: l' => body x ≫= fun _ => for_ l' body
  end.

(** A loop that threads an accumulator. *)
Fixpoint fold_ {X B} (body : B -> X -> prog S E B) (b : B) (l : list X) : prog S E B :=
  match l with
  | [] => Ret b
  | x :: l' => body b x ≫= fun b' => fold_ body b' l'
  end.
End statements.

(** Run a sub-program and hand its error to the caller as a value. *)
Fixpoint attempt {S E E' A} (p : prog S E A) : prog S E' (E + A) :=
  match p with
  | Ret a => Ret (inr a)
  | Throw e => Ret (inl e)
  | Act f k => Act f (fun x => attempt (k x))
  | Stmt c f k => Stmt c f (fun x => attempt (k x))
  end.

(** ** Execution *)

(** [run fl p s]: each fallible node consumes one element of [fl]; [true] makes
    it fail.  Past the end of the list nothing fails. *)
Fixpoint run {S E A} (fl : list bool) (p : prog S E A) (s : S) : (E + A) * S :=
  match p with
  | Ret a => (inr a, s)
  | Throw e => (inl e, s)
  | Act f k => let '(x, s') := f s in run fl (k x) s'
  | Stmt _ f k =>
      match fl with
      | true :: fl' => run fl' (k (inl Fault)) s
      | _ =>
          match f s with
          | inl er => run (tail fl) (k (inl er)) s
          | inr (x, s') => run (tail fl) (k (inr x)) s'
          end
      end
  end.

(** Runs without faults compose. *)
Lemma run_bind {S E A B} (p : prog S E A) (f : A -> prog S E B) s :
  run [] (p ≫= f) s =
    match run [] p s with (inl e, s') => (inl e, s') | (inr a, s') => run [] (f a) s' end.
Proof.
  revert s. induction p as [a|e|X g k IH|X c g k IH]; intros s; simpl; try done.
  - destruct (g s). apply IH.
  - destruct (g s) as [|[]]; apply IH.
Qed.

(** The run in which nothing fails. *)
Definition exec {S E A} (p : prog S E A) (s : S) : (E + A) * S := run [] p s.

(** ** Runs without failures *)

(** [ewp p Q s]: the run of [p] from [s] in which no fault is injected ends in
    [Q]. *)
Definition ewp {S E A} (p : prog S E A) (Q : E + A -> S -> Prop) (s : S) : Prop :=
  Q (exec p s).1 (exec p s).2.

Lemma ewp_bind {S E A B} (p : prog S E A) (f : A -> prog S E B) Q s :
  ewp p (fun r s' => match r with inl e => Q (inl e) s' | inr a => ewp (f a) Q s' end) s ->
  ewp (p ≫= f) Q s.
Proof.
  unfold ewp, exec. rewrite run_bind. by destruct (run [] p s) as [[e|a] s'].
Qed.

Lemma ewp_exec {S E A} (p : prog S E A) (Q : E + A -> S -> Prop) s r s' :
  exec p s = (r, s') -> Q r s' -> ewp p Q s.
Proof. intros He HQ. unfold ewp. by rewrite He. Qed.

Lemma ewp_mono {S E A} (p : prog S E A) (Q Q' : E + A -> S -> Prop) s :
  (forall r s', Q r s' -> Q' r s') -> ewp p Q s -> ewp p Q' s.
Proof. unfold ewp. auto. Qed.

Lemma ewp_attempt {S E E' A} (p : prog S E A) (Q : E' + (E + A) -> S -> Prop) s :
  ewp p (fun r s' => Q (inr r) s') s -> ewp (attempt p) Q s.
Proof.
  unfold ewp, exec. revert s. induction p as [a|e|X g k IH|X c g k IH]; intros s; simpl; auto.
  - destruct (g s). apply IH.
  - destruct (g s) as [|[]]; apply IH.
Qed.

Lemma ewp_for {S E X} (body : X -> prog S E unit) (J : list X -> S -> Prop)
    (Q : E + unit -> S -> Prop) l s :
  J l s -> (forall s', J [] s' -> Q (inr tt) s') ->
  (forall x l' s', J (x :: l') s' ->
     ewp (body x) (fun r s'' => match r with inl e => Q (inl e) s'' | inr _ => J l' s'' end) s') ->
  ewp (for_ l body) Q s.
Proof.
  intros HJ HQ Hb. revert s HJ. induction l as [|x l IH]; intros s HJ; simpl; [by apply HQ|].
  apply ewp_bind. eapply ewp_mono; [|apply Hb, HJ]. intros [e|[]] s' H; [done|]. by apply IH.
Qed.

Lemma ewp_fold {S E X B} (body : B -> X -> prog S E B) (J : list X -> B -> S -> Prop)
    (Q : E + B -> S -> Prop) l b s :
  J l b s -> (forall b' s', J [] b' s' -> Q (inr b') s') ->
  (forall x l' b' s', J (x :: l') b' s' ->
     ewp (body b' x) (fun r s'' => match r with inl e => Q (inl e) s'' | inr b'' => J l' b'' s'' end) s') ->
  ewp (fold_ body b l) Q s.
Proof.
  intros HJ HQ Hb. revert b s HJ. induction l as [|x l IH]; intros b s HJ; simpl; [by apply HQ|].
  apply ewp_bind. eapply ewp_mono; [|apply Hb, HJ].
  intros [e|b'] s' H; [done|]. by apply IH.
Qed.

(** ** Transactions *)

(** The body of a transaction, [rb] undoing its statements on the way out.
    After a failed statement the transaction is aborted: later statements fail
    without effect and the commit is refused. *)
Fixpoint guard {S E A} (rb : S -> S) (aborted : bool) (commit_err : A -> E)
    (p : prog S E A) : prog S E A :=
  match p with
  | Ret a =>
      if aborted then Act (fun s => (tt, rb s)) (fun _ => Throw (commit_err a))
      else Stmt Tx (fun s => inr (tt, s)) (fun o =>
             match o with
             | inl _ => Act (fun s => (tt, rb s)) (fun _ => Throw (commit_err a))
             | inr _ => Ret a
             end)
  | Throw e => Act (fun s => (tt, rb s)) (fun _ => Throw e)
  | Act f k => Act f (fun x => guard rb aborted commit_err (k x))
  | Stmt c f k =>
      match c with
      | Tx =>
          if aborted then guard rb true commit_err (k (inl Fault))
          else Stmt Tx f (fun o =>
                 guard rb (match o with inl _ => true | inr _ => false end) commit_err (k o))
      | _ => Stmt c f (fun o => guard rb aborted commit_err (k o))
      end
  end.

(** [Begin; defer Rollback; body; Commit]: [Ret] commits, [Throw] rolls back.
    [rb s0 s] is the state after a rollback to the snapshot [s0]. *)
Definition txn_with {S E A} (rb : S -> S -> S) (begin_err : E) (commit_err : A -> E)
    (p : prog S E A) : prog S E A :=
  Stmt Tx (fun s => inr (s, s)) (fun o =>
    match o with
    | inl _ => Throw begin_err
    | inr s0 => guard (rb s0) false commit_err p
    end).

Definition txn {S E A} (rb : S -> S -> S) (begin_err commit_err : E)
    (p : prog S E A) : prog S E A := txn_with rb begin_err (fun _ => commit_err) p.

(** ** Weakest preconditions *)

Fixpoint wp {S E A} (p : prog S E A) (Q : E + A -> S -> Prop) (s : S) : Prop :=
  match p with
  | Ret a => Q (inr a) s
  | Throw e => Q (inl e) s
  | Act f k => let '(x, s') := f s in wp (k x) Q s'
  | Stmt _ f k =>
      wp (k (inl Fault)) Q s /\
      match f s with
      | inl er => wp (k (inl er)) Q s
      | inr (x, s') => wp (k (inr x)) Q s'
      end
  end.

Lemma wp_run {S E A} (p : prog S E A) Q s :
  wp p Q s -> forall fl, Q (run fl p s).1 (run fl p s).2.
Proof.
  revert s. induction p as [a|e|X f k IH|X c f k IH]; intros s; simpl; try done.
  - destruct (f s) as [x s']. intros H fl. by apply IH.
  - intros [Hf Hs] fl. destruct fl as [|[] fl]; [..|destruct (f s) as [er|[x s']]];
      try (by apply IH); destruct (f s) as [er|[x s']]; by apply IH.
Qed.

Lemma wp_run_eq {S E A} (p : prog S E A) Q s fl r s' :
  wp p Q s -> run fl p s = (r, s') -> Q r s'.
Proof. intros H Hr. pose proof (wp_run p Q s H fl) as HQ. by rewrite Hr in HQ. Qed.

(** What holds of every run holds of the run without faults. *)
Lemma wp_ewp {S E A} (p : prog S E A) Q s : wp p Q s -> ewp p Q s.
Proof. intros H. apply (wp_run p Q s H []). Qed.

(** The same for the results and for the errors only. *)
Lemma wp_run_ok {S E A} (p : prog S E A) (Q : A -> S -> Prop) s fl a s' :
  wp p (fun r s' => match r with inl _ => True | inr a => Q a s' end) s ->
  run fl p s = (inr a, s') -> Q a s'.
Proof. intros H Hr. by apply (wp_run_eq _ _ _ _ _ _ H) in Hr. Qed.

Lemma wp_run_err {S E A} (p : prog S E A) (Q : E -> S -> Prop) s fl e s' :
  wp p (fun r s' => match r with inl e => Q e s' | inr _ => True end) s ->
  run fl p s = (inl e, s') -> Q e s'.
Proof. intros H Hr. by apply (wp_run_eq _ _ _ _ _ _ H) in Hr. Qed.

(** [by_wp H] proves a statement about the outcome of the run [H] by the
    program's weakest precondition. *)
Ltac by_wp H :=
  match type of H with
  | run _ _ _ = (inr ?a, ?s') => pattern a, s'; eapply wp_run_ok; [|exact H]; clear H; try clear a s'
  | run _ _ _ = (inl ?e, ?s') => pattern e, s'; eapply wp_run_err; [|exact H]; clear H; try clear e s'
  | run _ _ _ = (?r, ?s') => pattern r, s'; eapply wp_run_eq; [|exact H]; clear H; try clear r s'
  end.

Lemma wp_mono {S E A} (p : prog S E A) (Q Q' : E + A -> S -> Prop) s :
  (forall r s', Q r s' -> Q' r s') -> wp p Q s -> wp p Q' s.
Proof.
  intros HQ. revert s. induction p as [a|e|X f k IH|X c f k IH]; intros s; simpl; auto.
  - destruct (f s). apply IH.
  - intros [? Hs]. split; [by apply IH|].
    destruct (f s) as [|[]]; by apply IH.
Qed.

Lemma wp_always {S E A} (p : prog S E A) (Q : E + A -> S -> Prop) s :
  (forall r s', Q r s') -> wp p Q s.
Proof.
  intros HQ. revert s. induction p as [a|e|X f k IH|X c f k IH]; intros s; simpl; auto.
  - destruct (f s). apply IH.
  - split; [apply IH|]. destruct (f s) as [|[]]; apply IH.
Qed.

Lemma wp_bind {S E A B} (p : prog S E A) (f : A -> prog S E B) Q s :
  wp p (fun r s' => match r with inl e => Q (inl e) s' | inr a => wp (f a) Q s' end) s ->
  wp (p ≫= f) Q s.
Proof.
  revert s. induction p as [a|e|X g k IH|X c g k IH]; intros s; simpl; auto.
  - destruct (g s). apply IH.
  - intros [? Hs]. split; [by apply IH|]. destruct (g s) as [|[]]; by apply IH.
Qed.

Lemma wp_attempt {S E E' A} (p : prog S E A) (Q : E' + (E + A) -> S -> Prop) s :
  wp p (fun r s' => Q (inr r) s') s -> wp (attempt p) Q s.
Proof.
  revert s. induction p as [a|e|X g k IH|X c g k IH]; intros s; simpl; auto.
  - destruct (g s). apply IH.
  - intros [? Hs]. split; [by apply IH|]. destruct (g s) as [|[]]; by apply IH.
Qed.

(** The statement forms of a handler, followed by the rest of it. *)
Lemma wp_must_bind {S E A X} c (f : S -> sqlerr + X * S) e (k : X -> prog S E A) Q s :
  Q (inl (e Fault)) s ->
  match f s with inl er => Q (inl (e er)) s | inr (x, s') => wp (k x) Q s' end ->
  wp (must c f e ≫= k) Q s.
Proof. intros Hf Hs. split; [done|]. by destruct (f s) as [|[]]. Qed.

Lemma wp_reads_bind {S E A X} c (g : S -> X) e (k : X -> prog S E A) Q s :
  Q (inl (e Fault)) s -> wp (k (g s)) Q s -> wp (must c (reads g) e ≫= k) Q s.
Proof. intros. by apply wp_must_bind. Qed.

Lemma wp_get_bind {S E A X} (g : S -> X) (k : X -> prog S E A) Q s :
  wp (k (g s)) Q s -> wp (get_ g ≫= k) Q s.
Proof. done. Qed.

Lemma wp_act_bind {S E A X} (f : S -> X * S) (k : X -> prog S E A) Q s :
  wp (k (f s).1) Q (f s).2 -> wp (Act f Ret ≫= k) Q s.
Proof. simpl. by destruct (f s). Qed.

Lemma wp_try_bind {S E A X} c (f : S -> sqlerr + X * S) (k : sqlerr + X -> prog S E A) Q s :
  wp (k (inl Fault)) Q s ->
  match f s with inl er => wp (k (inl er)) Q s | inr (x, s') => wp (k (inr x)) Q s' end ->
  wp (try_ c f ≫= k) Q s.
Proof. intros Hf Hs. split; [done|]. by destruct (f s) as [|[]]. Qed.

(** A loop preserves what each iteration preserves, on every exit. *)
Lemma wp_for {S E X} (l : list X) (body : X -> prog S E unit) (I : S -> Prop)
    (Q : E + unit -> S -> Prop) s :
  I s -> (forall s', I s' -> Q (inr tt) s') ->
  (forall x s', x ∈ l -> I s' ->
     wp (body x) (fun r s'' => match r with inl e => Q (inl e) s'' | inr _ => I s'' end) s') ->
  wp (for_ l body) Q s.
Proof.
  intros HI HQ Hb. revert s HI. induction l as [|x l IH]; intros s HI; simpl; [by apply HQ|].
  apply wp_bind. eapply wp_mono; [|apply (Hb x s); [set_solver|done]].
  intros [e|[]] s' H; [done|]. apply IH; [|done]. intros. apply Hb; [set_solver|done].
Qed.

(** The same with an invariant that also speaks of the elements still to come. *)
Lemma wp_for_list {S E X} (body : X -> prog S E unit) (J : list X -> S -> Prop)
    (Q : E + unit -> S -> Prop) l s :
  J l s -> (forall s', J [] s' -> Q (inr tt) s') ->
  (forall x l' s', J (x :: l') s' ->
     wp (body x) (fun r s'' => match r with inl e => Q (inl e) s'' | inr _ => J l' s'' end) s') ->
  wp (for_ l body) Q s.
Proof.
  intros HJ HQ Hb. revert s HJ. induction l as [|x l IH]; intros s HJ; simpl; [by apply HQ|].
  apply wp_bind. eapply wp_mono; [|apply Hb, HJ]. intros [e|[]] s' H; [done|]. by apply IH.
Qed.

(** A fold preserves an invariant that relates the rest of the list, the
    accumulator and the state. *)
Lemma wp_fold {S E X B} (body : B -> X -> prog S E B) (J : list X -> B -> S -> Prop)
    (Q : E + B -> S -> Prop) l b s :
  J l b s -> (forall b' s', J [] b' s' -> Q (inr b') s') ->
  (forall x l' b' s', J (x :: l') b' s' ->
     wp (body b' x) (fun r s'' => match r with inl e => Q (inl e) s'' | inr b'' => J l' b'' s'' end) s') ->
  wp (fold_ body b l) Q s.
Proof.
  intros HJ HQ Hb. revert b s HJ. induction l as [|x l IH]; intros b s HJ; simpl; [by apply HQ|].
  apply wp_bind. eapply wp_mono; [|apply Hb, HJ].
  intros [e|b'] s' H; [done|]. by apply IH.
Qed.

Lemma wp_guard {S E A} (rb : S -> S) (ab : bool) (ce : A -> E) (p : prog S E A) Q s :
  wp p (fun r s' => match r with
                    | inl e => Q (inl e) (rb s')
                    | inr a => Q (inr a) s' /\ Q (inl (ce a)) (rb s')
                    end) s ->
  wp (guard rb ab ce p) Q s.
Proof.
  revert s ab. induction p as [a|e|X f k IH|X c f k IH]; intros s ab; simpl.
  - intros [? ?]. by destruct ab.
  - done.
  - destruct (f s) as [x s']. apply IH.
  - intros [Hf Hs]. destruct c; [|destruct ab|]; simpl;
      try (split; [by apply IH|]; destruct (f s) as [|[]]; by apply IH).
    by apply IH.
Qed.

(** The rule for a transaction: an error leaves the rolled back state, a result
    the state of the body. *)
Lemma wp_txn_with {S E A} (rb : S -> S -> S) (be : E) (ce : A -> E) (p : prog S E A) Q s :
  Q (inl be) s ->
  wp p (fun r s' => match r with
                    | inl e => Q (inl e) (rb s s')
                    | inr a => Q (inr a) s' /\ Q (inl (ce a)) (rb s s')
                    end) s ->
  wp (txn_with rb be ce p) Q s.
Proof. intros Hb Hp. split; [done|]. by apply wp_guard. Qed.

Lemma wp_txn {S E A} (rb : S -> S -> S) (be ce : E) (p : prog S E A) Q s :
  Q (inl be) s ->
  wp p (fun r s' => match r with
                    | inl e => Q (inl e) (rb s s')
                    | inr a => Q (inr a) s' /\ Q (inl ce) (rb s s')
                    end) s ->
  wp (txn rb be ce p) Q s.
Proof. apply wp_txn_with. Qed.

(** Whatever its body does, a transaction that returns an error leaves either
    the initial state or a rolled back one. *)
Lemma txn_error_restores {S E A} (rb : S -> S -> S) (be ce : E) (p : prog S E A) fl s e s' :
  run fl (txn rb be ce p) s = (inl e, s') -> s' = s \/ exists s1, s' = rb s s1.
Proof.
  intros Hr. refine (wp_run_eq _ (fun r s2 => match r with
    | inl _ => s2 = s \/ exists s1, s2 = rb s s1 | inr _ => True end) s fl _ _ _ Hr).
  apply wp_txn; [by left|].
  enough (Hany : forall s0, wp p (fun r s2 => match r with
    | inl _ => rb s s2 = s \/ exists s1, rb s s2 = rb s s1
    | inr _ => True /\ (rb s s2 = s \/ exists s1, rb s s2 = rb s s1) end) s0) by apply Hany.
  clear Hr. induction p as [a|e0|X f k IH|X c f k IH]; intros s0; simpl.
  - split; [done|]. right. by exists s0.
  - right. by exists s0.
  - destruct (f s0). apply IH.
  - split; [apply IH|]. destruct (f s0) as [|[]]; apply IH.
Qed.

(** ** Committed transactions *)

(** [twp p Q s]: if the body [p] of a transaction reaches its commit, it does so
    in [Q].  A failed statement aborts the transaction, whatever the body does
    next, so only the statements that succeed matter. *)
Fixpoint twp {S E A} (p : prog S E A) (Q : A -> S -> Prop) (s : S) : Prop :=
  match p with
  | Ret a => Q a s
  | Throw _ => True
  | Act f k => let '(x, s') := f s in twp (k x) Q s'
  | Stmt Tx f k => match f s with inl _ => True | inr (x, s') => twp (k (inr x)) Q s' end
  | Stmt _ f k =>
      twp (k (inl Fault)) Q s
      /\ match f s with inl er => twp (k (inl er)) Q s | inr (x, s') => twp (k (inr x)) Q s' end
  end.

Lemma twp_bind {S E A B} (p : prog S E A) (f : A -> prog S E B) Q s :
  twp p (fun a s' => twp (f a) Q s') s -> twp (p ≫= f) Q s.
Proof.
  revert s. induction p as [a|e|X g k IH|X c g k IH]; intros s; simpl; auto.
  - destruct (g s). apply IH.
  - destruct c; [intros [? Hs]; split; [by apply IH|]| |intros [? Hs]; split; [by apply IH|]];
      destruct (g s) as [|[]]; first [done|by apply IH].
Qed.

Lemma twp_mono {S E A} (p : prog S E A) (Q Q' : A -> S -> Prop) s :
  (forall a s', Q a s' -> Q' a s') -> twp p Q s -> twp p Q' s.
Proof.
  intros HQ. revert s. induction p as [a|e|X g k IH|X c g k IH]; intros s; simpl; auto.
  - destruct (g s). apply IH.
  - destruct c; [intros [? Hs]; split; [by apply IH|]| |intros [? Hs]; split; [by apply IH|]];
      destruct (g s) as [|[]]; first [done|by apply IH].
Qed.

Lemma wp_twp {S E A} (p : prog S E A) (Q : A -> S -> Prop) s :
  wp p (fun r s' => match r with inl _ => True | inr a => Q a s' end) s -> twp p Q s.
Proof.
  revert s. induction p as [a|e|X g k IH|X c g k IH]; intros s; simpl; auto.
  - destruct (g s). apply IH.
  - intros [? Hs]. destruct c; [split; [by apply IH|]| |split; [by apply IH|]];
      destruct (g s) as [|[]]; first [done|by apply IH].
Qed.

Lemma twp_attempt {S E E' A} (p : prog S E A) (Q : E + A -> S -> Prop) s :
  (forall e s', Q (inl e) s') -> twp p (fun a s' => Q (inr a) s') s ->
  twp (@attempt S E E' A p) Q s.
Proof.
  intros HQ. revert s. induction p as [a|e|X g k IH|X c g k IH]; intros s; simpl; auto.
  - destruct (g s). apply IH.
  - destruct c; [intros [? Hs]; split; [by apply IH|]| |intros [? Hs]; split; [by apply IH|]];
      destruct (g s) as [|[]]; first [done|by apply IH].
Qed.

Lemma wp_guard_aborted {S E A} (rb : S -> S) (ce : A -> E) (p : prog S E A) Q s :
  (forall e s', Q (inl e) (rb s')) -> wp (guard rb true ce p) Q s.
Proof.
  intros HQ. revert s. induction p as [a|e|X g k IH|X c g k IH]; intros s; simpl; auto.
  - destruct (g s). apply IH.
  - destruct c; simpl; [|by apply IH|]; (split; [apply IH|]; destruct (g s) as [|[]]; apply IH).
Qed.

Lemma wp_guard_commits {S E A} (rb : S -> S) (ce : A -> E) (p : prog S E A) Q s :
  (forall e s', Q (inl e) (rb s')) -> twp p (fun a s' => Q (inr a) s') s ->
  wp (guard rb false ce p) Q s.
Proof.
  intros HQ. revert s. induction p as [a|e|X g k IH|X c g k IH]; intros s; simpl; auto.
  - destruct (g s). apply IH.
  - destruct c; simpl.
    + intros [? Hs]. split; [by apply IH|]. destruct (g s) as [|[]]; by apply IH.
    + intros Hs. split; [by apply wp_guard_aborted|].
      destruct (g s) as [|[]]; [by apply wp_guard_aborted|by apply IH].
    + intros [? Hs]. split; [by apply IH|]. destruct (g s) as [|[]]; by apply IH.
Qed.

(** A transaction either leaves a rolled back state and an error, or has
    committed what its body did without a failed statement. *)
Lemma wp_txn_commits {S E A} (rb : S -> S -> S) be (ce : A -> E) (p : prog S E A) Q s :
  Q (inl be) s -> (forall e s', Q (inl e) (rb s s')) -> twp p (fun a s' => Q (inr a) s') s ->
  wp (txn_with rb be ce p) Q s.
Proof. intros Hb Hr Hp. split; [done|]. by apply wp_guard_commits. Qed.

(** ** Errors *)

(** Every error the program can return satisfies [P]. *)
Fixpoint throws {S E A} (P : E -> Prop) (p : prog S E A) : Prop :=
  match p with
  | Ret _ => True
  | Throw e => P e
  | Act f k => forall x, throws P (k x)
  | Stmt c f k => forall o, throws P (k o)
  end.

Lemma throws_bind {S E A B} (P : E -> Prop) (p : prog S E A) (f : A -> prog S E B) :
  throws P p -> (forall a, throws P (f a)) -> throws P (p ≫= f).
Proof.
  intros Hp Hf. induction p as [a|e|X g k IH|X c g k IH]; simpl in *; auto;
    intros x; by apply IH.
Qed.

Lemma throws_attempt {S E E' A} (P : E' -> Prop) (p : prog S E A) : throws P (attempt p).
Proof. induction p; simpl; auto. Qed.

Lemma wp_throws {S E A} (P : E -> Prop) (p : prog S E A) (Q : E + A -> S -> Prop) s :
  throws P p -> wp p Q s ->
  wp p (fun r s' => Q r s' /\ match r with inl e => P e | inr _ => True end) s.
Proof.
  revert s. induction p as [a|e|X f k IH|X c f k IH]; intros s; simpl; auto.
  - destruct (f s). auto.
  - intros Hk [? Hs]. split; [by apply IH|]. destruct (f s) as [|[]]; by apply IH.
Qed.

Lemma throws_guard {S E A} (P : E -> Prop) (rb : S -> S) ab (ce : A -> E) (p : prog S E A) :
  throws P p -> (forall a, P (ce a)) -> throws P (guard rb ab ce p).
Proof.
  intros Hp Hc. revert ab. induction p as [a|e|X f k IH|X c f k IH]; intros ab; simpl in *; auto.
  - destruct ab; simpl; [auto|]. intros [e|u]; simpl; auto.
  - destruct c; simpl; auto. destruct ab; simpl; auto.
Qed.

Lemma throws_txn {S E A} (P : E -> Prop) (rb : S -> S -> S) (be ce : E) (p : prog S E A) :
  P be -> P ce -> throws P p -> throws P (txn rb be ce p).
Proof.
  intros Hb Hc Hp. unfold txn, txn_with. simpl. intros [e|s0]; [done|]. by apply throws_guard.
Qed.

(** ** Runs in which only the disk fails *)

Section disk.
Context {S : Type}.

(** No fault of the list hits a call over the network. *)
Fixpoint disk_only {E A} (fl : list bool) (p : prog S E A) (s : S) : bool :=
  match p with
  | Ret _ | Throw _ => true
  | Act f k => let '(x, s') := f s in disk_only fl (k x) s'
  | Stmt c f k =>
      match fl with
      | true :: fl' => match c with Pool => false | _ => disk_only fl' (k (inl Fault)) s end
      | _ =>
          match f s with
          | inl er => disk_only (tail fl) (k (inl er)) s
          | inr (x, s') => disk_only (tail fl) (k (inr x)) s'
          end
      end
  end.

(** The weakest precondition over these runs. *)
Fixpoint dwp {E A} (p : prog S E A) (Q : E + A -> S -> Prop) (s : S) : Prop :=
  match p with
  | Ret a => Q (inr a) s
  | Throw e => Q (inl e) s
  | Act f k => let '(x, s') := f s in dwp (k x) Q s'
  | Stmt c f k =>
      (c <> Pool -> dwp (k (inl Fault)) Q s) /\
      match f s with
      | inl er => dwp (k (inl er)) Q s
      | inr (x, s') => dwp (k (inr x)) Q s'
      end
  end.

Lemma dwp_run {E A} (p : prog S E A) Q s fl :
  dwp p Q s -> disk_only fl p s = true -> Q (run fl p s).1 (run fl p s).2.
Proof.
  revert s fl. induction p as [a|e|X f k IH|X c f k IH]; intros s fl; simpl; try done.
  - destruct (f s) as [x s']. apply IH.
  - intros [Hf Hs] Hd. destruct fl as [|[] fl].
    + destruct (f s) as [er|[x s']]; by apply IH.
    + destruct c; [done|..]; (apply IH; [by apply Hf|done]).
    + destruct (f s) as [er|[x s']]; by apply IH.
Qed.

Lemma dwp_mono {E A} (p : prog S E A) (Q Q' : E + A -> S -> Prop) s :
  (forall r s', Q r s' -> Q' r s') -> dwp p Q s -> dwp p Q' s.
Proof.
  intros HQ. revert s. induction p as [a|e|X f k IH|X c f k IH]; intros s; simpl; auto.
  - destruct (f s). apply IH.
  - intros [Hf Hs]. split; [intros Hc; by apply IH, Hf|]. destruct (f s) as [|[]]; by apply IH.
Qed.

Lemma dwp_bind {E A B} (p : prog S E A) (f : A -> prog S E B) Q s :
  dwp p (fun r s' => match r with inl e => Q (inl e) s' | inr a => dwp (f a) Q s' end) s ->
  dwp (p ≫= f) Q s.
Proof.
  revert s. induction p as [a|e|X g k IH|X c g k IH]; intros s; simpl; auto.
  - destruct (g s). apply IH.
  - intros [Hf Hs]. split; [intros Hc; by apply IH, Hf|]. destruct (g s) as [|[]]; by apply IH.
Qed.

Lemma dwp_attempt {E E' A} (p : prog S E A) (Q : E' + (E + A) -> S -> Prop) s :
  dwp p (fun r s' => Q (inr r) s') s -> dwp (attempt p) Q s.
Proof.
  revert s. induction p as [a|e|X g k IH|X c g k IH]; intros s; simpl; auto.
  - destruct (g s). apply IH.
  - intros [Hf Hs]. split; [intros Hc; by apply IH, Hf|]. destruct (g s) as [|[]]; by apply IH.
Qed.

Lemma wp_dwp {E A} (p : prog S E A) Q s : wp p Q s -> dwp p Q s.
Proof.
  revert s. induction p as [a|e|X g k IH|X c g k IH]; intros s; simpl; auto.
  - destruct (g s). apply IH.
  - intros [Hf Hs]. split; [intros _; by apply IH|]. destruct (g s) as [|[]]; by apply IH.
Qed.
End disk.

(** ** Runs whose last statement does its work *)

(** Whether the last statement that a run executes fails; [b] stands for the one
    before the run. *)
Fixpoint last_faulted {S E A} (b : bool) (fl : list bool) (p : prog S E A) (s : S) : bool :=
  match p with
  | Ret _ | Throw _ => b
  | Act f k => let '(x, s') := f s in last_faulted b fl (k x) s'
  | Stmt c f k =>
      match fl with
      | true :: fl' => last_faulted true fl' (k (inl Fault)) s
      | _ =>
          match f s with
          | inl er => last_faulted true (tail fl) (k (inl er)) s
          | inr (x, s') => last_faulted false (tail fl) (k (inr x)) s'
          end
      end
  end.

(** The weakest precondition over the runs whose last statement succeeds. *)
Fixpoint lwp {S E A} (b : bool) (p : prog S E A) (Q : E + A -> S -> Prop) (s : S) : Prop :=
  match p with
  | Ret a => b = false -> Q (inr a) s
  | Throw e => b = false -> Q (inl e) s
  | Act f k => let '(x, s') := f s in lwp b (k x) Q s'
  | Stmt c f k =>
      lwp true (k (inl Fault)) Q s /\
      match f s with
      | inl er => lwp true (k (inl er)) Q s
      | inr (x, s') => lwp false (k (inr x)) Q s'
      end
  end.

Lemma lwp_run {S E A} b (p : prog S E A) Q s fl :
  lwp b p Q s -> last_faulted b fl p s = false -> Q (run fl p s).1 (run fl p s).2.
Proof.
  revert b s fl. induction p as [a|e|X f k IH|X c f k IH]; intros b s fl; simpl; auto.
  - destruct (f s) as [x s']. apply IH.
  - intros [Hf Hs]. destruct fl as [|[] fl];
      [destruct (f s) as [er|[x s']]|..|destruct (f s) as [er|[x s']]]; by apply IH.
Qed.

(** What comes before the last part of a program may fail as it likes. *)
Lemma lwp_bind {S E A B} b (p : prog S E A) (f : A -> prog S E B) Q s :
  wp p (fun r s' => match r with inl e => Q (inl e) s' | inr a => forall b', lwp b' (f a) Q s' end) s ->
  lwp b (p ≫= f) Q s.
Proof.
  revert b s. induction p as [a|e|X g k IH|X c g k IH]; intros b s; simpl; auto.
  - destruct (g s) as [x s']. apply IH.
  - intros [Hf Hs]. split; [by apply IH|]. destruct (g s) as [er|[x s']]; by apply IH.
Qed.

(** ** Invariants *)

(** [keeps I p]: whatever fails, [p] leads from states of [I] to states of [I]. *)
Definition keeps {S E A} (I : S -> Prop) (p : prog S E A) : Prop :=
  forall s, I s -> wp p (fun _ => I) s.

Lemma keeps_run {S E A} (I : S -> Prop) (p : prog S E A) fl s :
  keeps I p -> I s -> I (run fl p s).2.
Proof. intros Hk Hs. by apply (wp_run p (fun _ => I)), Hk. Qed.

Lemma keeps_ret {S E A} (I : S -> Prop) (a : A) : keeps I (@Ret S E A a).
Proof. intros s. done. Qed.
Lemma keeps_throw {S E A} (I : S -> Prop) (e : E) : keeps I (@Throw S E A e).
Proof. intros s. done. Qed.
Lemma keeps_bind {S E A B} (I : S -> Prop) (p : prog S E A) (f : A -> prog S E B) :
  keeps I p -> (forall a, keeps I (f a)) -> keeps I (p ≫= f).
Proof.
  intros Hp Hf s Hs. apply wp_bind. eapply wp_mono; [|by apply Hp].
  intros [e|a] s'; [done|]. apply Hf.
Qed.
Lemma keeps_act {S E A X} (I : S -> Prop) f (k : X -> prog S E A) :
  (forall s, I s -> I (f s).2) -> (forall x, keeps I (k x)) -> keeps I (Act f k).
Proof. intros Hf Hk s Hs. simpl. specialize (Hf s Hs). destruct (f s). by apply Hk. Qed.
Lemma keeps_stmt {S E A X} (I : S -> Prop) c f (k : sqlerr + X -> prog S E A) :
  (forall s x s', I s -> f s = inr (x, s') -> I s') -> (forall o, keeps I (k o)) ->
  keeps I (Stmt c f k).
Proof.
  intros Hf Hk s Hs. split; [by apply Hk|].
  destruct (f s) as [er|[x s']] eqn:E0; [by apply Hk|]. eapply Hk, Hf; eauto.
Qed.
Lemma keeps_for {S E X} (I : S -> Prop) (l : list X) (body : X -> prog S E unit) :
  (forall x, x ∈ l -> keeps I (body x)) -> keeps I (for_ l body).
Proof.
  intros Hb s Hs. eapply (wp_for l body I); try done.
  intros x s' Hx Hs'. eapply wp_mono; [|by apply Hb]. by intros [].
Qed.
Lemma keeps_fold {S E X B} (I : S -> Prop) (body : B -> X -> prog S E B) b l :
  (forall b x, keeps I (body b x)) -> keeps I (fold_ body b l).
Proof.
  intros Hb s Hs. eapply (wp_fold body (fun _ _ => I)); try done.
  intros x l' b' s' Hs'. eapply wp_mono; [|by apply Hb]. by intros [].
Qed.
Lemma keeps_txn {S E A} (I : S -> Prop) rb (be ce : E) (p : prog S E A) :
  (forall s0 s, I s0 -> I s -> I (rb s0 s)) -> keeps I p -> keeps I (txn rb be ce p).
Proof.
  intros Hrb Hp s Hs. apply wp_txn; [done|]. eapply wp_mono; [|by apply Hp].
  intros [e|a] s' Hs'; auto.
Qed.
Lemma keeps_attempt {S E E' A} (I : S -> Prop) (p : prog S E A) :
  keeps I p -> keeps I (@attempt S E E' A p).
Proof. intros Hp s Hs. by apply wp_attempt, Hp. Qed.

Lemma keeps_conj {S E A} (I J : S -> Prop) (p : prog S E A) :
  keeps I p -> keeps J p -> keeps (fun s => I s /\ J s) p.
Proof.
  intros HI HJ s [HIs HJs]. specialize (HI s HIs). specialize (HJ s HJs). clear HIs HJs.
  revert s HI HJ. induction p as [a|e|X f k IH|X c f k IH]; intros s; simpl; auto.
  - destruct (f s). apply IH.
  - intros [? ?] [? ?]. split; [by apply IH|]. destruct (f s) as [|[]]; by apply IH.
Qed.

(** ** Interleaving *)

(** One statement of the program (which may fail) or one step of the
    environment. *)
Inductive istep {S E A} (env : S -> S -> Prop) : prog S E A * S -> prog S E A * S -> Prop :=
| istep_act X f (k : X -> prog S E A) s x s' :
    f s = (x, s') -> istep env (Act f k, s) (k x, s')
| istep_stmt X c f (k : sqlerr + X -> prog S E A) s x s' :
    f s = inr (x, s') -> istep env (Stmt c f k, s) (k (inr x), s')
| istep_err X c f (k : sqlerr + X -> prog S E A) s er :
    f s = inl er -> istep env (Stmt c f k, s) (k (inl er), s)
| istep_fault X c f (k : sqlerr + X -> prog S E A) s :
    istep env (Stmt c f k, s) (k (inl Fault), s)
| istep_env p s s' :
    env s s' -> istep env (p, s) (p, s').

Lemma rtc_stmt {S E A X} (env : S -> S -> Prop) c f (k : sqlerr + X -> prog S E A) s x s' q :
  f s = inr (x, s') -> rtc (istep env) (k (inr x), s') q -> rtc (istep env) (Stmt c f k, s) q.
Proof. intros Hf Hr. eapply rtc_l; [by apply istep_stmt|done]. Qed.

(** Without interference every run is an interleaving. *)
Lemma run_interleaves {S E A} (env : S -> S -> Prop) fl (p : prog S E A) s :
  rtc (istep env) (p, s)
    (match (run fl p s).1 with inl e => Throw e | inr a => Ret a end, (run fl p s).2).
Proof.
  revert fl s. induction p as [a|e|X f k IH|X c f k IH]; intros fl s; simpl; try done.
  - destruct (f s) as [x s'] eqn:Ef. eapply rtc_l; [by apply istep_act|]. apply IH.
  - destruct fl as [|[] fl].
    + destruct (f s) as [er|[x s']] eqn:Ef;
        (eapply rtc_l; [first [by apply istep_err|by apply istep_stmt]|apply IH]).
    + eapply rtc_l; [apply istep_fault|]. apply IH.
    + destruct (f s) as [er|[x s']] eqn:Ef;
        (eapply rtc_l; [first [by apply istep_err|by apply istep_stmt]|apply IH]).
Qed.

(** ** Automation *)

Create HintDb keeps discriminated.
#[export] Hint Resolve keeps_ret keeps_throw : keeps.

(** One structural step of a [keeps] proof: the side conditions that remain are
    the statements that write. *)
Ltac keeps_step :=
  match goal with
  | |- keeps _ (Ret _) => apply keeps_ret
  | |- keeps _ (mret _) => apply keeps_ret
  | |- keeps _ (Throw _) => apply keeps_throw
  | |- keeps _ (mbind _ _) => apply keeps_bind; [|intros ?]
  | |- keeps _ (must _ (reads _) _) => apply keeps_stmt; [by intros ??? ? [= <- <-]|intros [?|?]]
  | |- keeps _ (try_ _ (reads _)) => apply keeps_stmt; [by intros ??? ? [= <- <-]|intros [?|?]]
  | |- keeps _ (must _ _ _) => apply keeps_stmt; [|intros [?|?]]
  | |- keeps _ (try_ _ _) => apply keeps_stmt; [|intros [?|?]]
  | |- keeps _ (Stmt _ _ _) => apply keeps_stmt; [|intros [?|?]]
  | |- keeps _ (get_ _) => apply keeps_act; [done|intros ?]
  | |- keeps _ (put_ _) => apply keeps_act; [|intros ?]
  | |- keeps _ (for_ _ _) => apply keeps_for; intros ? _
  | |- keeps _ (fold_ _ _ _) => apply keeps_fold; intros ? ?
  | |- keeps _ (attempt _) => apply keeps_attempt
  | |- keeps _ (when ?b _) => unfold when; destruct b
  | |- keeps _ (if ?b then _ else _) => destruct b
  | |- keeps _ (match ?x with _ => _ end) => destruct x
  | |- keeps _ (let '(_, _) := ?x in _) => destruct x
  end.
