(* ===== verification/Versions.v ===== *)
(** Version comparison ([compareVersions] of internal/api/store.go and
    [looksPrerelease] of internal/api/device_refresh.go).

    The comparison is specified by the numeric reading of a version: segment
    [i] denotes a number, and missing segments denote 0.  On versions whose
    segments are all digits the code decides exactly the lexicographic order of
    these readings, whatever the length of the numbers.  On mixed segments it
    is still reflexive and antisymmetric, but not transitive. *)
From S2P Require Import Prelude GoStrings.

(** ** The code *)

(** [strings.Compare]. *)
Definition Compare (a b : string) : Z :=
  match str_compare a b with Lt => -1 | Eq => 0 | Gt => 1 end.

Definition is_version_sep (c : ascii) : bool :=
  Ascii.eqb c "." || Ascii.eqb c "-" || Ascii.eqb c "_" || Ascii.eqb c "+".

Definition splitVersion (v : string) : list string := fields_func is_version_sep v.

Definition is_digit (c : ascii) : bool := (48 <=? byte_n c)%N && (byte_n c <=? 57)%N.

Fixpoint all_digits (s : string) : bool :=
  match s with
  | EmptyString => true
  | String c s' => is_digit c && all_digits s'
  end.

Definition isVersionDigits (s : string) : bool := if s =s "" then false else all_digits s.

Definition trim_zeros (s : string) : string := trim_left (Ascii.eqb "0") s.

Definition compareVersionSegment (a b : string) : Z :=
  if isVersionDigits a && isVersionDigits b then
    let a := trim_zeros a in
    let b := trim_zeros b in
    if negb (String.length a =? String.length b)%nat then
      if (String.length a <? String.length b)%nat then -1 else 1
    else Compare a b
  else Compare a b.

(** The loop of [compareVersions] from index [i] on, the lists being the
    segments from [i] on; [n] bounds the remaining indices. *)
Fixpoint compare_segments (n : nat) (fa fb : list string) : Z :=
  match n with
  | O => 0
  | S n' =>
      let sa := default "0" (head fa) in
      let sb := default "0" (head fb) in
      let c := compareVersionSegment sa sb in
      if c =? 0 then compare_segments n' (tail fa) (tail fb) else c
  end.

Definition compareVersions (a b : string) : Z :=
  let fa := splitVersion a in
  let fb := splitVersion b in
  compare_segments (Nat.max (length fa) (length fb)) fa fb.

Definition prerelease_markers : list string :=
  ["beta"; "alpha"; "rc"; "nightly"; "preview"; "dev"; "testflight"; "snapshot"].

Definition looksPrerelease (s : string) : bool :=
  existsb (contains (to_lower s)) prerelease_markers.

(** ** The numeric reading *)

Fixpoint digits_acc (acc : N) (s : string) : N :=
  match s with
  | EmptyString => acc
  | String c s' => digits_acc (acc * 10 + (byte_n c - 48))%N s'
  end.

(** The number a string of digits denotes. *)
Definition digits_val (s : string) : N := digits_acc 0 s.

(** Segment [i] of a version as a number, 0 past the end. *)
Definition segment_val (fs : list string) (i : nat) : N := digits_val (default "0" (fs !! i)).

Definition numeric_version (v : string) : Prop :=
  Forall (fun f => isVersionDigits f = true) (splitVersion v).

(** The first index at which the readings differ decides. *)
Definition reads_before (a b : string) : Prop :=
  exists i, (forall j, (j < i)%nat ->
               segment_val (splitVersion a) j = segment_val (splitVersion b) j) /\
            (segment_val (splitVersion a) i < segment_val (splitVersion b) i)%N.

Definition reads_same (a b : string) : Prop :=
  forall i, segment_val (splitVersion a) i = segment_val (splitVersion b) i.

(** ** Lemmas *)

Lemma digits_acc_shift s acc :
  (digits_acc acc s = acc * 10 ^ N.of_nat (String.length s) + digits_val s)%N.
Proof.
  unfold digits_val. revert acc. induction s as [|c s IH]; intros acc; [simpl; lia|].
  cbn [digits_acc String.length]. rewrite (IH (acc * 10 + _)%N), (IH (0 * 10 + _)%N).
  rewrite Nat2N.inj_succ, N.pow_succ_r'. lia.
Qed.

Lemma digits_val_cons c s :
  (digits_val (String c s) =
   (byte_n c - 48) * 10 ^ N.of_nat (String.length s) + digits_val s)%N.
Proof.
  change (digits_val (String c s)) with (digits_acc (0 * 10 + (byte_n c - 48)) s).
  by rewrite digits_acc_shift.
Qed.

Lemma is_digit_bounds c : is_digit c = true -> (48 <= byte_n c <= 57)%N.
Proof. unfold is_digit. rewrite andb_true_iff, !N.leb_le. lia. Qed.

Lemma digits_val_bound s :
  all_digits s = true -> (digits_val s < 10 ^ N.of_nat (String.length s))%N.
Proof.
  induction s as [|c s IH]; [done|].
  cbn [all_digits String.length]. rewrite andb_true_iff. intros [Hc%is_digit_bounds Hs].
  rewrite digits_val_cons, Nat2N.inj_succ, N.pow_succ_r'. specialize (IH Hs).
  nia.
Qed.

Lemma digits_compare_same_length a b :
  all_digits a = true -> all_digits b = true -> String.length a = String.length b ->
  str_compare a b = (digits_val a ?= digits_val b)%N.
Proof.
  revert b. induction a as [|x a IH]; intros [|y b]; try done.
  cbn [all_digits String.length str_compare]. rewrite !andb_true_iff.
  intros [Hx%is_digit_bounds Ha] [Hy%is_digit_bounds Hb] [= Hl].
  rewrite !digits_val_cons, <- Hl.
  pose proof (digits_val_bound a Ha). pose proof (digits_val_bound b Hb). rewrite <- Hl in *.
  destruct (N.compare_spec (byte_n x) (byte_n y)) as [He|Hlt|Hgt]; symmetry.
  - rewrite He, (IH b Ha Hb Hl).
    destruct (N.compare_spec (digits_val a) (digits_val b));
      [apply N.compare_eq_iff|apply N.compare_lt_iff|apply N.compare_gt_iff]; lia.
  - apply N.compare_lt_iff. nia.
  - apply N.compare_gt_iff. nia.
Qed.

Lemma trim_zeros_digits s : all_digits s = true -> all_digits (trim_zeros s) = true.
Proof.
  unfold trim_zeros. induction s as [|c s IH]; [done|]. cbn [all_digits trim_left].
  rewrite andb_true_iff. intros [Hc Hs]. destruct (Ascii.eqb "0" c); [auto|].
  cbn [all_digits]. by rewrite Hc, Hs.
Qed.

Lemma trim_zeros_val s : digits_val (trim_zeros s) = digits_val s.
Proof.
  unfold trim_zeros. induction s as [|c s IH]; [done|]. cbn [trim_left].
  destruct (Ascii.eqb_spec "0" c) as [<-|]; [|done].
  rewrite IH, digits_val_cons. change (byte_n "0") with 48%N. lia.
Qed.

Lemma trim_zeros_lower s :
  all_digits s = true -> trim_zeros s <> "" ->
  (10 ^ N.of_nat (String.length (trim_zeros s) - 1) <= digits_val s)%N.
Proof.
  intros Hd Hne. rewrite <- trim_zeros_val.
  pose proof (trim_zeros_digits s Hd) as Ht.
  assert (Hhd : forall c r, trim_zeros s = String c r -> Ascii.eqb "0" c = false).
  { clear. unfold trim_zeros. induction s as [|d s IH]; [done|]. cbn [trim_left].
    destruct (Ascii.eqb "0" d) eqn:E; [exact IH|]. by intros c r [= <- _]. }
  destruct (trim_zeros s) as [|c r] eqn:E; [done|]. specialize (Hhd _ _ eq_refl).
  cbn [all_digits] in Ht. apply andb_true_iff in Ht as [Hc%is_digit_bounds _].
  assert (byte_n c <> 48%N).
  { intros Hz. change 48%N with (byte_n "0") in Hz. apply byte_n_inj in Hz as ->. done. }
  cbn [String.length]. rewrite Nat.sub_succ, Nat.sub_0_r, digits_val_cons.
  transitivity (1 * 10 ^ N.of_nat (String.length r))%N; [lia|]. nia.
Qed.

Lemma isVersionDigits_all s : isVersionDigits s = true -> all_digits s = true.
Proof. unfold isVersionDigits. by destruct (s =s ""). Qed.

Definition sign_of (c : comparison) : Z := match c with Lt => -1 | Eq => 0 | Gt => 1 end.

(** A longer number, zeros apart, is a larger one. *)
Lemma shorter_smaller a b :
  all_digits a = true -> all_digits b = true ->
  (String.length (trim_zeros a) < String.length (trim_zeros b))%nat ->
  (digits_val a < digits_val b)%N.
Proof.
  intros Ha Hb Hl.
  pose proof (digits_val_bound _ (trim_zeros_digits a Ha)) as Hu. rewrite trim_zeros_val in Hu.
  assert (trim_zeros b <> "") as Hne by (intros E; rewrite E in Hl; simpl in Hl; lia).
  pose proof (trim_zeros_lower b Hb Hne).
  assert (10 ^ N.of_nat (String.length (trim_zeros a))
          <= 10 ^ N.of_nat (String.length (trim_zeros b) - 1))%N.
  { apply N.pow_le_mono_r; lia. }
  lia.
Qed.

Lemma compareVersionSegment_digits a b :
  isVersionDigits a = true -> isVersionDigits b = true ->
  compareVersionSegment a b = sign_of (digits_val a ?= digits_val b)%N.
Proof.
  intros Ha Hb. unfold compareVersionSegment. rewrite Ha, Hb. simpl.
  apply isVersionDigits_all in Ha, Hb.
  destruct (Nat.eqb_spec (String.length (trim_zeros a)) (String.length (trim_zeros b)))
    as [He|Hne]; simpl.
  - unfold Compare. rewrite digits_compare_same_length by auto using trim_zeros_digits.
    by rewrite !trim_zeros_val.
  - destruct (Nat.ltb_spec (String.length (trim_zeros a)) (String.length (trim_zeros b))).
    + by rewrite (proj2 (N.compare_lt_iff _ _)) by (apply shorter_smaller; auto).
    + rewrite (proj2 (N.compare_gt_iff _ _)); [done|].
      apply shorter_smaller; auto. lia.
Qed.

Lemma Compare_antisym a b : Compare b a = - Compare a b.
Proof. unfold Compare. rewrite str_compare_antisym. by destruct (str_compare a b). Qed.

Lemma compareVersionSegment_antisym a b :
  compareVersionSegment b a = - compareVersionSegment a b.
Proof.
  unfold compareVersionSegment.
  rewrite (andb_comm (isVersionDigits b)), Nat.eqb_sym.
  destruct (_ && _); [|apply Compare_antisym].
  destruct (Nat.eqb_spec (String.length (trim_zeros a)) (String.length (trim_zeros b))); simpl.
  - apply Compare_antisym.
  - destruct (Nat.ltb_spec (String.length (trim_zeros a)) (String.length (trim_zeros b))),
      (Nat.ltb_spec (String.length (trim_zeros b)) (String.length (trim_zeros a))); lia.
Qed.

Lemma compare_segments_antisym n fa fb :
  compare_segments n fb fa = - compare_segments n fa fb.
Proof.
  revert fa fb. induction n as [|n IH]; intros fa fb; simpl; [done|].
  rewrite (compareVersionSegment_antisym (default "0" (head fa))).
  destruct (compareVersionSegment _ _) eqn:E; simpl; auto.
Qed.

Lemma lookup_tail {A} (l : list A) i : tail l !! i = l !! S i.
Proof. by destruct l. Qed.

Lemma segment_val_tail fs i : segment_val (tail fs) i = segment_val fs (S i).
Proof. unfold segment_val. by rewrite lookup_tail. Qed.

Lemma segment_digits fs i :
  Forall (fun f => isVersionDigits f = true) fs ->
  isVersionDigits (default "0" (fs !! i)) = true.
Proof.
  intros H. destruct (fs !! i) as [f|] eqn:E; [|done]. by eapply Forall_lookup_1 in H.
Qed.

Lemma head_lookup {A} (l : list A) : head l = l !! 0%nat.
Proof. by destruct l. Qed.

(** What the loop decides, on numeric segments. *)
Lemma compare_segments_spec n fa fb :
  Forall (fun f => isVersionDigits f = true) fa ->
  Forall (fun f => isVersionDigits f = true) fb ->
  (compare_segments n fa fb = 0 <->
     forall i, (i < n)%nat -> segment_val fa i = segment_val fb i) /\
  (compare_segments n fa fb < 0 <->
     exists i, (i < n)%nat /\ (forall j, (j < i)%nat -> segment_val fa j = segment_val fb j)
               /\ (segment_val fa i < segment_val fb i)%N).
Proof.
  revert fa fb. induction n as [|n IH]; intros fa fb Ha Hb; cbn [compare_segments].
  { split; split; [intros _ ? ?; lia|done|lia|intros (? & ? & _); lia]. }
  rewrite !head_lookup, compareVersionSegment_digits by auto using segment_digits.
  change (digits_val (default "0" (?l !! 0%nat))) with (segment_val l 0).
  destruct (N.compare_spec (segment_val fa 0) (segment_val fb 0)) as [He|Hlt|Hgt]; simpl.
  - assert (Ht : forall l, Forall (fun f => isVersionDigits f = true) l ->
                 Forall (fun f => isVersionDigits f = true) (tail l))
      by (intros [|? ?]; [done|by inversion 1]).
    destruct (IH _ _ (Ht _ Ha) (Ht _ Hb)) as [IH0 IHlt]. rewrite IH0, IHlt.
    setoid_rewrite segment_val_tail. split; split.
    + intros H [|i] Hi; [done|]. apply H. lia.
    + intros H i Hi. apply H. lia.
    + intros (i & Hi & Hj & Hv). exists (S i). split; [lia|]. split; [|done].
      intros [|j] Hlt; [done|]. apply Hj. lia.
    + intros ([|i] & Hi & Hj & Hv); [lia|]. exists i. split; [lia|]. split; [|done].
      intros j Hlt. apply Hj. lia.
  - split; split; try done.
    + intros H. specialize (H 0%nat ltac:(lia)). lia.
    + intros _. exists 0%nat. split; [lia|]. split; [lia|done].
  - split; split; try done.
    + intros H. specialize (H 0%nat ltac:(lia)). lia.
    + intros ([|i] & Hi & Hj & Hv); [lia|]. specialize (Hj 0%nat ltac:(lia)). lia.
Qed.

Lemma segment_val_beyond fs i : (length fs <= i)%nat -> segment_val fs i = 0%N.
Proof. intros H. unfold segment_val. by rewrite lookup_ge_None_2. Qed.

Lemma compareVersions_numeric_zero a b :
  numeric_version a -> numeric_version b ->
  (compareVersions a b = 0 <-> reads_same a b).
Proof.
  intros Ha Hb. unfold compareVersions, reads_same.
  rewrite (proj1 (compare_segments_spec _ _ _ Ha Hb)). split; [|auto].
  intros H i. destruct (decide (i < Nat.max (length (splitVersion a)) (length (splitVersion b)))%nat);
    [auto|]. by rewrite !segment_val_beyond by lia.
Qed.

Lemma compareVersions_numeric_lt a b :
  numeric_version a -> numeric_version b ->
  (compareVersions a b < 0 <-> reads_before a b).
Proof.
  intros Ha Hb. unfold compareVersions, reads_before.
  rewrite (proj2 (compare_segments_spec _ _ _ Ha Hb)). split.
  - intros (i & _ & H). eauto.
  - intros (i & Hj & Hv). exists i. split; [|done].
    destruct (decide (i < Nat.max (length (splitVersion a)) (length (splitVersion b)))%nat); [done|].
    rewrite !segment_val_beyond in Hv by lia. lia.
Qed.

Lemma compareVersions_antisym_aux a b : compareVersions b a = - compareVersions a b.
Proof.
  unfold compareVersions. rewrite Nat.max_comm. apply compare_segments_antisym.
Qed.

Lemma reads_before_trans a b c : reads_before a b -> reads_before b c -> reads_before a c.
Proof.
  intros (i & Hi & Hvi) (k & Hk & Hvk). exists (Nat.min i k).
  destruct (Nat.lt_trichotomy i k) as [Hlt|[->|Hlt]].
  - rewrite Nat.min_l by lia. split.
    + intros j Hj. rewrite (Hi j Hj). apply Hk. lia.
    + by rewrite <- (Hk i Hlt).
  - rewrite Nat.min_id. split; [|lia]. intros j Hj. by rewrite (Hi j Hj), (Hk j Hj).
  - rewrite Nat.min_r by lia. split.
    + intros j Hj. rewrite (Hi j) by lia. by apply Hk.
    + by rewrite (Hi k Hlt).
Qed.

Lemma compareVersions_numeric_le_trans a b c :
  numeric_version a -> numeric_version b -> numeric_version c ->
  compareVersions a b <= 0 -> compareVersions b c <= 0 -> compareVersions a c <= 0.
Proof.
  intros Ha Hb Hc Hab Hbc. destruct (Z.le_gt_cases (compareVersions a c) 0) as [?|Hac]; [done|exfalso].
  assert (Hca : reads_before c a).
  { apply compareVersions_numeric_lt; [done..|]. rewrite compareVersions_antisym_aux. lia. }
  destruct (Z.eq_dec (compareVersions a b) 0) as [Eab|Nab].
  - apply compareVersions_numeric_zero in Eab; [|done..].
    assert (Hcb : reads_before c b).
    { destruct Hca as (i & Hi & Hv). exists i. split; [intros j Hj; by rewrite Hi, Eab|by rewrite <- Eab]. }
    apply compareVersions_numeric_lt in Hcb; [|done..]. rewrite compareVersions_antisym_aux in Hcb. lia.
  - assert (Hcb : reads_before c b).
    { eapply reads_before_trans; [exact Hca|]. apply compareVersions_numeric_lt; [done..|lia]. }
    apply compareVersions_numeric_lt in Hcb; [|done..]. rewrite compareVersions_antisym_aux in Hcb. lia.
Qed.

(** ** Properties *)

(** On versions whose segments are all digits, [compareVersions] decides the
    lexicographic order of their numeric readings, missing segments reading as
    0: the result is 0, negative or positive exactly when the readings agree,
    the first smaller, or the second smaller, for numbers of any length. *)
Theorem compareVersions_reads_numbers a b :
  numeric_version a -> numeric_version b ->
  (compareVersions a b = 0 <-> reads_same a b) /\
  (compareVersions a b < 0 <-> reads_before a b) /\
  (0 < compareVersions a b <-> reads_before b a).
Proof.
  intros Ha Hb. split; [by apply compareVersions_numeric_zero|].
  split; [by apply compareVersions_numeric_lt|].
  rewrite <- (compareVersions_numeric_lt b a Hb Ha), (compareVersions_antisym_aux a b). lia.
Qed.

Lemma compareVersions_reads_numbers_witness :
  (compareVersions "1.0.9" "1.0.10" < 0 <-> reads_before "1.0.9" "1.0.10") /\
  compareVersions "1.0.9" "1.0.10" = -1 /\ compareVersions "1.0" "1.0.0" = 0.
Proof.
  split; [|split; reflexivity].
  refine (proj1 (proj2 (compareVersions_reads_numbers "1.0.9" "1.0.10" _ _)));
    repeat constructor.
Defined.

(** [compareVersions] is antisymmetric and reflexive on all strings and
    transitive on numeric versions, so picking a maximum or sorting by it is
    well defined there. *)
Theorem compareVersions_numeric_order :
  (forall a b, compareVersions b a = - compareVersions a b) /\
  (forall a, compareVersions a a = 0) /\
  (forall a b c, numeric_version a -> numeric_version b -> numeric_version c ->
     compareVersions a b < 0 -> compareVersions b c < 0 -> compareVersions a c < 0).
Proof.
  split; [exact compareVersions_antisym_aux|]. split.
  - intros a. pose proof (compareVersions_antisym_aux a a). lia.
  - intros a b c Ha Hb Hc. rewrite !compareVersions_numeric_lt by done.
    apply reads_before_trans.
Qed.

(** With a non-numeric segment [compareVersions] is not transitive:
    "1.9" < "1.10" < "1.1a" < "1.9", because "9" and "10" compare as numbers and
    both compare with "1a" as strings. *)
Theorem compareVersions_not_transitive :
  compareVersions "1.9" "1.10" < 0 /\ compareVersions "1.10" "1.1a" < 0 /\
  compareVersions "1.1a" "1.9" < 0.
Proof. by vm_compute. Qed.
