(* ===== verification/GoTime.v ===== *)
(** The part of package time the program uses on instants: the UTC calendar
    date, the layouts "2006-01-02" and RFC 3339, and the strict RFC 3339 reader
    that encoding/json uses for [time.Time].  An instant is a number of
    nanoseconds since 1970-01-01T00:00:00Z. *)
From S2P Require Import Prelude GoStrings.

(** ** Calendar *)

(** Year, month and day of a day number (days since 1970-01-01), by 400-year
    eras that start on March 1st. *)
Definition civil_of_doe (doe : Z) : Z * Z * Z :=
  let yoe := (doe - doe / 1460 + doe / 36524 - doe / 146096) / 365 in
  let doy := doe - (365 * yoe + yoe / 4 - yoe / 100) in
  let mp := (5 * doy + 2) / 153 in
  (yoe, (if mp <? 10 then mp + 3 else mp - 9), doy - (153 * mp + 2) / 5 + 1).

Definition civil (day : Z) : Z * Z * Z :=
  let z := day + 719468 in
  let '(yoe, m, d) := civil_of_doe (z mod 146097) in
  (yoe + 400 * (z / 146097) + (if m <=? 2 then 1 else 0), m, d).

Definition days_of_civil (y m d : Z) : Z :=
  let y := if m <=? 2 then y - 1 else y in
  let yoe := y mod 400 in
  let doy := (153 * (if 2 <? m then m - 3 else m + 9) + 2) / 5 + d - 1 in
  (y / 400) * 146097 + (yoe * 365 + yoe / 4 - yoe / 100 + doy) - 719468.

Definition is_leap (y : Z) : bool :=
  (y mod 4 =? 0) && (negb (y mod 100 =? 0) || (y mod 400 =? 0)).

Definition days_in (y m : Z) : Z :=
  if m =? 2 then (if is_leap y then 29 else 28)
  else if (m =? 4) || (m =? 6) || (m =? 9) || (m =? 11) then 30 else 31.

Definition day_number (t : instant) : Z := t / Day.
Definition year_of (t : instant) : Z := (civil (day_number t)).1.1.

(** ** Layouts *)

Definition digit_char (n : Z) : ascii := ascii_of_N (Z.to_N (48 + n)).

Definition pad2 (n : Z) : string :=
  String (digit_char (n / 10 mod 10)) (String (digit_char (n mod 10)) "").
Definition pad4 (n : Z) : string :=
  if (0 <=? n) && (n <=? 9999) then pad2 (n / 100) ++s pad2 (n mod 100) else itoa n.

(** [t.UTC().Format("2006-01-02")]. *)
Definition format_day (t : instant) : string :=
  let '(y, m, d) := civil (day_number t) in
  pad4 y ++s "-" ++s pad2 m ++s "-" ++s pad2 d.

(** [t.UTC().Format(time.RFC3339)]. *)
Definition format_rfc3339 (t : instant) : string :=
  let s := t / Second mod 86400 in
  format_day t ++s "T" ++s pad2 (s / 3600) ++s ":" ++s pad2 (s / 60 mod 60)
    ++s ":" ++s pad2 (s mod 60) ++s "Z".

(** ** Reading *)

Definition digit_of (c : ascii) : option Z :=
  let n := Z.of_N (byte_n c) in
  if (48 <=? n) && (n <=? 57) then Some (n - 48) else None.

Definition read2 (s : string) : option (Z * string) :=
  match s with
  | String a (String b r) =>
      match digit_of a, digit_of b with
      | Some x, Some y => Some (10 * x + y, r)
      | _, _ => None
      end
  | _ => None
  end.

Definition read_char (c : ascii) (s : string) : option string :=
  match s with
  | String d r => if Ascii.eqb c d then Some r else None
  | EmptyString => None
  end.

(** The fraction of a second, in nanoseconds: at least one digit, digits past
    the ninth are dropped. *)
Fixpoint read_frac (scale acc : Z) (s : string) : Z * string :=
  match s with
  | String c r =>
      match digit_of c with
      | Some d => read_frac (scale / 10) (acc + d * scale) r
      | None => (acc, s)
      end
  | EmptyString => (acc, s)
  end.

Definition read_opt_frac (s : string) : option (Z * string) :=
  match s with
  | String "." (String c r) =>
      match digit_of c with
      | Some _ => Some (read_frac 100000000 0 (String c r))
      | None => None
      end
  | String "." EmptyString => None
  | _ => Some (0, s)
  end.

(** The zone designator, as an offset in seconds. *)
Definition read_zone (s : string) : option Z :=
  match s with
  | String "Z" EmptyString => Some 0
  | String c r =>
      let sign := if Ascii.eqb c "+" then Some 1 else if Ascii.eqb c "-" then Some (-1) else None in
      match sign with
      | None => None
      | Some sg =>
          '(h, r) ← read2 r; r ← read_char ":" r; '(m, r) ← read2 r;
          if (r =s "") && (h <=? 23) && (m <=? 59) then Some (sg * (h * 3600 + m * 60)) else None
      end
  | EmptyString => None
  end.

(** [time.Time.UnmarshalJSON]: strict RFC 3339. *)
Definition parse_rfc3339 (s : string) : option instant :=
  '(yh, s) ← read2 s; '(yl, s) ← read2 s; s ← read_char "-" s;
  '(m, s) ← read2 s; s ← read_char "-" s;
  '(d, s) ← read2 s; s ← read_char "T" s;
  '(hh, s) ← read2 s; s ← read_char ":" s;
  '(mi, s) ← read2 s; s ← read_char ":" s;
  '(ss, s) ← read2 s; '(fr, s) ← read_opt_frac s; off ← read_zone s;
  let y := 100 * yh + yl in
  if (1 <=? m) && (m <=? 12) && (1 <=? d) && (d <=? days_in y m)
     && (hh <=? 23) && (mi <=? 59) && (ss <=? 59)
  then Some ((days_of_civil y m d * 86400 + hh * 3600 + mi * 60 + ss - off) * Second + fr)
  else None.

(** ** The calendar is a bijection *)

Fixpoint all_below (p : Z -> bool) (n : nat) (i : Z) : bool :=
  match n with
  | O => true
  | S n' => p i && all_below p n' (i + 1)
  end.

Lemma all_below_spec p n i j :
  all_below p n i = true -> i <= j < i + Z.of_nat n -> p j = true.
Proof.
  revert i. induction n as [|n IH]; intros i; simpl; [lia|].
  rewrite andb_true_iff. intros [Hp Hr] Hj.
  destruct (decide (j = i)) as [->|]; [done|]. apply (IH (i + 1)); [done|lia].
Qed.

(** Month and day of the 366 days of a year that starts on March 1st. *)
Definition month_day_ok (doy : Z) : bool :=
  let mp := (5 * doy + 2) / 153 in
  let m := if mp <? 10 then mp + 3 else mp - 9 in
  let d := doy - (153 * mp + 2) / 5 + 1 in
  (1 <=? m) && (m <=? 12) && (1 <=? d)
  && (d <=? (if m =? 2 then (if doy =? 365 then 29 else 28) else days_in 1 m))
  && ((153 * (if 2 <? m then m - 3 else m + 9) + 2) / 5 + d - 1 =? doy).

Lemma month_day_all doy : 0 <= doy <= 365 -> month_day_ok doy = true.
Proof.
  intros H. apply (all_below_spec month_day_ok 366 0); [by vm_compute|lia].
Qed.

(** Linear arithmetic with division by constants. *)
Ltac div_lia := Z.to_euclidean_division_equations; lia.

(** Year and day of the year within an era; day 365 exists in leap years only. *)
Lemma year_of_era_spec doe :
  0 <= doe < 146097 ->
  let yoe := (doe - doe / 1460 + doe / 36524 - doe / 146096) / 365 in
  let doy := doe - (365 * yoe + yoe / 4 - yoe / 100) in
  0 <= yoe < 400 /\ 0 <= doy <= 365 /\
  (doy = 365 -> (yoe + 1) mod 4 = 0 /\ ((yoe + 1) mod 100 <> 0 \/ (yoe + 1) mod 400 = 0)).
Proof.
  intros H. cbv zeta.
  assert (Hc : doe / 146096 = 0 \/ doe / 146096 = 1) by div_lia.
  assert (Hb : doe / 36524 = 0 \/ doe / 36524 = 1 \/ doe / 36524 = 2 \/ doe / 36524 = 3
               \/ doe / 36524 = 4) by div_lia.
  destruct Hc as [Hc|Hc]; rewrite Hc;
    destruct Hb as [Hb|[Hb|[Hb|[Hb|Hb]]]]; rewrite Hb; try (exfalso; div_lia);
    (split; [|split; [|intros; split]]); div_lia.
Qed.

Lemma civil_of_doe_facts doe yoe m d :
  0 <= doe < 146097 -> civil_of_doe doe = (yoe, m, d) ->
  0 <= yoe < 400 /\ 1 <= m <= 12 /\ 1 <= d <= days_in (yoe + (if m <=? 2 then 1 else 0)) m /\
  yoe * 365 + yoe / 4 - yoe / 100
    + ((153 * (if 2 <? m then m - 3 else m + 9) + 2) / 5 + d - 1) = doe.
Proof.
  intros H. unfold civil_of_doe. destruct (year_of_era_spec doe H) as (Hy & Hd & Hl).
  set (y := (doe - doe / 1460 + doe / 36524 - doe / 146096) / 365) in *.
  set (doy := doe - (365 * y + y / 4 - y / 100)) in *. cbv zeta.
  pose proof (month_day_all doy Hd) as Hok. unfold month_day_ok in Hok.
  intros [= <- <- <-]. cbv zeta in Hok.
  set (mp := (5 * doy + 2) / 153) in *. set (m := if mp <? 10 then mp + 3 else mp - 9) in *.
  rewrite !andb_true_iff, !Z.leb_le, Z.eqb_eq in Hok.
  destruct Hok as ((((? & ?) & ?) & Hdd) & He).
  split; [lia|]. split; [lia|]. split; [|lia]. split; [lia|].
  unfold days_in in *. destruct (Z.eqb_spec m 2) as [->|]; [|done].
  change (2 <=? 2) with true. cbv iota.
  destruct (Z.eqb_spec doy 365) as [E|]; [|by destruct (is_leap _); lia].
  destruct (Hl E) as [H4 H100]. unfold is_leap. rewrite H4. simpl.
  destruct H100 as [H100| ->].
  - by rewrite (proj2 (Z.eqb_neq _ _) H100).
  - by rewrite orb_true_r.
Qed.

Lemma days_in_era y e m : days_in (y + 400 * e) m = days_in y m.
Proof.
  unfold days_in, is_leap.
  replace ((y + 400 * e) mod 4) with (y mod 4)
    by (replace (y + 400 * e) with (y + (100 * e) * 4) by lia; by rewrite Z.mod_add).
  replace ((y + 400 * e) mod 100) with (y mod 100)
    by (replace (y + 400 * e) with (y + (4 * e) * 100) by lia; by rewrite Z.mod_add).
  replace ((y + 400 * e) mod 400) with (y mod 400)
    by (replace (y + 400 * e) with (y + e * 400) by lia; by rewrite Z.mod_add).
  done.
Qed.

Lemma civil_facts day y m d :
  civil day = (y, m, d) ->
  1 <= m <= 12 /\ 1 <= d <= days_in y m /\ days_of_civil y m d = day.
Proof.
  unfold civil. pose proof (Z.mod_pos_bound (day + 719468) 146097 ltac:(lia)) as Hb.
  pose proof (Z.div_mod (day + 719468) 146097 ltac:(lia)) as Hdm.
  destruct (civil_of_doe _) as [[yoe m'] d'] eqn:Ed.
  apply civil_of_doe_facts in Ed as (? & ? & Hd & He); [|done]. intros [= <- <- <-].
  set (b := if m' <=? 2 then 1 else 0) in *.
  replace (yoe + 400 * ((day + 719468) / 146097) + b)
    with (yoe + b + 400 * ((day + 719468) / 146097)) by lia.
  split; [lia|]. rewrite days_in_era. split; [lia|].
  unfold days_of_civil.
  replace (if m' <=? 2 then _ else _)
    with (yoe + (day + 719468) / 146097 * 400) by (subst b; destruct (m' <=? 2); lia).
  rewrite Z.mod_add, Z.div_add, Z.mod_small, Z.div_small by lia. lia.
Qed.

Lemma civil_inj d1 d2 : civil d1 = civil d2 -> d1 = d2.
Proof.
  destruct (civil d1) as [[y m] d] eqn:E1. intros E2. symmetry in E2.
  apply civil_facts in E1 as (_ & _ & <-), E2 as (_ & _ & <-). done.
Qed.

(** ** The layouts are read back *)

Definition pad2_ok (n : Z) : bool := bool_decide (read2 (pad2 n) = Some (n, "")).

Lemma read2_pad2 n s : 0 <= n <= 99 -> read2 (pad2 n ++s s) = Some (n, s).
Proof.
  intros Hn. assert (H : pad2_ok n = true).
  { apply (all_below_spec pad2_ok 100 0); [by vm_compute|lia]. }
  apply bool_decide_eq_true in H. revert H. unfold pad2. cbn [read2 String.append].
  destruct (digit_of (digit_char (n / 10 mod 10))), (digit_of (digit_char (n mod 10)));
    try done. by intros [= ->].
Qed.

Lemma read2_pad4 n s :
  0 <= n <= 9999 ->
  exists r, read2 (pad4 n ++s s) = Some (n / 100, r) /\ read2 r = Some (n mod 100, s).
Proof.
  intros Hn. unfold pad4. rewrite (proj2 (andb_true_iff _ _)) by (split; apply Z.leb_le; lia).
  pose proof (Z.mod_pos_bound n 100 ltac:(lia)).
  exists (pad2 (n mod 100) ++s s). rewrite str_app_assoc.
  assert (0 <= n / 100 <= 99).
  { split; [apply Z.div_pos; lia|]. apply Z.lt_succ_r, Z.div_lt_upper_bound; lia. }
  split; apply read2_pad2; lia.
Qed.

(** ** Properties *)

(** Reading back an instant written with the RFC 3339 layout gives the
    instant truncated to its second, for the years 0 to 9999. *)
Theorem rfc3339_roundtrip t :
  0 <= year_of t <= 9999 ->
  parse_rfc3339 (format_rfc3339 t) = Some (t / Second * Second).
Proof.
  unfold year_of, format_rfc3339, format_day, parse_rfc3339.
  destruct (civil (day_number t)) as [[y m] d] eqn:Ec. cbn [fst snd]. intros Hy.
  apply civil_facts in Ec as (Hm & Hd & He).
  set (s := t / Second mod 86400).
  assert (0 <= s < 86400) as Hs by (apply Z.mod_pos_bound; lia).
  assert (days_in y m <= 31) by (unfold days_in; repeat case_cond; lia).
  assert (0 <= s / 3600 <= 23) by (split; [apply Z.div_pos; lia|]; apply Z.lt_succ_r, Z.div_lt_upper_bound; lia).
  pose proof (Z.mod_pos_bound (s / 60) 60 ltac:(lia)).
  pose proof (Z.mod_pos_bound s 60 ltac:(lia)).
  rewrite !str_app_assoc.
  match goal with |- context [pad4 y ++s ?rest] =>
    destruct (read2_pad4 y rest Hy) as (r & Hr1 & Hr2) end.
  rewrite Hr1. cbn [mbind option_bind]. rewrite Hr2. cbn -[read2 pad2 Z.div Z.modulo Z.leb Z.mul].
  do 4 (rewrite read2_pad2 by lia; cbn -[read2 pad2 Z.div Z.modulo Z.leb Z.mul]).
  rewrite <- (str_app_nil_r (pad2 (s mod 60))), str_app_assoc.
  rewrite read2_pad2 by lia. cbn -[read2 pad2 Z.div Z.modulo Z.leb Z.mul].
  rewrite <- (Z.div_mod y 100) by lia.
  rewrite (proj2 (andb_true_iff _ _)); [f_equal|].
  - rewrite He. unfold day_number, Day, Hour, Minute.
    replace (24 * (60 * (60 * Second))) with (Second * 86400) by (unfold Second; lia).
    rewrite <- Z.div_div by (unfold Second; lia).
    pose proof (Z.div_mod (t / Second) 86400 ltac:(lia)) as Hdm. fold s in Hdm.
    pose proof (Z.div_mod s 60 ltac:(lia)). pose proof (Z.div_mod (s / 60) 60 ltac:(lia)) as Hh.
    rewrite Z.div_div in Hh by lia. change (60 * 60) with 3600 in Hh. lia.
  - rewrite !andb_true_iff, !Z.leb_le. lia.
Qed.

Lemma rfc3339_roundtrip_witness :
  parse_rfc3339 (format_rfc3339 1790000000123456789) = Some 1790000000000000000 /\
  format_rfc3339 1790000000123456789 = "2026-09-21T14:13:20Z".
Proof.
  split; [|vm_compute; reflexivity].
  change (Some 1790000000000000000) with (Some (1790000000123456789 / Second * Second)).
  apply rfc3339_roundtrip. vm_compute. split; discriminate.
Defined.

(** Days written alike are the same day. *)
Lemma format_day_inj t1 t2 :
  0 <= year_of t1 <= 9999 -> 0 <= year_of t2 <= 9999 ->
  format_day t1 = format_day t2 -> day_number t1 = day_number t2.
Proof.
  unfold year_of, format_day.
  destruct (civil (day_number t1)) as [[y1 m1] d1] eqn:E1.
  destruct (civil (day_number t2)) as [[y2 m2] d2] eqn:E2. cbn [fst snd]. intros H1 H2 Heq.
  pose proof (civil_facts _ _ _ _ E1) as (? & ? & _).
  pose proof (civil_facts _ _ _ _ E2) as (? & ? & _).
  assert (forall y m, days_in y m <= 31) as H31 by (intros; unfold days_in; repeat case_cond; lia).
  pose proof (H31 y1 m1). pose proof (H31 y2 m2).
  apply civil_inj. rewrite E1, E2.
  destruct (read2_pad4 y1 ("-" ++s pad2 m1 ++s "-" ++s pad2 d1) H1) as (r1 & A1 & B1).
  destruct (read2_pad4 y2 ("-" ++s pad2 m2 ++s "-" ++s pad2 d2) H2) as (r2 & A2 & B2).
  rewrite Heq, A2 in A1. injection A1 as Ha Hr. rewrite <- Hr, B2 in B1.
  assert (y2 mod 100 = y1 mod 100) as Hb by congruence.
  assert (Hrest : "-" ++s (pad2 m2 ++s "-" ++s pad2 d2) = "-" ++s (pad2 m1 ++s "-" ++s pad2 d1))
    by congruence.
  apply str_app_inj_l in Hrest.
  assert (y1 = y2) as ->
    by (rewrite (Z.div_mod y1 100), (Z.div_mod y2 100) by lia; congruence).
  pose proof (f_equal read2 Hrest) as Hm. rewrite !read2_pad2 in Hm by lia.
  assert (m2 = m1) as -> by congruence.
  apply str_app_inj_l, str_app_inj_l in Hrest.
  pose proof (f_equal (fun s => read2 (s ++s "")) Hrest) as Hd. cbv beta in Hd.
  rewrite !read2_pad2 in Hd by lia. congruence.
Qed.

Lemma digit_char_no_colon n : Ascii.eqb ":" (digit_char (n mod 10)) = false.
Proof.
  pose proof (Z.mod_pos_bound n 10 ltac:(lia)) as Hb.
  assert (negb (Ascii.eqb ":" (digit_char (n mod 10))) = true) as H; [|by apply negb_true_iff].
  apply (all_below_spec (fun k => negb (Ascii.eqb ":" (digit_char k))) 10 0); [by vm_compute|lia].
Qed.

Lemma pad2_no_colon n : has_byte ":" (pad2 n) = false.
Proof. unfold pad2. cbn [has_byte]. by rewrite !digit_char_no_colon. Qed.

Lemma format_day_no_colon t : 0 <= year_of t <= 9999 -> has_byte ":" (format_day t) = false.
Proof.
  unfold year_of, format_day. destruct (civil (day_number t)) as [[y m] d]. cbn [fst snd].
  intros Hy. rewrite !has_byte_app, !pad2_no_colon. unfold pad4.
  rewrite (proj2 (andb_true_iff _ _)) by (split; apply Z.leb_le; lia).
  by rewrite !has_byte_app, !pad2_no_colon.
Qed.

Lemma format_day_day t1 t2 : day_number t1 = day_number t2 -> format_day t1 = format_day t2.
Proof. unfold format_day. by intros ->. Qed.
