(* ===== verification/Schema.v ===== *)
(** The tables of the control plane (migrations/*.sql) and the state of the
    process around them.

    Each table is a map from primary key to row.  The foreign keys and unique
    indexes that the program's statements can violate are boolean checks here
    and are used by the statements of the other files.  [world] adds to the
    tables what a rollback does not undo: the audit events written on the pool,
    the blobs on disk, the clock and the source of fresh uuids. *)
From S2P Require Import Prelude GoStrings Effects.

#[local] Set Warnings "-register-all".

(** JSON values, as stored in [jsonb] columns; object keys are unique. *)
Inductive json :=
| JNull
| JBool (b : bool)
| JNum (z : Z)
| JStr (s : string)
| JArr (l : list json)
| JObj (l : list (string * json)).

(** The member of an object, absent for every other value. *)
Definition jget (k : string) (j : json) : option json :=
  match j with
  | JObj l => snd <$> List.find (fun kv => kv.1 =s k) l
  | _ => None
  end.

(** SQL [j->>k]: only strings can equal the texts the program compares with. *)
Definition jget_text (k : string) (j : json) : option string :=
  match jget k j with Some (JStr s) => Some s | _ => None end.

(** Package google/uuid: the textual form of an identifier and its reader. *)
Class UuidText := {
  uuid_text : uuid -> string;
  uuid_parse : string -> option uuid;
}.

(** What the program relies on: the text is read back, has no colon and has at
    least the eight characters the code slices off. *)
Class UuidTextLaws `{UuidText} := {
  uuid_parse_text u : uuid_parse (uuid_text u) = Some u;
  uuid_text_no_colon u : has_byte ":" (uuid_text u) = false;
  uuid_text_length u : (8 <= String.length (uuid_text u))%nat;
}.

Lemma uuid_text_inj `{UuidTextLaws} u v : uuid_text u = uuid_text v -> u = v.
Proof. intros E. pose proof (uuid_parse_text u) as Hu. rewrite E, uuid_parse_text in Hu. congruence. Qed.

(** A row of [jobs]: the fields of [jobs.Job], in its order, and the columns only the
    service's statements use. *)
Record job := MkJob {
  j_id : uuid;
  j_job_type : string;
  j_device_id : option uuid;
  j_application_id : option uuid;
  j_state : string;
  j_attempt : Z;
  j_progress : Z;
  j_parameters : json;
  j_claimed_by : option uuid;
  j_lease_expires_at : option instant;
  j_error_category : option string;
  j_error_details : option string;
  j_retry_at : option instant;
  j_result : option json;
  j_parent_job_id : option uuid;
  j_purpose : option string;
  j_created_at : instant;
  j_started_at : option instant;
  j_completed_at : option instant;
  j_updated_at : instant;
  j_idempotency_key : string;
  j_max_attempts : Z;
  j_requires_attention : bool;
  j_last_failure_class : option string;
  j_dead_reason : option string
}.

Definition set_j_state (v : string) (j : job) : job :=
  MkJob (j_id j) (j_job_type j) (j_device_id j) (j_application_id j) v (j_attempt j)
    (j_progress j) (j_parameters j) (j_claimed_by j) (j_lease_expires_at j)
    (j_error_category j) (j_error_details j) (j_retry_at j) (j_result j)
    (j_parent_job_id j) (j_purpose j) (j_created_at j) (j_started_at j) (j_completed_at
    j) (j_updated_at j) (j_idempotency_key j) (j_max_attempts j) (j_requires_attention
    j) (j_last_failure_class j) (j_dead_reason j).
Definition set_j_attempt (v : Z) (j : job) : job :=
  MkJob (j_id j) (j_job_type j) (j_device_id j) (j_application_id j) (j_state j) v
    (j_progress j) (j_parameters j) (j_claimed_by j) (j_lease_expires_at j)
    (j_error_category j) (j_error_details j) (j_retry_at j) (j_result j)
    (j_parent_job_id j) (j_purpose j) (j_created_at j) (j_started_at j) (j_completed_at
    j) (j_updated_at j) (j_idempotency_key j) (j_max_attempts j) (j_requires_attention
    j) (j_last_failure_class j) (j_dead_reason j).
Definition set_j_progress (v : Z) (j : job) : job :=
  MkJob (j_id j) (j_job_type j) (j_device_id j) (j_application_id j) (j_state j)
    (j_attempt j) v (j_parameters j) (j_claimed_by j) (j_lease_expires_at j)
    (j_error_category j) (j_error_details j) (j_retry_at j) (j_result j)
    (j_parent_job_id j) (j_purpose j) (j_created_at j) (j_started_at j) (j_completed_at
    j) (j_updated_at j) (j_idempotency_key j) (j_max_attempts j) (j_requires_attention
    j) (j_last_failure_class j) (j_dead_reason j).
Definition set_j_claimed_by (v : option uuid) (j : job) : job :=
  MkJob (j_id j) (j_job_type j) (j_device_id j) (j_application_id j) (j_state j)
    (j_attempt j) (j_progress j) (j_parameters j) v (j_lease_expires_at j)
    (j_error_category j) (j_error_details j) (j_retry_at j) (j_result j)
    (j_parent_job_id j) (j_purpose j) (j_created_at j) (j_started_at j) (j_completed_at
    j) (j_updated_at j) (j_idempotency_key j) (j_max_attempts j) (j_requires_attention
    j) (j_last_failure_class j) (j_dead_reason j).
Definition set_j_lease_expires_at (v : option instant) (j : job) : job :=
  MkJob (j_id j) (j_job_type j) (j_device_id j) (j_application_id j) (j_state j)
    (j_attempt j) (j_progress j) (j_parameters j) (j_claimed_by j) v (j_error_category
    j) (j_error_details j) (j_retry_at j) (j_result j) (j_parent_job_id j) (j_purpose j)
    (j_created_at j) (j_started_at j) (j_completed_at j) (j_updated_at j)
    (j_idempotency_key j) (j_max_attempts j) (j_requires_attention j)
    (j_last_failure_class j) (j_dead_reason j).
Definition set_j_error_category (v : option string) (j : job) : job :=
  MkJob (j_id j) (j_job_type j) (j_device_id j) (j_application_id j) (j_state j)
    (j_attempt j) (j_progress j) (j_parameters j) (j_claimed_by j) (j_lease_expires_at
    j) v (j_error_details j) (j_retry_at j) (j_result j) (j_parent_job_id j) (j_purpose
    j) (j_created_at j) (j_started_at j) (j_completed_at j) (j_updated_at j)
    (j_idempotency_key j) (j_max_attempts j) (j_requires_attention j)
    (j_last_failure_class j) (j_dead_reason j).
Definition set_j_error_details (v : option string) (j : job) : job :=
  MkJob (j_id j) (j_job_type j) (j_device_id j) (j_application_id j) (j_state j)
    (j_attempt j) (j_progress j) (j_parameters j) (j_claimed_by j) (j_lease_expires_at
    j) (j_error_category j) v (j_retry_at j) (j_result j) (j_parent_job_id j) (j_purpose
    j) (j_created_at j) (j_started_at j) (j_completed_at j) (j_updated_at j)
    (j_idempotency_key j) (j_max_attempts j) (j_requires_attention j)
    (j_last_failure_class j) (j_dead_reason j).
Definition set_j_retry_at (v : option instant) (j : job) : job :=
  MkJob (j_id j) (j_job_type j) (j_device_id j) (j_application_id j) (j_state j)
    (j_attempt j) (j_progress j) (j_parameters j) (j_claimed_by j) (j_lease_expires_at
    j) (j_error_category j) (j_error_details j) v (j_result j) (j_parent_job_id j)
    (j_purpose j) (j_created_at j) (j_started_at j) (j_completed_at j) (j_updated_at j)
    (j_idempotency_key j) (j_max_attempts j) (j_requires_attention j)
    (j_last_failure_class j) (j_dead_reason j).
Definition set_j_result (v : option json) (j : job) : job :=
  MkJob (j_id j) (j_job_type j) (j_device_id j) (j_application_id j) (j_state j)
    (j_attempt j) (j_progress j) (j_parameters j) (j_claimed_by j) (j_lease_expires_at
    j) (j_error_category j) (j_error_details j) (j_retry_at j) v (j_parent_job_id j)
    (j_purpose j) (j_created_at j) (j_started_at j) (j_completed_at j) (j_updated_at j)
    (j_idempotency_key j) (j_max_attempts j) (j_requires_attention j)
    (j_last_failure_class j) (j_dead_reason j).
Definition set_j_parent_job_id (v : option uuid) (j : job) : job :=
  MkJob (j_id j) (j_job_type j) (j_device_id j) (j_application_id j) (j_state j)
    (j_attempt j) (j_progress j) (j_parameters j) (j_claimed_by j) (j_lease_expires_at
    j) (j_error_category j) (j_error_details j) (j_retry_at j) (j_result j) v (j_purpose
    j) (j_created_at j) (j_started_at j) (j_completed_at j) (j_updated_at j)
    (j_idempotency_key j) (j_max_attempts j) (j_requires_attention j)
    (j_last_failure_class j) (j_dead_reason j).
Definition set_j_started_at (v : option instant) (j : job) : job :=
  MkJob (j_id j) (j_job_type j) (j_device_id j) (j_application_id j) (j_state j)
    (j_attempt j) (j_progress j) (j_parameters j) (j_claimed_by j) (j_lease_expires_at
    j) (j_error_category j) (j_error_details j) (j_retry_at j) (j_result j)
    (j_parent_job_id j) (j_purpose j) (j_created_at j) v (j_completed_at j)
    (j_updated_at j) (j_idempotency_key j) (j_max_attempts j) (j_requires_attention j)
    (j_last_failure_class j) (j_dead_reason j).
Definition set_j_completed_at (v : option instant) (j : job) : job :=
  MkJob (j_id j) (j_job_type j) (j_device_id j) (j_application_id j) (j_state j)
    (j_attempt j) (j_progress j) (j_parameters j) (j_claimed_by j) (j_lease_expires_at
    j) (j_error_category j) (j_error_details j) (j_retry_at j) (j_result j)
    (j_parent_job_id j) (j_purpose j) (j_created_at j) (j_started_at j) v (j_updated_at
    j) (j_idempotency_key j) (j_max_attempts j) (j_requires_attention j)
    (j_last_failure_class j) (j_dead_reason j).
Definition set_j_updated_at (v : instant) (j : job) : job :=
  MkJob (j_id j) (j_job_type j) (j_device_id j) (j_application_id j) (j_state j)
    (j_attempt j) (j_progress j) (j_parameters j) (j_claimed_by j) (j_lease_expires_at
    j) (j_error_category j) (j_error_details j) (j_retry_at j) (j_result j)
    (j_parent_job_id j) (j_purpose j) (j_created_at j) (j_started_at j) (j_completed_at
    j) v (j_idempotency_key j) (j_max_attempts j) (j_requires_attention j)
    (j_last_failure_class j) (j_dead_reason j).
Definition set_j_requires_attention (v : bool) (j : job) : job :=
  MkJob (j_id j) (j_job_type j) (j_device_id j) (j_application_id j) (j_state j)
    (j_attempt j) (j_progress j) (j_parameters j) (j_claimed_by j) (j_lease_expires_at
    j) (j_error_category j) (j_error_details j) (j_retry_at j) (j_result j)
    (j_parent_job_id j) (j_purpose j) (j_created_at j) (j_started_at j) (j_completed_at
    j) (j_updated_at j) (j_idempotency_key j) (j_max_attempts j) v (j_last_failure_class
    j) (j_dead_reason j).
Definition set_j_last_failure_class (v : option string) (j : job) : job :=
  MkJob (j_id j) (j_job_type j) (j_device_id j) (j_application_id j) (j_state j)
    (j_attempt j) (j_progress j) (j_parameters j) (j_claimed_by j) (j_lease_expires_at
    j) (j_error_category j) (j_error_details j) (j_retry_at j) (j_result j)
    (j_parent_job_id j) (j_purpose j) (j_created_at j) (j_started_at j) (j_completed_at
    j) (j_updated_at j) (j_idempotency_key j) (j_max_attempts j) (j_requires_attention
    j) v (j_dead_reason j).
Definition set_j_dead_reason (v : option string) (j : job) : job :=
  MkJob (j_id j) (j_job_type j) (j_device_id j) (j_application_id j) (j_state j)
    (j_attempt j) (j_progress j) (j_parameters j) (j_claimed_by j) (j_lease_expires_at
    j) (j_error_category j) (j_error_details j) (j_retry_at j) (j_result j)
    (j_parent_job_id j) (j_purpose j) (j_created_at j) (j_started_at j) (j_completed_at
    j) (j_updated_at j) (j_idempotency_key j) (j_max_attempts j) (j_requires_attention
    j) (j_last_failure_class j) v.

(** A row of [agents]. *)
Record agent := MkAgent {
  ag_id : uuid;
  ag_name : string;
  ag_architecture : option string;
  ag_operating_system : option string;
  ag_software_version : option string;
  ag_tailnet_identity : option string;
  ag_connection_state : string;
  ag_last_heartbeat_at : option instant;
  ag_capabilities : json;
  ag_role : string;
  ag_api_key_hash : option string;
  ag_api_key_id : option string;
  ag_updated_at : instant
}.

Definition set_ag_connection_state (v : string) (a : agent) : agent :=
  MkAgent (ag_id a) (ag_name a) (ag_architecture a) (ag_operating_system a)
    (ag_software_version a) (ag_tailnet_identity a) v (ag_last_heartbeat_at a)
    (ag_capabilities a) (ag_role a) (ag_api_key_hash a) (ag_api_key_id a) (ag_updated_at
    a).
Definition set_ag_last_heartbeat_at (v : option instant) (a : agent) : agent :=
  MkAgent (ag_id a) (ag_name a) (ag_architecture a) (ag_operating_system a)
    (ag_software_version a) (ag_tailnet_identity a) (ag_connection_state a) v
    (ag_capabilities a) (ag_role a) (ag_api_key_hash a) (ag_api_key_id a) (ag_updated_at
    a).
Definition set_ag_capabilities (v : json) (a : agent) : agent :=
  MkAgent (ag_id a) (ag_name a) (ag_architecture a) (ag_operating_system a)
    (ag_software_version a) (ag_tailnet_identity a) (ag_connection_state a)
    (ag_last_heartbeat_at a) v (ag_role a) (ag_api_key_hash a) (ag_api_key_id a)
    (ag_updated_at a).
Definition set_ag_role (v : string) (a : agent) : agent :=
  MkAgent (ag_id a) (ag_name a) (ag_architecture a) (ag_operating_system a)
    (ag_software_version a) (ag_tailnet_identity a) (ag_connection_state a)
    (ag_last_heartbeat_at a) (ag_capabilities a) v (ag_api_key_hash a) (ag_api_key_id a)
    (ag_updated_at a).
Definition set_ag_updated_at (v : instant) (a : agent) : agent :=
  MkAgent (ag_id a) (ag_name a) (ag_architecture a) (ag_operating_system a)
    (ag_software_version a) (ag_tailnet_identity a) (ag_connection_state a)
    (ag_last_heartbeat_at a) (ag_capabilities a) (ag_role a) (ag_api_key_hash a)
    (ag_api_key_id a) v.

(** A row of [devices]. *)
Record device := MkDevice {
  dv_id : uuid;
  dv_udid : string;
  dv_platform : string;
  dv_device_name : option string;
  dv_model : option string;
  dv_os_version : option string;
  dv_agent_id : option uuid;
  dv_pairing_status : string;
  dv_developer_mode_enabled : option bool;
  dv_last_connected_at : option instant
}.

Definition set_dv_platform (v : string) (d : device) : device :=
  MkDevice (dv_id d) (dv_udid d) v (dv_device_name d) (dv_model d) (dv_os_version d)
    (dv_agent_id d) (dv_pairing_status d) (dv_developer_mode_enabled d)
    (dv_last_connected_at d).
Definition set_dv_device_name (v : option string) (d : device) : device :=
  MkDevice (dv_id d) (dv_udid d) (dv_platform d) v (dv_model d) (dv_os_version d)
    (dv_agent_id d) (dv_pairing_status d) (dv_developer_mode_enabled d)
    (dv_last_connected_at d).
Definition set_dv_model (v : option string) (d : device) : device :=
  MkDevice (dv_id d) (dv_udid d) (dv_platform d) (dv_device_name d) v (dv_os_version d)
    (dv_agent_id d) (dv_pairing_status d) (dv_developer_mode_enabled d)
    (dv_last_connected_at d).
Definition set_dv_os_version (v : option string) (d : device) : device :=
  MkDevice (dv_id d) (dv_udid d) (dv_platform d) (dv_device_name d) (dv_model d) v
    (dv_agent_id d) (dv_pairing_status d) (dv_developer_mode_enabled d)
    (dv_last_connected_at d).
Definition set_dv_agent_id (v : option uuid) (d : device) : device :=
  MkDevice (dv_id d) (dv_udid d) (dv_platform d) (dv_device_name d) (dv_model d)
    (dv_os_version d) v (dv_pairing_status d) (dv_developer_mode_enabled d)
    (dv_last_connected_at d).
Definition set_dv_pairing_status (v : string) (d : device) : device :=
  MkDevice (dv_id d) (dv_udid d) (dv_platform d) (dv_device_name d) (dv_model d)
    (dv_os_version d) (dv_agent_id d) v (dv_developer_mode_enabled d)
    (dv_last_connected_at d).
Definition set_dv_developer_mode_enabled (v : option bool) (d : device) : device :=
  MkDevice (dv_id d) (dv_udid d) (dv_platform d) (dv_device_name d) (dv_model d)
    (dv_os_version d) (dv_agent_id d) (dv_pairing_status d) v (dv_last_connected_at d).
Definition set_dv_last_connected_at (v : option instant) (d : device) : device :=
  MkDevice (dv_id d) (dv_udid d) (dv_platform d) (dv_device_name d) (dv_model d)
    (dv_os_version d) (dv_agent_id d) (dv_pairing_status d) (dv_developer_mode_enabled
    d) v.

(** A row of [apple_accounts]. *)
Record account := MkAccount {
  ac_id : uuid;
  ac_label : string;
  ac_team_identifier : option string;
  ac_auth_state : string;
  ac_last_auth_at : option instant;
  ac_registered_app_id_count : Z;
  ac_registered_device_count : Z;
  ac_app_id_max_quantity : option Z;
  ac_app_id_available_quantity : option Z
}.

Definition set_ac_auth_state (v : string) (a : account) : account :=
  MkAccount (ac_id a) (ac_label a) (ac_team_identifier a) v (ac_last_auth_at a)
    (ac_registered_app_id_count a) (ac_registered_device_count a)
    (ac_app_id_max_quantity a) (ac_app_id_available_quantity a).
Definition set_ac_last_auth_at (v : option instant) (a : account) : account :=
  MkAccount (ac_id a) (ac_label a) (ac_team_identifier a) (ac_auth_state a) v
    (ac_registered_app_id_count a) (ac_registered_device_count a)
    (ac_app_id_max_quantity a) (ac_app_id_available_quantity a).
Definition set_ac_registered_app_id_count (v : Z) (a : account) : account :=
  MkAccount (ac_id a) (ac_label a) (ac_team_identifier a) (ac_auth_state a)
    (ac_last_auth_at a) v (ac_registered_device_count a) (ac_app_id_max_quantity a)
    (ac_app_id_available_quantity a).
Definition set_ac_registered_device_count (v : Z) (a : account) : account :=
  MkAccount (ac_id a) (ac_label a) (ac_team_identifier a) (ac_auth_state a)
    (ac_last_auth_at a) (ac_registered_app_id_count a) v (ac_app_id_max_quantity a)
    (ac_app_id_available_quantity a).
Definition set_ac_app_id_max_quantity (v : option Z) (a : account) : account :=
  MkAccount (ac_id a) (ac_label a) (ac_team_identifier a) (ac_auth_state a)
    (ac_last_auth_at a) (ac_registered_app_id_count a) (ac_registered_device_count a) v
    (ac_app_id_available_quantity a).
Definition set_ac_app_id_available_quantity (v : option Z) (a : account) : account :=
  MkAccount (ac_id a) (ac_label a) (ac_team_identifier a) (ac_auth_state a)
    (ac_last_auth_at a) (ac_registered_app_id_count a) (ac_registered_device_count a)
    (ac_app_id_max_quantity a) v.

(** A row of [certificates]. *)
Record certificate := MkCert {
  ce_id : uuid;
  ce_serial_number : option string;
  ce_account_id : uuid;
  ce_key_ref : string;
  ce_revoked : bool;
  ce_revoked_at : option instant;
  ce_revoked_reason : option string
}.

Definition set_ce_account_id (v : uuid) (c : certificate) : certificate :=
  MkCert (ce_id c) (ce_serial_number c) v (ce_key_ref c) (ce_revoked c) (ce_revoked_at
    c) (ce_revoked_reason c).
Definition set_ce_revoked (v : bool) (c : certificate) : certificate :=
  MkCert (ce_id c) (ce_serial_number c) (ce_account_id c) (ce_key_ref c) v
    (ce_revoked_at c) (ce_revoked_reason c).
Definition set_ce_revoked_at (v : option instant) (c : certificate) : certificate :=
  MkCert (ce_id c) (ce_serial_number c) (ce_account_id c) (ce_key_ref c) (ce_revoked c)
    v (ce_revoked_reason c).
Definition set_ce_revoked_reason (v : option string) (c : certificate) : certificate :=
  MkCert (ce_id c) (ce_serial_number c) (ce_account_id c) (ce_key_ref c) (ce_revoked c)
    (ce_revoked_at c) v.

(** A row of [artifacts]: an original IPA. *)
Record artifact := MkArtifact {
  ar_id : uuid;
  ar_sha256 : string;
  ar_filename : string;
  ar_version : option string;
  ar_build_number : option string;
  ar_bundle_identifier : option string;
  ar_platform : option string;
  ar_min_os_version : option string;
  ar_extensions : list string;
  ar_source : option string;
  ar_quarantine_state : string;
  ar_imported_at : instant
}.

Definition set_ar_filename (v : string) (a : artifact) : artifact :=
  MkArtifact (ar_id a) (ar_sha256 a) v (ar_version a) (ar_build_number a)
    (ar_bundle_identifier a) (ar_platform a) (ar_min_os_version a) (ar_extensions a)
    (ar_source a) (ar_quarantine_state a) (ar_imported_at a).
Definition set_ar_quarantine_state (v : string) (a : artifact) : artifact :=
  MkArtifact (ar_id a) (ar_sha256 a) (ar_filename a) (ar_version a) (ar_build_number a)
    (ar_bundle_identifier a) (ar_platform a) (ar_min_os_version a) (ar_extensions a)
    (ar_source a) v (ar_imported_at a).

(** A row of [signed_artifacts]: a signed derivative. *)
Record signed_artifact := MkSigned {
  sa_id : uuid;
  sa_source_artifact_id : uuid;
  sa_device_id : uuid;
  sa_account_id : uuid;
  sa_certificate_id : option uuid;
  sa_provisioning_profile_ref : option string;
  sa_signed_bundle_identifier : option string;
  sa_profile_expiry_at : option instant;
  sa_signed_ipa_sha256 : option string;
  sa_job_id : option uuid
}.

(** A row of [deployments]. *)
Record deployment := MkDeployment {
  dp_id : uuid;
  dp_device_id : uuid;
  dp_refresh_policy : option json;
  dp_rollback_artifact_id : option uuid;
  dp_next_refresh_due_at : option instant;
  dp_last_refresh_at : option instant;
  dp_last_refresh_result : option string;
  dp_last_refresh_error : option string
}.

Definition set_dp_rollback_artifact_id (v : option uuid) (d : deployment) : deployment :=
  MkDeployment (dp_id d) (dp_device_id d) (dp_refresh_policy d) v
    (dp_next_refresh_due_at d) (dp_last_refresh_at d) (dp_last_refresh_result d)
    (dp_last_refresh_error d).
Definition set_dp_next_refresh_due_at (v : option instant) (d : deployment) : deployment :=
  MkDeployment (dp_id d) (dp_device_id d) (dp_refresh_policy d) (dp_rollback_artifact_id
    d) v (dp_last_refresh_at d) (dp_last_refresh_result d) (dp_last_refresh_error d).
Definition set_dp_last_refresh_at (v : option instant) (d : deployment) : deployment :=
  MkDeployment (dp_id d) (dp_device_id d) (dp_refresh_policy d) (dp_rollback_artifact_id
    d) (dp_next_refresh_due_at d) v (dp_last_refresh_result d) (dp_last_refresh_error d).
Definition set_dp_last_refresh_result (v : option string) (d : deployment) : deployment :=
  MkDeployment (dp_id d) (dp_device_id d) (dp_refresh_policy d) (dp_rollback_artifact_id
    d) (dp_next_refresh_due_at d) (dp_last_refresh_at d) v (dp_last_refresh_error d).
Definition set_dp_last_refresh_error (v : option string) (d : deployment) : deployment :=
  MkDeployment (dp_id d) (dp_device_id d) (dp_refresh_policy d) (dp_rollback_artifact_id
    d) (dp_next_refresh_due_at d) (dp_last_refresh_at d) (dp_last_refresh_result d) v.

(** A row of [installation_records]. *)
Record installation := MkInstallation {
  ir_id : uuid;
  ir_deployment_id : uuid;
  ir_provisioning_expiry_at : option instant;
  ir_verified_at : option instant;
  ir_signed_artifact_id : option uuid;
  ir_install_job_id : option uuid
}.

Definition set_ir_provisioning_expiry_at (v : option instant) (i : installation) : installation :=
  MkInstallation (ir_id i) (ir_deployment_id i) v (ir_verified_at i)
    (ir_signed_artifact_id i) (ir_install_job_id i).
Definition set_ir_verified_at (v : option instant) (i : installation) : installation :=
  MkInstallation (ir_id i) (ir_deployment_id i) (ir_provisioning_expiry_at i) v
    (ir_signed_artifact_id i) (ir_install_job_id i).
Definition set_ir_signed_artifact_id (v : option uuid) (i : installation) : installation :=
  MkInstallation (ir_id i) (ir_deployment_id i) (ir_provisioning_expiry_at i)
    (ir_verified_at i) v (ir_install_job_id i).
Definition set_ir_install_job_id (v : option uuid) (i : installation) : installation :=
  MkInstallation (ir_id i) (ir_deployment_id i) (ir_provisioning_expiry_at i)
    (ir_verified_at i) (ir_signed_artifact_id i) v.

(** A row of [agent_enrolment_tokens]. *)
Record enrolment_token := MkEnrolToken {
  et_id : uuid;
  et_token_hash : string;
  et_token_key : option string;
  et_label : string;
  et_role : string;
  et_created_by : string;
  et_expires_at : option instant;
  et_used_at : option instant;
  et_used_by_agent : option uuid
}.

Definition set_et_used_at (v : option instant) (t : enrolment_token) : enrolment_token :=
  MkEnrolToken (et_id t) (et_token_hash t) (et_token_key t) (et_label t) (et_role t)
    (et_created_by t) (et_expires_at t) v (et_used_by_agent t).
Definition set_et_used_by_agent (v : option uuid) (t : enrolment_token) : enrolment_token :=
  MkEnrolToken (et_id t) (et_token_hash t) (et_token_key t) (et_label t) (et_role t)
    (et_created_by t) (et_expires_at t) (et_used_at t) v.

(** A row of [device_api_tokens]. *)
Record device_token := MkDeviceToken {
  dt_id : uuid;
  dt_name : string;
  dt_key_id : string;
  dt_token_hash : string;
  dt_scopes : list string;
  dt_device_id : option uuid;
  dt_expires_at : option instant;
  dt_revoked_at : option instant;
  dt_last_used_at : option instant;
  dt_created_at : instant
}.

Definition set_dt_revoked_at (v : option instant) (t : device_token) : device_token :=
  MkDeviceToken (dt_id t) (dt_name t) (dt_key_id t) (dt_token_hash t) (dt_scopes t)
    (dt_device_id t) (dt_expires_at t) v (dt_last_used_at t) (dt_created_at t).
Definition set_dt_last_used_at (v : option instant) (t : device_token) : device_token :=
  MkDeviceToken (dt_id t) (dt_name t) (dt_key_id t) (dt_token_hash t) (dt_scopes t)
    (dt_device_id t) (dt_expires_at t) (dt_revoked_at t) v (dt_created_at t).

(** A row of [app_subscriptions]. *)
Record subscription := MkSubscription {
  su_bundle_id : string;
  su_name : string;
  su_seen_version : string;
  su_created_at : instant
}.

Definition set_su_name (v : string) (s : subscription) : subscription :=
  MkSubscription (su_bundle_id s) v (su_seen_version s) (su_created_at s).
Definition set_su_seen_version (v : string) (s : subscription) : subscription :=
  MkSubscription (su_bundle_id s) (su_name s) v (su_created_at s).

(** A row of [app_source_listings]. *)
Record listing := MkListing {
  li_source_id : string;
  li_bundle_id : string;
  li_name : string;
  li_latest_version : string;
  li_latest_download_url : string;
  li_latest_size : Z;
  li_latest_updated_at : string;
  li_seen_at : instant
}.

(** A row of [audit_events]. *)
Record event := MkEvent {
  ev_actor : string;
  ev_action : string;
  ev_device_id : option uuid;
  ev_application_id : option uuid;
  ev_artifact_sha256 : string;
  ev_previous_state : option json;
  ev_new_state : option json;
  ev_occurred_at : instant;
  ev_result : string
}.

Definition set_ev_device_id (v : option uuid) (e : event) : event :=
  MkEvent (ev_actor e) (ev_action e) v (ev_application_id e) (ev_artifact_sha256 e)
    (ev_previous_state e) (ev_new_state e) (ev_occurred_at e) (ev_result e).
Definition set_ev_application_id (v : option uuid) (e : event) : event :=
  MkEvent (ev_actor e) (ev_action e) (ev_device_id e) v (ev_artifact_sha256 e)
    (ev_previous_state e) (ev_new_state e) (ev_occurred_at e) (ev_result e).
Definition set_ev_artifact_sha256 (v : string) (e : event) : event :=
  MkEvent (ev_actor e) (ev_action e) (ev_device_id e) (ev_application_id e) v
    (ev_previous_state e) (ev_new_state e) (ev_occurred_at e) (ev_result e).
Definition set_ev_previous_state (v : option json) (e : event) : event :=
  MkEvent (ev_actor e) (ev_action e) (ev_device_id e) (ev_application_id e)
    (ev_artifact_sha256 e) v (ev_new_state e) (ev_occurred_at e) (ev_result e).
Definition set_ev_new_state (v : option json) (e : event) : event :=
  MkEvent (ev_actor e) (ev_action e) (ev_device_id e) (ev_application_id e)
    (ev_artifact_sha256 e) (ev_previous_state e) v (ev_occurred_at e) (ev_result e).
Definition set_ev_result (v : string) (e : event) : event :=
  MkEvent (ev_actor e) (ev_action e) (ev_device_id e) (ev_application_id e)
    (ev_artifact_sha256 e) (ev_previous_state e) (ev_new_state e) (ev_occurred_at e) v.

(** The database. *)
Record db := MkDb {
  t_jobs : gmap uuid job;
  t_applications : gmap uuid unit;
  t_agents : gmap uuid agent;
  t_devices : gmap uuid device;
  t_accounts : gmap uuid account;
  t_certificates : gmap uuid certificate;
  t_artifacts : gmap uuid artifact;
  t_signed_artifacts : gmap uuid signed_artifact;
  t_deployments : gmap uuid deployment;
  t_installations : gmap uuid installation;
  t_enrolment_tokens : gmap uuid enrolment_token;
  t_device_tokens : gmap uuid device_token;
  t_subscriptions : gmap string subscription;
  t_listings : gmap (string * string) listing;
  t_audit : list event
}.

Definition on_jobs (f : gmap uuid job -> gmap uuid job) (d : db) : db :=
  MkDb (f (t_jobs d)) (t_applications d) (t_agents d) (t_devices d) (t_accounts d)
    (t_certificates d) (t_artifacts d) (t_signed_artifacts d) (t_deployments d)
    (t_installations d) (t_enrolment_tokens d) (t_device_tokens d) (t_subscriptions d)
    (t_listings d) (t_audit d).
Definition on_applications (f : gmap uuid unit -> gmap uuid unit) (d : db) : db :=
  MkDb (t_jobs d) (f (t_applications d)) (t_agents d) (t_devices d) (t_accounts d)
    (t_certificates d) (t_artifacts d) (t_signed_artifacts d) (t_deployments d)
    (t_installations d) (t_enrolment_tokens d) (t_device_tokens d) (t_subscriptions d)
    (t_listings d) (t_audit d).
Definition on_agents (f : gmap uuid agent -> gmap uuid agent) (d : db) : db :=
  MkDb (t_jobs d) (t_applications d) (f (t_agents d)) (t_devices d) (t_accounts d)
    (t_certificates d) (t_artifacts d) (t_signed_artifacts d) (t_deployments d)
    (t_installations d) (t_enrolment_tokens d) (t_device_tokens d) (t_subscriptions d)
    (t_listings d) (t_audit d).
Definition on_devices (f : gmap uuid device -> gmap uuid device) (d : db) : db :=
  MkDb (t_jobs d) (t_applications d) (t_agents d) (f (t_devices d)) (t_accounts d)
    (t_certificates d) (t_artifacts d) (t_signed_artifacts d) (t_deployments d)
    (t_installations d) (t_enrolment_tokens d) (t_device_tokens d) (t_subscriptions d)
    (t_listings d) (t_audit d).
Definition on_accounts (f : gmap uuid account -> gmap uuid account) (d : db) : db :=
  MkDb (t_jobs d) (t_applications d) (t_agents d) (t_devices d) (f (t_accounts d))
    (t_certificates d) (t_artifacts d) (t_signed_artifacts d) (t_deployments d)
    (t_installations d) (t_enrolment_tokens d) (t_device_tokens d) (t_subscriptions d)
    (t_listings d) (t_audit d).
Definition on_certificates (f : gmap uuid certificate -> gmap uuid certificate) (d : db) : db :=
  MkDb (t_jobs d) (t_applications d) (t_agents d) (t_devices d) (t_accounts d) (f
    (t_certificates d)) (t_artifacts d) (t_signed_artifacts d) (t_deployments d)
    (t_installations d) (t_enrolment_tokens d) (t_device_tokens d) (t_subscriptions d)
    (t_listings d) (t_audit d).
Definition on_artifacts (f : gmap uuid artifact -> gmap uuid artifact) (d : db) : db :=
  MkDb (t_jobs d) (t_applications d) (t_agents d) (t_devices d) (t_accounts d)
    (t_certificates d) (f (t_artifacts d)) (t_signed_artifacts d) (t_deployments d)
    (t_installations d) (t_enrolment_tokens d) (t_device_tokens d) (t_subscriptions d)
    (t_listings d) (t_audit d).
Definition on_signed_artifacts (f : gmap uuid signed_artifact -> gmap uuid signed_artifact) (d : db) : db :=
  MkDb (t_jobs d) (t_applications d) (t_agents d) (t_devices d) (t_accounts d)
    (t_certificates d) (t_artifacts d) (f (t_signed_artifacts d)) (t_deployments d)
    (t_installations d) (t_enrolment_tokens d) (t_device_tokens d) (t_subscriptions d)
    (t_listings d) (t_audit d).
Definition on_deployments (f : gmap uuid deployment -> gmap uuid deployment) (d : db) : db :=
  MkDb (t_jobs d) (t_applications d) (t_agents d) (t_devices d) (t_accounts d)
    (t_certificates d) (t_artifacts d) (t_signed_artifacts d) (f (t_deployments d))
    (t_installations d) (t_enrolment_tokens d) (t_device_tokens d) (t_subscriptions d)
    (t_listings d) (t_audit d).
Definition on_installations (f : gmap uuid installation -> gmap uuid installation) (d : db) : db :=
  MkDb (t_jobs d) (t_applications d) (t_agents d) (t_devices d) (t_accounts d)
    (t_certificates d) (t_artifacts d) (t_signed_artifacts d) (t_deployments d) (f
    (t_installations d)) (t_enrolment_tokens d) (t_device_tokens d) (t_subscriptions d)
    (t_listings d) (t_audit d).
Definition on_enrolment_tokens (f : gmap uuid enrolment_token -> gmap uuid enrolment_token) (d : db) : db :=
  MkDb (t_jobs d) (t_applications d) (t_agents d) (t_devices d) (t_accounts d)
    (t_certificates d) (t_artifacts d) (t_signed_artifacts d) (t_deployments d)
    (t_installations d) (f (t_enrolment_tokens d)) (t_device_tokens d) (t_subscriptions
    d) (t_listings d) (t_audit d).
Definition on_device_tokens (f : gmap uuid device_token -> gmap uuid device_token) (d : db) : db :=
  MkDb (t_jobs d) (t_applications d) (t_agents d) (t_devices d) (t_accounts d)
    (t_certificates d) (t_artifacts d) (t_signed_artifacts d) (t_deployments d)
    (t_installations d) (t_enrolment_tokens d) (f (t_device_tokens d)) (t_subscriptions
    d) (t_listings d) (t_audit d).
Definition on_subscriptions (f : gmap string subscription -> gmap string subscription) (d : db) : db :=
  MkDb (t_jobs d) (t_applications d) (t_agents d) (t_devices d) (t_accounts d)
    (t_certificates d) (t_artifacts d) (t_signed_artifacts d) (t_deployments d)
    (t_installations d) (t_enrolment_tokens d) (t_device_tokens d) (f (t_subscriptions
    d)) (t_listings d) (t_audit d).
Definition on_listings (f : gmap (string * string) listing -> gmap (string * string) listing) (d : db) : db :=
  MkDb (t_jobs d) (t_applications d) (t_agents d) (t_devices d) (t_accounts d)
    (t_certificates d) (t_artifacts d) (t_signed_artifacts d) (t_deployments d)
    (t_installations d) (t_enrolment_tokens d) (t_device_tokens d) (t_subscriptions d)
    (f (t_listings d)) (t_audit d).
Definition on_audit (f : list event -> list event) (d : db) : db :=
  MkDb (t_jobs d) (t_applications d) (t_agents d) (t_devices d) (t_accounts d)
    (t_certificates d) (t_artifacts d) (t_signed_artifacts d) (t_deployments d)
    (t_installations d) (t_enrolment_tokens d) (t_device_tokens d) (t_subscriptions d)
    (t_listings d) (f (t_audit d)).

(** The state of the process. *)
Record world := MkWorld {
  w_db : db;
  w_pool_audit : list event;      (** events written outside transactions *)
  w_blobs : gset string;          (** content hashes present in the blob store *)
  w_now : instant;                (** the clock, read by Go and by SQL [now()] *)
  w_fresh : uuid;                 (** the next uuid to be generated *)
}.

Definition set_db (f : db -> db) (w : world) : world :=
  MkWorld (f (w_db w)) (w_pool_audit w) (w_blobs w) (w_now w) (w_fresh w).
Definition set_pool_audit (f : list event -> list event) (w : world) : world :=
  MkWorld (w_db w) (f (w_pool_audit w)) (w_blobs w) (w_now w) (w_fresh w).
Definition set_blobs (f : gset string -> gset string) (w : world) : world :=
  MkWorld (w_db w) (w_pool_audit w) (f (w_blobs w)) (w_now w) (w_fresh w).
Definition set_now (t : instant) (w : world) : world :=
  MkWorld (w_db w) (w_pool_audit w) (w_blobs w) t (w_fresh w).
Definition set_fresh (u : uuid) (w : world) : world :=
  MkWorld (w_db w) (w_pool_audit w) (w_blobs w) (w_now w) u.

(** A rollback restores the tables only; identifiers are not handed out again
    ([w_fresh] never decreases, so the maximum is the later one). *)
Definition rollback (w0 w : world) : world :=
  set_fresh (N.max (w_fresh w0) (w_fresh w)) (set_db (fun _ => w_db w0) w).

Abbreviation W_jobs w := (t_jobs (w_db w)).
Abbreviation W_agents w := (t_agents (w_db w)).
Abbreviation W_devices w := (t_devices (w_db w)).
Abbreviation W_accounts w := (t_accounts (w_db w)).
Abbreviation W_certificates w := (t_certificates (w_db w)).
Abbreviation W_artifacts w := (t_artifacts (w_db w)).
Abbreviation W_signed w := (t_signed_artifacts (w_db w)).
Abbreviation W_deployments w := (t_deployments (w_db w)).
Abbreviation W_installations w := (t_installations (w_db w)).
Abbreviation W_enrolment_tokens w := (t_enrolment_tokens (w_db w)).
Abbreviation W_device_tokens w := (t_device_tokens (w_db w)).
Abbreviation W_subscriptions w := (t_subscriptions (w_db w)).
Abbreviation W_listings w := (t_listings (w_db w)).

(** [gen_random_uuid()] and [uuid.New()]: identifiers are never reused. *)
Definition fresh_uuid {E} : prog world E uuid :=
  Act (fun w => (w_fresh w, set_fresh (w_fresh w + 1)%N w)) Ret.

(** Foreign keys: [None] is SQL NULL, which every reference accepts. *)
Definition fk_ok {A} (r : option uuid) (t : gmap uuid A) : bool :=
  match r with None => true | Some i => bool_decide (is_Some (t !! i)) end.

Lemma fk_ok_true {A} (r : option uuid) (t : gmap uuid A) :
  fk_ok r t = true <-> forall i, r = Some i -> is_Some (t !! i).
Proof.
  destruct r as [i|]; simpl; [|naive_solver]. rewrite bool_decide_eq_true. naive_solver.
Qed.

#[global] Instance json_inhabited : Inhabited json := populate JNull.

(** ** Decoding into structs *)

(** A string member: absent and null are empty, another type is an error. *)
Definition str_member (k : string) (j : json) : option string :=
  match jget k j with
  | None | Some JNull => Some ""
  | Some (JStr s) => Some s
  | Some _ => None
  end.

Definition int_member (k : string) (j : json) : option (option Z) :=
  match jget k j with
  | None | Some JNull => Some None
  | Some (JNum z) => if (- 2 ^ 63 <=? z) && (z <? 2 ^ 63) then Some (Some z) else None
  | Some _ => None
  end.

Definition strs_member (k : string) (j : json) : option (list string) :=
  match jget k j with
  | None | Some JNull => Some []
  | Some (JArr l) => mapM (fun x => match x with JStr s => Some s | JNull => Some "" | _ => None end) l
  | Some _ => None
  end.

Definition is_struct (j : json) : option unit :=
  match j with JObj _ | JNull => Some tt | _ => None end.
