(* ===== verification/Samples.v ===== *)
(** Concrete instances for the witnesses: a textual form of identifiers that
    satisfies the laws, and an empty database. *)
From S2P Require Import Prelude GoStrings Effects Schema.

Fixpoint bits_of (p : positive) : string :=
  match p with
  | xH => "h"
  | xO p => String "0" (bits_of p)
  | xI p => String "1" (bits_of p)
  end.

Fixpoint of_bits (s : string) : option positive :=
  match s with
  | EmptyString => None
  | String c s' =>
      if Ascii.eqb c "h" then (if s' =s "" then Some xH else None)
      else if Ascii.eqb c "0" then xO <$> of_bits s'
      else if Ascii.eqb c "1" then xI <$> of_bits s'
      else None
  end.

Lemma of_bits_of p : of_bits (bits_of p) = Some p.
Proof. induction p; simpl; [by rewrite IHp..|done]. Qed.

Definition sample_text (u : uuid) : string :=
  "uuid-0b-" ++s match u with N0 => "z" | Npos p => bits_of p end.

Definition sample_parse (s : string) : option uuid :=
  if has_prefix "uuid-0b-" s then
    let r := trim_prefix "uuid-0b-" s in
    if r =s "z" then Some N0 else Npos <$> of_bits r
  else None.

#[local] Instance sample_uuid : UuidText := {
  uuid_text := sample_text;
  uuid_parse := sample_parse;
}.

Lemma bits_no_colon p : has_byte ":" (bits_of p) = false.
Proof. induction p; simpl; auto. Qed.

Lemma trim_sample r : trim_prefix "uuid-0b-" ("uuid-0b-" ++s r) = r.
Proof. simpl. done. Qed.

#[local] Instance sample_uuid_laws : UuidTextLaws.
Proof.
  split.
  - intros [|p]; [done|]. simpl. unfold sample_parse, sample_text.
    assert (has_prefix "uuid-0b-" ("uuid-0b-" ++s bits_of p) = true) as -> by done.
    rewrite trim_sample. rewrite bool_decide_eq_false_2.
    + by rewrite of_bits_of.
    + by destruct p.
  - intros [|p]; [done|]. simpl. apply bits_no_colon.
  - intros [|p]; simpl; [lia|]. lia.
Qed.

Definition empty_db : db := MkDb ∅ ∅ ∅ ∅ ∅ ∅ ∅ ∅ ∅ ∅ ∅ ∅ ∅ ∅ [].

(** Noon of the first day of the Unix era, no identifier used below 100. *)
Definition empty_world : world := MkWorld empty_db [] ∅ (12 * Hour) 100.
