(* ===== verification/AuditLog.v ===== *)
(** Package audit (internal/audit/audit.go): one event per state change.
    [Record] writes on the pool and never fails its caller; [RecordTx] is a
    statement of the caller's transaction, so its event and the state change it
    describes commit or vanish together. *)
From S2P Require Import Prelude GoStrings Effects Schema.

(** The options of an event, applied in order. *)
Definition Option_ := event -> event.

Definition WithDevice (id : option uuid) : Option_ := set_ev_device_id id.
Definition WithApplication (id : option uuid) : Option_ := set_ev_application_id id.
Definition WithArtifact (sha : string) : Option_ := set_ev_artifact_sha256 sha.
Definition WithState (previous current : json) : Option_ :=
  fun e => set_ev_new_state (Some current) (set_ev_previous_state (Some previous) e).
Definition WithData (current : json) : Option_ := set_ev_new_state (Some current).
Definition WithResult (result : string) : Option_ := set_ev_result result.

Definition new_event (actor action : string) (opts : list Option_) (now : instant) : event :=
  foldl (fun e o => o e) (MkEvent actor action None None "" None None now "ok") opts.

(** Best effort: a failed insert is logged and ignored. *)
Definition Record_ {E} (actor action : string) (opts : list Option_) : prog world E unit :=
  _ ← try_ Pool (writes (fun w =>
        set_pool_audit (fun l => new_event actor action opts (w_now w) :: l) w));
  Ret tt.

Definition RecordTx {E} (actor action : string) (opts : list Option_) (err : E)
    : prog world E unit :=
  must Tx (writes (fun w =>
    set_db (on_audit (fun l => new_event actor action opts (w_now w) :: l)) w))
    (fun _ => err).

(** The events of the audit table: those of transactions and those of the pool. *)
Definition audited (w : world) (actor action : string) : Prop :=
  exists e, (e ∈ t_audit (w_db w) \/ e ∈ w_pool_audit w) /\
            ev_actor e = actor /\ ev_action e = action.

(** Recording an event on the pool keeps every invariant of the tables. *)
Lemma keeps_Record (I : world -> Prop) {E} actor action opts :
  (forall w f, I w -> I (set_pool_audit f w)) ->
  keeps I (@Record_ E actor action opts).
Proof.
  intros HI. unfold Record_, try_, writes. simpl. apply keeps_stmt.
  - intros s x s' Hs [= <- <-]. by apply HI.
  - intros o. apply keeps_ret.
Qed.

(** An event on the pool, followed by the rest of the handler. *)
Lemma wp_Record_bind {E A} actor action opts (k : unit -> prog world E A) Q w :
  wp (k tt) Q w -> (forall f, wp (k tt) Q (set_pool_audit f w)) ->
  wp (Record_ actor action opts ≫= k) Q w.
Proof. intros H1 H2. split; [exact H1|apply H2]. Qed.
