(* ===== verification/Jobs.v ===== *)
(** The job queue (internal/jobs/jobs.go): the service's operations, statement
    by statement.  Every SQL statement is a function on [world]; every
    [if err != nil] is a branch.  The theorems about these definitions are in
    JobsInvariant.v (state machine and invariants) and JobsSpec.v (what each
    operation does). *)
From S2P Require Import Prelude GoStrings GoTime Effects Schema AuditLog.

(** ** Constants *)

Definition StatePending := "pending".
Definition StateClaimed := "claimed".
Definition StateInProgress := "in_progress".
Definition StateCompleted := "completed".
Definition StateFailed := "failed".
Definition StateDead := "dead".

Definition terminalErrorCategories : list string :=
  ["auth"; "certificate"; "provisioning"; "entitlement"; "unsupported_job_type"].

Definition defaultMaxAttempts : Z := 5.

Definition JobTypeInstall := "install".
Definition JobTypeVerify := "verify".
Definition JobTypeRefresh := "refresh".
Definition JobTypeSign := "sign".
Definition JobTypeUninstall := "uninstall".
Definition JobTypeInventory := "inventory".
Definition JobTypeExportP12 := "export_p12".
Definition JobTypeAppIDs := "appids".
Definition JobTypeLiveContainerPush := "livecontainer_push".
Definition JobTypeInstalledApps := "installed_apps".

Definition refreshProfileValidity : duration := 7 * 24 * Hour.

(** ** Errors, requests, configuration *)

Inductive jerr :=
| ErrNotClaimed
| ErrInvalidTransition
| ErrNoRows
| ErrSql (e : sqlerr)
| ErrMsg (m : string).

(** [CreateRequest]; an absent or empty [parameters] is [None]. *)
Record CreateRequest := MkCreateRequest {
  cr_JobType : string;
  cr_DeviceID : option uuid;
  cr_ApplicationID : option uuid;
  cr_Parameters : option json;
  cr_IdempotencyKey : string;
  cr_RetryAt : option instant;
  cr_ParentJobID : option uuid;
  cr_Purpose : option string
}.

Record UpdateRequest := MkUpdateRequest {
  ur_State : string;
  ur_Progress : option Z;
  ur_ErrorCategory : option string;
  ur_ErrorDetails : option string;
  ur_Result : option json
}.

Record Service := MkService {
  lease : duration;
  maxBackoff : duration;
  offlineAfter : duration;
  refreshLead : duration
}.

Definition WithRefreshLead (lead : duration) (s : Service) : Service :=
  MkService (lease s) (maxBackoff s) (offlineAfter s) lead.

Definition NewService (lease : duration) (opts : list (Service -> Service)) : Service :=
  foldl (fun s opt => opt s) (MkService lease (5 * Minute) (2 * Minute) (48 * Hour)) opts.

(** ** Small functions *)

Definition validTransition (from to : string) : bool :=
  if to =s StateInProgress then (from =s StateClaimed) || (from =s StateInProgress)
  else if (to =s StateCompleted) || (to =s StateFailed)
       then (from =s StateClaimed) || (from =s StateInProgress)
  else false.

(** [leaseSeconds() || ' seconds'] read back as an interval. *)
Definition leaseInterval (s : Service) : duration := whole_seconds (lease s) * Second.

Definition globalTypes (types : list string) : bool :=
  forallb (fun t => (t =s JobTypeSign) || (t =s JobTypeExportP12) || (t =s JobTypeAppIDs)) types.

(** [nullableJobTypes]: [None] is SQL NULL. *)
Definition nullableJobTypes (types : list string) : option (list string) :=
  match types with [] => None | _ => Some types end.

Definition backoffSeconds : Z := 30.

Definition minBackoff (s : Service) (attempt : Z) : Z :=
  let backoff := shl64 30 (attempt - 1) in
  if whole_seconds (maxBackoff s) <? backoff then whole_seconds (maxBackoff s) else backoff.

(** [SELECT .. WHERE id = $1]. *)
Definition job_by_id (id : uuid) (w : world) : option job := W_jobs w !! id.
Definition job_by_key (key : string) (w : world) : option job :=
  find_row (fun j => j_idempotency_key j =s key) (W_jobs w).

Definition put_job (j : job) (w : world) : world := set_db (on_jobs (insert (j_id j) j)) w.

(** [UPDATE jobs SET f WHERE id = $1 AND p]. *)
Definition update_job (id : uuid) (p : job -> bool) (f : job -> job) (w : world) : world :=
  match W_jobs w !! id with
  | Some j => if p j then set_db (on_jobs (<[id := f j]>)) w else w
  | None => w
  end.

(** [json.Unmarshal] into a [*uuid.UUID] and a [*time.Time] member, [None] when
    decoding fails; and whether a value decodes into a struct at all. *)
Definition json_uuid_ptr `{UuidText} (o : option json) : option (option uuid) :=
  match o with
  | None | Some JNull => Some None
  | Some (JStr s) => Some <$> uuid_parse s
  | Some _ => None
  end.

Definition json_time_ptr (o : option json) : option (option instant) :=
  match o with
  | None | Some JNull => Some None
  | Some (JStr s) => Some <$> parse_rfc3339 s
  | Some _ => None
  end.

Definition json_is_struct (j : json) : bool :=
  match j with JObj _ | JNull => true | _ => false end.

(** ** Inserting *)

(** The row an [INSERT] makes, from the generated id and [now()]. *)
Definition new_job (job_type : string) (dev app : option uuid) (params : json) (key : string)
    (max_attempts : Z) (retry : option instant) (parent : option uuid) (purpose : option string)
    (id : uuid) (now : instant) : job :=
  MkJob id job_type dev app StatePending 0 0 params None None None None retry None parent
    purpose now None None now key max_attempts false None None.

Definition job_fks_ok (j : job) (w : world) : bool :=
  fk_ok (j_device_id j) (W_devices w) && fk_ok (j_application_id j) (t_applications (w_db w))
  && fk_ok (j_parent_job_id j) (W_jobs w).

Definition key_taken (key : string) (w : world) : bool :=
  exists_row (fun j => j_idempotency_key j =s key) (W_jobs w).

(** [INSERT .. ON CONFLICT (idempotency_key) DO NOTHING RETURNING ..]. *)
Definition insert_job (mk : uuid -> instant -> job) (w : world) : sqlerr + option job * world :=
  let j := mk (w_fresh w) (w_now w) in
  if key_taken (j_idempotency_key j) w then inr (None, w)
  else if job_fks_ok j w
       then inr (Some j, set_fresh (w_fresh w + 1)%N (put_job j w))
       else inl FkViolation.

(** [INSERT .. RETURNING id] without a conflict clause. *)
Definition insert_job_strict (mk : uuid -> instant -> job) (w : world) : sqlerr + uuid * world :=
  match insert_job mk w with
  | inl e => inl e
  | inr (None, _) => inl UniqueViolation
  | inr (Some j, w') => inr (j_id j, w')
  end.

(** The second half of [Create] and [CreateRefresh]: the row that already holds
    the key. *)
Definition existing_job (key : string) : prog world jerr job :=
  o ← must Pool (reads (job_by_key key)) ErrSql;
  match o with Some j => Ret j | None => Throw ErrNoRows end.

Definition Create (actor : string) (req : CreateRequest) : prog world jerr job :=
  if cr_JobType req =s "" then Throw (ErrMsg "job_type is required") else
  if cr_IdempotencyKey req =s "" then Throw (ErrMsg "idempotency_key is required") else
  let parameters := default (JObj []) (cr_Parameters req) in
  r ← try_ Pool (insert_job (new_job (cr_JobType req) (cr_DeviceID req) (cr_ApplicationID req)
        parameters (cr_IdempotencyKey req) 5 (cr_RetryAt req) (cr_ParentJobID req)
        (cr_Purpose req)));
  match r with
  | inl FkViolation => Throw (ErrMsg "referenced device or application does not exist")
  | inl e => Throw (ErrSql e)
  | inr (Some j) =>
      _ ← Record_ actor "job.created"
            [WithDevice (j_device_id j); WithApplication (j_application_id j)];
      Ret j
  | inr None => existing_job (cr_IdempotencyKey req)
  end.

Definition CreateRefresh (actor : string) (deviceID : option uuid) (params : option json)
    (idempotencyKey : string) (maxAttempts : Z) (purpose : string) : prog world jerr job :=
  match deviceID with
  | None => Throw (ErrMsg "device_id is required for refresh jobs")
  | Some _ =>
      let params := default (JObj []) params in
      let purpose := if purpose =s "" then "refresh" else purpose in
      r ← must Pool (insert_job (new_job JobTypeRefresh deviceID None params idempotencyKey
            maxAttempts None None (Some purpose))) ErrSql;
      match r with
      | Some j =>
          _ ← Record_ actor "job.created" [WithDevice (j_device_id j)];
          Ret j
      | None => existing_job idempotencyKey
      end
  end.

Definition Get (jobID : uuid) : prog world jerr job :=
  o ← must Pool (reads (job_by_id jobID)) ErrSql;
  match o with Some j => Ret j | None => Throw ErrNoRows end.

(** ** Claiming *)

(** The [SET] of a claim. *)
Definition claim_row (agent : uuid) (lease_s : duration) (now : instant) (j : job) : job :=
  set_j_updated_at now (set_j_retry_at None (set_j_lease_expires_at (Some (now + lease_s))
    (set_j_started_at (Some (coalesce (j_started_at j) now))
      (set_j_attempt (j_attempt j + 1) (set_j_claimed_by (Some agent)
        (set_j_state StateClaimed j)))))).

Definition requeue_row (now : instant) (j : job) : job :=
  set_j_updated_at now (set_j_retry_at None (set_j_lease_expires_at None
    (set_j_claimed_by None (set_j_state StatePending j)))).

(** [UPDATE .. WHERE id = $4 RETURNING ..] and the variant of [ClaimSpecific],
    which also requires the row to be pending; [claimed_by] references [agents]. *)
Definition claim_stmt (s : Service) (agent id : uuid) (p : job -> bool) (w : world)
    : sqlerr + option job * world :=
  match W_jobs w !! id with
  | Some j =>
      if p j then
        let j' := claim_row agent (leaseInterval s) (w_now w) j in
        if fk_ok (Some agent) (W_agents w) then inr (Some j', set_db (on_jobs (<[id := j']>)) w)
        else inl FkViolation
      else inr (None, w)
  | None => inr (None, w)
  end.

Definition is_pending (j : job) : bool := j_state j =s StatePending.

(** The second half of [ClaimSpecific]. *)
Definition claim_pending `{UuidText} (s : Service) (agentID jobID : uuid) : prog world jerr job :=
  r ← try_ Pool (claim_stmt s agentID jobID is_pending);
  match r with
  | inr (Some claimed) =>
      _ ← Record_ ("agent:" ++s uuid_text agentID) "job.claimed"
            [WithDevice (j_device_id claimed)];
      Ret claimed
  | _ => Throw (ErrMsg "job could not be claimed")
  end.

Definition ClaimSpecific `{UuidText} (s : Service) (agentID jobID : uuid) : prog world jerr job :=
  cur ← try_ Pool (reads (job_by_id jobID));
  match cur with
  | inl _ | inr None => Throw (ErrMsg "job not found")
  | inr (Some c) =>
      if j_state c =s StateCompleted then Get jobID
      else if (j_state c =s StateClaimed) || (j_state c =s StateInProgress) then
        if opt_is (j_claimed_by c) agentID then Get jobID
        else Throw (ErrMsg "job is already active")
      else if (j_state c =s StateFailed) || (j_state c =s StateDead) then
        r ← try_ Pool (writes (fun w =>
              update_job jobID (fun _ => true) (requeue_row (w_now w)) w));
        match r with
        | inl _ => Throw (ErrMsg "job requeue failed")
        | inr _ => claim_pending s agentID jobID
        end
      else if j_state c =s StatePending then claim_pending s agentID jobID
      else Throw (ErrMsg ("job cannot be claimed from state " ++s j_state c))
  end.

Definition agent_role_of (agentID : uuid) (w : world) : option string :=
  ag_role <$> W_agents w !! agentID.

(** The caller may see every device: the nil agent of the socket, or one whose
    role is global. *)
Definition is_global_agent (agentID : uuid) : prog world jerr bool :=
  if bool_decide (agentID = uuid_nil) then Ret true
  else
    r ← try_ Tx (reads (agent_role_of agentID));
    match r with
    | inr (Some role) => Ret ((role =s "device_service") || (role =s "signing_worker"))
    | _ => Ret false
    end.

(** [retry_at IS NULL OR retry_at <= now()]. *)
Definition retry_due (now : instant) (j : job) : bool :=
  match j_retry_at j with None => true | Some t => t <=? now end.

(** [ORDER BY created_at, id]. *)
Definition job_order (a b : job) : bool :=
  (j_created_at a <? j_created_at b)
  || ((j_created_at a =? j_created_at b) && (j_id a <=? j_id b)%N).

Definition deviceless_job (jobTypes : list string) (w : world) : option job :=
  first_by job_order (select (fun j =>
    bool_decide (j_device_id j = None) && is_pending j && retry_due (w_now w) j
    && in_strs (j_job_type j) jobTypes) (rows (W_jobs w))).

Definition device_job (device : uuid) (types : option (list string)) (w : world) : option job :=
  first_by job_order (select (fun j =>
    bool_decide (j_device_id j = Some device) && is_pending j && retry_due (w_now w) j
    && (negb (j_job_type j =s JobTypeSign) || match types with Some _ => true | None => false end)
    && match types with None => true | Some l => in_strs (j_job_type j) l end)
    (rows (W_jobs w))).

(** The devices with pending jobs of the requested types. *)
Definition candidate_devices (jobTypes : list string) (w : world) : list uuid :=
  remove_dups (omap j_device_id (select (fun j =>
    in_strs (j_job_type j) jobTypes && is_pending j && retry_due (w_now w) j) (rows (W_jobs w)))).

(** [SELECT id FROM devices WHERE p ORDER BY id FOR UPDATE]. *)
Definition lock_devices (p : device -> bool) (w : world) : list uuid :=
  dv_id <$> sort_by (fun a b => (dv_id a <=? dv_id b)%N) (select p (rows (W_devices w))).

Definition owned_by (agentID : uuid) (d : device) : bool := opt_is (dv_agent_id d) agentID.

Definition claim_devices (agentID : uuid) (isGlobalAgent : bool) (deviceIDs : list uuid)
    (jobTypes : list string) : prog world jerr (list uuid) :=
  let listed d := in_ids (dv_id d) deviceIDs in
  match jobTypes with
  | _ :: _ =>
      candidate ← must Tx (reads (candidate_devices jobTypes)) ErrSql;
      match candidate with
      | [] => Ret []
      | _ =>
          let cand d := in_ids (dv_id d) candidate in
          let filter_ :=
            if (isGlobalAgent || globalTypes jobTypes) && (length deviceIDs =? 0)%nat then cand
            else if isGlobalAgent || globalTypes jobTypes then fun d => cand d && listed d
            else if (length deviceIDs =? 0)%nat then fun d => cand d && owned_by agentID d
            else fun d => cand d && owned_by agentID d && listed d in
          must Tx (reads (lock_devices filter_)) ErrSql
      end
  | [] =>
      match deviceIDs with
      | _ :: _ =>
          must Tx (reads (lock_devices (if isGlobalAgent then listed
                                        else fun d => listed d && owned_by agentID d))) ErrSql
      | [] =>
          must Tx (reads (lock_devices (if isGlobalAgent then fun _ => true
                                        else owned_by agentID))) ErrSql
      end
  end.

(** The [UPDATE] of a selected job inside the claim loop; the row exists because
    it was selected in this transaction. *)
Definition claim_selected (s : Service) (agentID : uuid) (j : job) (w : world)
    : sqlerr + option job * world :=
  claim_stmt s agentID (j_id j) (fun _ => true) w.

Definition claim_deviceless (s : Service) (agentID : uuid) (isGlobalAgent : bool)
    (deviceIDs : list uuid) (jobTypes : list string) : prog world jerr (list job) :=
  if negb (length jobTypes =? 0)%nat && (length deviceIDs =? 0)%nat
     && (isGlobalAgent || globalTypes jobTypes) then
    r ← try_ Tx (reads (deviceless_job jobTypes));
    match r with
    | inr (Some j) =>
        u ← try_ Tx (claim_selected s agentID j);
        match u with inr (Some j') => Ret [j'] | _ => Ret [] end
    | _ => Ret []
    end
  else Ret [].

(** One iteration of [for _, deviceID := range devices]; [break] is the first
    test, repeated for the devices that remain. *)
Definition claim_device (s : Service) (agentID : uuid) (jobTypes : list string) (limit : Z)
    (claimed : list job) (device : uuid) : prog world jerr (list job) :=
  if limit <=? Z.of_nat (length claimed) then Ret claimed else
  o ← must Tx (reads (device_job device (nullableJobTypes jobTypes))) ErrSql;
  match o with
  | None => Ret claimed
  | Some j =>
      u ← must Tx (claim_selected s agentID j) ErrSql;
      match u with
      | Some j' => Ret (claimed ++ [j'])
      | None => Throw ErrNoRows
      end
  end.

Definition normal_limit (limit : Z) : Z := if (limit <=? 0) || (100 <? limit) then 10 else limit.

Definition claim_body (s : Service) (agentID : uuid) (deviceIDs : list uuid)
    (jobTypes : list string) (limit : Z) : prog world jerr (list job) :=
  isGlobalAgent ← is_global_agent agentID;
  claimed ← claim_deviceless s agentID isGlobalAgent deviceIDs jobTypes;
  devices ← claim_devices agentID isGlobalAgent deviceIDs jobTypes;
  fold_ (claim_device s agentID jobTypes limit) claimed devices.

Definition Claim `{UuidText} (s : Service) (agentID : uuid) (deviceIDs : list uuid)
    (jobTypes : list string) (limit : Z) : prog world jerr (list job) :=
  claimed ← txn rollback (ErrSql Fault) (ErrSql Fault)
              (claim_body s agentID deviceIDs jobTypes (normal_limit limit));
  _ ← for_ claimed (fun j => Record_ ("agent:" ++s uuid_text agentID) "job.claimed"
                               [WithDevice (j_device_id j)]);
  Ret claimed.

(** ** Updating *)

(** An assignment of the [UPDATE] that [Update] assembles: column, whether the
    column's type accepts the value, effect. *)
Record assignment := MkAssignment {
  as_column : string;
  as_ok : bool;
  as_set : job -> job
}.

Definition is_int4 (z : Z) : bool := (- 2 ^ 31 <=? z) && (z <? 2 ^ 31).

(** The texts of a JSON value, its member names among them. *)
Fixpoint json_texts (j : json) : list string :=
  match j with
  | JStr s => [s]
  | JArr l => concat (map json_texts l)
  | JObj l => concat (map (fun kv => kv.1 :: json_texts kv.2) l)
  | _ => []
  end.

(** What a jsonb column takes: no member name and no string holds a zero
    character or a byte that is not text. *)
Definition pg_json (j : json) : bool := forallb pg_text (json_texts j).

(** [stateSQL] followed by [extraSQL]. *)
Definition update_assignments (s : Service) (req : UpdateRequest) (now : instant)
    : list assignment :=
  (if ur_State req =s StateInProgress then
     [MkAssignment "state" true (set_j_state (ur_State req));
      MkAssignment "lease_expires_at" true
        (set_j_lease_expires_at (Some (now + leaseInterval s)));
      MkAssignment "updated_at" true (set_j_updated_at now)]
   else
     [MkAssignment "state" true (set_j_state (ur_State req));
      MkAssignment "lease_expires_at" true (set_j_lease_expires_at None);
      MkAssignment "updated_at" true (set_j_updated_at now)])
  ++ match ur_Progress req with
     | Some p => [MkAssignment "progress" (is_int4 p) (set_j_progress p)] | None => [] end
  ++ match ur_ErrorCategory req with
     | Some c => [MkAssignment "error_category" (pg_text c) (set_j_error_category (Some c))]
     | None => [] end
  ++ match ur_ErrorDetails req with
     | Some d => [MkAssignment "error_details" (pg_text d) (set_j_error_details (Some d))]
     | None => [] end
  ++ match ur_Result req with
     | Some r => [MkAssignment "result" (pg_json r) (set_j_result (Some r))] | None => [] end
  ++ (if ur_State req =s StateCompleted then
        [MkAssignment "completed_at" true (set_j_completed_at (Some now));
         MkAssignment "error_category" true (set_j_error_category None);
         MkAssignment "error_details" true (set_j_error_details None)]
      else []).

(** [UPDATE jobs SET .. WHERE id = $n RETURNING ..]; a column assigned twice is
    rejected when the statement is analysed. *)
Definition update_stmt (s : Service) (id : uuid) (req : UpdateRequest) (w : world)
    : sqlerr + job * world :=
  let sets := update_assignments s req (w_now w) in
  if negb (bool_decide (NoDup (as_column <$> sets))) then inl SyntaxError
  else if negb (forallb as_ok sets) then inl CheckViolation
  else match W_jobs w !! id with
       | None => inl Fault
       | Some j =>
           let j' := foldl (fun j a => as_set a j) j sets in
           inr (j', set_db (on_jobs (<[id := j']>)) w)
       end.

(** [UPDATE deployments SET f WHERE id = $1]; an absent row is no error. *)
Definition update_deployment (id : uuid) (f : deployment -> deployment) (w : world) : world :=
  match W_deployments w !! id with
  | Some d => set_db (on_deployments (<[id := f d]>)) w
  | None => w
  end.

Definition refreshed (now due : instant) (d : deployment) : deployment :=
  set_dp_last_refresh_error None (set_dp_last_refresh_result (Some "ok")
    (set_dp_last_refresh_at (Some now) (set_dp_next_refresh_due_at (Some due) d))).

Definition refresh_failed (now : instant) (details : string) (d : deployment) : deployment :=
  set_dp_last_refresh_error (Some details) (set_dp_last_refresh_result (Some "failed")
    (set_dp_last_refresh_at (Some now) d)).

(** [rollback_artifact_id] references [artifacts]. *)
Definition set_rollback (dep : uuid) (artifact : uuid) (w : world) : sqlerr + unit * world :=
  match W_deployments w !! dep with
  | None => inr (tt, w)
  | Some _ =>
      if fk_ok (Some artifact) (W_artifacts w)
      then inr (tt, update_deployment dep (set_dp_rollback_artifact_id (Some artifact)) w)
      else inl FkViolation
  end.

Definition of_deployment (dep : uuid) (i : installation) : bool :=
  bool_decide (ir_deployment_id i = dep).

Definition installed_artifact (dep : uuid) (w : world) : option uuid :=
  mjoin (ir_signed_artifact_id <$> find_row (of_deployment dep) (W_installations w)).

(** The [UPDATE installation_records] that names the installed artifact. *)
Definition record_install (dep : uuid) (expiry : instant) (signed : uuid) (install : option uuid)
    (w : world) : sqlerr + unit * world :=
  if exists_row (of_deployment dep) (W_installations w)
     && negb (fk_ok (Some signed) (W_signed w) && fk_ok install (W_jobs w))
  then inl FkViolation
  else inr (tt, set_db (on_installations (update_where (of_deployment dep) (fun i =>
         set_ir_install_job_id install (set_ir_signed_artifact_id (Some signed)
           (set_ir_verified_at (Some (w_now w)) (set_ir_provisioning_expiry_at (Some expiry) i))))))
         w).

Definition record_expiry (dep : uuid) (expiry : instant) (w : world) : world :=
  set_db (on_installations (update_where (of_deployment dep) (fun i =>
    set_ir_verified_at (Some (w_now w)) (set_ir_provisioning_expiry_at (Some expiry) i)))) w.

(** The decoded result: expiry, signed artifact, install job. *)
Definition refresh_result `{UuidText} (result : option json)
    : option (option instant * option uuid * option uuid) :=
  match result with
  | None => Some (None, None, None)
  | Some r =>
      if json_is_struct r then
        e ← json_time_ptr (jget "profile_expiry_at" r);
        s ← json_uuid_ptr (jget "signed_artifact_id" r);
        i ← json_uuid_ptr (jget "install_job_id" r);
        Some (e, s, i)
      else None
  end.

Definition refresh_completed `{UuidText} (s : Service) (j : job) (dep : uuid)
    (result : option json) : prog world jerr unit :=
  now ← get_ w_now;
  match refresh_result result with
  | None => Throw (ErrMsg ("refresh job " ++s uuid_text (j_id j) ++s ": invalid result JSON"))
  | Some (expiry, signedID, installID) =>
      let newExpiry := default (now + refreshProfileValidity) expiry in
      let nextDue := newExpiry - refreshLead s in
      _ ← must Tx (writes (fun w => update_deployment dep (refreshed (w_now w) nextDue) w)) ErrSql;
      match signedID with
      | Some signed =>
          prev ← try_ Tx (reads (installed_artifact dep));
          _ ← match prev with
              | inr (Some p) =>
                  if bool_decide (p = signed) then Ret tt
                  else must Tx (set_rollback dep p) ErrSql
              | _ => Ret tt
              end;
          must Tx (record_install dep newExpiry signed installID) ErrSql
      | None => must Tx (writes (record_expiry dep newExpiry)) ErrSql
      end
  end.

Definition applyRefreshOutcome `{UuidText} (s : Service) (j : job) (req : UpdateRequest)
    : prog world jerr unit :=
  if negb (j_job_type j =s JobTypeRefresh)
     || (negb (j_state j =s StateCompleted) && negb (j_state j =s StateFailed)) then Ret tt
  else
    match (if json_is_struct (j_parameters j)
           then json_uuid_ptr (jget "deployment_id" (j_parameters j)) else None) with
    | Some (Some dep) =>
        if j_state j =s StateCompleted then refresh_completed s j dep (ur_Result req)
        else
          let errorDetails := truncate_str 2000 (default "" (ur_ErrorDetails req)) in
          must Tx (fun w =>
            if pg_text errorDetails
            then inr (tt, update_deployment dep (refresh_failed (w_now w) errorDetails) w)
            else inl CheckViolation) ErrSql
    | _ => Throw (ErrMsg ("refresh job " ++s uuid_text (j_id j)
                          ++s ": missing deployment_id in parameters"))
    end.

(** The body of [Update]: the job before and after. *)
Definition update_body `{UuidText} (s : Service) (agentID jobID : uuid) (req : UpdateRequest)
    : prog world jerr (job * job) :=
  o ← must Tx (reads (job_by_id jobID)) ErrSql;
  match o with
  | None => Throw ErrNoRows
  | Some current =>
      if negb (opt_is (j_claimed_by current) agentID) then Throw ErrNotClaimed
      else if negb (validTransition (j_state current) (ur_State req))
           then Throw ErrInvalidTransition
      else
        updated ← must Tx (update_stmt s jobID req) ErrSql;
        _ ← applyRefreshOutcome s updated req;
        Ret (current, updated)
  end.

Definition Update `{UuidText} (s : Service) (agentID jobID : uuid) (req : UpdateRequest)
    : prog world jerr job :=
  cu ← txn rollback (ErrSql Fault) (ErrSql Fault) (update_body s agentID jobID req);
  let '(current, updated) := cu : job * job in
  _ ← Record_ ("agent:" ++s uuid_text agentID) ("job." ++s ur_State req)
        [WithDevice (j_device_id updated);
         WithState (JObj [("state", JStr (j_state current))])
                   (JObj [("state", JStr (j_state updated))])];
  Ret updated.

(** ** Reaping *)

Definition lease_expired (now : instant) (j : job) : bool :=
  match j_lease_expires_at j with Some t => t <? now | None => false end.

Definition reapable (now : instant) (j : job) : bool :=
  (((j_state j =s StateClaimed) || (j_state j =s StateInProgress)) && lease_expired now j)
  || ((j_state j =s StateFailed)
      && ((j_job_type j =s JobTypeRefresh) || (j_job_type j =s JobTypeSign))).

Definition expired_jobs (w : world) : list job :=
  sort_by (fun a b => coalesce (j_lease_expires_at a) (w_now w)
                      <=? coalesce (j_lease_expires_at b) (w_now w))
    (select (reapable (w_now w)) (rows (W_jobs w))).

Definition dead_row (category reason : string) (now : instant) (j : job) : job :=
  set_j_updated_at now (set_j_dead_reason (Some reason) (set_j_last_failure_class (Some category)
    (set_j_requires_attention true (set_j_retry_at None (set_j_lease_expires_at None
      (set_j_claimed_by None (set_j_state StateDead j))))))).

Definition retry_row (retryAfter : Z) (now : instant) (j : job) : job :=
  set_j_updated_at now (set_j_retry_at (Some (now + retryAfter * Second))
    (set_j_lease_expires_at None (set_j_claimed_by None (set_j_state StatePending j)))).

(** What [Reap] decides for an expired job: bury it with a reason, or retry it
    after some seconds. *)
Inductive verdict := Bury (reason result : string) | Retry (after : Z).

Definition verdict_of (s : Service) (j : job) : verdict :=
  let category := default "" (j_error_category j) in
  let maxAttempts := if j_max_attempts j <=? 0 then defaultMaxAttempts else j_max_attempts j in
  if (j_state j =s StateFailed) && in_strs category terminalErrorCategories then
    Bury ("terminal_error:" ++s category) ("terminal error " ++s category ++s "; not retried")
  else if maxAttempts <=? j_attempt j then Bury "max_attempts" "max_attempts; not retried"
  else Retry (if 1 <? j_attempt j then minBackoff s (j_attempt j) else backoffSeconds).

Definition reap_one (s : Service) (j : job) : prog world jerr unit :=
  let write f := must Tx (writes (fun w => update_job (j_id j) (fun _ => true) (f (w_now w)) w))
                   ErrSql in
  match verdict_of s j with
  | Bury reason result =>
      _ ← write (dead_row (default "" (j_error_category j)) reason);
      Record_ "scheduler" "job.dead" [WithDevice (j_device_id j); WithResult result]
  | Retry after =>
      _ ← write (retry_row after);
      Record_ "scheduler" "job.reclaimed"
        [WithDevice (j_device_id j);
         WithResult ("re-queued, retry in " ++s itoa after ++s "s")]
  end.

Definition stale_agent (s : Service) (now : instant) (a : agent) : bool :=
  (ag_connection_state a =s "online")
  && match ag_last_heartbeat_at a with
     | Some t => t <? now - whole_seconds (offlineAfter s) * Second
     | None => false
     end.

Definition mark_offline (s : Service) (w : world) : world :=
  set_db (on_agents (update_where (stale_agent s (w_now w)) (fun a =>
    set_ag_updated_at (w_now w) (set_ag_connection_state "offline" a)))) w.

Definition reap_body (s : Service) : prog world jerr Z :=
  expiredJobs ← must Tx (reads expired_jobs) ErrSql;
  _ ← for_ expiredJobs (reap_one s);
  _ ← must Tx (writes (mark_offline s)) ErrSql;
  Ret (Z.of_nat (length expiredJobs)).

Definition Reap (s : Service) : prog world jerr Z :=
  txn rollback (ErrSql Fault) (ErrSql Fault) (reap_body s).
