(* ===== verification/JobsInvariant.v ===== *)
(** The state machine of the job queue.

    [phase] and [lifecycle] are the abstract specification: what a job may do,
    without the row's columns.  The refinement theorems show that every
    operation of Jobs.v, whatever statement fails, moves each row along
    [lifecycle] and keeps the table well-formed ([wf_jobs]). *)
From S2P Require Import Prelude GoStrings GoTime Effects Schema AuditLog Jobs.

(** ** Abstract specification *)

Inductive phase :=
| PPending
| PClaimed (agent : option uuid)
| PInProgress (agent : option uuid)
| PCompleted
| PFailed
| PDead
| PUnknown.

(** A job's life: its phase and the number of claims so far.  [mx] is the
    number of attempts it may use; only an agent that insists on one known job
    ([forced]) brings a job back beyond them. *)
Inductive lifecycle (forced : bool) (mx : Z) : phase * Z -> phase * Z -> Prop :=
| lc_claim a n : lifecycle forced mx (PPending, n) (PClaimed (Some a), n + 1)
| lc_progress p a n : p = PClaimed a \/ p = PInProgress a ->
    lifecycle forced mx (p, n) (PInProgress a, n)
| lc_complete p a n : p = PClaimed a \/ p = PInProgress a ->
    lifecycle forced mx (p, n) (PCompleted, n)
| lc_fail p a n : p = PClaimed a \/ p = PInProgress a ->
    lifecycle forced mx (p, n) (PFailed, n)
| lc_expire p a n : p = PClaimed a \/ p = PInProgress a -> n < mx ->
    lifecycle forced mx (p, n) (PPending, n)
| lc_retry n : n < mx -> lifecycle forced mx (PFailed, n) (PPending, n)
| lc_bury p n : p <> PPending -> p <> PCompleted -> p <> PDead ->
    lifecycle forced mx (p, n) (PDead, n)
| lc_revive p n : forced = true -> p = PFailed \/ p = PDead ->
    lifecycle forced mx (p, n) (PPending, n).

Definition phase_of (j : job) : phase :=
  if j_state j =s StatePending then PPending
  else if j_state j =s StateClaimed then PClaimed (j_claimed_by j)
  else if j_state j =s StateInProgress then PInProgress (j_claimed_by j)
  else if j_state j =s StateCompleted then PCompleted
  else if j_state j =s StateFailed then PFailed
  else if j_state j =s StateDead then PDead
  else PUnknown.

Definition abs_job (j : job) : phase * Z := (phase_of j, j_attempt j).

(** The columns no operation changes. *)
Definition same_identity (j j' : job) : Prop :=
  j_id j' = j_id j /\ j_job_type j' = j_job_type j /\ j_device_id j' = j_device_id j
  /\ j_application_id j' = j_application_id j /\ j_parameters j' = j_parameters j
  /\ j_idempotency_key j' = j_idempotency_key j /\ j_max_attempts j' = j_max_attempts j
  /\ j_created_at j' = j_created_at j /\ j_purpose j' = j_purpose j
  /\ j_parent_job_id j' = j_parent_job_id j.

(** The attempts a row may use, with the code's default. *)
Definition attempt_limit (j : job) : Z :=
  if j_max_attempts j <=? 0 then defaultMaxAttempts else j_max_attempts j.

Definition row_step (forced : bool) (j j' : job) : Prop :=
  same_identity j j' /\ lifecycle forced (attempt_limit j) (abs_job j) (abs_job j').

(** Every job of [w0] is still there, further along its life, and every job
    that was not there began as a pending job without attempts. *)
Definition evolves (forced : bool) (w0 w : world) : Prop :=
  (forall id j, W_jobs w0 !! id = Some j ->
   exists j', W_jobs w !! id = Some j' /\ rtc (row_step forced) j j')
  /\ (forall id j', W_jobs w !! id = Some j' -> W_jobs w0 !! id = None ->
   exists j, j_state j = StatePending /\ j_attempt j = 0 /\ rtc (row_step forced) j j').

(** ** Well-formed tables *)

Definition held (j : job) : bool := (j_state j =s StateClaimed) || (j_state j =s StateInProgress).

Record wf_job (j : job) : Prop := {
  wj_known : phase_of j <> PUnknown;
  wj_attempt : 0 <= j_attempt j;
  wj_held : held j = true ->
    is_Some (j_claimed_by j) /\ is_Some (j_lease_expires_at j) /\ is_Some (j_started_at j)
    /\ j_retry_at j = None /\ 1 <= j_attempt j;
  wj_free : held j = false -> j_lease_expires_at j = None;
  wj_idle : j_state j = StatePending \/ j_state j = StateDead -> j_claimed_by j = None;
  wj_completed : j_state j = StateCompleted ->
    is_Some (j_completed_at j) /\ j_error_category j = None /\ j_error_details j = None;
  wj_failed : j_state j = StateFailed -> is_Some (j_claimed_by j) /\ 1 <= j_attempt j;
  wj_dead : j_state j = StateDead ->
    j_requires_attention j = true /\ is_Some (j_dead_reason j) /\ j_retry_at j = None;
}.

Record wf_jobs (w : world) : Prop := {
  wf_row id j : W_jobs w !! id = Some j -> j_id j = id /\ wf_job j /\ (id < w_fresh w)%N;
  wf_keys id1 id2 j1 j2 : W_jobs w !! id1 = Some j1 -> W_jobs w !! id2 = Some j2 ->
    j_idempotency_key j1 = j_idempotency_key j2 -> id1 = id2;
}.

(** ** Rows *)

Section steps.
Context (fc : bool).

Lemma same_identity_refl j : same_identity j j.
Proof. unfold same_identity. naive_solver. Qed.

Ltac row_tac :=
  unfold abs_job, phase_of, held, claim_row, requeue_row, dead_row, retry_row in *; simpl in *;
  repeat match goal with
    | H : j_state ?j = _ |- context [j_state ?j] => rewrite H
    | H : j_state ?j = _, H' : context [j_state ?j] |- _ => rewrite H in H'
    end.

Lemma claim_row_step agent lease now j :
  j_state j = StatePending -> row_step fc j (claim_row agent lease now j).
Proof. intros Hs. split; [by repeat split|]. row_tac. constructor. Qed.

(** Closes the clauses of [wf_job] whose premise contradicts the new state. *)
Ltac wf_other :=
  try (intros; discriminate);
  try (intros [?|?]; discriminate).

Lemma claim_row_wf agent lease now j : wf_job j -> wf_job (claim_row agent lease now j).
Proof.
  intros Hj. pose proof (wj_attempt _ Hj). split; wf_other; simpl; [lia|].
  intros _. repeat split; eauto; lia.
Qed.

Lemma requeue_row_step now j :
  fc = true -> j_state j = StateFailed \/ j_state j = StateDead ->
  row_step fc j (requeue_row now j).
Proof.
  intros Hfc [Hs|Hs]; (split; [by repeat split|]); row_tac; apply lc_revive; auto.
Qed.

Lemma requeue_row_wf now j : wf_job j -> wf_job (requeue_row now j).
Proof. intros Hj. pose proof (wj_attempt _ Hj). split; wf_other; simpl; done. Qed.

(** The row an accepted [Update] writes. *)
Definition updated_row (s : Service) (req : UpdateRequest) (now : instant) (j : job) : job :=
  foldl (fun j a => as_set a j) j (update_assignments s req now).

Lemma validTransition_spec from to :
  validTransition from to = true ->
  (from = StateClaimed \/ from = StateInProgress) /\
  (to = StateInProgress \/ to = StateCompleted \/ to = StateFailed).
Proof. unfold validTransition. repeat case_cond; bools; naive_solver. Qed.

Lemma updated_row_columns s req now j :
  let j' := updated_row s req now j in
  same_identity j j' /\ j_state j' = ur_State req /\ j_attempt j' = j_attempt j
  /\ j_claimed_by j' = j_claimed_by j /\ j_started_at j' = j_started_at j
  /\ j_retry_at j' = j_retry_at j /\ j_updated_at j' = now
  /\ j_requires_attention j' = j_requires_attention j
  /\ j_lease_expires_at j' =
       (if ur_State req =s StateInProgress then Some (now + leaseInterval s) else None)
  /\ j_progress j' = default (j_progress j) (ur_Progress req)
  /\ j_result j' = match ur_Result req with Some r => Some r | None => j_result j end
  /\ j_error_category j' =
       (if ur_State req =s StateCompleted then None
        else match ur_ErrorCategory req with Some c => Some c | None => j_error_category j end)
  /\ j_error_details j' =
       (if ur_State req =s StateCompleted then None
        else match ur_ErrorDetails req with Some c => Some c | None => j_error_details j end)
  /\ j_completed_at j' =
       (if ur_State req =s StateCompleted then Some now else j_completed_at j).
Proof.
  destruct req as [st pr ec ed rs]. unfold updated_row, update_assignments; simpl.
  destruct (st =s StateInProgress), (st =s StateCompleted), pr, ec, ed, rs; by repeat split.
Qed.

Lemma held_spec j : held j = true <-> j_state j = StateClaimed \/ j_state j = StateInProgress.
Proof. unfold held. bools. done. Qed.

(** A held row's phase names its holder. *)
Lemma held_phase j :
  held j = true -> exists a, phase_of j = PClaimed a \/ phase_of j = PInProgress a.
Proof. intros [Hs|Hs]%held_spec; exists (j_claimed_by j); row_tac; auto. Qed.

Lemma updated_row_step s req now j :
  validTransition (j_state j) (ur_State req) = true -> row_step fc j (updated_row s req now j).
Proof.
  intros [Hf Ht]%validTransition_spec.
  destruct (updated_row_columns s req now j) as (Hid & Hst & Hat & Hcl & _).
  split; [done|]. unfold abs_job. rewrite Hat. unfold phase_of. rewrite Hst, Hcl.
  destruct Hf as [-> | ->], Ht as [-> | [-> | ->]]; simpl; econstructor; eauto.
Qed.

Lemma updated_row_wf s req now j :
  validTransition (j_state j) (ur_State req) = true -> wf_job j -> wf_job (updated_row s req now j).
Proof.
  intros [Hf Ht]%validTransition_spec Hj.
  destruct (updated_row_columns s req now j)
    as (_ & Hst & Hat & Hcl & Hsa & Hre & _ & _ & Hle & _ & _ & Hec & Hed & Hca).
  destruct (wj_held _ Hj) as (Hc & _ & Hs & Hr & Ha); [by apply held_spec|].
  assert (Hlt : 0 <= j_attempt j) by lia.
  set (j' := updated_row s req now j) in *. clearbody j'.
  destruct Ht as [Ht | [Ht | Ht]]; rewrite Ht in *; simpl in *;
    (split; unfold held, phase_of; rewrite ?Hst, ?Hat, ?Hcl, ?Hsa, ?Hre, ?Hle, ?Hec, ?Hed, ?Hca;
     wf_other; eauto; try done).
Qed.

(** ** What the reaper decides *)

Lemma reapable_spec now j :
  reapable now j = true ->
  (held j = true /\ exists t, j_lease_expires_at j = Some t /\ t < now)
  \/ (j_state j = StateFailed /\ (j_job_type j = JobTypeRefresh \/ j_job_type j = JobTypeSign)).
Proof.
  unfold reapable, lease_expired, held. destruct (j_lease_expires_at j); bools; naive_solver.
Qed.

Lemma dead_row_step cat reason now now' j :
  reapable now j = true -> row_step fc j (dead_row cat reason now' j).
Proof.
  intros H%reapable_spec. split; [by repeat split|].
  unfold abs_job; simpl. apply lc_bury;
    (destruct H as [[[Hs|Hs]%held_spec _]|[Hs _]]; unfold phase_of; by rewrite Hs).
Qed.

Lemma retry_row_step after now now' j :
  reapable now j = true -> j_attempt j < attempt_limit j ->
  row_step fc j (retry_row after now' j).
Proof.
  intros H%reapable_spec Hn. split; [by repeat split|]. unfold abs_job; simpl.
  destruct H as [[[a Ha]%held_phase _]|[Hs _]].
  - by eapply lc_expire.
  - unfold phase_of at 1. rewrite Hs. by apply lc_retry.
Qed.

Lemma dead_row_wf cat reason now j : wf_job j -> wf_job (dead_row cat reason now j).
Proof. intros Hj. pose proof (wj_attempt _ Hj). split; wf_other; simpl; eauto. Qed.

Lemma retry_row_wf after now j : wf_job j -> wf_job (retry_row after now j).
Proof. intros Hj. pose proof (wj_attempt _ Hj). split; wf_other; simpl; eauto. Qed.

(** ** Tables *)

(** What every operation keeps, relative to the state [w0] it started from. *)
Definition good (fc : bool) (w0 w : world) : Prop := wf_jobs w /\ evolves fc w0 w.

Lemma evolves_refl w : evolves fc w w.
Proof. split; [intros id j Hj; eauto using rtc_refl|congruence]. Qed.

Lemma evolves_trans w1 w2 w3 : evolves fc w1 w2 -> evolves fc w2 w3 -> evolves fc w1 w3.
Proof.
  intros [H12 B12] [H23 B23]. split.
  - intros id j Hj. destruct (H12 _ _ Hj) as (j2 & Hj2 & R2).
    destruct (H23 _ _ Hj2) as (j3 & Hj3 & R3). exists j3. split; [done|]. by etrans.
  - intros id j3 Hj3 Hno. destruct (W_jobs w2 !! id) as [j2|] eqn:Hj2; [|eauto].
    destruct (B12 _ _ Hj2 Hno) as (j & ? & ? & R). destruct (H23 _ _ Hj2) as (x & Hx & R').
    simplify_eq. exists j. split_and!; [done..|by etrans].
Qed.

Lemma good_refl w : wf_jobs w -> good fc w w.
Proof. intros. split; [done|apply evolves_refl]. Qed.

(** A statement on another table. *)
Lemma good_frame w0 w w' :
  W_jobs w' = W_jobs w -> (w_fresh w <= w_fresh w')%N -> good fc w0 w -> good fc w0 w'.
Proof.
  intros Hj Hf [[Hr Hk] He]. split; [split|].
  - intros id j. rewrite Hj. intros Hl. destruct (Hr _ _ Hl) as (?&?&?). split_and!; auto; lia.
  - rewrite Hj. done.
  - unfold evolves. by rewrite Hj.
Qed.

Lemma good_rollback w0 w1 w2 : good fc w0 w1 -> good fc w0 w2 -> good fc w0 (rollback w1 w2).
Proof. intros H1 _. 
  apply (good_frame w0 w1); [done|apply (N.le_max_l (w_fresh w1) (w_fresh w2))|exact H1].
Qed.

Lemma good_pool_audit w0 w f : good fc w0 w -> good fc w0 (set_pool_audit f w).
Proof. apply good_frame; simpl; [done|lia]. Qed.

(** The rewriting of one row. *)
Lemma good_set_row w0 w id j j' :
  good fc w0 w -> W_jobs w !! id = Some j -> row_step fc j j' -> wf_job j' ->
  good fc w0 (set_db (on_jobs (<[id := j']>)) w).
Proof.
  intros [[Hr Hk] [He Hb]] Hj Hstep Hwf. destruct (Hr _ _ Hj) as (Hid & _ & Hlt).
  pose proof Hstep as [(Hi & _ & _ & _ & _ & Hkey & _) _].
  split; [split|split]; simpl.
  - intros i x. rewrite lookup_insert. case_decide; subst.
    + intros [= <-]. split; [congruence|]. done.
    + apply Hr.
  - intros i1 i2 x1 x2. rewrite !lookup_insert.
    repeat case_decide; subst; intros H1 H2 Hkk; simplify_eq; eauto.
    + eapply Hk; [exact Hj|exact H2|congruence].
    + eapply Hk; [exact H1|exact Hj|congruence].
  - intros i x Hx. destruct (He _ _ Hx) as (x' & Hx' & R). simpl.
    destruct (decide (i = id)) as [->|Hne].
    + simplify_eq. exists j'. rewrite lookup_insert_eq. split; [done|]. eapply rtc_r; eauto.
    + exists x'. by rewrite lookup_insert_ne.
  - intros i x. destruct (decide (i = id)) as [->|Hne]; [|rewrite lookup_insert_ne; eauto].
    rewrite lookup_insert_eq. intros [= <-] Hno. destruct (Hb _ _ Hj Hno) as (y & ? & ? & R).
    exists y. split_and!; [done..|]. eapply rtc_r; eauto.
Qed.

(** The insertion of a row with the next identifier. *)
Lemma good_insert w0 w j :
  good fc w0 w -> j_id j = w_fresh w -> wf_job j ->
  j_state j = StatePending -> j_attempt j = 0 -> key_taken (j_idempotency_key j) w = false ->
  good fc w0 (set_fresh (w_fresh w + 1)%N (put_job j w)).
Proof.
  intros [[Hr Hk] [He Hb]] Hid Hwf Hst Hat Hkey.
  assert (Hnew : W_jobs w !! w_fresh w = None).
  { destruct (W_jobs w !! w_fresh w) as [x|] eqn:E; [|done].
    destruct (Hr _ _ E) as (_ & _ & ?). lia. }
  assert (Hnokey : forall i x, W_jobs w !! i = Some x ->
            j_idempotency_key x <> j_idempotency_key j).
  { intros i x Hx Heq. eapply exists_row_false in Hkey; [|exact Hx]. bools. done. }
  assert (HE : W_jobs (set_fresh (w_fresh w + 1)%N (put_job j w)) = <[w_fresh w := j]> (W_jobs w))
    by (simpl; by rewrite Hid).
  split; [split|split].
  - intros i x. rewrite HE, lookup_insert. simpl. case_decide; subst.
    + intros [= <-]. split_and!; auto; lia.
    + intros Hx. destruct (Hr _ _ Hx) as (?&?&?). split_and!; auto; lia.
  - intros i1 i2 x1 x2. rewrite HE, !lookup_insert.
    repeat case_decide; subst; intros H1 H2 Hkk; simplify_eq; eauto; exfalso;
      eapply Hnokey; eauto.
  - intros i x Hx. destruct (He _ _ Hx) as (x' & Hx' & R). exists x'. split; [|done].
    rewrite HE, lookup_insert_ne; [done|]. intros <-. congruence.
  - intros i x. rewrite HE, lookup_insert. case_decide; [intros [= <-]|eauto].
    intros _. exists j. eauto using rtc_refl.
Qed.

(** ** Selected rows *)

Lemma select_job_spec (p : job -> bool) w j le :
  wf_jobs w -> first_by le (select p (rows (W_jobs w))) = Some j ->
  W_jobs w !! j_id j = Some j /\ p j = true.
Proof.
  intros [Hr _] H%first_by_elem%elem_of_select. destruct H as [[i Hi]%elem_of_rows Hp].
  destruct (Hr _ _ Hi) as (-> & _). done.
Qed.

Lemma is_pending_true j : is_pending j = true <-> j_state j = StatePending.
Proof. apply bool_decide_eq_true. Qed.

Lemma deviceless_job_spec types w j :
  wf_jobs w -> deviceless_job types w = Some j ->
  W_jobs w !! j_id j = Some j /\ j_device_id j = None /\ j_state j = StatePending
  /\ retry_due (w_now w) j = true /\ j_job_type j ∈ types.
Proof.
  intros Hw H%select_job_spec; [|done]. destruct H as [Hl Hp].
  bools. rewrite is_pending_true in Hp. naive_solver.
Qed.

Lemma device_job_spec device types w j :
  wf_jobs w -> device_job device types w = Some j ->
  W_jobs w !! j_id j = Some j /\ j_device_id j = Some device /\ j_state j = StatePending
  /\ retry_due (w_now w) j = true
  /\ match types with None => j_job_type j <> JobTypeSign | Some l => j_job_type j ∈ l end.
Proof.
  intros Hw H%select_job_spec; [|done]. destruct H as [Hl Hp].
  bools. rewrite is_pending_true in Hp. destruct types; bools; naive_solver.
Qed.

(** A claim that is no error: no row that qualifies, or the row rewritten for
    an agent that exists. *)
Lemma claim_stmt_inv s agent id p w x w' :
  claim_stmt s agent id p w = inr (x, w') ->
  (x = None /\ w' = w)
  \/ exists j, W_jobs w !! id = Some j /\ p j = true /\ is_Some (W_agents w !! agent)
     /\ x = Some (claim_row agent (leaseInterval s) (w_now w) j)
     /\ w' = set_db (on_jobs (<[id := claim_row agent (leaseInterval s) (w_now w) j]>)) w.
Proof.
  unfold claim_stmt. destruct (W_jobs w !! id) as [j|] eqn:Hj; [|intros [= <- <-]; by left].
  destruct (p j) eqn:Hp; [|intros [= <- <-]; by left]. cbn [fk_ok]. case_cond; [|done].
  intros [= <- <-]. right. bools. by exists j.
Qed.

(** Claiming a pending row. *)
Lemma good_claim w0 w s agent id p j x w' :
  good fc w0 w -> W_jobs w !! id = Some j -> j_state j = StatePending ->
  claim_stmt s agent id p w = inr (x, w') -> good fc w0 w'.
Proof.
  intros Hw Hj Hs [[-> ->]|(j' & Hj' & _ & _ & -> & ->)]%claim_stmt_inv; [done|]. simplify_eq.
  eapply good_set_row; eauto using claim_row_step, claim_row_wf.
  apply claim_row_wf. by destruct Hw as [[Hr _] _]; destruct (Hr _ _ Hj) as (_ & ? & _).
Qed.

Lemma keeps_Record_good w0 {E} actor action opts :
  keeps (good fc w0) (@Record_ E actor action opts).
Proof. apply keeps_Record. intros. by apply good_pool_audit. Qed.
#[local] Hint Resolve keeps_Record_good : keeps.

(** ** Operations *)

Lemma keeps_claim_deviceless w0 s agent g devs types :
  keeps (good fc w0) (claim_deviceless s agent g devs types).
Proof.
  unfold claim_deviceless. case_cond; [|apply keeps_ret].
  intros w Hw. split; [done|]. simpl.
  destruct (deviceless_job types w) as [j|] eqn:E; [|done].
  apply deviceless_job_spec in E as (Hj & _ & Hs & _); [|apply Hw]. split; [done|].
  unfold claim_selected. destruct (claim_stmt _ _ _ _ _) as [er|[x w']] eqn:Ec; [done|].
  eapply good_claim in Ec; eauto. by destruct x.
Qed.

Lemma keeps_claim_devices w0 agent g devs types :
  keeps (good fc w0) (claim_devices agent g devs types).
Proof. unfold claim_devices. repeat keeps_step. Qed.

Lemma keeps_claim_device w0 s agent types limit claimed d :
  keeps (good fc w0) (claim_device s agent types limit claimed d).
Proof.
  unfold claim_device. case_cond; [apply keeps_ret|].
  intros w Hw. split; [done|]. simpl.
  destruct (device_job _ _ w) as [j|] eqn:E; [|done].
  apply device_job_spec in E as (Hj & _ & Hs & _); [|apply Hw]. split; [done|].
  unfold claim_selected. destruct (claim_stmt _ _ _ _ _) as [er|[x w']] eqn:Ec; [done|].
  eapply good_claim in Ec; eauto. by destruct x.
Qed.

Lemma keeps_is_global_agent w0 agent : keeps (good fc w0) (is_global_agent agent).
Proof. unfold is_global_agent. repeat keeps_step. Qed.
#[local] Hint Resolve keeps_claim_deviceless keeps_claim_devices keeps_claim_device
  keeps_is_global_agent : keeps.

Lemma keeps_good_txn w0 {A} be ce (p : prog world jerr A) :
  keeps (good fc w0) p -> keeps (good fc w0) (txn rollback be ce p).
Proof. apply keeps_txn. apply good_rollback. Qed.

Lemma keeps_Claim `{UuidText} w0 s agent devs types limit :
  keeps (good fc w0) (Claim s agent devs types limit).
Proof.
  unfold Claim. apply keeps_bind; [|intros claimed].
  - apply keeps_good_txn. unfold claim_body.
    repeat first [solve [eauto with keeps] | keeps_step].
  - repeat first [solve [eauto with keeps] | keeps_step].
Qed.

Lemma new_job_wf jt dev app params key mx retry parent purpose id now :
  wf_job (new_job jt dev app params key mx retry parent purpose id now).
Proof. split; wf_other; simpl; done. Qed.

(** An insertion of a new pending row, whose identifier is [w_fresh]. *)
Lemma good_insert_job w0 w mk x w' :
  (forall id now, j_id (mk id now) = id) -> (forall id now, wf_job (mk id now)) ->
  (forall id now, j_state (mk id now) = StatePending /\ j_attempt (mk id now) = 0) ->
  good fc w0 w -> insert_job mk w = inr (x, w') -> good fc w0 w'.
Proof.
  intros Hid Hwf Hnew Hw. unfold insert_job. repeat case_cond; intros [= <- <-]; [done|].
  apply good_insert; auto; apply Hnew.
Qed.

Lemma keeps_existing_job w0 key : keeps (good fc w0) (existing_job key).
Proof. unfold existing_job. repeat keeps_step. Qed.
#[local] Hint Resolve keeps_existing_job : keeps.

Lemma keeps_Create w0 actor req : keeps (good fc w0) (Create actor req).
Proof.
  unfold Create. repeat first [solve [eauto with keeps] | keeps_step].
  intros w x w' Hw Hi. eapply good_insert_job; eauto using new_job_wf. done.
Qed.

Lemma keeps_CreateRefresh w0 actor dev params key mx purpose :
  keeps (good fc w0) (CreateRefresh actor dev params key mx purpose).
Proof.
  unfold CreateRefresh. repeat first [solve [eauto with keeps] | keeps_step].
  intros w x w' Hw Hi. eapply good_insert_job; eauto using new_job_wf. done.
Qed.

Lemma keeps_Get w0 id : keeps (good fc w0) (Get id).
Proof. unfold Get. repeat keeps_step. Qed.
#[local] Hint Resolve keeps_Get : keeps.

Lemma good_claim_pending w0 w s agent id x w' :
  good fc w0 w -> claim_stmt s agent id is_pending w = inr (x, w') -> good fc w0 w'.
Proof.
  intros Hw Hc. pose proof Hc as [[-> ->]|(c & Hj & Hp & _)]%claim_stmt_inv; [done|].
  apply is_pending_true in Hp. by eapply good_claim.
Qed.

Lemma keeps_claim_pending `{UuidText} w0 s agent id :
  keeps (good fc w0) (claim_pending s agent id).
Proof.
  unfold claim_pending. repeat first [solve [eauto with keeps] | keeps_step].
  intros w x w' Hw Hc. by eapply good_claim_pending.
Qed.

(** [ClaimSpecific] without interference: the state it read is the state its
    requeue rewrites. *)
Lemma keeps_ClaimSpecific `{UuidText} w0 s agent id : fc = true -> keeps (good fc w0) (ClaimSpecific s agent id).
Proof.
  intros Hfc. unfold ClaimSpecific. intros w Hw. split; [done|]. simpl.
  destruct (job_by_id id w) as [c|] eqn:Hc; [|done]. unfold job_by_id in Hc.
  case_cond; [by apply keeps_Get|]. case_cond; [case_cond; [by apply keeps_Get|done]|].
  case_cond; [|case_cond; [by apply keeps_claim_pending|done]].
  split; [done|]. simpl. apply keeps_claim_pending. unfold update_job. rewrite Hc.
  bools. eapply good_set_row; eauto using requeue_row_step.
  apply requeue_row_wf. by destruct Hw as [[Hr _] _]; destruct (Hr _ _ Hc) as (_ & ? & _).
Qed.

Lemma good_deployment w0 w id f : good fc w0 w -> good fc w0 (update_deployment id f w).
Proof.
  intros Hw. unfold update_deployment. destruct (W_deployments w !! id); [|done].
  eapply good_frame; [..|exact Hw]; done.
Qed.

Lemma keeps_refresh_completed `{UuidText} w0 s j dep result :
  keeps (good fc w0) (refresh_completed s j dep result).
Proof.
  unfold refresh_completed. repeat keeps_step.
  all: intros w x w' Hw Hi; unfold writes, set_rollback, record_install in Hi;
    repeat case_match; simplify_eq; try done;
    first [by apply good_deployment | eapply good_frame; [..|exact Hw]; done].
Qed.

Lemma keeps_applyRefreshOutcome `{UuidText} w0 s j req :
  keeps (good fc w0) (applyRefreshOutcome s j req).
Proof.
  unfold applyRefreshOutcome.
  repeat first [apply keeps_refresh_completed | keeps_step].
  all: intros w x w' Hw Hi; repeat case_match; simplify_eq; by apply good_deployment.
Qed.

Lemma update_stmt_inv s id req w j' w' :
  update_stmt s id req w = inr (j', w') ->
  exists j, W_jobs w !! id = Some j /\ j' = updated_row s req (w_now w) j
    /\ w' = set_db (on_jobs (<[id := j']>)) w
    /\ NoDup (as_column <$> update_assignments s req (w_now w))
    /\ forallb as_ok (update_assignments s req (w_now w)) = true.
Proof.
  unfold update_stmt. repeat case_cond; try done.
  destruct (W_jobs w !! id) as [j|] eqn:Hj; [|done]. intros [= <- <-].
  exists j. bools. done.
Qed.

Lemma keeps_Update `{UuidText} w0 s agent id req : keeps (good fc w0) (Update s agent id req).
Proof.
  unfold Update. apply keeps_bind; [|intros [? ?]; repeat first [solve [eauto with keeps] | keeps_step]].
  apply keeps_good_txn. unfold update_body. intros w Hw. split; [done|]. simpl.
  destruct (job_by_id id w) as [c|] eqn:Hc; [|done]. unfold job_by_id in Hc.
  repeat (case_cond; [done|]). bools. split; [done|].
  destruct (update_stmt s id req w) as [er|[j' w']] eqn:Hu; [done|].
  apply update_stmt_inv in Hu as (j & Hj & -> & -> & _). simplify_eq.
  apply keeps_bind; [apply keeps_applyRefreshOutcome|intros; apply keeps_ret|].
  eapply good_set_row; eauto using updated_row_step.
  apply updated_row_wf; [done|]. by destruct Hw as [[Hr _] _]; destruct (Hr _ _ Hc) as (_ & ? & _).
Qed.

(** ** The reaper *)

Lemma rows_ids w : wf_jobs w -> NoDup (j_id <$> rows (W_jobs w)).
Proof.
  intros [Hr _]. unfold rows. rewrite <- list_fmap_compose.
  rewrite (list_fmap_ext _ fst); [apply NoDup_fst_map_to_list|].
  intros i [k x] Hx. simpl. apply list_elem_of_lookup_2, elem_of_map_to_list in Hx.
  by destruct (Hr _ _ Hx).
Qed.

Lemma NoDup_select {A B} (f : A -> B) (p : A -> bool) l :
  NoDup (f <$> l) -> NoDup (f <$> select p l).
Proof.
  induction l as [|x l IH]; simpl; [done|]. intros [Hx Hl]%NoDup_cons.
  destruct (p x); simpl; [|by apply IH]. constructor; [|by apply IH].
  intros (y & Heq & Hy)%list_elem_of_fmap. apply Hx, list_elem_of_fmap.
  apply elem_of_select in Hy as [? _]. eauto.
Qed.

Lemma expired_jobs_spec w j :
  wf_jobs w -> j ∈ expired_jobs w <-> W_jobs w !! j_id j = Some j /\ reapable (w_now w) j = true.
Proof.
  intros [Hr _]. unfold expired_jobs. rewrite elem_of_sort_by, elem_of_select, elem_of_rows.
  split; [|naive_solver]. intros [[i Hi] Hp]. by destruct (Hr _ _ Hi) as (-> & _).
Qed.

Lemma expired_jobs_NoDup w : wf_jobs w -> NoDup (j_id <$> expired_jobs w).
Proof.
  intros Hw. unfold expired_jobs. rewrite sort_by_Permutation. by apply NoDup_select, rows_ids.
Qed.

(** What the reaper keeps, given that it is kept by a row that is given up, by an
    audit event, by agents that go offline and by a rollback. *)
Section reaping.
Context (I : world -> Prop).
Hypothesis I_jobs : forall w, I w -> wf_jobs w.
Hypothesis I_row : forall w j j', I w -> W_jobs w !! j_id j = Some j -> row_step fc j j' -> wf_job j' ->
  j_claimed_by j' = None -> I (set_db (on_jobs (<[j_id j := j']>)) w).
Hypothesis I_audit : forall w e, I w -> I (set_pool_audit (cons e) w).
Hypothesis I_agents : forall s w, I w -> I (mark_offline s w).
Hypothesis I_rollback : forall w0 w, I w0 -> I w -> I (rollback w0 w).

(** The loop: the jobs still to come are untouched. *)
Definition reap_inv (now : instant) (l : list job) (w : world) : Prop :=
  I w /\ NoDup (j_id <$> l) /\
  forall j, j ∈ l -> W_jobs w !! j_id j = Some j /\ reapable now j = true.

Lemma reap_inv_write now l w j j' :
  reap_inv now (j :: l) w -> row_step fc j j' -> wf_job j' -> j_claimed_by j' = None ->
  reap_inv now l (set_db (on_jobs (<[j_id j := j']>)) w).
Proof using All.
  intros (Hw & Hnd & Hl) Hstep Hwf Hc. destruct (Hl j) as [Hj _]; [set_solver|].
  apply NoDup_cons in Hnd as [Hnot Hnd]. split_and!; [by apply I_row|done|].
  intros x Hx. simpl. rewrite lookup_insert_ne; [apply Hl; set_solver|].
  intros Heq. apply Hnot. rewrite Heq. apply list_elem_of_fmap. eauto.
Qed.

Lemma wp_reap_one now s j l w :
  reap_inv now (j :: l) w ->
  wp (reap_one s j) (fun r w' => match r with inl _ => I w' | inr _ => reap_inv now l w' end) w.
Proof using All.
  intros Hinv. pose proof Hinv as (Hw & Hnd & Hl).
  destruct (Hl j) as [Hj Hreap]; [set_solver|].
  assert (Hwf : wf_job j) by (destruct (I_jobs _ Hw) as [Hr _]; by destruct (Hr _ _ Hj) as (_ & ? & _)).
  assert (Hpa : forall e w', reap_inv now l w' -> reap_inv now l (set_pool_audit (cons e) w')).
  { intros e w' (Hg & Hn & Hx). split_and!; [by apply I_audit|done|done]. }
  assert (Hretry : forall n, verdict_of s j = Retry n -> j_attempt j < attempt_limit j).
  { unfold verdict_of. fold (attempt_limit j). repeat case_cond; bools; naive_solver. }
  unfold reap_one. destruct (verdict_of s j) eqn:Hv; (split; [done|]); simpl; unfold update_job; rewrite Hj;
    (split; [|apply Hpa]); eapply reap_inv_write;
    eauto using dead_row_step, retry_row_step, dead_row_wf, retry_row_wf.
Qed.

Lemma keeps_reaping s : keeps I (Reap s).
Proof using All.
  unfold Reap. apply keeps_txn; [apply I_rollback|]. unfold reap_body. intros w Hw. split; [done|]. simpl.
  apply wp_bind. apply (wp_for_list _ (reap_inv (w_now w))).
  - split_and!; [done|by apply expired_jobs_NoDup, I_jobs|].
    intros j. by apply expired_jobs_spec, I_jobs.
  - intros w' (Hw' & _). split; [done|]. simpl. by apply I_agents.
  - intros j l w'. apply wp_reap_one.
Qed.
End reaping.

Lemma keeps_Reap w0 s : keeps (good fc w0) (Reap s).
Proof.
  apply keeps_reaping.
  - intros w Hw. apply Hw.
  - intros w j j' Hw Hj Hs Hwf _. by eapply good_set_row.
  - intros w e. apply good_pool_audit.
  - intros s' w Hw. eapply good_frame; [..|exact Hw]; done.
  - apply good_rollback.
Qed.

End steps.
