(* ===== verification/JobsSpec.v ===== *)
(** What the job queue guarantees to its callers: the theorems about Jobs.v. *)
From S2P Require Import Prelude GoStrings GoTime Effects Schema AuditLog Jobs JobsInvariant.

(** ** Histories *)

(** A call on the queue's service. *)
Inductive queue_op :=
| QCreate (actor : string) (req : CreateRequest)
| QCreateRefresh (actor : string) (dev : option uuid) (params : option json) (key : string)
    (mx : Z) (purpose : string)
| QClaim (agent : uuid) (devs : list uuid) (types : list string) (limit : Z)
| QClaimSpecific (agent id : uuid)
| QUpdate (agent id : uuid) (req : UpdateRequest)
| QReap.

(** A call at some time, with the statements of it that fail. *)
Record call := MkCall { c_op : queue_op; c_time : instant; c_faults : list bool }.

Section histories.
Context `{UuidText}.

Definition call_run (s : Service) (c : call) (w : world) : world :=
  let w := set_now (c_time c) w in
  match c_op c with
  | QCreate actor req => (run (c_faults c) (Create actor req) w).2
  | QCreateRefresh actor dev params key mx purpose =>
      (run (c_faults c) (CreateRefresh actor dev params key mx purpose) w).2
  | QClaim agent devs types limit => (run (c_faults c) (Claim s agent devs types limit) w).2
  | QClaimSpecific agent id => (run (c_faults c) (ClaimSpecific s agent id) w).2
  | QUpdate agent id req => (run (c_faults c) (Update s agent id req) w).2
  | QReap => (run (c_faults c) (Reap s) w).2
  end.

Definition history (s : Service) (cs : list call) (w : world) : world :=
  foldl (fun w c => call_run s c w) w cs.

Definition forces (c : call) : bool :=
  match c_op c with QClaimSpecific _ _ => true | _ => false end.

Lemma good_call fc s c w0 w :
  (forces c = true -> fc = true) -> good fc w0 w -> good fc w0 (call_run s c w).
Proof.
  intros Hfc Hw. assert (good fc w0 (set_now (c_time c) w)) as Hw'.
  { by eapply good_frame; [..|exact Hw]. }
  unfold call_run. unfold forces in Hfc. destruct (c_op c); apply keeps_run; auto.
  - apply keeps_Create.
  - apply keeps_CreateRefresh.
  - apply keeps_Claim.
  - apply keeps_ClaimSpecific; auto.
  - apply keeps_Update.
  - apply keeps_Reap.
Qed.

Lemma good_history fc s cs w0 w :
  (existsb forces cs = true -> fc = true) -> good fc w0 w -> good fc w0 (history s cs w).
Proof.
  revert w. induction cs as [|c cs IH]; intros w Hfc Hw; simpl; [done|].
  simpl in Hfc. rewrite orb_true_iff in Hfc. apply IH; [naive_solver|].
  apply good_call; naive_solver.
Qed.

(** C2. Refinement: any history of service calls, at any times and with any
    statement failing, keeps the jobs table well-formed (the clauses of
    [wf_job] on every row, unique keys and identifiers) and moves every row
    along the abstract [lifecycle]; a row that is new began pending with no
    attempt.  Only [ClaimSpecific] takes the [forced] edge. *)
Theorem history_refines_lifecycle s cs w :
  wf_jobs w ->
  wf_jobs (history s cs w) /\ evolves (existsb forces cs) w (history s cs w).
Proof. intros Hw. apply good_history; [done|]. by apply good_refl. Qed.

Lemma completed_no_step fc j j' : j_state j = StateCompleted -> ~ row_step fc j j'.
Proof.
  intros Hs [_ Hl]. assert (phase_of j = PCompleted) as Hp by (unfold phase_of; by rewrite Hs).
  unfold abs_job in Hl. rewrite Hp in Hl. inversion Hl; subst; naive_solver.
Qed.

(** A completed job is final: no later call, from anyone, changes any
    column of its row. *)
Theorem completed_is_final s cs w id j :
  wf_jobs w -> W_jobs w !! id = Some j -> j_state j = StateCompleted ->
  W_jobs (history s cs w) !! id = Some j.
Proof.
  intros Hw Hj Hs.
  assert (good true w (history s cs w)) as [_ [He _]]
    by (apply good_history; [done|by apply good_refl]).
  destruct (He _ _ Hj) as (j' & Hj' & R). rewrite Hj'. f_equal.
  inversion R as [|? y ? Hstep]; subst; [done|]. by apply completed_no_step in Hstep.
Qed.

(** The retry budget of a row: a pending job has an attempt left. *)
Definition within_budget (j : job) : Prop :=
  if is_pending j then j_attempt j < attempt_limit j else j_attempt j <= attempt_limit j.

Lemma row_step_budget j j' : row_step false j j' -> within_budget j -> within_budget j'.
Proof.
  intros [(_ & _ & _ & _ & _ & _ & Hm & _) Hl].
  unfold within_budget, is_pending, attempt_limit. rewrite Hm. fold (attempt_limit j).
  unfold abs_job, phase_of in Hl.
  destruct (j_state j =s StatePending) eqn:E1; destruct (j_state j' =s StatePending) eqn:E2;
    repeat case_cond; inversion Hl; subst; try done; try lia; naive_solver lia.
Qed.

(** C36. Retry is finite: as long as nobody insists on a known job with
    [ClaimSpecific], no job is ever claimed more often than its
    [max_attempts] (5 when unset), however often it fails or its lease runs
    out. *)
Theorem retry_is_finite s cs w :
  wf_jobs w -> existsb forces cs = false ->
  (forall id j, W_jobs w !! id = Some j -> within_budget j) ->
  forall id j, W_jobs (history s cs w) !! id = Some j -> j_attempt j <= attempt_limit j.
Proof.
  intros Hw Hno Hb id j' Hj'.
  assert (good false w (history s cs w)) as [_ [He Hnew]]
    by (apply good_history; [by rewrite Hno|by apply good_refl]).
  assert (Hrtc : forall j, rtc (row_step false) j j' -> within_budget j -> within_budget j').
  { clear. intros j. induction 1; eauto using row_step_budget. }
  enough (within_budget j') as Hwb by (unfold within_budget in Hwb; case_cond; lia).
  destruct (W_jobs w !! id) as [j|] eqn:Hj.
  - destruct (He _ _ Hj) as (x & Hx & R). simplify_eq. eauto.
  - destruct (Hnew _ _ Hj' Hj) as (j & Hs & Ha & R). apply (Hrtc j R).
    unfold within_budget, is_pending, attempt_limit. rewrite Hs, Ha. simpl.
    case_cond; bools; unfold defaultMaxAttempts; lia.
Qed.
End histories.

(** ** Atomicity *)

Section atomicity.
Context `{UuidText}.

(** Errors leave the tables as they were. *)
Definition error_keeps_db {E A} (w : world) (r : E + A) (w' : world) : Prop :=
  match r with inl _ => w_db w' = w_db w | inr _ => True end.

Lemma txn_then_atomic {E A B} (be ce : E) (p : prog world E A) (f : A -> prog world E B) w :
  (forall a w', wp (f a) (fun r _ => match r with inl _ => False | inr _ => True end) w') ->
  wp (txn rollback be ce p ≫= f) (error_keeps_db w) w.
Proof using.
  intros Hf. apply wp_bind, wp_txn; [done|]. apply wp_always.
  assert (forall a w', wp (f a) (error_keeps_db w) w') as Hf'.
  { intros a w'. eapply wp_mono; [|apply (Hf a)]. by intros []. }
  intros [e|a] w'; simpl; auto.
Qed.

Lemma Record_no_error {E} actor action opts w (Q : E + unit -> world -> Prop) :
  (forall w', Q (inr tt) w') -> wp (@Record_ E actor action opts) Q w.
Proof using. intros HQ. by split; simpl. Qed.

Lemma Record_all_no_error {E X} (l : list X) (body : X -> prog world E unit) w :
  (forall x w' (Q : E + unit -> world -> Prop), (forall w'', Q (inr tt) w'') -> wp (body x) Q w') ->
  wp (for_ l body) (fun r _ => match r with inl _ => False | inr _ => True end) w.
Proof using.
  intros Hb. apply (wp_for l body (fun _ => True)); [done|done|].
  intros x w' _ _. by apply Hb.
Qed.

(** C40. A claim, an update or a reap that reports an error has changed no
    table, whichever of its statements failed. *)
Theorem queue_errors_are_atomic s fl w :
  (forall agent devs types limit e w',
     run fl (Claim s agent devs types limit) w = (inl e, w') -> w_db w' = w_db w)
  /\ (forall agent id req e w',
     run fl (Update s agent id req) w = (inl e, w') -> w_db w' = w_db w)
  /\ (forall e w', run fl (Reap s) w = (inl e, w') -> w_db w' = w_db w).
Proof.
  split_and!; intros; eapply (wp_run_eq _ (error_keeps_db w)) in H0; try done.
  - apply txn_then_atomic. intros js w1. apply wp_bind.
    eapply wp_mono; [|apply (Record_all_no_error js)]; [by intros []|].
    intros. by apply Record_no_error.
  - apply txn_then_atomic. intros [c u] w1. apply wp_bind. by apply Record_no_error.
  - apply wp_txn; [done|]. apply wp_always. by intros [].
Qed.
End atomicity.

(** ** Claiming *)

Section claiming.
Context `{UuidText}.

(** The agent may be given jobs of any device. *)
Definition sees_all (w : world) (agent : uuid) (types : list string) : Prop :=
  agent = uuid_nil
  \/ (exists a, W_agents w !! agent = Some a
      /\ (ag_role a = "device_service" \/ ag_role a = "signing_worker"))
  \/ (types <> [] /\ globalTypes types = true).

(** The jobs a claim may deliver. *)
Definition may_claim (w : world) (agent : uuid) (devs : list uuid) (types : list string)
    (j : job) : Prop :=
  j_state j = StatePending /\ retry_due (w_now w) j = true
  /\ (types <> [] -> j_job_type j ∈ types)
  /\ (types = [] -> j_job_type j <> JobTypeSign)
  /\ match j_device_id j with
     | None => types <> [] /\ devs = [] /\ sees_all w agent types
     | Some d => (devs <> [] -> d ∈ devs)
                 /\ exists x, W_devices w !! d = Some x
                    /\ (sees_all w agent types \/ dv_agent_id x = Some agent)
     end.

Definition devices_wf (w : world) : Prop :=
  forall id d, W_devices w !! id = Some d -> dv_id d = id.

Definition may_use_device (w : world) (agent : uuid) (devs : list uuid) (types : list string)
    (d : uuid) : Prop :=
  (devs <> [] -> d ∈ devs)
  /\ exists x, W_devices w !! d = Some x /\ (sees_all w agent types \/ dv_agent_id x = Some agent).

Lemma lock_devices_spec w p d :
  devices_wf w -> d ∈ lock_devices p w -> exists x, W_devices w !! d = Some x /\ p x = true.
Proof using.
  intros Hw (x & -> & Hx)%list_elem_of_fmap.
  apply elem_of_sort_by, elem_of_select in Hx as [[i Hi]%elem_of_rows Hp].
  rewrite (Hw _ _ Hi). eauto.
Qed.

Lemma lock_devices_NoDup w p : devices_wf w -> NoDup (lock_devices p w).
Proof using.
  intros Hw. unfold lock_devices. rewrite sort_by_Permutation. apply NoDup_select.
  unfold rows. rewrite <- list_fmap_compose.
  rewrite (list_fmap_ext _ fst); [apply NoDup_fst_map_to_list|].
  intros i [k x] Hx. simpl. by apply list_elem_of_lookup_2, elem_of_map_to_list, Hw in Hx.
Qed.

Definition tables_but_jobs (w0 w : world) : Prop :=
  W_devices w = W_devices w0 /\ W_agents w = W_agents w0 /\ w_now w = w_now w0.

(** The state of the claim loop: what was delivered so far, what is left
    untouched. *)
Record claiming (s : Service) (w0 : world) (agent : uuid) (devs : list uuid)
    (types : list string) (js : list job) (w : world) : Prop := {
  cl_frame : tables_but_jobs w0 w;
  cl_wf : wf_jobs w;
  cl_nodup : NoDup (j_id <$> js);
  cl_job j' : j' ∈ js -> exists j, W_jobs w0 !! j_id j' = Some j
    /\ may_claim w0 agent devs types j
    /\ j' = claim_row agent (leaseInterval s) (w_now w0) j
    /\ W_jobs w !! j_id j' = Some j';
  cl_rest id : id ∉ j_id <$> js -> W_jobs w !! id = W_jobs w0 !! id;
}.

Lemma claiming_step s w0 agent devs types js w j p x w' :
  claiming s w0 agent devs types js w ->
  W_jobs w !! j_id j = Some j -> may_claim w0 agent devs types j ->
  claim_stmt s agent (j_id j) p w = inr (x, w') ->
  match x with
  | Some j' => claiming s w0 agent devs types (js ++ [j']) w'
  | None => claiming s w0 agent devs types js w'
  end.
Proof using.
  intros [(Hd & Ha & Hn) Hwf Hnd Hjob Hrest] Hj Hmay Hc.
  pose proof Hmay as (Hpend & _).
  assert (wf_jobs w') as Hwf'.
  { eapply (good_claim false w w); eauto. by apply good_refl. }
  apply claim_stmt_inv in Hc as [[-> ->]|(j0 & Hj0 & _ & _ & -> & ->)]; [done|]. simplify_eq.
  rewrite Hn in *. set (j' := claim_row _ _ _ _) in *.
  assert (Hid : j_id j' = j_id j) by done.
  assert (Hnew : j_id j ∉ j_id <$> js).
  { intros (y & Hy & Hyin)%list_elem_of_fmap.
    destruct (Hjob _ Hyin) as (y0 & _ & _ & -> & Hyw).
    rewrite <- Hy in Hyw. rewrite Hj in Hyw. simplify_eq.
    }
  split; [done|done| | |].
  - rewrite fmap_app. apply NoDup_app. split_and!; [done| |apply NoDup_singleton].
    intros i Hi ->%list_elem_of_singleton. by rewrite Hid in Hi.
  - intros y [Hy|Hy%list_elem_of_singleton]%elem_of_app.
    + destruct (Hjob _ Hy) as (y0 & ? & ? & Heq & ?). exists y0. split_and!; auto.
      simpl. rewrite lookup_insert_ne; [done|]. intros Hq. apply Hnew.
      rewrite Hq. apply list_elem_of_fmap. eauto.
    + subst y. exists j. simpl. rewrite lookup_insert_eq.
      split_and!; auto. by rewrite <- Hrest.
  - intros i Hi. rewrite fmap_app in Hi. simpl. rewrite lookup_insert_ne.
    + apply Hrest. set_solver.
    + intros <-. apply Hi, elem_of_app. right. by apply list_elem_of_singleton.
Qed.

Lemma wp_is_global agent w :
  wp (is_global_agent agent) (fun r w' => w' = w /\ match r with
      | inr true => forall ts : list string, sees_all w agent ts | _ => True end) w.
Proof using.
  unfold is_global_agent. case_cond; bools.
  - split; [done|]. intros ts. by left.
  - split; [done|]. simpl. unfold agent_role_of.
    destruct (W_agents w !! agent) as [a|] eqn:Ha; simpl; [|done]. split; [done|].
    destruct (_ || _) eqn:Hr; [|done]. bools. intros ts. right. left. eauto.
Qed.

Lemma wp_claim_devices agent g devs types w :
  devices_wf w -> (g = true -> sees_all w agent types) ->
  wp (claim_devices agent g devs types) (fun r w' => w' = w /\ match r with
      | inr ds => NoDup ds /\ forall d, d ∈ ds -> may_use_device w agent devs types d
      | inl _ => True end) w.
Proof using.
  intros Hw Hg.
  assert (Hlock : forall p, (forall x, p x = true ->
      (devs <> [] -> dv_id x ∈ devs) /\ (sees_all w agent types \/ dv_agent_id x = Some agent)) ->
      NoDup (lock_devices p w) /\ forall d, d ∈ lock_devices p w -> may_use_device w agent devs types d).
  { intros p Hp. split; [by apply lock_devices_NoDup|].
    intros d (x & Hx & Hpx)%lock_devices_spec; [|done]. destruct (Hp _ Hpx) as [H1 H2].
    rewrite (Hw _ _ Hx) in H1. split; eauto. }
  assert (Hgl : forall t ts, types = t :: ts -> (g || globalTypes types) = true ->
                sees_all w agent types).
  { intros t ts -> [?|?]%orb_true_iff; [auto|]. right. right. done. }
  unfold claim_devices. destruct types as [|t ts].
  - destruct devs as [|d0 ds]; (split; [done|]); (split; [done|]); apply Hlock; intros x;
      destruct g; unfold owned_by; intros Hp; bools; tauto.
  - specialize (Hgl t ts eq_refl). set (gl := g || globalTypes (t :: ts)) in *. clearbody gl.
    split; [done|]. simpl. destruct (candidate_devices (t :: ts) w) as [|c cs].
    + split; [done|]. split; [apply NoDup_nil_2|set_solver].
    + split; [done|]. split; [done|]. apply Hlock. intros x.
      unfold owned_by. destruct devs as [|d0 ds], gl; simpl; intros Hp; bools; tauto.
Qed.

Lemma claim_limit limit : 1 <= normal_limit limit.
Proof using. unfold normal_limit. case_cond; bools; lia. Qed.

(** The claim's result so far, or an error. *)
Definition claim_post (s : Service) (w : world) (agent : uuid) (devs : list uuid)
    (types : list string) (n : Z) (r : jerr + list job) (w' : world) : Prop :=
  match r with
  | inr js => claiming s w agent devs types js w' /\ Z.of_nat (length js) <= n
  | inl _ => True
  end.

Lemma claiming_start s w agent devs types :
  wf_jobs w -> claiming s w agent devs types [] w.
Proof using.
  intros Hw. split; try done; [by apply NoDup_nil_2|]. by intros ? ?%elem_of_nil.
Qed.

Lemma wp_claim_deviceless s agent g devs types w :
  wf_jobs w -> (g = true -> sees_all w agent types) ->
  wp (claim_deviceless s agent g devs types) (claim_post s w agent devs types 1) w.
Proof using.
  intros Hw Hg. pose proof (claiming_start s w agent devs types Hw) as H0.
  assert (claim_post s w agent devs types 1 (inr []) w) as Hnone by by split.
  unfold claim_deviceless. destruct (_ && _) eqn:Hcond; [|done]. bools.
  destruct Hcond as [[Ht Hd] Hgl]. split; [done|]. simpl.
  destruct (deviceless_job types w) as [j|] eqn:Ej; [|done].
  apply deviceless_job_spec in Ej as (Hj & Hdev & Hp & Hr & Hty); [|done].
  split; [done|]. unfold claim_selected.
  destruct (claim_stmt _ _ _ _ _) as [er|[x w']] eqn:Ec; [done|].
  apply length_zero_iff_nil, bool_decide_eq_true in Hd || apply Nat.eqb_eq in Hd.
  eapply claiming_step in Ec; eauto.
  - destruct x as [j'|]; by split.
  - destruct types as [|t ts]; [done|]. apply length_zero_iff_nil in Hd as ->.
    split_and!; try done. rewrite Hdev. split_and!; try done.
    destruct Hgl as [->|Hgl]; [auto|]. right. right. done.
Qed.

(** The loop over the locked devices. *)
Lemma wp_claim_loop s agent devs types limit w ds js w1 :
  claiming s w agent devs types js w1 -> Z.of_nat (length js) <= limit ->
  (forall d, d ∈ ds -> may_use_device w agent devs types d) ->
  wp (fold_ (claim_device s agent types limit) js ds) (claim_post s w agent devs types limit) w1.
Proof using.
  intros Hcl Hlen Hds.
  apply (wp_fold _ (fun l js' w' => (claiming s w agent devs types js' w'
           /\ Z.of_nat (length js') <= limit)
           /\ forall d, d ∈ l -> may_use_device w agent devs types d)); [done|by intros ? ? []|].
  clear Hcl Hlen Hds ds js w1.
  intros d l js w1 [[Hcl Hlen] Hl]. pose proof (Hl d ltac:(set_solver)) as Hd.
  assert (forall d', d' ∈ l -> may_use_device w agent devs types d') as Hl' by set_solver.
  unfold claim_device. case_cond; [done|]. split; [done|]. simpl.
  destruct (device_job _ _ w1) as [j|] eqn:Ej; [|done].
  apply device_job_spec in Ej as (Hj & Hdev & Hp & Hr & Hty); [|apply Hcl].
  split; [done|]. unfold claim_selected.
  destruct (claim_stmt _ _ _ _ _) as [er|[x w']] eqn:Ec; [done|].
  pose proof (cl_frame _ _ _ _ _ _ _ Hcl) as (_ & _ & Hnow).
  eapply claiming_step in Ec; eauto.
  - destruct x as [j'|]; [|done]. split; [|done]. split; [done|].
    rewrite length_app. simpl. bools. lia.
  - split_and!; try done; [by rewrite <- Hnow| | |by rewrite Hdev];
      unfold nullableJobTypes in Hty; by destruct types.
Qed.

Lemma wp_claim_body s agent devs types limit w :
  wf_jobs w -> devices_wf w ->
  wp (claim_body s agent devs types (normal_limit limit))
     (claim_post s w agent devs types (normal_limit limit)) w.
Proof using.
  intros Hw Hdw. unfold claim_body. pose proof (claim_limit limit) as Hlim.
  apply wp_bind. eapply wp_mono; [|apply wp_is_global].
  intros [e|g] w1 [-> Hg]; [done|].
  assert (Hg' : g = true -> sees_all w agent types) by (intros ->; apply Hg).
  apply wp_bind. eapply wp_mono; [|by apply wp_claim_deviceless].
  intros [e|js] w1 Hcl; [done|]. destruct Hcl as [Hcl Hlen].
  pose proof (cl_frame _ _ _ _ _ _ _ Hcl) as (Hd & Ha & Hn).
  apply wp_bind. eapply wp_mono; [|apply (wp_claim_devices agent g devs types)].
  - intros [e|ds] w2 [-> Hds]; [done|]. destruct Hds as [_ Hds].
    apply wp_claim_loop; [done|lia|]. intros d [? (x & Hx & Hs)]%Hds.
    split; [done|]. exists x. rewrite <- Hd. split; [done|].
    destruct Hs as [Hs|Hs]; [left|by right]. unfold sees_all in *. by rewrite Ha in Hs.
  - unfold devices_wf. by rewrite Hd.
  - unfold sees_all. rewrite Ha. apply Hg'.
Qed.

(** What a claim may return and what it leaves behind. *)
Definition claim_outcome (s : Service) (agent : uuid) (devs : list uuid) (types : list string)
    (limit : Z) (w : world) (r : jerr + list job) (w' : world) : Prop :=
  match r with
  | inl _ => W_jobs w' = W_jobs w
  | inr js =>
      Z.of_nat (length js) <= normal_limit limit /\ NoDup (j_id <$> js)
      /\ (forall j', j' ∈ js -> exists j,
            W_jobs w !! j_id j' = Some j /\ may_claim w agent devs types j
            /\ j' = claim_row agent (leaseInterval s) (w_now w) j
            /\ W_jobs w' !! j_id j' = Some j')
      /\ (forall id, id ∉ j_id <$> js -> W_jobs w' !! id = W_jobs w !! id)
  end.

Lemma wp_Claim s agent devs types limit w :
  wf_jobs w -> devices_wf w ->
  wp (Claim s agent devs types limit) (claim_outcome s agent devs types limit w) w.
Proof.
  intros Hw Hdw.
  apply wp_bind, wp_txn; [done|]. eapply wp_mono; [|by apply wp_claim_body].
  intros [e|js] w1 Hpost; [done|]. split; [|done]. destruct Hpost as [Hcl Hlen].
  apply wp_bind.
  apply (wp_for _ _ (fun w2 => W_jobs w2 = W_jobs w1)); [done| |].
  - intros w2 Hw2. cbv beta in Hw2. simpl. rewrite Hw2. destruct Hcl. split_and!; eauto.
  - intros x w2 _ Hw2. by split; simpl.
Qed.

(** C5. Claiming: what [Claim] returns are distinct jobs, at most [limit] (10
    when out of range), each of which was pending and due, of a requested type
    (never a sign job when no type is asked for), of a device that exists, is
    listed and is the agent's own unless the agent's role or the types are
    global; each is now leased to the agent with one more attempt, and no
    other job has changed.  On an error no job has changed. *)
Theorem Claim_delivers s agent devs types limit fl w r w' :
  wf_jobs w -> devices_wf w ->
  run fl (Claim s agent devs types limit) w = (r, w') ->
  match r with
  | inl _ => W_jobs w' = W_jobs w
  | inr js =>
      Z.of_nat (length js) <= normal_limit limit /\ NoDup (j_id <$> js)
      /\ (forall j', j' ∈ js -> exists j,
            W_jobs w !! j_id j' = Some j /\ may_claim w agent devs types j
            /\ j' = claim_row agent (leaseInterval s) (w_now w) j
            /\ W_jobs w' !! j_id j' = Some j')
      /\ (forall id, id ∉ j_id <$> js -> W_jobs w' !! id = W_jobs w !! id)
  end.
Proof. intros Hw Hdw Hrun. exact (wp_run_eq _ _ _ _ _ _ (wp_Claim _ _ _ _ _ _ Hw Hdw) Hrun). Qed.
End claiming.

(** ** Updating *)

Section updating.
Context `{UuidText}.

(** Writes that leave the jobs table alone. *)
Lemma keeps_jobs_refresh_completed jobs s j dep result :
  keeps (fun w => W_jobs w = jobs) (refresh_completed s j dep result).
Proof.
  unfold refresh_completed. repeat keeps_step.
  all: intros w x w' Hw Hi; unfold writes, set_rollback, record_install, update_deployment in Hi;
    repeat case_match; simplify_eq; done.
Qed.

Lemma keeps_jobs_applyRefreshOutcome jobs s j req :
  keeps (fun w => W_jobs w = jobs) (applyRefreshOutcome s j req).
Proof.
  unfold applyRefreshOutcome.
  repeat first [apply keeps_jobs_refresh_completed | keeps_step].
  all: intros w x w' Hw Hi; unfold update_deployment in Hi; repeat case_match; by simplify_eq.
Qed.

(** The errors of the bookkeeping are statement errors or messages. *)
Definition plain_error (e : jerr) : Prop :=
  match e with ErrSql _ | ErrMsg _ => True | _ => False end.

Lemma throws_applyRefreshOutcome s j req : throws plain_error (applyRefreshOutcome s j req).
Proof.
  unfold applyRefreshOutcome, refresh_completed.
  repeat first [apply throws_bind; [|intros ?] | progress simpl; intros [] | intros ?
               | case_match | done].
Qed.

Definition update_post (s : Service) (w : world) (agent id : uuid) (req : UpdateRequest)
    (r : jerr + job) (w' : world) : Prop :=
  match r with
  | inr j' => exists j, W_jobs w !! id = Some j /\ j_claimed_by j = Some agent
      /\ validTransition (j_state j) (ur_State req) = true
      /\ j' = updated_row s req (w_now w) j /\ W_jobs w' = <[id := j']> (W_jobs w)
  | inl ErrNotClaimed =>
      w_db w' = w_db w /\ exists j, W_jobs w !! id = Some j /\ j_claimed_by j <> Some agent
  | inl ErrInvalidTransition =>
      w_db w' = w_db w /\ exists j, W_jobs w !! id = Some j
        /\ validTransition (j_state j) (ur_State req) = false
  | inl _ => w_db w' = w_db w
  end.

(** C6. Updating: a success means that the agent held the job, the transition
    was allowed, exactly this row was rewritten as [updated_row_columns] says
    (progress, result, category and details as sent, lease renewed or
    dropped), and the caller sees the new row.  [ErrNotClaimed] and
    [ErrInvalidTransition] are reported for exactly those reasons, and every
    error leaves every table as it was. *)
Theorem Update_spec s agent id req fl w r w' :
  run fl (Update s agent id req) w = (r, w') -> update_post s w agent id req r w'.
Proof.
  intros Hrun. by_wp Hrun.
  apply wp_bind, wp_txn; [done|]. unfold update_body. split; [done|]. simpl.
  destruct (job_by_id id w) as [j|] eqn:Hj; [|done]. unfold job_by_id in Hj.
  case_cond; [bools; simpl; split; [done|]; exists j; split; [done|];
    intros Hc; rewrite Hc in Heqb; simpl in Heqb; by rewrite bool_decide_eq_false in Heqb|].
  case_cond; [bools; simpl; eauto|]. bools. split; [done|].
  destruct (update_stmt s id req w) as [er|[j' w1]] eqn:Hu; [done|].
  apply update_stmt_inv in Hu as (j0 & Hj0 & -> & -> & _). simplify_eq. simpl.
  apply wp_bind. set (j1 := updated_row s req (w_now w) j).
  eapply wp_mono; [|apply wp_throws; [apply throws_applyRefreshOutcome|];
    by apply (keeps_jobs_applyRefreshOutcome (<[id := j1]> (W_jobs w)) s j1 req)].
  assert (Hok : forall w2, W_jobs w2 = <[id := j1]> (W_jobs w) ->
    update_post s w agent id req (inr j1) w2) by (intros w2 Hw2; simpl; eauto 10).
  intros [e|[]] w2 [Hw2 He]; simpl; [by destruct e|]. split; [|done]. split; by apply Hok.
Qed.
End updating.
