(* ===== verification/JobsCreate.v ===== *)
(** Creating jobs: idempotence by key, and the interface through which the
    scheduler and the handlers enqueue work. *)
From S2P Require Import Prelude GoStrings GoTime Effects Schema AuditLog Jobs JobsInvariant JobsSpec.

(** The tables other than [jobs] (and the clock) are the same. *)
Definition only_jobs (w w' : world) : Prop :=
  w_db w' = on_jobs (fun _ => W_jobs w') (w_db w) /\ w_now w' = w_now w
  /\ w_blobs w' = w_blobs w.

Lemma only_jobs_refl w : only_jobs w w.
Proof. split; [|done]. by destruct w as [[]]. Qed.

Lemma only_jobs_trans w1 w2 w3 : only_jobs w1 w2 -> only_jobs w2 w3 -> only_jobs w1 w3.
Proof.
  intros (H1 & ? & ?) (H2 & ? & ?). split_and!; [|congruence..]. rewrite H2, H1. done.
Qed.

(** What enqueueing under a key does: on success the key is held by the
    returned job; it is a new pending row, or the row that already held the
    key, unchanged.  An error enqueues nothing. *)
Definition enqueued (key : string) (fresh : job -> Prop) (w : world) {E} (r : E + job)
    (w' : world) : Prop :=
  only_jobs w w' /\ wf_jobs w' /\ (w_fresh w <= w_fresh w')%N /\
  match r with
  | inl _ => W_jobs w' = W_jobs w
  | inr j =>
      j_idempotency_key j = key /\ W_jobs w' !! j_id j = Some j
      /\ ((key_taken key w = true /\ W_jobs w' = W_jobs w)
          \/ (key_taken key w = false /\ (w_fresh w <= j_id j)%N /\ W_jobs w !! j_id j = None
              /\ W_jobs w' = <[j_id j := j]> (W_jobs w)
              /\ j_state j = StatePending /\ j_attempt j = 0 /\ fresh j))
  end.

Section creating.
Context {E : Type}.

Lemma only_jobs_audit w w' f : only_jobs w w' -> only_jobs w (set_pool_audit f w').
Proof using. done. Qed.

Lemma enqueued_audit key fresh w (r : E + job) w' f :
  enqueued key fresh w r w' -> enqueued key fresh w r (set_pool_audit f w').
Proof using.
  intros (Ho & [Hr Hk] & Hf & Hm). split; [by apply only_jobs_audit|]. split; [by split|done].
Qed.

Lemma key_taken_true key w :
  wf_jobs w -> key_taken key w = true ->
  exists j, job_by_key key w = Some j /\ j_idempotency_key j = key /\ W_jobs w !! j_id j = Some j.
Proof using.
  intros Hw (i & x & Hi & Hx)%exists_row_true.
  unfold job_by_key. destruct (find_row _ _) as [j|] eqn:Ef.
  - apply find_row_Some in Ef as (k & Hk & Hkey). bools. exists j.
    destruct (wf_row _ Hw _ _ Hk) as (<- & _). done.
  - rewrite find_row_None in Ef. specialize (Ef _ _ Hi). simpl in *. congruence.
Qed.

Lemma insert_job_post mk w x w' :
  (forall id now, j_id (mk id now) = id) -> (forall id now, wf_job (mk id now)) ->
  (forall id now, j_state (mk id now) = StatePending /\ j_attempt (mk id now) = 0) ->
  wf_jobs w -> insert_job mk w = inr (x, w') ->
  let key := j_idempotency_key (mk (w_fresh w) (w_now w)) in
  match x with
  | Some j => j = mk (w_fresh w) (w_now w) /\ only_jobs w w' /\ wf_jobs w'
      /\ (w_fresh w <= w_fresh w')%N /\ (w_fresh w <= j_id j)%N
      /\ key_taken key w = false /\ W_jobs w !! j_id j = None
      /\ W_jobs w' = <[j_id j := j]> (W_jobs w)
  | None => w' = w /\ key_taken key w = true
  end.
Proof using.
  intros Hid Hwf Hnew Hw Hi. assert (wf_jobs w') as Hw'.
  { eapply (good_insert_job false w w); eauto. by apply good_refl. }
  unfold insert_job in Hi.
  destruct (key_taken _ w) eqn:Ek; [by simplify_eq|]. case_cond; [|done].
  injection Hi as <- <-. split_and!; try done; [simpl; lia|rewrite Hid; lia|].
  destruct (W_jobs w !! _) as [y|] eqn:Ey; [|done].
  destruct (wf_row _ Hw _ _ Ey) as (_ & _ & Hlt). rewrite Hid in Hlt. lia.
Qed.

Lemma wp_existing_job key fresh w :
  wf_jobs w -> key_taken key w = true -> wp (existing_job key) (enqueued key fresh w) w.
Proof using.
  intros Hw Ht. destruct (key_taken_true _ _ Hw Ht) as (j & Hj & Hkey & Hl).
  split; [by split_and!; [apply only_jobs_refl|done|lia|]|]. simpl. rewrite Hj. simpl.
  split_and!; auto using only_jobs_refl.
Qed.
End creating.

(** The row a [Create] makes. *)
Definition created_as (req : CreateRequest) (j : job) : Prop :=
  j_job_type j = cr_JobType req /\ j_device_id j = cr_DeviceID req
  /\ j_application_id j = cr_ApplicationID req /\ j_parameters j = default (JObj []) (cr_Parameters req)
  /\ j_parent_job_id j = cr_ParentJobID req /\ j_purpose j = cr_Purpose req
  /\ j_retry_at j = cr_RetryAt req /\ j_max_attempts j = 5.

Lemma wp_Create actor req w :
  wf_jobs w ->
  wp (Create actor req) (enqueued (cr_IdempotencyKey req) (created_as req) w) w.
Proof.
  intros Hw. assert (Herr : forall e : jerr, enqueued (cr_IdempotencyKey req) (created_as req) w (inl e) w).
  { intros e. split_and!; auto using only_jobs_refl. }
  unfold Create. case_cond; [apply Herr|]. case_cond; [apply Herr|]. split; [apply Herr|].
  destruct (insert_job _ w) as [er|[x w']] eqn:Hi; [destruct er; apply Herr|].
  apply insert_job_post in Hi; eauto using new_job_wf. simpl in Hi.
  destruct x as [j|].
  - destruct Hi as (-> & Ho & Hw' & Hf1 & Hf2 & Hk & Hnone & Hrows).
    assert (enqueued (E:=jerr) (cr_IdempotencyKey req) (created_as req) w (inr (new_job (cr_JobType req)
      (cr_DeviceID req) (cr_ApplicationID req) (default (JObj []) (cr_Parameters req))
      (cr_IdempotencyKey req) 5 (cr_RetryAt req) (cr_ParentJobID req) (cr_Purpose req)
      (w_fresh w) (w_now w))) w') as Hpost.
    { split_and!; try done; [by rewrite Hrows, lookup_insert_eq|]. right. by split_and!. }
    split; [exact Hpost|]. by apply enqueued_audit.
  - destruct Hi as [-> Hk]. by apply wp_existing_job.
Qed.

Definition refresh_as (dev : uuid) (params : option json) (mx : Z) (purpose : string) (j : job) : Prop :=
  j_job_type j = JobTypeRefresh /\ j_device_id j = Some dev
  /\ j_parameters j = default (JObj []) params /\ j_max_attempts j = mx
  /\ j_purpose j = Some (if purpose =s "" then "refresh" else purpose).

Lemma wp_CreateRefresh actor dev params key mx purpose w :
  wf_jobs w ->
  wp (CreateRefresh actor (Some dev) params key mx purpose)
     (enqueued key (refresh_as dev params mx purpose) w) w.
Proof.
  intros Hw. assert (Herr : forall e : jerr, enqueued key (refresh_as dev params mx purpose) w (inl e) w).
  { intros e. split_and!; auto using only_jobs_refl. }
  unfold CreateRefresh. split; [apply Herr|].
  destruct (insert_job _ w) as [er|[x w']] eqn:Hi; [apply Herr|].
  apply insert_job_post in Hi; eauto using new_job_wf. simpl in Hi. destruct x as [j|].
  - destruct Hi as (-> & Ho & Hw' & Hf1 & Hf2 & Hk & Hnone & Hrows). simpl.
    match goal with |- ?G => assert (forall w2, w2 = w' -> enqueued (E:=jerr) key
      (refresh_as dev params mx purpose) w (inr (new_job JobTypeRefresh (Some dev) None
        (default (JObj []) params) key mx None None
        (Some (if purpose =s "" then "refresh" else purpose)) (w_fresh w) (w_now w))) w2) as Hpost end.
    { intros w2 ->. split_and!; try done; [by rewrite Hrows, lookup_insert_eq|].
      right. by split_and!. }
    split; [by apply Hpost|]. apply enqueued_audit. by apply Hpost.
  - destruct Hi as [-> Hk]. by apply wp_existing_job.
Qed.

(** ** The interface *)

(** What the scheduler needs of the queue: enqueue a refresh under a key. *)
Class RefreshQueue := {
  enqueue_refresh : string -> uuid -> option json -> string -> Z -> string -> prog world jerr job;
}.

(** What the queue promises: idempotence by key, and success when nothing fails
    and the device exists. *)
Class RefreshQueueLaws `{RefreshQueue} := {
  enqueue_refresh_spec actor dev params key mx purpose w :
    wf_jobs w ->
    wp (enqueue_refresh actor dev params key mx purpose)
       (enqueued key (refresh_as dev params mx purpose) w) w;
  enqueue_refresh_total actor dev params key mx purpose w :
    wf_jobs w -> is_Some (W_devices w !! dev) ->
    exists j w', exec (enqueue_refresh actor dev params key mx purpose) w = (inr j, w');
}.

#[global] Instance jobs_refresh_queue : RefreshQueue := {
  enqueue_refresh actor dev := CreateRefresh actor (Some dev);
}.

#[global] Instance jobs_refresh_queue_laws : RefreshQueueLaws.
Proof.
  split.
  - intros. by apply wp_CreateRefresh.
  - intros actor dev params key mx purpose w Hw Hdev. unfold exec. simpl.
    unfold insert_job. simpl. destruct (key_taken key w) eqn:Ek; simpl.
    + destruct (key_taken_true _ _ Hw Ek) as (j & Hj & _). rewrite Hj. eauto.
    + unfold job_fks_ok. simpl. rewrite bool_decide_eq_true_2 by done. simpl. eauto.
Qed.

(** ** Idempotence *)

(** Creating is idempotent by key: a second [Create] with the same key,
    whatever else it asks for and whatever failed in between, returns the job of
    the first and changes no row. *)
Theorem Create_idempotent actor1 actor2 req1 req2 fl1 fl2 w w1 w2 j1 j2 :
  wf_jobs w -> cr_IdempotencyKey req2 = cr_IdempotencyKey req1 ->
  run fl1 (Create actor1 req1) w = (inr j1, w1) ->
  run fl2 (Create actor2 req2) w1 = (inr j2, w2) ->
  j2 = j1 /\ W_jobs w2 = W_jobs w1 /\ W_jobs w1 !! j_id j1 = Some j1
  /\ (key_taken (cr_IdempotencyKey req1) w = false -> created_as req1 j1).
Proof.
  intros Hw Hkey H1 H2.
  apply (wp_run_eq _ _ _ _ _ _ (wp_Create actor1 req1 w Hw)) in H1 as (_ & Hw1 & _ & Hk1 & Hl1 & Hc1).
  apply (wp_run_eq _ _ _ _ _ _ (wp_Create actor2 req2 w1 Hw1)) in H2 as (_ & Hw2 & _ & Hk2 & Hl2 & Hc2).
  assert (key_taken (cr_IdempotencyKey req2) w1 = true) as Htaken.
  { apply exists_row_true. exists (j_id j1), j1. bools. by rewrite Hk1, Hkey. }
  destruct Hc2 as [[_ Heq]|[Hno _]]; [|congruence].
  split_and!; auto.
  - rewrite Heq in Hl2. assert (j_id j2 = j_id j1) as Hid.
    { eapply (wf_keys _ Hw1); eauto. congruence. }
    rewrite Hid in Hl2. congruence.
  - intros Hnot. destruct Hc1 as [[? _]|(_ & _ & _ & _ & _ & _ & ?)]; [congruence|done].
Qed.
