(* ===== verification/JobsOutcome.v ===== *)
(** What the reaper, the creation of jobs and the refresh bookkeeping do
    exactly, and the race of [ClaimSpecific]. *)
From S2P Require Import Prelude GoStrings GoTime Effects Schema AuditLog Jobs JobsInvariant JobsSpec.

(** ** The reaper *)

Section reaping.
Definition reap_row (s : Service) (now : instant) (j : job) : job :=
  match verdict_of s j with
  | Bury reason _ => dead_row (default "" (j_error_category j)) reason now j
  | Retry after => retry_row after now j
  end.

Definition reaped_row (s : Service) (now : instant) (j : job) : job :=
  if reapable now j then reap_row s now j else j.

(** The table while the loop runs: the jobs of [l] are still to come. *)
Record reaping (s : Service) (w0 : world) (l : list job) (w : world) : Prop := {
  rp_now : w_now w = w_now w0;
  rp_agents : W_agents w = W_agents w0;
  rp_nodup : NoDup (j_id <$> l);
  rp_todo j : j ∈ l -> W_jobs w0 !! j_id j = Some j /\ reapable (w_now w0) j = true;
  rp_rows id : W_jobs w !! id =
    (fun j => if in_ids id (j_id <$> l) then j else reaped_row s (w_now w0) j) <$> W_jobs w0 !! id;
}.

Lemma reaping_start s w : wf_jobs w -> reaping s w (expired_jobs w) w.
Proof.
  intros Hw. split; try done.
  - by apply expired_jobs_NoDup.
  - intros j. by apply expired_jobs_spec.
  - intros id. destruct (W_jobs w !! id) as [j|] eqn:Hj; [|done]. simpl. f_equal.
    case_cond; [done|]. unfold reaped_row. case_cond; [|done]. exfalso.
    destruct (wf_row _ Hw _ _ Hj) as (<- & _). bools.
    apply Heqb, list_elem_of_fmap. exists j. split; [done|]. by apply expired_jobs_spec.
Qed.

Lemma reaping_step s w0 j l w f :
  reaping s w0 (j :: l) w -> f = reap_row s (w_now w0) j ->
  reaping s w0 l (set_db (on_jobs (<[j_id j := f]>)) w).
Proof.
  intros [Hn Ha Hnd Htodo Hrows] ->. apply NoDup_cons in Hnd as [Hnot Hnd].
  destruct (Htodo j) as [Hj Hr]; [set_solver|].
  split; try done; [by intros x Hx; apply Htodo; set_solver|].
  intros id. simpl. destruct (decide (id = j_id j)) as [->|Hne].
  - rewrite lookup_insert_eq, Hj. simpl. unfold reaped_row. rewrite Hr.
    case_cond; [|done]. by bools.
  - rewrite lookup_insert_ne, Hrows by done. destruct (W_jobs w0 !! id); [|done]. simpl.
    f_equal. unfold in_ids. by rewrite (bool_decide_ext _ (id ∈ j_id <$> l)) by set_solver.
Qed.

Lemma wp_reap_one_rows s w0 j l w :
  reaping s w0 (j :: l) w ->
  wp (reap_one s j)
     (fun r w' => match r with inl _ => True | inr _ => reaping s w0 l w' end) w.
Proof.
  intros Hw. pose proof (rp_rows _ _ _ _ Hw (j_id j)) as Hj.
  destruct (rp_todo _ _ _ _ Hw j) as [Hj0 _]; [set_solver|].
  rewrite Hj0 in Hj. simpl in Hj.
  rewrite (proj2 (in_ids_true _ _)) in Hj by set_solver.
  assert (Hpa : forall f w', reaping s w0 l w' -> reaping s w0 l (set_pool_audit f w')).
  { by intros f w' []. }
  pose proof (rp_now _ _ _ _ Hw) as Hnow.
  unfold reap_one. destruct (verdict_of s j) eqn:Hv; (split; [done|]); simpl; unfold update_job;
    rewrite Hj; (split; [|apply Hpa]); (eapply reaping_step; [exact Hw|]);
    unfold reap_row; by rewrite Hv, Hnow.
Qed.

(** C9. The reaper: when it succeeds, every job whose lease has run out and
    every failed refresh or sign job has its verdict carried out on the row,
    no other row has changed, the count is the number of such jobs, and the
    agents without a heartbeat for the offline period are offline. *)
Theorem Reap_spec s fl w n w' :
  wf_jobs w -> run fl (Reap s) w = (inr n, w') ->
  n = count_where (reapable (w_now w)) (W_jobs w)
  /\ W_jobs w' = reaped_row s (w_now w) <$> W_jobs w
  /\ W_agents w' = update_where (stale_agent s (w_now w)) (fun a =>
       set_ag_updated_at (w_now w) (set_ag_connection_state "offline" a)) (W_agents w).
Proof.
  intros Hw Hrun. by_wp Hrun.
  apply wp_txn; [done|]. split; [done|]. simpl.
  apply wp_bind. apply (wp_for_list _ (reaping s w)); [by apply reaping_start| |].
  - intros w1 [Hn Ha _ _ Hrows]. split; [done|]. simpl. split; [|done].
    split_and!.
    + unfold count_where, expired_jobs. by rewrite sort_by_Permutation.
    + apply map_eq. intros id. by rewrite Hrows, lookup_fmap.
    + by rewrite Ha, Hn.
  - intros j l w1 Hr. eapply wp_mono; [|by apply wp_reap_one_rows]. by intros [].
Qed.

(** The delay before attempt [n+1] is 30 s, doubled per attempt and capped
    by the configured maximum, for every attempt count whose shift fits an
    [int]; a job that has used its attempts, or failed for a terminal reason,
    is never retried. *)
Theorem verdict_retries s j after :
  30 <= whole_seconds (maxBackoff s) -> 0 <= j_attempt j <= 59 ->
  verdict_of s j = Retry after ->
  after = Z.min (30 * 2 ^ (Z.max 1 (j_attempt j) - 1)) (whole_seconds (maxBackoff s))
  /\ 30 <= after
  /\ j_attempt j < attempt_limit j
  /\ ~ (j_state j = StateFailed /\ default "" (j_error_category j) ∈ terminalErrorCategories).
Proof.
  intros Hm Ha. unfold verdict_of. fold (attempt_limit j).
  destruct (_ && _) eqn:Hterm; [done|]. case_cond; [done|]. intros [= <-]. bools.
  assert (0 < 2 ^ (j_attempt j - 1) \/ j_attempt j = 0) as Hpow.
  { destruct (Z.eq_dec (j_attempt j) 0); [auto|left]. apply Z.pow_pos_nonneg; lia. }
  assert (Hle : 1 < j_attempt j -> 2 ^ 1 <= 2 ^ (j_attempt j - 1) <= 2 ^ 58).
  { intros. split; apply Z.pow_le_mono_r; lia. }
  assert (Hb : 1 < j_attempt j -> shl64 30 (j_attempt j - 1) = 30 * 2 ^ (j_attempt j - 1)).
  { intros Hlt. unfold shl64. case_cond; bools; [lia|].
    rewrite Z.shiftl_mul_pow2 by lia. apply wrap64_id. specialize (Hle Hlt). lia. }
  case_cond; bools.
  - rewrite Z.max_r by lia. specialize (Hle ltac:(lia)). unfold minBackoff. rewrite Hb by done.
    case_cond; bools; split_and!; try lia; naive_solver.
  - rewrite Z.max_l by lia. change (2 ^ (1 - 1)) with 1. unfold backoffSeconds.
    split_and!; try lia; naive_solver.
Qed.

(** [minBackoff] relies on small attempt counts: at 60 attempts the shift
    overflows and the delay is negative, whatever the cap. *)
Theorem minBackoff_overflows s :
  0 <= whole_seconds (maxBackoff s) -> minBackoff s 60 < 0.
Proof. intros H. unfold minBackoff. change (shl64 30 (60 - 1)) with (-1152921504606846976). case_cond; bools; lia. Qed.
End reaping.

(** ** Accepted updates *)

Section outcomes.
Context `{UuidText}.

(** What an update needs to be accepted: the holder sends an allowed
    transition, a completed job carries no error, the values fit. *)
Record acceptable (w : world) (agent id : uuid) (req : UpdateRequest) (j : job) : Prop := {
  ac_row : W_jobs w !! id = Some j;
  ac_holder : j_claimed_by j = Some agent;
  ac_transition : validTransition (j_state j) (ur_State req) = true;
  ac_no_error : ur_State req = StateCompleted ->
    ur_ErrorCategory req = None /\ ur_ErrorDetails req = None;
  ac_progress p : ur_Progress req = Some p -> is_int4 p = true;
  ac_category c : ur_ErrorCategory req = Some c -> pg_text c = true;
  ac_details d : ur_ErrorDetails req = Some d -> pg_text d = true;
  ac_result r : ur_Result req = Some r -> pg_json r = true;
}.

Lemma update_stmt_accepts s w agent id req j :
  acceptable w agent id req j ->
  update_stmt s id req w =
    inr (updated_row s req (w_now w) j,
         set_db (on_jobs (<[id := updated_row s req (w_now w) j]>)) w).
Proof.
  intros [Hj _ _ Hne Hp Hc Hd Hr]. unfold update_stmt. rewrite Hj.
  assert (NoDup (as_column <$> update_assignments s req (w_now w))) as Hnd.
  { destruct req as [st pr ec ed rs]. unfold update_assignments. simpl in *.
    destruct (st =s StateCompleted) eqn:Ec.
    - bools. subst. destruct Hne as [-> ->]; [done|].
      destruct pr, rs; apply (bool_decide_unpack _); vm_compute; exact I.
    - destruct (st =s StateInProgress), pr, ec, ed, rs;
        apply (bool_decide_unpack _); vm_compute; exact I. }
  assert (forallb as_ok (update_assignments s req (w_now w)) = true) as Hok.
  { destruct req as [st pr ec ed rs]. unfold update_assignments. simpl in *.
    rewrite !forallb_app. destruct (st =s StateCompleted), (st =s StateInProgress); simpl;
      (destruct rs; simpl; [rewrite (Hr _ eq_refl)|]);
      (destruct pr; simpl; [rewrite (Hp _ eq_refl)|]);
      (destruct ec; simpl; [rewrite (Hc _ eq_refl)|]);
      (destruct ed; simpl; [rewrite (Hd _ eq_refl)|]); done. }
  rewrite bool_decide_eq_true_2, Hok by done. done.
Qed.

(** The audit event of an accepted update. *)
Definition update_event (agent : uuid) (req : UpdateRequest) (j j' : job) (now : instant) : event :=
  new_event ("agent:" ++s uuid_text agent) ("job." ++s ur_State req)
    [WithDevice (j_device_id j');
     WithState (JObj [("state", JStr (j_state j))]) (JObj [("state", JStr (j_state j'))])] now.

(** An accepted update is the row's rewriting followed by the bookkeeping. *)
Lemma exec_Update s w agent id req j :
  acceptable w agent id req j ->
  let j' := updated_row s req (w_now w) j in
  let w1 := set_db (on_jobs (<[id := j']>)) w in
  exec (Update s agent id req) w =
    match run [] (guard (rollback w) false (fun _ => ErrSql Fault)
                    (applyRefreshOutcome s j' req ≫= fun _ => Ret (j, j'))) w1 with
    | (inl e, w2) => (inl e, w2)
    | (inr (c, u), w2) =>
        (inr u, set_pool_audit (fun l => update_event agent req c u (w_now w2) :: l) w2)
    end.
Proof.
  intros Hac. pose proof (update_stmt_accepts s _ _ _ _ _ Hac) as Hu.
  destruct Hac as [Hj Hh Ht _ _ _ _ _]. simpl. unfold exec, Update.
  rewrite run_bind. unfold txn, update_body. simpl. unfold job_by_id. rewrite Hj.
  rewrite (proj2 (opt_is_true _ _) Hh), Ht. simpl. rewrite Hu. simpl.
  match goal with |- context [run [] (guard ?a ?b ?c ?d) ?w'] =>
    change (guard a b c d) with (guard a b c (applyRefreshOutcome s
      (updated_row s req (w_now w) j) req ≫= fun _ => Ret (j, updated_row s req (w_now w) j)));
    destruct (run [] (guard a b c d) w') as [[e|[cu up]] w2] end; [done|]. done.
Qed.

(** An agent that holds a job and reports an allowed transition with
    values that fit is always heard: without failures the update succeeds and
    returns the rewritten row (jobs other than refreshes; those have their
    bookkeeping below). *)
Theorem Update_accepts s w agent id req j :
  acceptable w agent id req j -> j_job_type j <> JobTypeRefresh ->
  exists w', exec (Update s agent id req) w = (inr (updated_row s req (w_now w) j), w')
    /\ W_jobs w' = <[id := updated_row s req (w_now w) j]> (W_jobs w).
Proof.
  intros Hac Hty. rewrite (exec_Update s _ _ _ _ _ Hac). simpl.
  destruct (updated_row_columns s req (w_now w) j) as ((_ & Hjt & _) & _).
  unfold applyRefreshOutcome. rewrite Hjt, bool_decide_eq_false_2 by done. simpl. eauto.
Qed.

(** A refresh job that names its deployment. *)
Definition refreshes (j : job) (dep : uuid) : Prop :=
  j_job_type j = JobTypeRefresh /\ json_is_struct (j_parameters j) = true
  /\ json_uuid_ptr (jget "deployment_id" (j_parameters j)) = Some (Some dep).

Lemma applyRefreshOutcome_refresh s req now j dep :
  refreshes j dep ->
  applyRefreshOutcome s (updated_row s req now j) req =
    (if ur_State req =s StateCompleted
     then refresh_completed s (updated_row s req now j) dep (ur_Result req)
     else if ur_State req =s StateFailed then
       let errorDetails := truncate_str 2000 (default "" (ur_ErrorDetails req)) in
       must Tx (fun w =>
          if pg_text errorDetails
          then inr (tt, update_deployment dep (refresh_failed (w_now w) errorDetails) w)
          else inl CheckViolation) ErrSql
     else Ret tt).
Proof.
  intros (Hty & Hst & Hdep).
  destruct (updated_row_columns s req now j) as ((_ & Hjt & _ & _ & Hpar & _) & Hs & _).
  unfold applyRefreshOutcome. rewrite Hjt, Hty, Hs, Hpar, Hst, Hdep.
  rewrite bool_decide_eq_true_2 by done. simpl.
  destruct (ur_State req =s StateCompleted); simpl; [done|].
  by destruct (ur_State req =s StateFailed).
Qed.

(** A completed refresh is recorded: the deployment's next due date is the
    reported expiry (7 days from now when none is reported) less the lead, its
    error is cleared, and the installation record names the signed artifact
    and install job of the result, provided the artifact is the one already
    installed or the first one. *)
Theorem refresh_completion_recorded s w agent id req j dep d expiry signed install :
  acceptable w agent id req j -> refreshes j dep -> ur_State req = StateCompleted ->
  refresh_result (ur_Result req) = Some (expiry, Some signed, install) ->
  W_deployments w !! dep = Some d ->
  is_Some (W_signed w !! signed) -> fk_ok install (W_jobs w) = true ->
  (forall p, installed_artifact dep w = Some p -> p = signed) ->
  exists w', exec (Update s agent id req) w = (inr (updated_row s req (w_now w) j), w')
    /\ (let e := default (w_now w + refreshProfileValidity) expiry in
        W_deployments w' !! dep = Some (refreshed (w_now w) (e - refreshLead s) d)
        /\ forall k i, W_installations w !! k = Some i -> ir_deployment_id i = dep ->
           W_installations w' !! k = Some (set_ir_install_job_id install
             (set_ir_signed_artifact_id (Some signed) (set_ir_verified_at (Some (w_now w))
               (set_ir_provisioning_expiry_at (Some e) i))))).
Proof.
  intros Hac Href Hc Hres Hd Hsig Hins Hprev. rewrite (exec_Update s _ _ _ _ _ Hac). simpl.
  rewrite (applyRefreshOutcome_refresh s _ _ _ _ Href), Hc. simpl.
  unfold refresh_completed. rewrite Hres. simpl. unfold update_deployment. simpl. rewrite Hd. simpl.
  set (w1 := set_db _ _).
  assert (installed_artifact dep w1 = installed_artifact dep w) as -> by done.
  assert (Hrec : record_install dep (default (w_now w + refreshProfileValidity) expiry) signed install w1
    = inr (tt, set_db (on_installations (update_where (of_deployment dep) (fun i =>
       set_ir_install_job_id install (set_ir_signed_artifact_id (Some signed)
         (set_ir_verified_at (Some (w_now w)) (set_ir_provisioning_expiry_at
           (Some (default (w_now w + refreshProfileValidity) expiry)) i)))))) w1)).
  { unfold record_install. rewrite (bool_decide_eq_true_2 _ Hsig : fk_ok (Some signed) (W_signed w1) = true).
    assert (fk_ok install (W_jobs w1) = true) as ->.
    { apply fk_ok_true. intros i Hi. rewrite fk_ok_true in Hins. simpl.
      rewrite lookup_insert. case_decide; [done|]. by apply Hins. }
    simpl. by rewrite andb_false_r. }
  destruct (installed_artifact dep w) as [p|] eqn:Ep;
    [rewrite (Hprev p eq_refl), bool_decide_eq_true_2 by done|]; simpl; rewrite Hrec; simpl;
    (eexists; split; [done|]); simpl; rewrite lookup_insert_eq; (split; [done|]);
    intros k i Hi Hdep; rewrite lookup_update_where, Hi; simpl; unfold of_deployment;
    by rewrite bool_decide_eq_true_2.
Qed.

(** A completed refresh that installed a different artifact is refused:
    the previous signed artifact is written to [rollback_artifact_id], which
    references the original artifacts, so the statement violates its foreign
    key and the whole update, the job's completion included, is rolled back. *)
Theorem refresh_changed_artifact_refused s w agent id req j dep d expiry signed install prev :
  acceptable w agent id req j -> refreshes j dep -> ur_State req = StateCompleted ->
  refresh_result (ur_Result req) = Some (expiry, Some signed, install) ->
  W_deployments w !! dep = Some d ->
  installed_artifact dep w = Some prev -> prev <> signed -> W_artifacts w !! prev = None ->
  exists w', exec (Update s agent id req) w = (inl (ErrSql FkViolation), w')
    /\ w_db w' = w_db w.
Proof.
  intros Hac Href Hc Hres Hd Hprev Hne Hart. rewrite (exec_Update s _ _ _ _ _ Hac). simpl.
  rewrite (applyRefreshOutcome_refresh s _ _ _ _ Href), Hc. simpl.
  unfold refresh_completed. rewrite Hres. simpl. unfold update_deployment. simpl. rewrite Hd. simpl.
  set (w1 := set_db _ _).
  assert (installed_artifact dep w1 = Some prev) as -> by done.
  rewrite bool_decide_eq_false_2 by done. simpl.
  assert (set_rollback dep prev w1 = inl FkViolation) as ->.
  { unfold set_rollback. subst w1. simpl. rewrite lookup_insert_eq.
    rewrite bool_decide_eq_false_2; [done|]. rewrite Hart. by intros []. }
  simpl. eauto.
Qed.

(** A failed refresh is recorded with the first 2000 bytes of its details,
    or, when those bytes are not valid text, the update is refused and nothing
    is recorded. *)
Theorem refresh_failure_recorded s w agent id req j dep d :
  acceptable w agent id req j -> refreshes j dep -> ur_State req = StateFailed ->
  W_deployments w !! dep = Some d ->
  let details := truncate_str 2000 (default "" (ur_ErrorDetails req)) in
  exists w', (exec (Update s agent id req) w).2 = w'
    /\ if pg_text details
       then (exec (Update s agent id req) w).1 = inr (updated_row s req (w_now w) j)
            /\ W_deployments w' !! dep = Some (refresh_failed (w_now w) details d)
       else (exec (Update s agent id req) w).1 = inl (ErrSql CheckViolation)
            /\ w_db w' = w_db w.
Proof.
  intros Hac Href Hc Hd. simpl. eexists. split; [done|].
  rewrite (exec_Update s _ _ _ _ _ Hac). simpl.
  rewrite (applyRefreshOutcome_refresh s _ _ _ _ Href), Hc. simpl.
  destruct (pg_text _); simpl; [|done].
  unfold update_deployment. simpl. rewrite Hd. simpl. by rewrite lookup_insert_eq.
Qed.
End outcomes.

(** Details that are valid text can be cut inside a character, so the
    refusal of [refresh_failure_recorded] does occur: 1999 letters followed by
    a two-byte character. *)
Theorem refresh_details_cut_inside_character :
  let details := String.string_of_list_ascii (repeat "a"%char 1999 ++ [Ascii.ascii_of_N 195; Ascii.ascii_of_N 169]) in
  pg_text details = true /\ pg_text (truncate_str 2000 details) = false.
Proof. split; vm_compute; reflexivity. Qed.

(** ** The race of [ClaimSpecific] *)

(** Between the read of a failed job and its requeue another agent may claim
    and complete the job; the requeue has no guard on the state, so the finished
    job is taken back and handed out once more.  [other] stands for what the
    other agent left in the row. *)
Theorem ClaimSpecific_race `{UuidText} s agent id w w1 j other :
  W_jobs w !! id = Some j -> j_state j = StateFailed ->
  W_jobs w1 !! id = Some other -> is_Some (W_agents w1 !! agent) ->
  exists j' w', rtc (istep (fun a b => a = w /\ b = w1))
                  (ClaimSpecific s agent id, w) (Ret j', w')
    /\ W_jobs w' !! id = Some j' /\ j_state j' = StateClaimed /\ j_claimed_by j' = Some agent
    /\ j_attempt j' = j_attempt other + 1.
Proof.
  intros Hj Hs Ho Ha.
  set (j1 := requeue_row (w_now w1) other).
  set (w2 := set_db (on_jobs (<[id := j1]>)) w1).
  set (j2 := claim_row agent (leaseInterval s) (w_now w1) j1).
  set (w3 := set_db (on_jobs (<[id := j2]>)) w2).
  exists j2, (set_pool_audit (fun l => new_event ("agent:" ++s uuid_text agent) "job.claimed"
                [WithDevice (j_device_id j2)] (w_now w3) :: l) w3).
  split; [|simpl; by rewrite lookup_insert_eq].
  eapply rtc_stmt; [unfold reads; reflexivity|]. simpl.
  unfold job_by_id. rewrite Hj, Hs. simpl.
  eapply rtc_l; [by apply istep_env|].
  eapply rtc_stmt; [unfold writes, update_job; rewrite Ho; reflexivity|]. simpl.
  eapply rtc_stmt; [unfold claim_stmt; simpl; rewrite lookup_insert_eq, bool_decide_eq_true_2 by done; reflexivity|].
  simpl.
  eapply rtc_stmt; [unfold writes; reflexivity|]. simpl. apply rtc_refl.
Qed.
