(* ===== verification/JobsWitness.v ===== *)
(** Concrete runs of the job queue on which the theorems of JobsSpec.v,
    JobsCreate.v and JobsOutcome.v apply. *)
From S2P Require Import Prelude GoStrings GoTime Effects Schema Samples AuditLog Jobs JobsInvariant JobsSpec JobsCreate JobsOutcome.

#[local] Existing Instance sample_uuid.

Definition svc : Service := NewService (5 * Minute) [].

Definition agent7 : agent :=
  MkAgent 7 "mini" None None None None "online" None (JObj []) "device_agent" None None 0.
Definition device1 : device :=
  MkDevice 1 "udid-1" "ios" None None None (Some 7%N) "paired" None None.

(** A world with one agent, its device and one job. *)
Definition world_with (j : job) : world :=
  set_db (on_jobs (fun _ => {[ j_id j := j ]})) (set_db (on_agents (<[7%N := agent7]>))
    (set_db (on_devices (<[1%N := device1]>)) empty_world)).

Lemma world_with_wf j : wf_job j -> (j_id j < 100)%N -> wf_jobs (world_with j).
Proof.
  intros Hj Hid. split; simpl.
  - intros id x [<- <-]%lookup_singleton_Some. done.
  - intros i1 i2 x1 x2 [<- <-]%lookup_singleton_Some [<- <-]%lookup_singleton_Some. done.
Qed.

Lemma world_with_devices j : devices_wf (world_with j).
Proof. intros id d. simpl. rewrite lookup_insert. case_decide; [|done]. by intros [= <-]. Qed.

Definition queued (jt : string) : job :=
  new_job jt (Some 1%N) None (JObj []) "k" 5 None None None 50 0.
Definition taken (jt : string) : job := claim_row 7 (5 * Minute) Hour (queued jt).
Definition finished (jt : string) : job :=
  updated_row svc (MkUpdateRequest StateCompleted None None None None) (2 * Hour) (taken jt).

Lemma finished_wf jt : wf_job (finished jt).
Proof. apply updated_row_wf; [done|]. apply claim_row_wf, new_job_wf. Qed.

Definition req_create : CreateRequest :=
  MkCreateRequest "install" (Some 1%N) None None "k" None None None.
Definition req_start : UpdateRequest := MkUpdateRequest StateInProgress (Some 10) None None None.

(** A history in which a statement fails, a job is taken and its lease runs out. *)
Definition some_calls : list call :=
  [MkCall (QCreate "admin" req_create) Hour [true];
   MkCall (QCreate "admin" req_create) Hour [];
   MkCall (QClaim 7 [] [] 10) (2 * Hour) [];
   MkCall QReap (3 * Hour) [false; true]; MkCall QReap (4 * Hour) []].

Lemma history_refines_lifecycle_witness :
  wf_jobs (world_with (queued "verify"))
  /\ wf_jobs (history svc some_calls (world_with (queued "verify")))
  /\ evolves (existsb forces some_calls) (world_with (queued "verify"))
       (history svc some_calls (world_with (queued "verify"))).
Proof.
  split; [by apply world_with_wf; [apply new_job_wf|]|].
  apply history_refines_lifecycle. by apply world_with_wf; [apply new_job_wf|].
Defined.

Lemma completed_is_final_witness :
  W_jobs (history svc some_calls (world_with (finished "verify"))) !! 50%N
  = Some (finished "verify").
Proof.
  apply completed_is_final; [by apply world_with_wf; [apply finished_wf|]|by vm_compute|done].
Defined.

Lemma retry_is_finite_witness :
  existsb forces some_calls = false
  /\ forall id j, W_jobs (history svc some_calls (world_with (queued "verify"))) !! id = Some j ->
     j_attempt j <= attempt_limit j.
Proof.
  split; [reflexivity|]. apply retry_is_finite; [by apply world_with_wf; [apply new_job_wf|]|done|].
  intros id j Hj. simpl in Hj. apply lookup_singleton_Some in Hj as [_ <-]. done.
Defined.

Lemma Claim_delivers_witness :
  exists js w', run [] (Claim svc 7 [] [] 10) (world_with (queued "install")) = (inr js, w')
    /\ length js = 1%nat /\ Z.of_nat (length js) <= normal_limit 10.
Proof.
  eexists _, _. split; [vm_compute; reflexivity|]. split; [reflexivity|].
  eapply (Claim_delivers svc 7 [] [] 10 [] (world_with (queued "install")) (inr _) _);
    [by apply world_with_wf; [apply new_job_wf|]|apply world_with_devices|].
  vm_compute. reflexivity.
Defined.

Lemma Update_spec_witness :
  exists r w', run [] (Update svc 7 50 req_start) (world_with (taken "install")) = (r, w')
    /\ update_post svc (world_with (taken "install")) 7 50 req_start r w'.
Proof.
  destruct (run [] (Update svc 7 50 req_start) (world_with (taken "install"))) as [r w'] eqn:Hrun.
  exists r, w'. split; [reflexivity|]. apply (Update_spec svc 7 50 req_start [] _ _ _ Hrun).
Defined.

Lemma queue_errors_are_atomic_witness :
  exists e w', run [] (Update svc 8 50 req_start) (world_with (taken "install")) = (inl e, w')
    /\ w_db w' = w_db (world_with (taken "install")).
Proof.
  eexists _, _. split; [vm_compute; reflexivity|].
  eapply (proj1 (proj2 (queue_errors_are_atomic svc [] (world_with (taken "install")))) 8 50 req_start)%N.
  vm_compute. reflexivity.
Defined.

Lemma Create_idempotent_witness :
  exists j w1 w2, run [] (Create "a" req_create) (world_with (finished "verify")) = (inr j, w1)
    /\ run [false] (Create "b" req_create) w1 = (inr j, w2) /\ W_jobs w2 = W_jobs w1.
Proof.
  eexists _, _, _. split; [vm_compute; reflexivity|]. split; [vm_compute; reflexivity|].
  eapply (Create_idempotent "a" "b" req_create req_create [] [false]
            (world_with (finished "verify")));
    [by apply world_with_wf; [apply finished_wf|]|done|vm_compute; reflexivity|vm_compute; reflexivity].
Defined.

Definition late : world := set_now (3 * Hour) (world_with (taken "install")).

Lemma late_wf : wf_jobs late.
Proof.
  destruct (world_with_wf (taken "install")) as [Hr Hk]; [apply claim_row_wf, new_job_wf|done|].
  by split.
Qed.

Lemma Reap_spec_witness :
  exists w', run [] (Reap svc) late = (inr 1, w')
    /\ 1 = count_where (reapable (w_now late)) (W_jobs late).
Proof.
  eexists _. split; [vm_compute; reflexivity|].
  eapply (Reap_spec svc [] late 1); [apply late_wf|vm_compute; reflexivity].
Defined.

Definition tried (n : Z) : job := set_j_attempt n (taken "install").

Lemma verdict_retries_witness :
  verdict_of svc (tried 3) = Retry 120 /\ 30 <= 120.
Proof.
  split; [reflexivity|]. apply (verdict_retries svc (tried 3) 120); [done|done|reflexivity].
Defined.

Lemma minBackoff_overflows_witness : minBackoff svc 60 < 0.
Proof. apply minBackoff_overflows. done. Defined.

Lemma start_acceptable jt : acceptable (world_with (taken jt)) 7 50 req_start (taken jt).
Proof.
  split; [apply lookup_singleton_eq|vm_compute; reflexivity|vm_compute; reflexivity|discriminate| |
          discriminate|discriminate|discriminate].
  intros p [= <-]. reflexivity.
Qed.

Lemma Update_accepts_witness :
  exists w', exec (Update svc 7 50 req_start) (world_with (taken "install"))
    = (inr (updated_row svc req_start (w_now (world_with (taken "install"))) (taken "install")), w')
    /\ W_jobs w' = <[50%N := updated_row svc req_start (w_now (world_with (taken "install"))) (taken "install")]>
         (W_jobs (world_with (taken "install"))).
Proof. apply (Update_accepts svc (world_with (taken "install")) 7 50 req_start (taken "install")); [apply start_acceptable|done]. Defined.

(** A refresh of deployment 20, on which signed artifact 30 is installed. *)
Definition refresh_params : json := JObj [("deployment_id", JStr (uuid_text 20))].
Definition refreshing : job :=
  claim_row 7 (5 * Minute) Hour
    (new_job "refresh" (Some 1%N) None refresh_params "k" 15 None None (Some "refresh") 50 0).
Definition deployment20 : deployment := MkDeployment 20 1 None None None None None None.
Definition installed (signed : uuid) : installation :=
  MkInstallation 21 20 (Some (13 * Hour)) None (Some signed) None.
Definition signed_as (id : uuid) : signed_artifact :=
  MkSigned id 40 1 60 None None None None (Some "sha") None.

Definition refresh_world : world :=
  set_db (on_signed_artifacts (fun _ => <[30%N := signed_as 30]> {[31%N := signed_as 31]}))
    (set_db (on_installations (fun _ => {[21%N := installed 30]}))
      (set_db (on_deployments (fun _ => {[20%N := deployment20]})) (world_with refreshing))).

Definition done_with (signed : uuid) : UpdateRequest :=
  MkUpdateRequest StateCompleted None None None
    (Some (JObj [("signed_artifact_id", JStr (uuid_text signed))])).

Definition failed_with (details : string) : UpdateRequest :=
  MkUpdateRequest StateFailed None (Some "network") (Some details) None.

Lemma refreshing_20 : refreshes refreshing 20.
Proof. done. Qed.

Lemma refresh_completion_recorded_witness :
  exists w', exec (Update svc 7 50 (done_with 30)) refresh_world
             = (inr (updated_row svc (done_with 30) (w_now refresh_world) refreshing), w')
    /\ W_deployments w' !! 20%N
       = Some (refreshed (w_now refresh_world) (w_now refresh_world + refreshProfileValidity - refreshLead svc) deployment20).
Proof.
  destruct (refresh_completion_recorded svc refresh_world 7 50 (done_with 30) refreshing 20
              deployment20 None 30 None) as (w' & He & Hd & _);
    [split; try done; by intros ? [= <-]|done..|by intros p [= <-]|].
  - by exists w'.
Defined.

Lemma refresh_changed_artifact_refused_witness :
  exists w', exec (Update svc 7 50 (done_with 31)) refresh_world = (inl (ErrSql FkViolation), w')
    /\ w_db w' = w_db refresh_world.
Proof.
  apply (refresh_changed_artifact_refused svc refresh_world 7 50 (done_with 31) refreshing 20
           deployment20 None 31 None 30); [split; try done; by intros ? [= <-]|done..].
Defined.

Lemma refresh_failure_recorded_witness :
  W_deployments (exec (Update svc 7 50 (failed_with "no route")) refresh_world).2 !! 20%N
  = Some (refresh_failed (w_now refresh_world) "no route" deployment20).
Proof.
  destruct (refresh_failure_recorded svc refresh_world 7 50 (failed_with "no route") refreshing 20
              deployment20) as (w' & Hw & Hp & Hd);
    [split; try done; by intros ? [= <-]|done..|].
  rewrite Hw. exact Hd.
Defined.

Definition lost : job := set_j_state StateFailed (taken "install").

Lemma ClaimSpecific_race_witness :
  exists j' w', rtc (istep (fun a b => a = world_with lost /\ b = world_with (finished "install")))
      (ClaimSpecific svc 7 50, world_with lost) (Ret j', w')
    /\ W_jobs w' !! 50%N = Some j' /\ j_state j' = StateClaimed /\ j_claimed_by j' = Some 7%N
    /\ j_attempt j' = j_attempt (finished "install") + 1.
Proof.
  apply (ClaimSpecific_race svc 7 50 (world_with lost) (world_with (finished "install")) lost
           (finished "install")); [vm_compute; reflexivity..|]. vm_compute. by eexists.
Defined.
