(* ===== verification/Scheduler.v ===== *)
(** The refresh scheduler (internal/scheduler/scheduler.go): one tick flags the
    deployments that cannot be refreshed, enqueues one refresh job per due
    deployment and cycle, recovers cycles whose job died for a transient reason
    and runs the expiry guard.  The queue is used through [RefreshQueue]. *)
From S2P Require Import Prelude GoStrings GoTime Effects Schema AuditLog Jobs JobsInvariant JobsCreate.

Definition DefaultLead : duration := 48 * Hour.
Definition expiryGuardLead : duration := 24 * Hour.
Definition refreshMaxAttempts : Z := 15.

Record dueDeployment := MkDue {
  dd_ID : uuid;
  dd_DeviceID : uuid;
  dd_Udid : string;
  dd_DeviceName : string;
  dd_DueAt : instant;
  dd_ExpiryAt : instant;
  dd_SourceArtifactID : string;
  dd_SignedArtifactID : string;
  dd_AccountID : string;
  dd_AppleID : string
}.

Section scheduler.
Context `{UuidText} `{RefreshQueue}.
Context (lead : duration).

(** ** Queries *)

(** The joined rows of a deployment: its installation record and device. *)
Definition deployed (w : world) : list (deployment * installation * device) :=
  dep ← rows (W_deployments w);
  ir ← rows (W_installations w);
  d ← rows (W_devices w);
  if bool_decide (ir_deployment_id ir = dp_id dep) && bool_decide (dv_id d = dp_device_id dep)
     && bool_decide (is_Some (dv_agent_id d))
  then [(dep, ir, d)] else [].

(** [COALESCE(dep.next_refresh_due_at, ir.provisioning_expiry_at - lead)]. *)
Definition due_at (dep : deployment) (expiry : instant) : instant :=
  coalesce (dp_next_refresh_due_at dep) (expiry - lead).

(** The signed artifact and account a record resolves through. *)
Definition resolved (ir : installation) (w : world) : option (signed_artifact * account) :=
  sid ← ir_signed_artifact_id ir;
  sa ← W_signed w !! sid;
  acc ← W_accounts w !! sa_account_id sa;
  Some (sa, acc).

Definition due_row (w : world) (x : deployment * installation * device) : option dueDeployment :=
  let '(dep, ir, d) := x in
  expiry ← ir_provisioning_expiry_at ir;
  sac ← resolved ir w;
  if due_at dep expiry <=? w_now w then
    Some (MkDue (dp_id dep) (dp_device_id dep) (dv_udid d) (default "" (dv_device_name d))
            (due_at dep expiry) expiry (uuid_text (sa_source_artifact_id sac.1))
            (default "" (uuid_text <$> ir_signed_artifact_id ir))
            (uuid_text (ac_id sac.2)) (ac_label sac.2))
  else None.

Definition due_rows (w : world) : list dueDeployment :=
  sort_by (fun a b => dd_DueAt a <=? dd_DueAt b) (omap (due_row w) (deployed w)).

Definition dueDeployments : prog world jerr (list dueDeployment) :=
  must Pool (reads due_rows) ErrSql.

Definition unresolved_row (w : world) (x : deployment * installation * device) : option uuid :=
  let '(dep, ir, _) := x in
  expiry ← ir_provisioning_expiry_at ir;
  if (due_at dep expiry <=? w_now w) && bool_decide (resolved ir w = None)
  then Some (dp_id dep) else None.

Definition unresolved_ids (w : world) : list uuid := omap (unresolved_row w) (deployed w).

Definition unlinked_reason : string :=
  "needs attention: deployment is not linked to a signed artifact and Apple account (re-associate instead of guessing)".

Definition attention (reason : string) (now : instant) (d : deployment) : deployment :=
  set_dp_last_refresh_error (Some reason) (set_dp_last_refresh_result (Some "attention")
    (set_dp_last_refresh_at (Some now) d)).

Definition markUnrefreshable : prog world jerr unit :=
  ids ← must Pool (reads unresolved_ids) ErrSql;
  for_ ids (fun id => must Pool (writes (fun w => update_deployment id (fun d =>
    if default "" (dp_last_refresh_error d) =s unlinked_reason then d
    else attention unlinked_reason (w_now w) d) w)) ErrSql).

(** ** One deployment *)

Definition refresh_key (d : dueDeployment) : string :=
  "refresh:" ++s uuid_text (dd_ID d) ++s ":" ++s format_day (dd_DueAt d) ++s ":"
  ++s format_day (dd_ExpiryAt d).

Definition guard_key (d : dueDeployment) : string :=
  "refresh-guard:" ++s uuid_text (dd_ID d) ++s ":" ++s format_day (dd_ExpiryAt d).

Definition refresh_job_params (d : dueDeployment) : json :=
  JObj [("deployment_id", JStr (uuid_text (dd_ID d)));
        ("source_artifact_id", JStr (dd_SourceArtifactID d));
        ("previous_signed_artifact_id", JStr (dd_SignedArtifactID d));
        ("apple_account_id", JStr (dd_AccountID d));
        ("apple_id", JStr (dd_AppleID d));
        ("udid", JStr (dd_Udid d));
        ("device_name", JStr (dd_DeviceName d));
        ("expiry_at", JStr (format_rfc3339 (dd_ExpiryAt d)));
        ("artifact_id", JStr (dd_SourceArtifactID d))].

Definition firstLine (s : string) : string :=
  match index_byte "010" s with
  | Some i => trim_space (str_take i s)
  | None => trim_space s
  end.

Definition terminal_reason (reason : option string) : bool :=
  match reason with Some r => has_prefix "terminal_error:" r | None => false end.

Definition dead_under (key : string) (j : job) : bool :=
  (j_idempotency_key j =s key) && (j_state j =s StateDead).

Definition dead_summary (reason : string) (details : option string) : string :=
  match details with
  | Some det =>
      if det =s "" then reason
      else truncate_str 500
             (if firstLine det =s "" then reason else reason ++s ": " ++s firstLine det)
  | None => reason
  end.

Definition dead_job (key : string) (w : world) : option job :=
  find_row (dead_under key) (W_jobs w).

Definition deadCycleTerminal (key : string) : prog world jerr (bool * string) :=
  r ← try_ Pool (reads (dead_job key));
  match r with
  | inr (Some j) =>
      match j_dead_reason j with
      | Some reason =>
          if has_prefix "terminal_error:" reason
          then Ret (true, dead_summary reason (j_error_details j))
          else Ret (false, "")
      | None => Ret (false, "")
      end
  | _ => Ret (false, "")
  end.

Definition flagAttention (id : uuid) (reason : string) : prog world jerr unit :=
  _ ← try_ Pool (fun w =>
        if pg_text reason then inr (tt, update_deployment id (attention reason (w_now w)) w)
        else inl CheckViolation);
  Ret tt.

(** The foreign keys that refer to [jobs]: those of jobs and of installation
    records are cleared, that of signed artifacts refuses the deletion. *)
Definition clear_ref (gone : job -> bool) (m : gmap uuid job) (r : option uuid) : option uuid :=
  match r with
  | Some i => match m !! i with Some j => if gone j then None else r | None => r end
  | None => None
  end.

Definition delete_jobs (gone : job -> bool) (w : world) : sqlerr + unit * world :=
  let m := W_jobs w in
  if exists_row (fun sa => match sa_job_id sa with
       | Some i => match m !! i with Some j => gone j | None => false end
       | None => false end) (W_signed w)
  then inl FkViolation
  else inr (tt, set_db (fun d =>
         on_installations (fmap (fun i =>
             set_ir_install_job_id (clear_ref gone m (ir_install_job_id i)) i))
           (on_jobs (fun t => (fun j =>
             set_j_parent_job_id (clear_ref gone m (j_parent_job_id j)) j)
               <$> delete_where gone t) d)) w).

Definition releaseDeadCycle (key : string) : prog world jerr unit :=
  must Pool (delete_jobs (dead_under key)) ErrSql.

Definition enqueue (d : dueDeployment) (key : string) : prog world jerr job :=
  enqueue_refresh "scheduler" (dd_DeviceID d) (Some (refresh_job_params d)) key
    refreshMaxAttempts "refresh".

(** The recovery of a cycle whose job died for a transient reason. *)
Definition recreate_cycle (d : dueDeployment) : prog world jerr Z :=
  rel ← attempt (releaseDeadCycle (refresh_key d));
  match rel with
  | inl _ => Ret 0
  | inr _ =>
      r2 ← attempt (enqueue d (refresh_key d));
      match r2 with
      | inl _ => Ret 0
      | inr j2 => if j_state j2 =s "dead" then Ret 0 else Ret 1
      end
  end.

Definition createRefreshJob (d : dueDeployment) : prog world jerr Z :=
  let key := refresh_key d in
  r ← attempt (enqueue d key);
  match r with
  | inl _ => Ret 0
  | inr j =>
      if j_state j =s "dead" then
        ts ← deadCycleTerminal key;
        if ts.1 : bool then
          _ ← flagAttention (dd_ID d) ts.2;
          Ret 0
        else recreate_cycle d
      else Ret 1
  end.

(** ** The expiry guard *)

Definition has_active_refresh (dev : uuid) (w : world) : bool :=
  exists_row (fun j => bool_decide (j_device_id j = Some dev) && (j_job_type j =s "refresh")
    && in_strs (j_state j) ["pending"; "claimed"; "in_progress"]) (W_jobs w).

Definition guard_row (w : world) (x : deployment * installation * device) : option dueDeployment :=
  let '(dep, ir, d) := x in
  expiry ← ir_provisioning_expiry_at ir;
  sac ← resolved ir w;
  if (expiry <=? w_now w + expiryGuardLead)
     && negb (default "" (dp_last_refresh_result dep) =s "attention")
     && negb (has_active_refresh (dp_device_id dep) w)
  then
    Some (MkDue (dp_id dep) (dp_device_id dep) (dv_udid d) (default "" (dv_device_name d))
            0 expiry (uuid_text (sa_source_artifact_id sac.1))
            (default "" (uuid_text <$> ir_signed_artifact_id ir))
            (uuid_text (ac_id sac.2)) (ac_label sac.2))
  else None.

Definition guard_rows (w : world) : list dueDeployment := omap (guard_row w) (deployed w).

Definition guard_one (created : Z) (d : dueDeployment) : prog world jerr Z :=
  r ← attempt (enqueue d (guard_key d));
  match r with inl _ => Ret created | inr _ => Ret (created + 1) end.

(** The rows are streamed while jobs are created; [rows.Err()] is the last
    statement. *)
Definition expiryGuard : prog world jerr Z :=
  l ← must Pool (reads guard_rows) ErrSql;
  created ← fold_ guard_one 0 l;
  _ ← must Pool (reads (fun _ => tt)) ErrSql;
  Ret created.

Definition tick : prog world jerr Z :=
  _ ← attempt (E' := jerr) markUnrefreshable;
  due ← dueDeployments;
  created ← fold_ (fun n d => m ← createRefreshJob d; Ret (n + m)) 0 due;
  guarded ← attempt expiryGuard;
  match guarded with
  | inl _ => Ret created
  | inr g => Ret (created + g)
  end.

Definition Run : prog world jerr Z := tick.
End scheduler.
