(* ===== verification/SchedulerSpec.v ===== *)
(** What one tick of the scheduler does to the queue, proved against the
    interface [RefreshQueueLaws]. *)
From S2P Require Import Prelude GoStrings GoTime Effects Schema AuditLog Jobs JobsInvariant JobsSpec JobsCreate Scheduler.

(** Two rows that differ at most in the cleared parent. *)
Definition same_but_parent (j j' : job) : Prop :=
  j' = set_j_parent_job_id (j_parent_job_id j') j.

Lemma same_but_parent_refl j : same_but_parent j j.
Proof. by destruct j. Qed.

Lemma same_but_parent_trans j1 j2 j3 :
  same_but_parent j1 j2 -> same_but_parent j2 j3 -> same_but_parent j1 j3.
Proof. unfold same_but_parent. intros -> ->. done. Qed.

(** What the scheduler's queries read of a deployment and of an installation
    record does not change; a deployment may be flagged. *)
Definition same_schedule (d d' : deployment) : Prop :=
  dp_id d' = dp_id d /\ dp_device_id d' = dp_device_id d
  /\ dp_next_refresh_due_at d' = dp_next_refresh_due_at d
  /\ (dp_last_refresh_result d' = dp_last_refresh_result d
      \/ dp_last_refresh_result d' = Some "attention").

Definition same_install (i i' : installation) : Prop :=
  ir_deployment_id i' = ir_deployment_id i
  /\ ir_provisioning_expiry_at i' = ir_provisioning_expiry_at i
  /\ ir_signed_artifact_id i' = ir_signed_artifact_id i.

Record sched_frame (w w' : world) : Prop := {
  sf_now : w_now w' = w_now w;
  sf_devices : W_devices w' = W_devices w;
  sf_signed : W_signed w' = W_signed w;
  sf_accounts : W_accounts w' = W_accounts w;
  sf_deps id d' : W_deployments w' !! id = Some d' ->
    exists d, W_deployments w !! id = Some d /\ same_schedule d d';
  sf_inst id i' : W_installations w' !! id = Some i' ->
    exists i, W_installations w !! id = Some i /\ same_install i i';
  sf_deps_fwd id d : W_deployments w !! id = Some d ->
    exists d', W_deployments w' !! id = Some d' /\ same_schedule d d';
  sf_inst_fwd id i : W_installations w !! id = Some i ->
    exists i', W_installations w' !! id = Some i' /\ same_install i i';
}.

Lemma same_schedule_refl d : same_schedule d d.
Proof. split_and!; auto. Qed.
Lemma same_schedule_trans d1 d2 d3 :
  same_schedule d1 d2 -> same_schedule d2 d3 -> same_schedule d1 d3.
Proof.
  intros (? & ? & ? & ?) (? & ? & ? & ?). split_and!; try congruence. intuition congruence.
Qed.
Lemma same_install_refl i : same_install i i.
Proof. by split_and!. Qed.
Lemma same_install_trans i1 i2 i3 :
  same_install i1 i2 -> same_install i2 i3 -> same_install i1 i3.
Proof. intros (? & ? & ?) (? & ? & ?). split_and!; congruence. Qed.

Lemma sched_frame_refl w : sched_frame w w.
Proof. split; eauto using same_schedule_refl, same_install_refl. Qed.

Lemma sched_frame_trans w1 w2 w3 : sched_frame w1 w2 -> sched_frame w2 w3 -> sched_frame w1 w3.
Proof.
  intros [] []. split; try congruence; intros id x Hx.
  - destruct (sf_deps1 _ _ Hx) as (y & Hy & ?). destruct (sf_deps0 _ _ Hy) as (z & ? & ?).
    eauto using same_schedule_trans.
  - destruct (sf_inst1 _ _ Hx) as (y & Hy & ?). destruct (sf_inst0 _ _ Hy) as (z & ? & ?).
    eauto using same_install_trans.
  - destruct (sf_deps_fwd0 _ _ Hx) as (y & Hy & ?). destruct (sf_deps_fwd1 _ _ Hy) as (z & ? & ?).
    eauto using same_schedule_trans.
  - destruct (sf_inst_fwd0 _ _ Hx) as (y & Hy & ?). destruct (sf_inst_fwd1 _ _ Hy) as (z & ? & ?).
    eauto using same_install_trans.
Qed.

Lemma only_jobs_frame w w' : only_jobs w w' -> sched_frame w w'.
Proof.
  intros (Hdb & Hnow & _). pose proof (sched_frame_refl w) as [].
  split; try rewrite Hdb; simpl; done.
Qed.

Lemma frame_deployment w id (f : deployment -> deployment) :
  (forall d, same_schedule d (f d)) -> sched_frame w (update_deployment id f w).
Proof.
  intros Hf. pose proof (sched_frame_refl w) as Hr. unfold update_deployment.
  destruct (W_deployments w !! id) as [d|] eqn:Hd; [|done].
  destruct Hr. split; try done; simpl; intros i d'; rewrite lookup_insert;
    case_decide; subst; eauto; [intros [= <-]; eauto|].
  intros Hd'. simplify_eq. eauto.
Qed.

Lemma attention_same reason now d : same_schedule d (attention reason now d).
Proof. split_and!; try done. by right. Qed.

(** ** Safety: what a tick may do to the queue, whatever fails *)

(** The rows a tick adds. *)
Definition scheduled (j : job) : Prop :=
  j_state j = StatePending /\ j_attempt j = 0 /\ j_job_type j = JobTypeRefresh
  /\ j_max_attempts j = refreshMaxAttempts /\ j_purpose j = Some "refresh".

(** From [w] to [w']: only dead rows vanish, the others keep every column but a
    parent that vanished, and the new rows are fresh refresh jobs. *)
Record sched_jobs (w w' : world) : Prop := {
  sj_wf : wf_jobs w';
  sj_kept id j : W_jobs w !! id = Some j ->
    (j_state j = StateDead /\ W_jobs w' !! id = None)
    \/ exists j', W_jobs w' !! id = Some j' /\ same_but_parent j j';
  sj_born id j' : W_jobs w' !! id = Some j' ->
    (exists j, W_jobs w !! id = Some j /\ same_but_parent j j') \/ scheduled j';
  sj_ids id j : W_jobs w !! id = Some j -> (id < w_fresh w')%N;
  sj_frame : sched_frame w w';
}.

Lemma sched_jobs_refl w : wf_jobs w -> sched_jobs w w.
Proof.
  intros Hw. split; eauto using sched_frame_refl, same_but_parent_refl.
  intros id j Hj. apply (wf_row _ Hw _ _ Hj).
Qed.

Lemma sched_jobs_same w0 w w' :
  sched_jobs w0 w -> W_jobs w' = W_jobs w -> (w_fresh w <= w_fresh w')%N ->
  sched_frame w w' -> sched_jobs w0 w'.
Proof.
  intros [Hwf Hk Hb Hi Hf] Hj Hfr Hf'. split.
  - eapply (good_frame false w w); eauto. by apply good_refl.
  - intros id j Hl. rewrite Hj. eauto.
  - intros id j'. rewrite Hj. eauto.
  - intros id j Hl. specialize (Hi _ _ Hl). lia.
  - by eapply sched_frame_trans.
Qed.

Section spec.
Context `{UuidText} `{HQL : RefreshQueueLaws}.

Lemma enqueued_step w0 w d key r w' :
  sched_jobs w0 w ->
  enqueued key (refresh_as (dd_DeviceID d) (Some (refresh_job_params d)) refreshMaxAttempts
    "refresh") w (E:=jerr) r w' ->
  sched_jobs w0 w'.
Proof using.
  intros Hs (Ho & Hwf' & Hfr & Hm). pose proof (only_jobs_frame _ _ Ho) as Hfrm.
  destruct r as [e|j]; [by eapply sched_jobs_same|]. destruct Hm as (Hkey & Hl & Hc).
  destruct Hc as [[_ Heq]|(_ & Hid & Hnone & Heq & Hp & Ha & Hty & Hdev & Hpar & Hmx & Hpu)];
    [by eapply sched_jobs_same|].
  destruct Hs as [Hwf Hk Hb Hi Hf].
  split; [done| | | |by eapply sched_frame_trans]; intros id j' Hj'.
  - specialize (Hi _ _ Hj'). rewrite Heq, lookup_insert_ne by lia. by apply Hk.
  - rewrite Heq, lookup_insert in Hj'. case_decide; [injection Hj' as <-|eauto]. by right.
  - specialize (Hi _ _ Hj'). lia.
Qed.

Lemma keeps_enqueue w0 d key : keeps (sched_jobs w0) (enqueue d key).
Proof using HQL.
  intros w Hw. eapply wp_mono; [|apply enqueue_refresh_spec, Hw].
  intros r w'. by apply enqueued_step.
Qed.

Lemma keeps_flag w0 id reason : keeps (sched_jobs w0) (flagAttention id reason).
Proof using.
  unfold flagAttention. repeat keeps_step.
  intros w u w' Hw Hi. case_match; [|done]. injection Hi as <- <-.
  eapply sched_jobs_same; [exact Hw|..]; [by unfold update_deployment; case_match..|].
  apply frame_deployment. intros. apply attention_same.
Qed.

Lemma keeps_mark w0 lead : keeps (sched_jobs w0) (markUnrefreshable lead).
Proof using.
  unfold markUnrefreshable. repeat keeps_step.
  intros w u w' Hw Hi. injection Hi as <- <-.
  eapply sched_jobs_same; [exact Hw|..]; [by unfold update_deployment; case_match..|].
  apply frame_deployment. intros. case_cond; [apply same_schedule_refl|apply attention_same].
Qed.

(** The rows after a deletion. *)
Lemma delete_jobs_rows gone w w' :
  delete_jobs gone w = inr (tt, w') ->
  (forall i x, W_jobs w !! i = Some x -> gone x = false ->
     exists x', W_jobs w' !! i = Some x' /\ same_but_parent x x')
  /\ (forall i x', W_jobs w' !! i = Some x' ->
     exists x, W_jobs w !! i = Some x /\ gone x = false /\ same_but_parent x x')
  /\ W_signed w' = W_signed w /\ w_fresh w' = w_fresh w.
Proof using.
  unfold delete_jobs. case_cond; [done|]. intros [= <-]. simpl. split_and!; [..|done|done].
  - intros i x Hx Hg. eexists. rewrite lookup_fmap.
    rewrite (proj2 (lookup_delete_where_Some gone (W_jobs w) i x)) by done. by split.
  - intros i x'. rewrite lookup_fmap. intros (x & Hx & ->)%fmap_Some.
    apply lookup_delete_where_Some in Hx as [Hx Hg]. by exists x.
Qed.

Lemma delete_jobs_wf gone w w' : wf_jobs w -> delete_jobs gone w = inr (tt, w') -> wf_jobs w'.
Proof using.
  intros Hw (_ & Hrow & _ & Hf)%delete_jobs_rows. split.
  - intros id j' (j & Hj & _ & ->)%Hrow. destruct (wf_row _ Hw _ _ Hj) as (? & Hwf & ?).
    rewrite Hf. split_and!; [done| |done]. destruct Hwf. by split.
  - intros i1 i2 j1 j2 (x1 & Hx1 & _ & Hs1)%Hrow (x2 & Hx2 & _ & Hs2)%Hrow Hkk.
    eapply (wf_keys _ Hw); [done..|]. rewrite Hs1, Hs2 in Hkk. exact Hkk.
Qed.

(** Deleting rows that are dead. *)
Lemma sched_jobs_delete w0 w gone w' :
  sched_jobs w0 w -> (forall j, gone j = true -> j_state j = StateDead) ->
  delete_jobs gone w = inr (tt, w') -> sched_jobs w0 w'.
Proof using.
  intros [Hwf Hk Hb Hi Hf] Hdead Hd. pose proof (delete_jobs_wf _ _ _ Hwf Hd) as Hwf'.
  unfold delete_jobs in Hd. case_cond; [done|]. injection Hd as <-.
  set (clear := fun j => set_j_parent_job_id (clear_ref gone (W_jobs w) (j_parent_job_id j)) j).
  assert (Hrow : forall id j', (clear <$> delete_where gone (W_jobs w)) !! id = Some j' ->
    exists j, W_jobs w !! id = Some j /\ gone j = false /\ j' = clear j).
  { intros id j'. rewrite lookup_fmap. intros (j & Hj & ->)%fmap_Some.
    apply lookup_delete_where_Some in Hj. naive_solver. }
  assert (Hsame : forall j, same_but_parent j (clear j)) by done.
  split; [exact Hwf'|..]; simpl.
  - intros id j Hj. destruct (Hk _ _ Hj) as [[Hs Hn]|(x & Hx & Hsx)].
    + left. split; [done|]. rewrite lookup_fmap. destruct (delete_where gone (W_jobs w) !! id) eqn:E; [|done].
      apply lookup_delete_where_Some in E as [? _]. congruence.
    + destruct (gone x) eqn:Eg.
      * left. split; [apply Hdead in Eg; rewrite Hsx in Eg; done|].
        rewrite lookup_fmap. destruct (delete_where gone (W_jobs w) !! id) eqn:E; [|done].
        apply lookup_delete_where_Some in E as [? ?]. congruence.
      * right. exists (clear x). split; [|by eapply same_but_parent_trans].
        rewrite lookup_fmap. erewrite (proj2 (lookup_delete_where_Some gone (W_jobs w) id x)); done.
  - intros id j' (j & Hj & _ & ->)%Hrow. destruct (Hb _ _ Hj) as [(x & Hx & ?)|Hsch].
    + left. exists x. split; [done|]. by eapply same_but_parent_trans.
    + right. done.
  - done.
  - eapply sched_frame_trans; [exact Hf|]. pose proof (sched_frame_refl w) as [].
    split; try done; simpl; intros id i'; rewrite lookup_fmap.
    + intros (i & Hi' & ->)%fmap_Some. exists i. by split.
    + intros ->. simpl. eexists. by split.
Qed.

Lemma keeps_release w0 key : keeps (sched_jobs w0) (releaseDeadCycle key).
Proof using.
  unfold releaseDeadCycle. repeat keeps_step; try apply keeps_ret; try apply keeps_throw.
  intros w [] w' Hw Hd. eapply sched_jobs_delete; eauto.
  unfold dead_under. intros j Hj. bools. naive_solver.
Qed.

Lemma keeps_deadCycleTerminal w0 key : keeps (sched_jobs w0) (deadCycleTerminal key).
Proof using. unfold deadCycleTerminal. repeat keeps_step. Qed.

#[local] Hint Resolve keeps_enqueue keeps_flag keeps_mark keeps_release keeps_deadCycleTerminal : keeps.

Lemma keeps_tick lead w0 : keeps (sched_jobs w0) (tick lead).
Proof using HQL.
  unfold tick, createRefreshJob, recreate_cycle, expiryGuard, guard_one, dueDeployments.
  repeat first [solve [eauto with keeps] | keeps_step].
Qed.

(** Whatever fails during a tick, it removes no job that is not dead,
    changes no column of a job it keeps (but a parent that was removed), adds
    only pending refresh jobs with 15 attempts, keeps the queue well-formed
    and leaves devices, accounts, signed artifacts and the due dates alone. *)
Theorem tick_is_safe lead fl w : wf_jobs w -> sched_jobs w (run fl (tick lead) w).2.
Proof using HQL.
  intros Hw. apply keeps_run; [apply keeps_tick|by apply sched_jobs_refl].
Qed.
End spec.
