(* ===== verification/JobsLives.v ===== *)
(** The lives of jobs in the whole control plane: a row moves along the life cycle
    of JobsInvariant.v, may lose the reference to a parent that was removed, and
    goes only when it is dead or was the export of a certificate ([lives]). *)
From S2P Require Import Prelude GoStrings GoTime Effects Schema AuditLog Jobs JobsInvariant Scheduler SchedulerSpec.

(** ** What a job may do *)

(** A step of its life, or the loss of its parent. *)
Definition moves (j j' : job) : Prop := row_step true j j' \/ same_but_parent j j'.

(** What the scheduler removes before a new cycle, and what the export of
    certificates clears away. *)
Definition removable (j : job) : Prop :=
  j_state j = StateDead \/ has_prefix "export_p12:" (j_idempotency_key j) = true.

(** Every row was given an identifier. *)
Definition numbered (w : world) : Prop := forall i j, W_jobs w !! i = Some j -> (i < w_fresh w)%N.

Record lives_on (w w' : world) : Prop := {
  lv_numbered : numbered w';
  lv_fresh : (w_fresh w <= w_fresh w')%N;
  lv_old i j : W_jobs w !! i = Some j ->
    exists j', rtc moves j j' /\ (W_jobs w' !! i = Some j' \/ W_jobs w' !! i = None /\ removable j');
  lv_new i j' : W_jobs w !! i = None -> W_jobs w' !! i = Some j' ->
    exists j, j_state j = StatePending /\ j_attempt j = 0 /\ rtc moves j j';
  lv_gone i : W_jobs w !! i = None -> (i < w_fresh w)%N -> W_jobs w' !! i = None;
}.

Definition lives (w w' : world) : Prop := numbered w -> lives_on w w'.

Lemma moves_step j j' : row_step true j j' -> rtc moves j j'.
Proof. intros Hs. apply rtc_once. by left. Qed.

#[export] Instance lives_preorder : PreOrder lives.
Proof.
  split.
  - intros w Hw. split; [done|done|..].
    + intros i j Hj. exists j. auto using rtc_refl.
    + congruence.
    + done.
  - intros w1 w2 w3 H12 H23 Hw. destruct (H12 Hw) as [N2 F12 O12 B12 G12]. destruct (H23 N2) as [N3 F23 O23 B23 G23].
    split; [done|lia|..].
    + intros i j Hj. destruct (O12 _ _ Hj) as (j2 & R2 & [Hj2|[Hj2 Hd]]).
      * destruct (O23 _ _ Hj2) as (j3 & R3 & H3). exists j3. split; [by etrans|done].
      * exists j2. split; [done|]. right. split; [|done]. apply G23; [done|]. pose proof (Hw _ _ Hj). lia.
    + intros i j3 Hno Hj3. destruct (W_jobs w2 !! i) as [j2|] eqn:Hj2; [|eauto].
      destruct (B12 _ _ Hno Hj2) as (j & ? & ? & R). destruct (O23 _ _ Hj2) as (x & R' & [Hx|[Hx _]]); [|congruence].
      rewrite Hj3 in Hx. injection Hx as ->. exists j. split_and!; [done..|by etrans].
    + intros i Hno Hi. apply G23; [by apply G12|lia].
Qed.

(** Statements on other tables, and the end of a transaction that is given up. *)
Lemma lives_later w0 w w' :
  lives w0 w -> W_jobs w' = W_jobs w -> (w_fresh w <= w_fresh w')%N -> lives w0 w'.
Proof.
  intros Hl Hj Hf Hw. destruct (Hl Hw) as [N F O B G]. split; rewrite ?Hj; [|lia|done|done|done].
  intros i j. rewrite Hj. intros Hi. pose proof (N _ _ Hi). lia.
Qed.

Lemma lives_same w w' : W_jobs w' = W_jobs w -> (w_fresh w <= w_fresh w')%N -> lives w w'.
Proof. intros Hj Hf. by eapply lives_later. Qed.

(** The rewriting of a row, and a new one. *)
Lemma lives_set w id j j' :
  W_jobs w !! id = Some j -> rtc moves j j' -> lives w (set_db (on_jobs (<[id := j']>)) w).
Proof.
  intros Hj Hm Hw. split; simpl; [|done|..].
  - intros i x. simpl. rewrite lookup_insert. case_decide; [subst; intros _; by eapply Hw|apply Hw].
  - intros i x Hx. destruct (decide (i = id)) as [->|Hne].
    + exists j'. rewrite lookup_insert_eq. split; [congruence|auto].
    + exists x. rewrite lookup_insert_ne by done. auto using rtc_refl.
  - intros i x Hno. rewrite lookup_insert_ne by congruence. congruence.
  - intros i Hno _. by rewrite lookup_insert_ne by congruence.
Qed.

Lemma lives_insert w j :
  j_state j = StatePending -> j_attempt j = 0 -> j_id j = w_fresh w -> W_jobs w !! w_fresh w = None ->
  lives w (set_fresh (w_fresh w + 1)%N (set_db (on_jobs (<[j_id j := j]>)) w)).
Proof.
  intros Hs Ha -> Hno Hw. split; simpl; [|lia|..].
  - intros i x. simpl. rewrite lookup_insert. case_decide; [lia|]. intros Hx%Hw. lia.
  - intros i x Hx. exists x. rewrite lookup_insert_ne by congruence. auto using rtc_refl.
  - intros i x Hi. rewrite lookup_insert. case_decide; [intros [= <-]; exists j; auto using rtc_refl|congruence].
  - intros i Hi Hlt. rewrite lookup_insert_ne by lia. done.
Qed.

(** A removal. *)
Lemma lives_delete gone w w' :
  (forall j, gone j = true -> removable j) -> delete_jobs gone w = inr (tt, w') -> lives w w'.
Proof.
  intros Hg (Hstay & Horig & _ & Hf)%delete_jobs_rows Hw. split; [|by rewrite Hf|..].
  - intros i x (y & Hy & _)%Horig. rewrite Hf. by eapply Hw.
  - intros i x Hx. destruct (gone x) eqn:Eg.
    + exists x. split; [apply rtc_refl|]. right. split; [|auto].
      destruct (W_jobs w' !! i) as [y|] eqn:Hy; [|done]. destruct (Horig _ _ Hy) as (? & ? & ? & _). congruence.
    + destruct (Hstay _ _ Hx Eg) as (x' & Hx' & Hs). exists x'. split; [apply rtc_once; by right|auto].
  - intros i x Hno (y & ? & _)%Horig. congruence.
  - intros i Hno _. destruct (W_jobs w' !! i) as [y|] eqn:Hy; [|done]. destruct (Horig _ _ Hy) as (? & ? & _). congruence.
Qed.

(** ** What follows for a row *)

(** The columns every move keeps. *)
Lemma moves_key j j' : rtc moves j j' -> j_idempotency_key j' = j_idempotency_key j.
Proof.
  induction 1 as [|j1 j2 j3 [[(_ & _ & _ & _ & _ & Hk & _) _]| ->] _ IH]; [done|congruence|by rewrite IH].
Qed.

Lemma completed_stays j j' :
  rtc moves j j' -> j_state j = StateCompleted -> same_but_parent j j' /\ j_state j' = StateCompleted.
Proof.
  induction 1 as [j|j1 j2 j3 Hm _ IH]; intros Hs; [split; [apply same_but_parent_refl|done]|].
  destruct Hm as [[_ Hl]|Hp].
  - exfalso. unfold abs_job, phase_of in Hl. rewrite Hs in Hl. simpl in Hl. inversion Hl; naive_solver.
  - assert (j_state j2 = StateCompleted) as Hs2 by (by rewrite Hp).
    destruct (IH Hs2) as [Hp' ?]. split; [by eapply same_but_parent_trans|done].
Qed.

(** A completed job other than an export is there for good. *)
Lemma lives_completed w w' id j :
  numbered w -> lives w w' -> W_jobs w !! id = Some j -> j_state j = StateCompleted ->
  has_prefix "export_p12:" (j_idempotency_key j) = false ->
  exists j', W_jobs w' !! id = Some j' /\ same_but_parent j j'.
Proof.
  intros Hn Hl Hj Hs Hk. destruct (lv_old _ _ (Hl Hn) _ _ Hj) as (j' & R & H').
  destruct (completed_stays _ _ R Hs) as [Hp Hc]. destruct H' as [?|[_ [Hd|Hd]]]; [by exists j'|by rewrite Hc in Hd|].
  rewrite (moves_key _ _ R) in Hd. congruence.
Qed.

(** The claims that were made are never taken back. *)
Lemma moves_attempt j j' : rtc moves j j' -> j_attempt j <= j_attempt j'.
Proof.
  induction 1 as [|j1 j2 j3 Hm _ IH]; [done|]. etrans; [|exact IH]. destruct Hm as [[_ Hl]| ->]; [|done].
  unfold abs_job in Hl. inversion Hl; lia.
Qed.

Lemma wf_job_parent j p : wf_job j -> wf_job (set_j_parent_job_id p j).
Proof. intros []. by split. Qed.
