(* ===== verification/SchedulerCycles.v ===== *)
(** Refresh cycles: every due deployment ends up with a job, a second tick adds
    nothing, terminal failures stay, and the keys of cycles do not collide. *)
From S2P Require Import Prelude GoStrings GoTime Effects Schema AuditLog Jobs JobsInvariant JobsSpec JobsCreate Scheduler SchedulerSpec.

Section cycles.
Context `{UuidText} `{HQL : RefreshQueueLaws}.
Context (lead : duration).

Lemma same_but_parent_columns j j' :
  same_but_parent j j' ->
  j_idempotency_key j' = j_idempotency_key j /\ j_state j' = j_state j
  /\ j_dead_reason j' = j_dead_reason j /\ j_device_id j' = j_device_id j
  /\ j_job_type j' = j_job_type j.
Proof using. intros Heq. rewrite Heq. done. Qed.

(** The two families of keys. *)
Lemma guard_key_not_refresh d d' : guard_key d <> refresh_key d'.
Proof using. unfold guard_key, refresh_key. simpl. congruence. Qed.

(** A cycle is settled when its key is held by a job that is alive or done,
    or dead for a terminal reason. *)
Definition settles (key : string) (j : job) : Prop :=
  j_idempotency_key j = key
  /\ (j_state j <> StateDead \/ terminal_reason (j_dead_reason j) = true).

Definition settled (key : string) (w : world) : Prop :=
  exists id j, W_jobs w !! id = Some j /\ settles key j.

(** No signed artifact was produced by a job that holds the key of a cycle (a
    refresh job signs nothing itself), so such a job can be deleted. *)
Definition deletable (w : world) : Prop :=
  forall k sa i, W_signed w !! k = Some sa -> sa_job_id sa = Some i ->
  exists j, W_jobs w !! i = Some j /\ forall d, j_idempotency_key j <> refresh_key d.

(** From [w] to [w']: settled cycles stay settled, guard keys stay taken,
    active refreshes stay, and what the queries read is unchanged. *)
Record advances (w w' : world) : Prop := {
  ad_wf : wf_jobs w';
  ad_frame : sched_frame w w';
  ad_del : deletable w';
  ad_settled key : settled key w -> settled key w';
  ad_taken d : key_taken (guard_key d) w = true -> key_taken (guard_key d) w' = true;
  ad_active dev : has_active_refresh dev w = true -> has_active_refresh dev w' = true;
}.

Lemma advances_refl w : wf_jobs w -> deletable w -> advances w w.
Proof using. intros. split; auto using sched_frame_refl. Qed.

Lemma advances_trans w1 w2 w3 : advances w1 w2 -> advances w2 w3 -> advances w1 w3.
Proof using. intros [] []. split; eauto using sched_frame_trans. Qed.

(** Rows kept up to the parent keep what is asked of them. *)
Lemma kept_rows w w' :
  (forall id j, W_jobs w !! id = Some j ->
     exists j', W_jobs w' !! id = Some j' /\ same_but_parent j j') ->
  (forall key, settled key w -> settled key w')
  /\ (forall key, key_taken key w = true -> key_taken key w' = true)
  /\ (forall dev, has_active_refresh dev w = true -> has_active_refresh dev w' = true)
  /\ (W_signed w' = W_signed w -> deletable w -> deletable w').
Proof using.
  intros Hk. split_and!.
  - intros key (id & j & Hj & Hkey & Hs). destruct (Hk _ _ Hj) as (j' & Hj' & Heq).
    apply same_but_parent_columns in Heq as (H1' & H2' & H3' & _).
    exists id, j'. split; [done|]. unfold settles. by rewrite H1', H2', H3'.
  - intros key (id & j & Hj & Hs)%exists_row_true. apply exists_row_true.
    destruct (Hk _ _ Hj) as (j' & Hj' & Heq). exists id, j'.
    apply same_but_parent_columns in Heq as (H1' & _). by rewrite H1'.
  - intros dev (id & j & Hj & Hs)%exists_row_true. apply exists_row_true.
    destruct (Hk _ _ Hj) as (j' & Hj' & Heq). exists id, j'.
    apply same_but_parent_columns in Heq as (_ & H2' & _ & H4' & H5'). by rewrite H2', H4', H5'.
  - intros Hsig Hdel k sa i. rewrite Hsig. intros Hsa Hi.
    destruct (Hdel _ _ _ Hsa Hi) as (j & Hj & Hne). destruct (Hk _ _ Hj) as (j' & Hj' & Heq).
    exists j'. split; [done|]. apply same_but_parent_columns in Heq as (H1' & _). by rewrite H1'.
Qed.

Lemma advances_kept w w' :
  wf_jobs w' -> sched_frame w w' -> deletable w ->
  (forall id j, W_jobs w !! id = Some j ->
     exists j', W_jobs w' !! id = Some j' /\ same_but_parent j j') ->
  advances w w'.
Proof using.
  intros Hwf Hf Hd Hk. destruct (kept_rows _ _ Hk) as (? & ? & ? & Hdel).
  split; auto. apply Hdel; [apply Hf|done].
Qed.

(** No guard key is taken that was free. *)
Definition no_new_guards (w w' : world) : Prop :=
  forall d, key_taken (guard_key d) w' = true -> key_taken (guard_key d) w = true.

Lemma key_taken_insert key w w' j :
  W_jobs w' = <[j_id j := j]> (W_jobs w) -> key_taken key w' = true ->
  key_taken key w = true \/ j_idempotency_key j = key.
Proof using.
  intros Hw (i & x & Hx & Hk)%exists_row_true. bools. rewrite Hw, lookup_insert in Hx.
  case_decide; [right; congruence|]. left. apply exists_row_true. exists i, x. by bools.
Qed.

Lemma ewp_enqueue w d key :
  wf_jobs w -> deletable w -> is_Some (W_devices w !! dd_DeviceID d) ->
  ewp (enqueue d key) (fun r w' => exists j, r = inr j /\ advances w w'
    /\ j_idempotency_key j = key /\ W_jobs w' !! j_id j = Some j
    /\ ((key_taken key w = true /\ W_jobs w' = W_jobs w)
        \/ (key_taken key w = false /\ j_state j = StatePending
            /\ W_jobs w' = <[j_id j := j]> (W_jobs w)
            /\ j_job_type j = JobTypeRefresh /\ j_device_id j = Some (dd_DeviceID d)))) w.
Proof using HQL.
  intros Hw Hdel Hdev.
  destruct (enqueue_refresh_total "scheduler" (dd_DeviceID d) (Some (refresh_job_params d)) key
              refreshMaxAttempts "refresh" w Hw Hdev) as (j & w' & Hex).
  pose proof (wp_ewp _ _ _ (enqueue_refresh_spec "scheduler" (dd_DeviceID d)
    (Some (refresh_job_params d)) key refreshMaxAttempts "refresh" w Hw)) as Hspec.
  unfold ewp, enqueue in *. rewrite Hex in *. simpl in *.
  destruct Hspec as (Ho & Hwf' & _ & Hkey & Hl & Hc). exists j.
  assert (advances w w') as Hadv.
  { apply advances_kept; [done|by apply only_jobs_frame|done|]. intros id x Hx. exists x.
    split; [|apply same_but_parent_refl].
    destruct Hc as [[_ ->]|(_ & _ & Hnone & -> & _)]; [done|].
    rewrite lookup_insert_ne; [done|]. congruence. }
  split_and!; try done. destruct Hc as [Hc|(Hno & _ & _ & Heq & Hp & _ & Hty & Hd & _)]; [by left|].
  right. by split_and!.
Qed.

(** The key of a cycle is no guard key. *)
Lemma ewp_enqueue_cycle w d :
  wf_jobs w -> deletable w -> is_Some (W_devices w !! dd_DeviceID d) ->
  ewp (enqueue d (refresh_key d)) (fun r w' => exists j, r = inr j /\ advances w w'
    /\ no_new_guards w w'
    /\ j_idempotency_key j = refresh_key d /\ W_jobs w' !! j_id j = Some j
    /\ ((key_taken (refresh_key d) w = true /\ W_jobs w' = W_jobs w)
        \/ (key_taken (refresh_key d) w = false /\ j_state j = StatePending))) w.
Proof using HQL.
  intros Hw Hdel Hdev. eapply ewp_mono; [|by apply (ewp_enqueue w d)].
  intros r w' (j & Hr & Hadv & Hk & Hj & Hc). exists j. split_and!; try done; [|naive_solver].
  intros d' Ht. destruct Hc as [[_ Heq]|(_ & _ & Heq & _)].
  - unfold key_taken in *. by rewrite <- Heq.
  - apply (key_taken_insert _ _ _ _ Heq) in Ht as [Ht|Ht]; [done|].
    rewrite Hk in Ht. by apply eq_sym, guard_key_not_refresh in Ht.
Qed.

Lemma no_new_guards_jobs w w' : W_jobs w' = W_jobs w -> no_new_guards w w'.
Proof using. intros Heq d. unfold key_taken. by rewrite Heq. Qed.

Lemma no_new_guards_trans w1 w2 w3 : no_new_guards w1 w2 -> no_new_guards w2 w3 -> no_new_guards w1 w3.
Proof using. unfold no_new_guards. auto. Qed.

(** A deletion takes no key. *)
Lemma no_new_guards_delete gone w w' : delete_jobs gone w = inr (tt, w') -> no_new_guards w w'.
Proof using.
  intros (_ & Horig & _)%delete_jobs_rows d (i & x' & Hx' & Hk)%exists_row_true. bools.
  destruct (Horig _ _ Hx') as (x & Hx & _ & Heq%same_but_parent_columns).
  apply exists_row_true. exists i, x. destruct Heq as (Heq & _). split; [done|]. bools. congruence.
Qed.

Lemma jobs_deployment w id f : W_jobs (update_deployment id f w) = W_jobs w.
Proof using. unfold update_deployment. by case_match. Qed.

Lemma fresh_deployment w id f : w_fresh (update_deployment id f w) = w_fresh w.
Proof using. unfold update_deployment. by case_match. Qed.

Lemma advances_deployment w id f :
  (forall d, same_schedule d (f d)) -> wf_jobs w -> deletable w ->
  advances w (update_deployment id f w).
Proof using.
  intros Hf Hw Hd. apply advances_kept; [|by apply frame_deployment|done|].
  - eapply (good_frame false w w); [apply jobs_deployment|by rewrite fresh_deployment|by apply good_refl].
  - intros i j Hj. exists j. rewrite jobs_deployment. auto using same_but_parent_refl.
Qed.

(** The job that holds the key, seen as the dead row the code looks for. *)
Lemma dead_job_key w key j :
  wf_jobs w -> W_jobs w !! j_id j = Some j -> j_idempotency_key j = key ->
  j_state j = StateDead -> dead_job key w = Some j.
Proof using.
  intros Hw Hj Hk Hs. unfold dead_job. destruct (find_row _ _) as [x|] eqn:E.
  - apply find_row_Some in E as (i & Hi & Hx). unfold dead_under in Hx. bools.
    destruct Hx as [Hxk _]. assert (i = j_id j) as -> by (eapply (wf_keys _ Hw); eauto; congruence).
    congruence.
  - rewrite find_row_None in E. specialize (E _ _ Hj). unfold dead_under in E. bools. naive_solver.
Qed.

(** Nothing refers to the job of a cycle, so it can be deleted. *)
Lemma delete_cycle_total w d :
  deletable w -> exists w', delete_jobs (dead_under (refresh_key d)) w = inr (tt, w').
Proof using.
  intros Hdel. unfold delete_jobs. case_cond; [|eauto]. exfalso.
  apply exists_row_true in Heqb as (k & sa & Hsa & Hb).
  destruct (sa_job_id sa) as [i|] eqn:Ei; [|done].
  destruct (Hdel _ _ _ Hsa Ei) as (x & Hx & Hne). rewrite Hx in Hb.
  unfold dead_under in Hb. bools. naive_solver.
Qed.

Lemma dead_under_true key j :
  dead_under key j = true <-> j_idempotency_key j = key /\ j_state j = StateDead.
Proof using. unfold dead_under. by bools. Qed.

(** Deleting the job of a cycle that is not settled. *)
Lemma advances_delete w w' d :
  wf_jobs w -> deletable w -> ~ settled (refresh_key d) w ->
  delete_jobs (dead_under (refresh_key d)) w = inr (tt, w') -> advances w w'.
Proof using.
  intros Hw Hdel Hns Hdl.
  assert (sched_jobs w w') as [Hwf' _ _ _ Hfr].
  { eapply (sched_jobs_delete w w); eauto using sched_jobs_refl.
    intros x Hx%dead_under_true. naive_solver. }
  apply delete_jobs_rows in Hdl as (Hstay & _ & Hsig & _).
  set (gone := dead_under (refresh_key d)) in *.
  split; try done.
  - intros k sa i Hsa Hi. rewrite Hsig in Hsa. destruct (Hdel _ _ _ Hsa Hi) as (x & Hx & Hne).
    destruct (Hstay i x Hx) as (x' & Hx' & Heq%same_but_parent_columns).
    { destruct (gone x) eqn:E; [|done]. apply dead_under_true in E as [? _]. naive_solver. }
    exists x'. destruct Heq as (-> & _). done.
  - intros key (i & x & Hx & Hkx & Hor).
    destruct (Hstay i x Hx) as (x' & Hx' & Heq%same_but_parent_columns).
    { destruct (gone x) eqn:E; [|done]. apply dead_under_true in E as [Hk _].
      destruct Hns. exists i, x. by split; [|split]. }
    exists i, x'. unfold settles. destruct Heq as (-> & -> & -> & _). done.
  - intros d' (i & x & Hx & Hkx)%exists_row_true. bools. apply exists_row_true.
    destruct (Hstay i x Hx) as (x' & Hx' & Heq%same_but_parent_columns).
    { destruct (gone x) eqn:E; [|done]. apply dead_under_true in E as [E _]. rewrite Hkx in E.
      by apply guard_key_not_refresh in E. }
    exists i, x'. destruct Heq as (-> & _). by bools.
  - intros dev (i & x & Hx & Hax)%exists_row_true. apply exists_row_true.
    destruct (Hstay i x Hx) as (x' & Hx' & Heq%same_but_parent_columns).
    { destruct (gone x) eqn:E; [|done]. apply dead_under_true in E as [_ E].
      apply andb_true_iff in Hax as [_ Hax]. by rewrite E in Hax. }
    exists i, x'. destruct Heq as (_ & -> & _ & -> & ->). done.
Qed.

(** The holder of a key is the only row under it. *)
Lemma key_holder w key j i x :
  wf_jobs w -> W_jobs w !! j_id j = Some j -> j_idempotency_key j = key ->
  W_jobs w !! i = Some x -> j_idempotency_key x = key -> x = j.
Proof using.
  intros Hw Hj Hk Hx Hkx. assert (i = j_id j) as -> by (eapply (wf_keys _ Hw); eauto; congruence).
  congruence.
Qed.

(** Deleting the dead holder of a key frees the key. *)
Lemma delete_frees_key w w' key j :
  wf_jobs w -> W_jobs w !! j_id j = Some j -> j_idempotency_key j = key ->
  j_state j = StateDead -> delete_jobs (dead_under key) w = inr (tt, w') ->
  key_taken key w' = false.
Proof using.
  intros Hw Hj Hk Hs (_ & Horig & _)%delete_jobs_rows.
  unfold key_taken. destruct (exists_row _ _) eqn:E; [|done]. exfalso.
  apply exists_row_true in E as (i & x' & Hx' & Hkx). bools.
  destruct (Horig _ _ Hx') as (x & Hx & Hg & Heq%same_but_parent_columns).
  destruct Heq as (Hkk & _). assert (x = j) as -> by (eapply key_holder; eauto; congruence).
  assert (dead_under key j = true) by by apply dead_under_true. congruence.
Qed.

(** Releasing a dead cycle that is not settled: its key is free again. *)
Lemma ewp_release w d j :
  wf_jobs w -> deletable w -> W_jobs w !! j_id j = Some j ->
  j_idempotency_key j = refresh_key d -> j_state j = StateDead ->
  terminal_reason (j_dead_reason j) = false ->
  ewp (releaseDeadCycle (refresh_key d)) (fun r w' => r = inr tt /\ advances w w'
    /\ no_new_guards w w' /\ key_taken (refresh_key d) w' = false) w.
Proof using.
  intros Hw Hdel Hj Hk Hs Ht. destruct (delete_cycle_total w d Hdel) as (w' & Hdl).
  unfold ewp, releaseDeadCycle, exec. simpl. rewrite Hdl. simpl. split; [done|]. split.
  - eapply advances_delete; eauto. intros (i & x & Hx & Hkx & Hor).
    assert (x = j) as -> by (eapply key_holder; eauto). intuition congruence.
  - split; [by eapply no_new_guards_delete|by eapply delete_frees_key].
Qed.

Lemma exec_flagAttention id reason w :
  exec (flagAttention id reason) w =
    (inr tt, if pg_text reason then update_deployment id (attention reason (w_now w)) w else w).
Proof using. unfold exec, flagAttention. simpl. by destruct (pg_text reason). Qed.

(** What a dead holder leads to: terminal or not. *)
Lemma exec_deadCycleTerminal w key j :
  dead_job key w = Some j ->
  exec (deadCycleTerminal key) w =
    (inr (if terminal_reason (j_dead_reason j)
          then (true, dead_summary (default "" (j_dead_reason j)) (j_error_details j))
          else (false, "")), w).
Proof using.
  intros Hj. unfold exec, deadCycleTerminal. rewrite run_bind.
  cbn [run try_ reads tail]. rewrite Hj. unfold terminal_reason.
  destruct (j_dead_reason j) as [r|]; [|done]. by destruct (has_prefix _ r).
Qed.

(** The recovery: the dead row goes and a pending one takes its key. *)
Lemma ewp_recreate w d j :
  wf_jobs w -> deletable w -> W_jobs w !! j_id j = Some j ->
  j_idempotency_key j = refresh_key d -> j_state j = StateDead ->
  terminal_reason (j_dead_reason j) = false -> is_Some (W_devices w !! dd_DeviceID d) ->
  ewp (recreate_cycle d) (fun r w' => r = inr 1 /\ advances w w' /\ no_new_guards w w'
    /\ settled (refresh_key d) w') w.
Proof using HQL.
  intros Hw Hdel Hj Hk Hs Ht Hdev. unfold recreate_cycle.
  apply ewp_bind, ewp_attempt. eapply ewp_mono; [|by apply (ewp_release w d j)].
  intros r w2 (-> & Hadv2 & Hg2 & Hfree). apply ewp_bind, ewp_attempt.
  eapply ewp_mono; [|apply ewp_enqueue_cycle; [apply Hadv2..|]].
  2: by rewrite (sf_devices _ _ (ad_frame _ _ Hadv2)).
  intros r w3 (j2 & -> & Hadv3 & Hg3 & Hk2 & Hj2 & Hc2).
  destruct Hc2 as [[? _]|[_ Hp]]; [congruence|]. rewrite Hp.
  eapply ewp_exec; [reflexivity|]. split_and!; [done|by eapply advances_trans|by eapply no_new_guards_trans|].
  exists (j_id j2), j2. split; [done|]. split; [done|]. left. by rewrite Hp.
Qed.

Definition created_post (d : dueDeployment) (w : world) (r : jerr + Z) (w' : world) : Prop :=
  (exists n, r = inr n) /\ advances w w' /\ no_new_guards w w' /\ settled (refresh_key d) w'
  /\ (settled (refresh_key d) w -> W_jobs w' = W_jobs w).

Lemma ewp_createRefreshJob w d :
  wf_jobs w -> deletable w -> is_Some (W_devices w !! dd_DeviceID d) ->
  ewp (createRefreshJob d) (created_post d w) w.
Proof using HQL.
  intros Hw Hdel Hdev. unfold createRefreshJob.
  apply ewp_bind, ewp_attempt. eapply ewp_mono; [|by apply ewp_enqueue_cycle].
  intros r w1 (j & -> & Hadv & Hg & Hk & Hj & Hc).
  case_cond; bools.
  2: { split_and!; [by eexists|done|done|by exists (j_id j), j; split; [|split; auto]|].
       intros (i & x & Hx & Hkx & _). destruct Hc as [[_ Heq]|[Hno _]]; [done|].
       exfalso. eapply exists_row_false in Hno; [|exact Hx]. by bools. }
  destruct Hc as [[_ Heq]|[_ Hp]]; [|by rewrite Hp in Heqb].
  pose proof (ad_wf _ _ Hadv) as Hw1. pose proof (ad_del _ _ Hadv) as Hd1.
  eapply ewp_bind, ewp_exec; [by apply exec_deadCycleTerminal, dead_job_key|].
  destruct (terminal_reason (j_dead_reason j)) eqn:Ht; cbn [fst snd].
  - eapply ewp_bind, ewp_exec; [apply exec_flagAttention|].
    set (w2 := if pg_text _ then _ else _).
    assert (advances w1 w2 /\ W_jobs w2 = W_jobs w1) as [Hadv2 Hj2].
    { subst w2. case_cond; [|by split; [apply advances_refl|]].
      split; [|apply jobs_deployment]. apply advances_deployment; auto using attention_same. }
    split_and!; [by eexists|by eapply advances_trans|
      by eapply no_new_guards_trans, no_new_guards_jobs| |by rewrite <- Heq].
    exists (j_id j), j. unfold ewp. simpl. rewrite Hj2. by split; [|split; auto].
  - eapply ewp_mono; [|apply (ewp_recreate w1 d j); auto].
    2: by rewrite (sf_devices _ _ (ad_frame _ _ Hadv)).
    intros r w3 (-> & Hadv3 & Hg3 & Hset).
    split_and!; [by eexists|by eapply advances_trans|by eapply no_new_guards_trans|done|].
    intros (i & x & Hx & Hkx & Hor). rewrite <- Heq in Hx.
    assert (x = j) as -> by (eapply (key_holder w1); eauto). intuition congruence.
Qed.

(** ** Whole ticks *)

(** The joined rows are those of the tables. *)
Lemma elem_of_deployed w dep ir d :
  (dep, ir, d) ∈ deployed w <->
  dep ∈ rows (W_deployments w) /\ ir ∈ rows (W_installations w) /\ d ∈ rows (W_devices w)
  /\ ir_deployment_id ir = dp_id dep /\ dv_id d = dp_device_id dep /\ is_Some (dv_agent_id d).
Proof using.
  unfold deployed. rewrite list_elem_of_bind. split.
  - intros (dep' & Hx & Hdep). apply list_elem_of_bind in Hx as (ir' & Hx & Hir).
    apply list_elem_of_bind in Hx as (d' & Hx & Hd).
    case_cond; [|by apply elem_of_nil in Hx]. apply list_elem_of_singleton in Hx.
    simplify_eq. bools. naive_solver.
  - intros (Hdep & Hir & Hd & H1' & H2' & H3'). exists dep. split; [|done].
    apply list_elem_of_bind. exists ir. split; [|done].
    apply list_elem_of_bind. exists d. split; [|done].
    rewrite !bool_decide_eq_true_2 by done. by apply list_elem_of_singleton.
Qed.

Lemma deployed_frame w w' dep' ir' d :
  sched_frame w w' -> (dep', ir', d) ∈ deployed w' ->
  exists dep ir, (dep, ir, d) ∈ deployed w /\ same_schedule dep dep' /\ same_install ir ir'.
Proof using.
  intros Hf (Hdep & Hir & Hd & H1' & H2' & H3')%elem_of_deployed.
  apply elem_of_rows in Hdep as [k Hdep], Hir as [k' Hir].
  destruct (sf_deps _ _ Hf _ _ Hdep) as (dep & Hl & Hs).
  destruct (sf_inst _ _ Hf _ _ Hir) as (ir & Hl' & Hs').
  exists dep, ir. split; [|done].
  pose proof Hs as (Hid & Hdev & _). pose proof Hs' as (Hdid & _).
  apply elem_of_deployed. rewrite <- (sf_devices _ _ Hf).
  split_and!; eauto using rows_lookup; congruence.
Qed.

Lemma resolved_frame w w' ir ir' :
  sched_frame w w' -> same_install ir ir' -> resolved ir' w' = resolved ir w.
Proof using.
  intros Hf (_ & _ & Hs). unfold resolved. rewrite Hs, (sf_signed _ _ Hf), (sf_accounts _ _ Hf). done.
Qed.

Lemma due_row_frame w w' dep ir dep' ir' d :
  sched_frame w w' -> same_schedule dep dep' -> same_install ir ir' ->
  due_row lead w' (dep', ir', d) = due_row lead w (dep, ir, d).
Proof using.
  intros Hf (Hid & Hdev & Hdue & _) Hs. pose proof (resolved_frame _ _ _ _ Hf Hs) as Hr.
  destruct Hs as (_ & Hexp & Hsig). unfold due_row, due_at.
  rewrite Hr, Hexp, Hsig, Hid, Hdev, Hdue, (sf_now _ _ Hf). done.
Qed.

Lemma elem_of_due_rows w d :
  d ∈ due_rows lead w <-> exists x, x ∈ deployed w /\ due_row lead w x = Some d.
Proof using. unfold due_rows. rewrite elem_of_sort_by. by rewrite list_elem_of_omap. Qed.

(** The due deployments are the same before and after. *)
Lemma due_rows_back w w' d : sched_frame w w' -> d ∈ due_rows lead w' -> d ∈ due_rows lead w.
Proof using.
  intros Hf ([[dep' ir'] x] & Hx & Hd)%elem_of_due_rows. apply elem_of_due_rows.
  destruct (deployed_frame _ _ _ _ _ Hf Hx) as (dep & ir & Hin & Hs & Hi).
  exists (dep, ir, x). split; [done|]. by rewrite <- (due_row_frame w w' dep ir dep' ir').
Qed.

Lemma due_rows_device w d :
  devices_wf w -> d ∈ due_rows lead w -> is_Some (W_devices w !! dd_DeviceID d).
Proof using.
  intros Hdw ([[dep ir] x] & Hx & Hd)%elem_of_due_rows.
  apply elem_of_deployed in Hx as (_ & _ & [k Hk]%elem_of_rows & _ & Hdev & _).
  unfold due_row in Hd. destruct (ir_provisioning_expiry_at ir); [|done]. simpl in Hd.
  destruct (resolved ir w); [|done]. simpl in Hd. case_cond; [|done]. simplify_eq. simpl.
  rewrite <- Hdev, (Hdw _ _ Hk). eauto.
Qed.

Lemma elem_of_guard_rows w d :
  d ∈ guard_rows w <-> exists x, x ∈ deployed w /\ guard_row w x = Some d.
Proof using. apply list_elem_of_omap. Qed.

Lemma guard_rows_back w w' d : advances w w' -> d ∈ guard_rows w' -> d ∈ guard_rows w.
Proof using.
  intros Hadv ([[dep' ir'] x] & Hx & Hd)%elem_of_guard_rows. apply elem_of_guard_rows.
  pose proof (ad_frame _ _ Hadv) as Hf.
  destruct (deployed_frame _ _ _ _ _ Hf Hx) as (dep & ir & Hin & Hs & Hi).
  exists (dep, ir, x). split; [done|]. pose proof (resolved_frame _ _ _ _ Hf Hi) as Hr.
  destruct Hs as (Hid & Hdev & _ & Hres). destruct Hi as (_ & Hexp & Hsig).
  unfold guard_row in *. rewrite Hr, Hexp, Hsig, Hid, Hdev, (sf_now _ _ Hf) in Hd.
  destruct (ir_provisioning_expiry_at ir); [|done]. simpl in *.
  destruct (resolved ir w); [|done]. simpl in *.
  destruct (_ && _) eqn:E in Hd; [|done]. rewrite !andb_true_iff, !negb_true_iff in E.
  destruct E as [[E1 E2] E3]. rewrite E1. simpl.
  assert ((default "" (dp_last_refresh_result dep) =s "attention") = false) as ->.
  { destruct Hres as [Hres|Hres]; rewrite Hres in E2; done. }
  assert (has_active_refresh (dp_device_id dep) w = false) as ->.
  { destruct (has_active_refresh (dp_device_id dep) w) eqn:Ea; [|done].
    apply (ad_active _ _ Hadv) in Ea. congruence. }
  done.
Qed.

Lemma guard_rows_device w d :
  devices_wf w -> d ∈ guard_rows w -> is_Some (W_devices w !! dd_DeviceID d).
Proof using.
  intros Hdw ([[dep ir] x] & Hx & Hd)%elem_of_guard_rows.
  apply elem_of_deployed in Hx as (_ & _ & [k Hk]%elem_of_rows & _ & Hdev & _).
  unfold guard_row in Hd. destruct (ir_provisioning_expiry_at ir); [|done]. simpl in Hd.
  destruct (resolved ir w); [|done]. simpl in Hd. case_cond; [|done]. simplify_eq. simpl.
  rewrite <- Hdev, (Hdw _ _ Hk). eauto.
Qed.

(** Nothing is left to enqueue. *)
Record quiet (w : world) : Prop := {
  qu_due d : d ∈ due_rows lead w -> settled (refresh_key d) w;
  qu_guard d : d ∈ guard_rows w -> key_taken (guard_key d) w = true;
}.

(** Integrity of the tables the tick relies on. *)
Record sound (w : world) : Prop := {
  so_jobs : wf_jobs w;
  so_del : deletable w;
  so_dev : devices_wf w;
}.

Lemma sound_advances w w' : sound w -> advances w w' -> sound w'.
Proof using.
  intros [] Hadv. split; [apply Hadv|apply Hadv|].
  unfold devices_wf. by rewrite (sf_devices _ _ (ad_frame _ _ Hadv)).
Qed.

Lemma ewp_mark w :
  sound w -> ewp (markUnrefreshable lead) (fun r w' => r = inr tt /\ advances w w'
    /\ W_jobs w' = W_jobs w) w.
Proof using.
  intros Hw. unfold markUnrefreshable. apply ewp_bind. eapply ewp_exec; [reflexivity|].
  apply (ewp_for _ (fun _ w' => advances w w' /\ W_jobs w' = W_jobs w)).
  - split; [|done]. by apply advances_refl; apply Hw.
  - naive_solver.
  - intros id l w' [Hadv Hj]. eapply ewp_exec; [reflexivity|]. split.
    + eapply advances_trans; [done|]. apply advances_deployment; [|apply Hadv..].
      intros d. case_cond; [apply same_schedule_refl|apply attention_same].
    + by rewrite jobs_deployment.
Qed.

(** The loop over the due deployments, and the loop of the guard. *)
Lemma ewp_due_loop w l :
  sound w -> (forall d, d ∈ l -> is_Some (W_devices w !! dd_DeviceID d)) ->
  ewp (fold_ (fun n d => m ← createRefreshJob d; Ret (n + m)) 0 l)
    (fun r w' => (exists n, r = inr n) /\ advances w w' /\ no_new_guards w w'
      /\ (forall d, d ∈ l -> settled (refresh_key d) w')
      /\ ((forall d, d ∈ l -> settled (refresh_key d) w) -> W_jobs w' = W_jobs w)) w.
Proof using HQL.
  intros Hw Hdev.
  apply (ewp_fold _ (fun rest n w' => advances w w' /\ no_new_guards w w' /\ (exists done, l = done ++ rest
    /\ forall d, d ∈ done -> settled (refresh_key d) w')
    /\ ((forall d, d ∈ l -> settled (refresh_key d) w) -> W_jobs w' = W_jobs w))).
  - split_and!; [by apply advances_refl; apply Hw|by intros ?| |done]. exists []. split; [done|].
    by intros d ?%elem_of_nil.
  - intros n w' (Hadv & Hg & (dn & Hl & Hset) & Hsame). rewrite app_nil_r in Hl. subst dn.
    split_and!; eauto.
  - intros d rest n w' (Hadv & Hg & (dn & Hl & Hset) & Hsame).
    apply ewp_bind. eapply ewp_mono; [|apply ewp_createRefreshJob; [apply Hadv..|]].
    2: { rewrite (sf_devices _ _ (ad_frame _ _ Hadv)). apply Hdev. rewrite Hl. set_solver. }
    intros r w2 ([m ->] & Hadv2 & Hg2 & Hs & Hkeep). eapply ewp_exec; [reflexivity|].
    split_and!; [by eapply advances_trans|by eapply no_new_guards_trans| |].
    + exists (dn ++ [d]). rewrite <- app_assoc. split; [done|].
      intros x [Hx| ->%list_elem_of_singleton]%elem_of_app; [|done].
      apply (ad_settled _ _ Hadv2). auto.
    + intros Hall. rewrite Hkeep; [auto|]. apply (ad_settled _ _ Hadv), Hall.
      rewrite Hl. set_solver.
Qed.

(** The guard keys that are taken now: taken at the start, or by a deployment of
    the list whose device has an active refresh. *)
Definition forced_from (l : list dueDeployment) (w w' : world) : Prop :=
  forall d, key_taken (guard_key d) w' = true ->
    key_taken (guard_key d) w = true
    \/ exists x, x ∈ l /\ guard_key x = guard_key d /\ has_active_refresh (dd_DeviceID x) w' = true.

(** One deployment of the guard's list. *)
Lemma ewp_guard_one w d :
  wf_jobs w -> deletable w -> is_Some (W_devices w !! dd_DeviceID d) ->
  ewp (enqueue d (guard_key d)) (fun r w' => exists j, r = inr j /\ advances w w'
    /\ key_taken (guard_key d) w' = true
    /\ (key_taken (guard_key d) w = true -> W_jobs w' = W_jobs w)
    /\ forced_from [d] w w') w.
Proof using HQL.
  intros Hw Hdel Hdev. eapply ewp_mono; [|by apply (ewp_enqueue w d)].
  intros r w' (j & Hr & Hadv & Hk & Hj & Hc). exists j. split_and!; [done..| | |].
  - apply exists_row_true. exists (j_id j), j. by bools.
  - destruct Hc as [[_ Heq]|[Hno _]]; [done|]. by rewrite Hno.
  - intros x Hx. destruct Hc as [[_ Heq]|(_ & Hp & Heq & Hty & Hd)].
    { left. by apply (no_new_guards_jobs w w' Heq). }
    apply (key_taken_insert _ _ _ _ Heq) in Hx as [Hx|Hx]; [by left|]. right. exists d.
    split_and!; [by apply list_elem_of_singleton|congruence|].
    apply exists_row_true. exists (j_id j), j. split; [exact Hj|]. rewrite Hp, Hty, Hd. by rewrite bool_decide_eq_true_2.
Qed.

Lemma forced_from_trans l1 l2 w1 w2 w3 :
  advances w2 w3 -> forced_from l1 w1 w2 -> forced_from l2 w2 w3 -> forced_from (l1 ++ l2) w1 w3.
Proof using.
  intros Hadv H1' H2' d Hd. setoid_rewrite elem_of_app.
  apply H2' in Hd as [Hd|(x & Hx & Hk & Ha)]; [|eauto 6].
  apply H1' in Hd as [Hd|(x & Hx & Hk & Ha)]; [auto|]. right. exists x.
  split_and!; [auto|done|by apply (ad_active _ _ Hadv)].
Qed.

Lemma ewp_guard w :
  sound w ->
  ewp expiryGuard (fun r w' => (exists n, r = inr n) /\ advances w w'
    /\ (forall d, d ∈ guard_rows w -> key_taken (guard_key d) w' = true)
    /\ forced_from (guard_rows w) w w'
    /\ ((forall d, d ∈ guard_rows w -> key_taken (guard_key d) w = true) ->
        W_jobs w' = W_jobs w)) w.
Proof using HQL.
  intros Hw. unfold expiryGuard. apply ewp_bind. eapply ewp_exec; [reflexivity|].
  set (l := guard_rows w).
  assert (Hdev : forall d, d ∈ l -> is_Some (W_devices w !! dd_DeviceID d)).
  { intros d. apply guard_rows_device, Hw. }
  clearbody l. apply ewp_bind.
  apply (ewp_fold _ (fun rest n w' => advances w w' /\ (exists done, l = done ++ rest
    /\ (forall d, d ∈ done -> key_taken (guard_key d) w' = true) /\ forced_from done w w')
    /\ ((forall d, d ∈ l -> key_taken (guard_key d) w = true) -> W_jobs w' = W_jobs w))).
  - split_and!; [by apply advances_refl; apply Hw| |done]. exists []. split_and!; [done| |by left].
    by intros d ?%elem_of_nil.
  - intros n w' (Hadv & (dn & Hl & Hset & Hfo) & Hsame). rewrite app_nil_r in Hl. subst dn.
    apply ewp_bind. eapply ewp_exec; [reflexivity|]. eapply ewp_exec; [reflexivity|].
    split_and!; eauto.
  - intros d rest n w' (Hadv & (dn & Hl & Hset & Hfo) & Hsame). unfold guard_one.
    apply ewp_bind, ewp_attempt. eapply ewp_mono; [|apply ewp_guard_one; [apply Hadv..|]].
    2: { rewrite (sf_devices _ _ (ad_frame _ _ Hadv)). apply Hdev. rewrite Hl. set_solver. }
    intros r w2 (j & -> & Hadv2 & Hk & Hkeep & Hfo2). eapply ewp_exec; [reflexivity|].
    split_and!; [by eapply advances_trans| |].
    + exists (dn ++ [d]). rewrite <- app_assoc. split_and!; [done| |by eapply forced_from_trans].
      intros x [Hx| ->%list_elem_of_singleton]%elem_of_app; [|done]. apply (ad_taken _ _ Hadv2); auto.
    + intros Hall. rewrite Hkeep; [auto|]. apply (ad_taken _ _ Hadv), Hall. rewrite Hl. set_solver.
Qed.

(** The deployment a row of the queries stands for. *)
Definition names_deployment (w : world) (d : dueDeployment) : Prop :=
  exists k dep, W_deployments w !! k = Some dep /\ dd_ID d = dp_id dep /\ dd_DeviceID d = dp_device_id dep.

Lemma guard_rows_deployment w0 w d :
  sched_frame w0 w -> d ∈ guard_rows w ->
  names_deployment w0 d /\ has_active_refresh (dd_DeviceID d) w = false.
Proof using.
  intros Hf ([[dep ir] x] & Hx & Hd)%elem_of_guard_rows.
  apply elem_of_deployed in Hx as ([k Hk]%elem_of_rows & _).
  destruct (sf_deps _ _ Hf _ _ Hk) as (dep0 & Hl & Hid & Hdev & _).
  unfold guard_row in Hd. destruct (ir_provisioning_expiry_at ir); [|done]. simpl in Hd.
  destruct (resolved ir w); [|done]. simpl in Hd. case_cond; [|done]. simplify_eq. simpl.
  rewrite !andb_true_iff, !negb_true_iff in Heqb. destruct Heqb as [_ Ha].
  split; [|done]. exists k, dep0. naive_solver.
Qed.

(** A deployment that is still endangered after the tick: its key was taken
    before, or a namesake took it. *)
Definition forced (w w' : world) (d : dueDeployment) : Prop :=
  names_deployment w d /\ has_active_refresh (dd_DeviceID d) w' = false
  /\ (key_taken (guard_key d) w = true
      \/ exists x, names_deployment w x /\ guard_key x = guard_key d
         /\ has_active_refresh (dd_DeviceID x) w' = true).

Lemma ewp_tick w :
  sound w ->
  ewp (tick lead) (fun r w' => (exists n, r = inr n) /\ advances w w' /\ quiet w'
    /\ (forall d, d ∈ guard_rows w' -> forced w w' d)
    /\ (quiet w -> W_jobs w' = W_jobs w)) w.
Proof using HQL.
  intros Hw. unfold tick, dueDeployments. apply ewp_bind, ewp_attempt.
  eapply ewp_mono; [|by apply ewp_mark]. intros r w1 (-> & Hadv1 & Hj1).
  pose proof (sound_advances _ _ Hw Hadv1) as Hw1.
  apply ewp_bind. eapply ewp_exec; [reflexivity|]. apply ewp_bind.
  eapply ewp_mono; [|apply ewp_due_loop; [done|intros d; apply due_rows_device, Hw1]].
  intros r w2 ([n ->] & Hadv2 & Hno2 & Hset & Hsame2).
  pose proof (sound_advances _ _ Hw1 Hadv2) as Hw2.
  apply ewp_bind, ewp_attempt. eapply ewp_mono; [|by apply ewp_guard].
  intros r w3 ([g ->] & Hadv3 & Hg & Hfo & Hsame3). eapply ewp_exec; [reflexivity|].
  assert (Hadv : advances w w3) by (eauto using advances_trans).
  split_and!; [by eexists|done| | |].
  - split.
    + intros d Hd. apply (ad_settled _ _ Hadv3), Hset.
      eapply due_rows_back; [apply Hadv2|]. by eapply due_rows_back; [apply Hadv3|].
    + intros d Hd. apply Hg. by eapply guard_rows_back.
  - intros d Hd. destruct (guard_rows_deployment w w3 d (ad_frame _ _ Hadv) Hd) as [Hn Ha].
    split_and!; [done..|]. destruct (Hfo d) as [Ht|(x & Hx & Hk & Hx')].
    + apply Hg. by eapply guard_rows_back.
    + left. apply (no_new_guards_jobs _ _ Hj1), Hno2, Ht.
    + right. exists x. split_and!; [|done..].
      eapply (guard_rows_deployment w w2); [|exact Hx].
      eapply sched_frame_trans; [apply (ad_frame _ _ Hadv1)|apply (ad_frame _ _ Hadv2)].
  - intros [Hqd Hqg]. rewrite Hsame3, Hsame2; [done| |].
    + intros d Hd. apply (ad_settled _ _ Hadv1), Hqd. by eapply due_rows_back; [apply Hadv1|].
    + intros d Hd. apply (ad_taken _ _ Hadv2), (ad_taken _ _ Hadv1), Hqg.
      eapply guard_rows_back; [apply Hadv1|]. by eapply guard_rows_back.
Qed.


(** ** Terminal failures *)

(** A cycle whose job died for a terminal reason is left alone: the
    scheduler creates nothing, keeps every row of the queue as it is and flags
    the deployment with the reason and the first line of the details. *)
Theorem terminal_cycle_flagged w d j dep :
  sound w -> is_Some (W_devices w !! dd_DeviceID d) ->
  W_jobs w !! j_id j = Some j -> j_idempotency_key j = refresh_key d ->
  j_state j = StateDead -> terminal_reason (j_dead_reason j) = true ->
  W_deployments w !! dd_ID d = Some dep ->
  let reason := dead_summary (default "" (j_dead_reason j)) (j_error_details j) in
  exists w', exec (createRefreshJob d) w = (inr 0, w') /\ W_jobs w' = W_jobs w
    /\ (pg_text reason = true ->
        W_deployments w' !! dd_ID d = Some (attention reason (w_now w) dep)).
Proof using HQL.
  intros [Hw Hdel _] Hdev Hj Hk Hs Ht Hdep reason.
  enough (ewp (createRefreshJob d) (fun r w' => r = inr 0 /\ W_jobs w' = W_jobs w /\
    (pg_text reason = true -> W_deployments w' !! dd_ID d = Some (attention reason (w_now w) dep))) w)
    as He.
  { unfold ewp in He. destruct (exec (createRefreshJob d) w) as [r w']. simpl in He.
    destruct He as (-> & He). eauto. }
  unfold createRefreshJob. apply ewp_bind, ewp_attempt.
  destruct (enqueue_refresh_total "scheduler" (dd_DeviceID d) (Some (refresh_job_params d))
              (refresh_key d) refreshMaxAttempts "refresh" w Hw Hdev) as (j1 & w1 & Hex).
  pose proof (wp_ewp _ _ _ (enqueue_refresh_spec "scheduler" (dd_DeviceID d)
    (Some (refresh_job_params d)) (refresh_key d) refreshMaxAttempts "refresh" w Hw)) as Hspec.
  unfold ewp in Hspec. rewrite Hex in Hspec. simpl in Hspec. destruct Hspec as ((Hdb & Hn & _) & Hw1 & _ & Hk1 & Hj1 & Hc).
  eapply ewp_exec; [exact Hex|].
  destruct Hc as [[_ Heq]|(Hno & _)].
  2: { exfalso. eapply exists_row_false in Hno; [|exact Hj]. bools. done. }
  assert (j1 = j) as ->. { eapply (key_holder w); eauto. by rewrite <- Heq. }
  rewrite Hs, bool_decide_eq_true_2 by done.
  eapply ewp_bind, ewp_exec; [by apply exec_deadCycleTerminal, dead_job_key|].
  rewrite Ht. cbn [fst snd]. eapply ewp_bind, ewp_exec; [apply exec_flagAttention|].
  eapply ewp_exec; [reflexivity|]. split_and!; [done| |].
  - rewrite <- Heq. case_cond; [apply jobs_deployment|done].
  - fold reason. intros ->. unfold update_deployment.
    assert (W_deployments w1 !! dd_ID d = Some dep) as -> by (rewrite Hdb; done).
    simpl. by rewrite lookup_insert_eq, Hn.
Qed.
End cycles.

(** ** What a tick schedules *)

(** Deployments are stored under their id. *)
Definition deployments_wf (w : world) : Prop :=
  forall id d, W_deployments w !! id = Some d -> dp_id d = id.

Lemma guard_key_inj `{UuidTextLaws} d d' : guard_key d = guard_key d' -> dd_ID d = dd_ID d'.
Proof.
  unfold guard_key. intros Heq%str_app_inj_l.
  apply cut_inj in Heq as [Hid _]; [by apply uuid_text_inj|apply uuid_text_no_colon..].
Qed.

Lemma same_name_same_device w d d' :
  deployments_wf w -> names_deployment w d -> names_deployment w d' -> dd_ID d = dd_ID d' ->
  dd_DeviceID d = dd_DeviceID d'.
Proof.
  intros Hw (k & dep & Hk & Hid & Hdev) (k' & dep' & Hk' & Hid' & Hdev') Heq.
  pose proof (Hw _ _ Hk). pose proof (Hw _ _ Hk'). assert (k = k') as -> by congruence. congruence.
Qed.


(** Against the real queue: the two statements of [CreateRefresh] on a taken key. *)
Lemma run_createRefreshJob_dead `{UuidText} w d j fl :
  wf_jobs w -> W_jobs w !! j_id j = Some j -> j_idempotency_key j = refresh_key d ->
  j_state j = StateDead ->
  run (false :: false :: true :: fl) (createRefreshJob d) w = run fl (recreate_cycle d) w.
Proof.
  intros Hw Hj Hk Hs. unfold createRefreshJob, enqueue. simpl.
  assert (key_taken (refresh_key d) w = true) as Ht.
  { apply exists_row_true. exists (j_id j), j. by bools. }
  unfold insert_job. simpl. rewrite Ht. simpl.
  destruct (key_taken_true _ _ Hw Ht) as (x & Hx & Hkx & Hlx). rewrite Hx. simpl.
  assert (x = j) as -> by (eapply key_holder; eauto). rewrite Hs. simpl. done.
Qed.

(** The check for a terminal reason fails open: when its query fails, the
    dead job is deleted whatever it died of, and a new pending job takes over
    its cycle, so the broken dependency is tried again. *)
Theorem terminal_cycle_lost_on_read_error `{UuidText} w d j :
  sound w -> is_Some (W_devices w !! dd_DeviceID d) ->
  W_jobs w !! j_id j = Some j -> j_idempotency_key j = refresh_key d -> j_state j = StateDead ->
  exists w' id j', run [false; false; true] (createRefreshJob d) w = (inr 1, w')
    /\ W_jobs w' !! id = Some j' /\ j_idempotency_key j' = refresh_key d
    /\ j_state j' = StatePending /\ j_attempt j' = 0.
Proof.
  intros [Hw Hdel _] Hdev Hj Hk Hs. rewrite (run_createRefreshJob_dead w d j) by done.
  destruct (delete_cycle_total w d Hdel) as (w1 & Hdl).
  pose proof (delete_frees_key _ _ _ _ Hw Hj Hk Hs Hdl) as Hfree.
  assert (sched_jobs w w1) as [Hw1 _ _ _ Hfr].
  { eapply (sched_jobs_delete w w); eauto using sched_jobs_refl.
    intros x Hx%dead_under_true. naive_solver. }
  rewrite <- (sf_devices _ _ Hfr) in Hdev.
  destruct (enqueue_refresh_total "scheduler" (dd_DeviceID d) (Some (refresh_job_params d))
              (refresh_key d) refreshMaxAttempts "refresh" w1 Hw1 Hdev) as (j2 & w2 & Hex).
  pose proof (wp_ewp _ _ _ (enqueue_refresh_spec "scheduler" (dd_DeviceID d)
    (Some (refresh_job_params d)) (refresh_key d) refreshMaxAttempts "refresh" w1 Hw1)) as Hspec.
  unfold ewp in Hspec. rewrite Hex in Hspec. simpl in Hspec.
  destruct Hspec as (_ & _ & _ & Hk2 & Hj2 & [[? _]|(_ & _ & _ & _ & Hp & Ha & _)]); [congruence|].
  exists w2, (j_id j2), j2. split; [|done].
  enough (ewp (recreate_cycle d) (fun r w' => (r, w') = (inr 1, w2)) w) as He.
  { unfold ewp, exec in He. by destruct (run [] (recreate_cycle d) w). }
  unfold recreate_cycle. apply ewp_bind, ewp_attempt.
  eapply ewp_exec; [unfold exec, releaseDeadCycle; simpl; rewrite Hdl; reflexivity|].
  apply ewp_bind, ewp_attempt. eapply ewp_exec; [exact Hex|]. simpl. rewrite Hp. reflexivity.
Qed.

(** ** Keys *)

(** The keys of cycles do not collide: two due deployments have the same
    key only when they are the same deployment with the same due day and the
    same expiry day (years 0 to 9999), and no guard key is a cycle key. *)
Theorem refresh_key_injective `{UuidTextLaws} d d' :
  0 <= year_of (dd_DueAt d) <= 9999 -> 0 <= year_of (dd_DueAt d') <= 9999 ->
  0 <= year_of (dd_ExpiryAt d) <= 9999 -> 0 <= year_of (dd_ExpiryAt d') <= 9999 ->
  (refresh_key d = refresh_key d' <->
     dd_ID d = dd_ID d' /\ day_number (dd_DueAt d) = day_number (dd_DueAt d')
     /\ day_number (dd_ExpiryAt d) = day_number (dd_ExpiryAt d'))
  /\ guard_key d <> refresh_key d'.
Proof.
  intros Hd1 Hd2 He1 He2. split; [|apply guard_key_not_refresh]. split.
  - unfold refresh_key. intros Heq%str_app_inj_l.
    apply cut_inj in Heq as [Hid Heq]; [|apply uuid_text_no_colon..].
    apply cut_inj in Heq as [Hdue Heq]; [|by apply format_day_no_colon..].
    split_and!; [by apply uuid_text_inj|by apply format_day_inj..].
  - intros (Hid & Hdue & Hexp). unfold refresh_key.
    by rewrite Hid, (format_day_day _ _ Hdue), (format_day_day _ _ Hexp).
Qed.
