(* ===== verification/SchedulerWitness.v ===== *)
(** Concrete ticks on which the theorems about the scheduler apply. *)
From S2P Require Import Prelude GoStrings GoTime Effects Schema Samples AuditLog Jobs JobsInvariant JobsSpec JobsCreate JobsOutcome JobsWitness Scheduler SchedulerSpec SchedulerCycles.

#[local] Existing Instance sample_uuid.
#[local] Existing Instance sample_uuid_laws.

Definition account60 : account := MkAccount 60 "apple@example.org" None "authenticated" None 0 0 None None.

(** Device 1 carries deployment 20, whose profile expires in an hour; no job. *)
Definition due_world : world :=
  set_db (on_jobs (fun _ => ∅)) (set_db (on_accounts (fun _ => {[60%N := account60]})) refresh_world).

Definition due20 : dueDeployment :=
  MkDue 20 1 "udid-1" "" (13 * Hour - DefaultLead) (13 * Hour) (uuid_text 40) (uuid_text 30)
    (uuid_text 60) "apple@example.org".

(** The same with a job that died for a terminal reason. *)
Definition dead20 : job :=
  dead_row "auth" "terminal_error:auth" Hour
    (new_job "refresh" (Some 1%N) None (refresh_job_params due20) (refresh_key due20) 15 None None
      (Some "refresh") 50 0).

Definition dead_world : world := set_db (on_jobs (fun _ => {[50%N := dead20]})) due_world.

Lemma due_world_devices m : devices_wf (set_db (on_jobs m) due_world).
Proof. intros id d. simpl. rewrite lookup_insert. case_decide; [|done]. by intros [= <-]. Qed.

Lemma due_world_signed k sa :
  W_signed due_world !! k = Some sa -> sa_job_id sa = None.
Proof.
  simpl. rewrite lookup_insert. case_decide; [by intros [= <-]|].
  intros [_ <-]%lookup_singleton_Some. done.
Qed.

Lemma due_world_sound : sound due_world.
Proof.
  split.
  - split; simpl; [intros id j Hj|intros ? ? ? ? Hj]; by rewrite lookup_empty in Hj.
  - intros k sa i Hsa%due_world_signed. congruence.
  - apply (due_world_devices (fun _ => ∅)).
Qed.

Lemma dead_world_sound : sound dead_world.
Proof.
  split.
  - split; simpl.
    + intros id j [<- <-]%lookup_singleton_Some. split_and!; [done| |done].
      apply dead_row_wf, new_job_wf.
    + intros ? ? ? ? [<- <-]%lookup_singleton_Some [<- <-]%lookup_singleton_Some. done.
  - intros k sa i Hsa%due_world_signed. congruence.
  - apply (due_world_devices (fun _ => {[50%N := dead20]})).
Qed.

Lemma tick_is_safe_witness : sched_jobs due_world (run [false; true] (tick DefaultLead) due_world).2.
Proof. apply tick_is_safe. apply due_world_sound. Defined.

Lemma due_world_deployments : deployments_wf due_world.
Proof. intros id d. simpl. by intros [<- <-]%lookup_singleton_Some. Qed.


(** ** A forced refresh that is not forced *)

(** The deployment is not due for days, its profile expires in an hour, and the
    forced refresh of that expiry day has died of lost leases. *)
Definition guard20 : dueDeployment :=
  MkDue 20 1 "udid-1" "" 0 (13 * Hour) (uuid_text 40) (uuid_text 30) (uuid_text 60) "apple@example.org".

Definition dead_guard20 : job :=
  dead_row "lease_expired" "max_attempts" Hour
    (new_job "refresh" (Some 1%N) None (refresh_job_params guard20) (guard_key guard20) 15 None None
      (Some "refresh") 50 0).

Definition guarded_world : world :=
  set_db (on_deployments (fun _ => {[20%N := set_dp_next_refresh_due_at (Some (100 * Hour)) deployment20]}))
    (set_db (on_jobs (fun _ => {[50%N := dead_guard20]})) due_world).

(** The tick reports one job created and has created none: the dead one holds the
    key, and the deployment goes on to expire without an active refresh. *)
Example dead_guard_blocks :
  let r := exec (tick DefaultLead) guarded_world in
  r.1 = inr 1 /\ W_jobs r.2 = W_jobs guarded_world
  /\ guard_rows r.2 = [guard20] /\ has_active_refresh 1 r.2 = false
  /\ j_state <$> W_jobs r.2 !! 50%N = Some StateDead.
Proof. vm_compute. split_and!; reflexivity. Qed.


Lemma terminal_cycle_flagged_witness :
  exists w', exec (createRefreshJob due20) dead_world = (inr 0, w')
    /\ W_jobs w' = W_jobs dead_world
    /\ (pg_text "terminal_error:auth" = true ->
        W_deployments w' !! 20%N
        = Some (attention "terminal_error:auth" (w_now dead_world) deployment20)).
Proof.
  apply (terminal_cycle_flagged dead_world due20 dead20 deployment20);
    [apply dead_world_sound|vm_compute; eauto|vm_compute; reflexivity..].
Defined.

Lemma terminal_cycle_lost_on_read_error_witness :
  exists w' id j', run [false; false; true] (createRefreshJob due20) dead_world = (inr 1, w')
    /\ W_jobs w' !! id = Some j' /\ j_idempotency_key j' = refresh_key due20
    /\ j_state j' = StatePending /\ j_attempt j' = 0.
Proof.
  apply (terminal_cycle_lost_on_read_error dead_world due20 dead20);
    [apply dead_world_sound|vm_compute; eauto|vm_compute; reflexivity..].
Defined.

Lemma refresh_key_injective_witness :
  (refresh_key due20 = refresh_key due20 <->
     dd_ID due20 = dd_ID due20 /\ day_number (dd_DueAt due20) = day_number (dd_DueAt due20)
     /\ day_number (dd_ExpiryAt due20) = day_number (dd_ExpiryAt due20))
  /\ guard_key due20 <> refresh_key due20.
Proof.
  apply refresh_key_injective; vm_compute; (split; discriminate).
Defined.
