(* ===== verification/Http.v ===== *)
(** Requests and responses (internal/api/api.go): what a handler reads of a
    request, the responses it writes, the server's configuration and the route
    table with the credential each route asks for. *)
From S2P Require Import Prelude GoStrings GoTime Effects Schema AuditLog Jobs.

(** ** Responses *)

Record response := MkResponse { rs_status : Z; rs_body : json }.

(** [writeJSON] as the last statement of a handler. *)
Definition writeJSON (status : Z) (body : json) : response := MkResponse status body.

Definition error_body (message : string) : json := JObj [("error", JStr message)].

(** A handler answers with a response; [Throw] is the early [return] after a
    response was written, which also rolls an open transaction back. *)
Abbreviation handler := (prog world response response) (only parsing).

(** [writeError(..); return] and [writeJSON(.., error); return]. *)
Definition fail {A} (status : Z) (message : string) : prog world response A :=
  Throw (writeJSON status (error_body message)).

Definition ok (status : Z) (body : json) : handler := Ret (writeJSON status body).

(** A fallible step whose failure is answered with a fixed error. *)
Definition need {X} (c : conn) (f : world -> sqlerr + X * world) (status : Z) (message : string)
    : prog world response X :=
  must c f (fun _ => writeJSON status (error_body message)).

(** The response of a run, whether the handler ended early or not. *)
Definition answer (r : response + response) : response :=
  match r with inl x => x | inr x => x end.

Definition BadRequest : Z := 400.
Definition Unauthorized : Z := 401.
Definition Forbidden : Z := 403.
Definition NotFound : Z := 404.
Definition Conflict : Z := 409.
Definition TooManyRequests : Z := 429.
Definition InternalServerError : Z := 500.
Definition ServiceUnavailable : Z := 503.
Definition StatusOK : Z := 200.
Definition Created : Z := 201.

(** ** Requests *)

(** The parts of a request the authentication reads; [rq_cookie] is the
    [sidey_session] cookie. *)
Record request := MkRequest {
  rq_authorization : string;
  rq_cookie : option string
}.

Definition bearerToken (r : request) : option string :=
  let header := rq_authorization r in
  if (String.length header <? 7)%nat || negb (str_take 7 header =s "Bearer ") then None
  else Some (str_drop 7 header).

(** [decodeJSON] gives the decoded request, or [None] on any error. *)
Definition decodeJSON {A} (body : option A) : prog world response A :=
  match body with
  | Some a => Ret a
  | None => fail BadRequest "invalid JSON body"
  end.

(** ** Configuration *)

Record Server := MkServer {
  adminKey : string;
  maxArtifactBytes : Z;
  job_service : Service
}.

Definition defaultMaxArtifactBytes : Z := Z.shiftl 4 30.

Definition NewServerWithLimits (js : Service) (key : string) (max : Z) : Server :=
  MkServer key (if max <=? 0 then defaultMaxArtifactBytes else max) js.

Definition NewServer (js : Service) (key : string) : Server :=
  NewServerWithLimits js key defaultMaxArtifactBytes.

Definition handleConfig (s : Server) : handler :=
  ok StatusOK (JObj [("configured", JBool (negb (adminKey s =s "")))]).

Definition handleHealthz : handler :=
  _ ← need Pool (reads (fun _ => tt)) ServiceUnavailable "database unavailable";
  ok StatusOK (JObj [("status", JStr "ok")]).

(** The cookie the dashboard page sets, for every caller. *)
Definition index_cookie (s : Server) : option string :=
  if adminKey s =s "" then None else Some (adminKey s).

(** ** Routes *)

(** The credential a route asks for. *)
Inductive guarded := Open | Admin | AdminOrToken (scope : string) | Agent | Enrolment.

Record route := MkRoute { ro_method : string; ro_path : string; ro_guard : guarded }.

(** [Handler]'s table. *)
Definition routes : list route :=
  [MkRoute "GET" "/healthz" Open;
   MkRoute "GET" "/api/v1/config" Open;
   MkRoute "GET" "/api/v1/server-identity" Open;
   MkRoute "POST" "/api/v1/devices/enroll" Open;
   MkRoute "GET" "/" Open;
   MkRoute "POST" "/api/v1/admin/enrolment-tokens" Admin;
   MkRoute "POST" "/api/v1/admin/apple-accounts/credentials" Admin;
   MkRoute "POST" "/api/v1/admin/apple-accounts/2fa-code" (AdminOrToken "control");
   MkRoute "POST" "/api/v1/admin/apple-app-ids" Admin;
   MkRoute "DELETE" "/api/v1/admin/apple-accounts/{id}" Admin;
   MkRoute "GET" "/api/v1/admin/apple-accounts/{id}/certificate/download" Admin;
   MkRoute "POST" "/api/v1/admin/deploy" Admin;
   MkRoute "POST" "/api/v1/admin/refresh" (AdminOrToken "control");
   MkRoute "POST" "/api/v1/admin/livecontainer/install" (AdminOrToken "control");
   MkRoute "POST" "/api/v1/admin/livecontainer/push" (AdminOrToken "control");
   MkRoute "POST" "/api/v1/admin/livecontainer/push-p12" (AdminOrToken "control");
   MkRoute "POST" "/api/v1/admin/livecontainer/installed-apps" (AdminOrToken "control");
   MkRoute "POST" "/api/v1/admin/devices" Admin;
   MkRoute "DELETE" "/api/v1/admin/devices/{id}" Admin;
   MkRoute "GET" "/api/v1/admin/store/sources" (AdminOrToken "read");
   MkRoute "POST" "/api/v1/admin/store/sources" Admin;
   MkRoute "DELETE" "/api/v1/admin/store/sources/{id}" Admin;
   MkRoute "GET" "/api/v1/admin/store/apps" (AdminOrToken "read");
   MkRoute "POST" "/api/v1/admin/store/install" (AdminOrToken "control");
   MkRoute "GET" "/source.json" Open;
   MkRoute "GET" "/api/v1/store/source.json" Open;
   MkRoute "GET" "/api/v1/store/artifacts/{id}/install.ipa" Open;
   MkRoute "POST" "/api/v1/artifacts" (AdminOrToken "control");
   MkRoute "PATCH" "/api/v1/artifacts/{id}" (AdminOrToken "control");
   MkRoute "GET" "/api/v1/artifacts/{id}/download" Admin;
   MkRoute "POST" "/api/v1/sign-jobs" Admin;
   MkRoute "POST" "/api/v1/signed-artifacts" Agent;
   MkRoute "GET" "/api/v1/agents/artifacts/{id}/download" Agent;
   MkRoute "POST" "/api/v1/certificates/{id}/revoke" Admin;
   MkRoute "POST" "/api/v1/agents/enrol" Enrolment;
   MkRoute "POST" "/api/v1/agents/me/heartbeat" Agent;
   MkRoute "POST" "/api/v1/agents/me/devices" Agent;
   MkRoute "POST" "/api/v1/jobs" Admin;
   MkRoute "POST" "/api/v1/jobs/claim" Agent;
   MkRoute "POST" "/api/v1/jobs/{id}/status" Agent;
   MkRoute "GET" "/api/v1/dashboard/agents" (AdminOrToken "read");
   MkRoute "GET" "/api/v1/dashboard/devices" (AdminOrToken "read");
   MkRoute "GET" "/api/v1/dashboard/jobs" (AdminOrToken "read");
   MkRoute "GET" "/api/v1/dashboard/applications" (AdminOrToken "read");
   MkRoute "GET" "/api/v1/dashboard/artifacts" (AdminOrToken "read");
   MkRoute "GET" "/api/v1/dashboard/signed-artifacts" (AdminOrToken "read");
   MkRoute "GET" "/api/v1/dashboard/accounts" (AdminOrToken "read");
   MkRoute "GET" "/api/v1/dashboard/certificates" (AdminOrToken "read");
   MkRoute "GET" "/api/v1/dashboard/deployments" (AdminOrToken "read");
   MkRoute "GET" "/api/v1/dashboard/refresh" (AdminOrToken "read");
   MkRoute "GET" "/api/v1/dashboard/updates" (AdminOrToken "read");
   MkRoute "GET" "/api/v1/admin/store/subscriptions" (AdminOrToken "read");
   MkRoute "POST" "/api/v1/admin/store/subscriptions" (AdminOrToken "control");
   MkRoute "DELETE" "/api/v1/admin/store/subscriptions/{bundle}" (AdminOrToken "control");
   MkRoute "GET" "/api/v1/admin/device-tokens" Admin;
   MkRoute "POST" "/api/v1/admin/device-tokens" Admin;
   MkRoute "DELETE" "/api/v1/admin/device-tokens/{id}" Admin].
