(* ===== verification/Auth.v ===== *)
(** Credentials (internal/auth/auth.go, the middlewares of internal/api/api.go
    and internal/api/device_tokens.go).

    The cryptography is an interface: [SecretOps] are the functions the code
    calls, [SecretLaws] what it relies on (a sha256 is printed as 64 hex
    characters, bcrypt accepts the secret it hashed, a generated secret is not
    empty). *)
From S2P Require Import Prelude GoStrings GoTime Effects Schema AuditLog Jobs Http.

Class SecretOps := {
  sha256_hex : string -> string;
  bcrypt_hash : uuid -> string -> string;      (** salted by a fresh value *)
  bcrypt_verify : string -> string -> bool;    (** secret, stored hash *)
  random_secret : uuid -> string;              (** base64url of 32 random bytes *)
}.

Class SecretLaws `{SecretOps} := {
  sha256_length s : String.length (sha256_hex s) = 64%nat;
  sha256_no_dot s : has_byte "." (sha256_hex s) = false;
  bcrypt_accepts salt s : bcrypt_verify s (bcrypt_hash salt s) = true;
  secret_nonempty n : random_secret n <> "";
}.

Section auth.
Context `{UuidText} `{SecretOps}.

(** ** Package auth *)

(** [rand.Read] may fail. *)
Definition GenerateSecret {E} (e : E) : prog world E string :=
  n ← must Fs (fun w => inr (w_fresh w, set_fresh (w_fresh w + 1)%N w)) (fun _ => e);
  Ret (random_secret n).

Definition KeyID (secret : string) : string := sha256_hex secret.

Definition HashSecret {E} (secret : string) (e : E) : prog world E string :=
  n ← must Fs (fun w => inr (w_fresh w, set_fresh (w_fresh w + 1)%N w)) (fun _ => e);
  Ret (bcrypt_hash n secret).

Definition VerifySecret (secret storedHash : string) : bool := bcrypt_verify secret storedHash.

Definition ConstantTimeEqual (a b : string) : bool := a =s b.

Definition FormatEnrolmentToken (secret : string) : string := KeyID secret ++s "." ++s secret.

Definition ParseEnrolmentToken (token : string) : option (string * string) :=
  match index_byte "." token with
  | None => None
  | Some i =>
      if (i =? 0)%nat || (S i =? String.length token)%nat then None
      else Some (str_take i token, str_drop (S i) token)
  end.

(** ** Admin *)

Definition checkAdmin (s : Server) (r : request) : bool :=
  match bearerToken r with Some key => ConstantTimeEqual key (adminKey s) | None => false end
  || match rq_cookie r with Some c => ConstantTimeEqual c (adminKey s) | None => false end.

Definition admin {A} (s : Server) (r : request) (next : prog world response A) : prog world response A :=
  if adminKey s =s "" then fail ServiceUnavailable "admin key not configured"
  else if negb (checkAdmin s r) then fail Unauthorized "invalid admin key"
  else next.

(** ** Device tokens *)

Definition tokenHasScope (have : list string) (need : string) : bool :=
  existsb (fun sc => (sc =s need) || ((need =s "read") && (sc =s "control"))) have.

Definition token_by_key (key : string) (w : world) : option device_token :=
  find_row (fun t => dt_key_id t =s key) (W_device_tokens w).

Definition token_usable (now : instant) (secret scope : string) (t : device_token) : bool :=
  match dt_revoked_at t with Some _ => false | None => true end
  && match dt_expires_at t with Some e => now <? e | None => true end
  && VerifySecret secret (dt_token_hash t) && tokenHasScope (dt_scopes t) scope.

Definition checkDeviceToken (secret scope : string) : prog world response (option uuid) :=
  r ← try_ Pool (reads (token_by_key (KeyID secret)));
  now ← get_ w_now;
  match r with
  | inr (Some t) =>
      if token_usable now secret scope t then
        _ ← try_ Pool (writes (fun w => set_db (on_device_tokens (update_where
              (fun x => bool_decide (dt_id x = dt_id t)) (set_dt_last_used_at (Some (w_now w))))) w));
        Ret (Some (dt_id t))
      else Ret None
  | _ => Ret None
  end.

Definition adminOrToken {A} (s : Server) (scope : string) (r : request) (next : prog world response A)
    : prog world response A :=
  if negb (adminKey s =s "") && checkAdmin s r then next
  else
    match bearerToken r with
    | Some key =>
        o ← checkDeviceToken key scope;
        match o with
        | Some _ => next
        | None => fail Unauthorized "invalid credentials or scope"
        end
    | None => fail Unauthorized "invalid credentials or scope"
    end.

(** ** Agents *)

Definition agent_by_key (key : string) (w : world) : option agent :=
  find_row (fun a => opt_is (ag_api_key_id a) key) (W_agents w).

Definition legacy_agent (key : string) (w : world) : option agent :=
  List.find (fun a => VerifySecret key (default "" (ag_api_key_hash a)))
    (select (fun a => bool_decide (ag_api_key_id a = None)
                      && bool_decide (is_Some (ag_api_key_hash a))) (rows (W_agents w))).

(** [agent(next)]: the agent the bearer key belongs to. *)
Definition agent_of (r : request) : prog world response uuid :=
  match bearerToken r with
  | None => fail Unauthorized "missing bearer token"
  | Some key =>
      o ← need Pool (reads (agent_by_key (KeyID key))) InternalServerError "agent lookup failed";
      match o with
      | Some a => Ret (ag_id a)
      | None =>
          l ← need Pool (reads (legacy_agent key)) InternalServerError "agent lookup failed";
          match l with
          | Some a => Ret (ag_id a)
          | None => fail Unauthorized "invalid agent key"
          end
      end
  end.

Definition agent {A} (r : request) (next : uuid -> prog world response A) : prog world response A :=
  id ← agent_of r; next id.

Definition enrolmentToken {A} (r : request) (next : string -> prog world response A) : prog world response A :=
  match bearerToken r with
  | None => fail Unauthorized "missing bearer token"
  | Some key => next key
  end.

(** ** Minting device tokens *)

Definition mintDeviceTokenRow (name : string) (scopes : list string) (deviceID : option uuid)
    (expires : option instant) (e : response) : prog world response (uuid * string * string) :=
  secret ← GenerateSecret e;
  hash ← HashSecret secret e;
  row ← must Pool (fun w =>
          if negb (pg_text name) then inl SyntaxError
          else if negb (fk_ok deviceID (W_devices w)) then inl FkViolation
          else if exists_row (fun t => dt_key_id t =s KeyID secret) (W_device_tokens w)
          then inl UniqueViolation
          else
            let t := MkDeviceToken (w_fresh w) name (KeyID secret) hash scopes deviceID expires
                       None None (w_now w) in
            inr (t, set_fresh (w_fresh w + 1)%N
                      (set_db (on_device_tokens (<[dt_id t := t]>)) w)))
          (fun _ => e);
  Ret (dt_id row, secret, format_rfc3339 (dt_created_at row)).

Record createDeviceTokenRequest := MkCreateDeviceToken {
  ct_Name : string;
  ct_Scopes : list string;
  ct_DeviceID : option uuid;
  ct_ExpiresDays : option Z
}.

Definition validTokenScopes : list string := ["read"; "control"].

Definition json_strs (l : list string) : json := JArr (JStr <$> l).

Definition handleCreateDeviceToken (body : option createDeviceTokenRequest) : handler :=
  req ← decodeJSON body;
  let name := trim_space (ct_Name req) in
  if name =s "" then fail BadRequest "name is required" else
  let scopes := match ct_Scopes req with [] => ["read"] | l => l end in
  match List.find (fun sc => negb (in_strs sc validTokenScopes)) scopes with
  | Some sc => fail BadRequest ("unknown scope: " ++s sc)
  | None =>
      now ← get_ w_now;
      let expires := match ct_ExpiresDays req with
                     | Some d => if 0 <? d then Some (now + wrap64 (wrap64 (d * 24) * Hour)) else None
                     | None => None
                     end in
      t ← mintDeviceTokenRow name scopes (ct_DeviceID req) expires
            (writeJSON InternalServerError (error_body "token save failed"));
      let '(id, secret, created) := t : uuid * string * string in
      _ ← Record_ "admin" "device_token.created"
            [WithData (JObj [("token_id", JStr (uuid_text id)); ("name", JStr name);
                             ("scopes", json_strs scopes)])];
      ok Created (JObj [("id", JStr (uuid_text id)); ("name", JStr name);
        ("scopes", json_strs scopes); ("token", JStr secret); ("created_at", JStr created);
        ("note", JStr "token is shown once; store it in the iOS Keychain")])
  end.

Definition token_entry (t : device_token) : json :=
  JObj ([("id", JStr (uuid_text (dt_id t))); ("name", JStr (dt_name t));
         ("scopes", json_strs (dt_scopes t));
         ("created_at", JStr (format_rfc3339 (dt_created_at t)))]
    ++ match dt_device_id t with Some d => [("device_id", JStr (uuid_text d))] | None => [] end
    ++ match dt_expires_at t with Some x => [("expires_at", JStr (format_rfc3339 x))] | None => [] end
    ++ match dt_revoked_at t with Some x => [("revoked_at", JStr (format_rfc3339 x))] | None => [] end
    ++ match dt_last_used_at t with
       | Some x => [("last_used_at", JStr (format_rfc3339 x))] | None => [] end).

Definition handleListDeviceTokens : handler :=
  l ← need Pool (reads (fun w => sort_by (fun a b => dt_created_at a <=? dt_created_at b)
                                   (rows (W_device_tokens w))))
        InternalServerError "tokens lookup failed";
  ok StatusOK (JObj [("tokens", JArr (token_entry <$> l))]).

Definition handleRevokeDeviceToken (path_id : string) : handler :=
  match uuid_parse path_id with
  | None => fail BadRequest "invalid token id"
  | Some id =>
      _ ← need Pool (writes (fun w => set_db (on_device_tokens (update_where
            (fun t => bool_decide (dt_id t = id)) (set_dt_revoked_at (Some (w_now w))))) w))
            InternalServerError "revoke failed";
      _ ← Record_ "admin" "device_token.revoked" [WithData (JObj [("token_id", JStr (uuid_text id))])];
      ok StatusOK (JObj [("status", JStr "revoked"); ("id", JStr (uuid_text id))])
  end.

End auth.
