(* ===== verification/Agents.v ===== *)
(** Agents (internal/api/agents.go, internal/api/jobs.go, internal/api/device.go):
    enrolment with one-time tokens, server-controlled roles, heartbeats, device
    reports, and the job endpoints. *)
From S2P Require Import Prelude GoStrings GoTime Effects Schema AuditLog Jobs Http Auth.

Definition validAgentRoles : list string :=
  ["device_agent"; "refresh_agent"; "signing_worker"; "tvos_agent"; "device_service"].

Definition defaultAgentRole : string := "device_agent".

Definition str_le (a b : string) : bool :=
  match str_compare a b with Gt => false | _ => true end.

Definition validRoleList : string := join ", " (sort_by str_le validAgentRoles).

Record createEnrolmentTokenRequest := MkCreateEnrolmentToken {
  ce_Label : string;
  ce_Role : string;
  ce_ExpiresInSeconds : option Z
}.

Record enrolAgentRequest := MkEnrolAgent {
  ea_Name : string;
  ea_Architecture : string;
  ea_OperatingSystem : string;
  ea_SoftwareVersion : string;
  ea_TailnetIdentity : string;
  ea_Capabilities : option json
}.

Record reportedDevice := MkReportedDevice {
  rd_Udid : string;
  rd_Platform : string;
  rd_DeviceName : string;
  rd_Model : string;
  rd_OsVersion : string;
  rd_PairingStatus : string;
  rd_DeveloperModeEnabled : option bool
}.

Record claimRequest := MkClaimRequest {
  cq_DeviceIDs : list uuid;
  cq_JobTypes : list string;
  cq_Limit : Z
}.

Section agents.
Context `{UuidText} `{SecretOps}.

(** ** Enrolment tokens *)

Definition store_token (hash key label role : string) (expires : option instant) (w : world)
    : sqlerr + unit * world :=
  if exists_row (fun t => opt_is (et_token_key t) key) (W_enrolment_tokens w) then inl UniqueViolation
  else
    let t := MkEnrolToken (w_fresh w) hash (Some key) label role "admin" expires None None in
    inr (tt, set_fresh (w_fresh w + 1)%N (set_db (on_enrolment_tokens (<[et_id t := t]>)) w)).

Definition handleCreateEnrolmentToken (body : option createEnrolmentTokenRequest) : handler :=
  req ← decodeJSON body;
  if ce_Label req =s "" then fail BadRequest "label is required" else
  let role := if ce_Role req =s "" then defaultAgentRole else ce_Role req in
  if negb (in_strs role validAgentRoles)
  then fail BadRequest ("role must be one of " ++s validRoleList) else
  secret ← GenerateSecret (writeJSON InternalServerError (error_body "token generation failed"));
  hash ← HashSecret secret (writeJSON InternalServerError (error_body "token hashing failed"));
  now ← get_ w_now;
  let expiresAt := match ce_ExpiresInSeconds req with
                   | Some n => if 0 <? n then Some (now + wrap64 (n * Second)) else None
                   | None => None
                   end in
  _ ← need Pool (store_token hash (KeyID secret) (ce_Label req) role expiresAt)
        InternalServerError "token storage failed";
  _ ← Record_ "admin" "enrolment_token.created"
        [WithData (JObj [("label", JStr (ce_Label req)); ("role", JStr role)])];
  ok Created (JObj [("token", JStr (FormatEnrolmentToken secret)); ("label", JStr (ce_Label req));
                    ("role", JStr role)]).

Definition enrolment_by_key (key : string) (w : world) : option enrolment_token :=
  find_row (fun t => opt_is (et_token_key t) key) (W_enrolment_tokens w).

Definition token_expired (now : instant) (t : enrolment_token) : bool :=
  match et_expires_at t with Some e => e <? now | None => false end.

(** The row a legacy token verifies against. *)
Definition legacy_token (token : string) (w : world) : option enrolment_token :=
  List.find (fun t => negb (token_expired (w_now w) t) && VerifySecret token (et_token_hash t))
    (select (fun t => bool_decide (et_token_key t = None) && bool_decide (et_used_at t = None))
       (rows (W_enrolment_tokens w))).

Definition bad_token : string := "invalid or expired enrolment token".

(** The token row a request may consume, and the role it grants. *)
Definition find_token (token : string) : prog world response (uuid * string) :=
  match ParseEnrolmentToken token with
  | Some (keyID, secret) =>
      o ← need Tx (reads (enrolment_by_key keyID)) Unauthorized bad_token;
      now ← get_ w_now;
      match o with
      | None => fail Unauthorized bad_token
      | Some t =>
          if bool_decide (is_Some (et_used_at t)) then fail Unauthorized "enrolment token already used"
          else if token_expired now t then fail Unauthorized bad_token
          else if negb (VerifySecret secret (et_token_hash t)) then fail Unauthorized bad_token
          else Ret (et_id t, et_role t)
      end
  | None =>
      o ← need Tx (reads (legacy_token token)) InternalServerError "token lookup failed";
      match o with
      | None => fail Unauthorized bad_token
      | Some t =>
          if bool_decide (is_Some (et_used_at t)) then fail Unauthorized "enrolment token already used"
          else Ret (et_id t, defaultAgentRole)
      end
  end.

Definition enrolled_agent (req : enrolAgentRequest) (role hash key : string) (id : uuid)
    (now : instant) : Schema.agent :=
  MkAgent id (ea_Name req) (Some (ea_Architecture req)) (Some (ea_OperatingSystem req))
    (Some (ea_SoftwareVersion req)) (Some (ea_TailnetIdentity req)) "online" (Some now)
    (default (JObj []) (ea_Capabilities req)) role (Some hash) (Some key) now.

(** [chk_agent_role] and the unique key id. *)
Definition insert_agent (mk : uuid -> instant -> Schema.agent) (w : world) : sqlerr + uuid * world :=
  let a := mk (w_fresh w) (w_now w) in
  if negb (in_strs (ag_role a) validAgentRoles) then inl CheckViolation
  else if exists_row (fun x => bool_decide (is_Some (ag_api_key_id x))
                               && bool_decide (ag_api_key_id x = ag_api_key_id a)) (W_agents w)
  then inl UniqueViolation
  else inr (ag_id a, set_fresh (w_fresh w + 1)%N (set_db (on_agents (<[ag_id a := a]>)) w)).

(** [UPDATE .. WHERE id = $2 AND used_at IS NULL]: the rows affected. *)
Definition consume_token (tokenID agentID : uuid) (w : world) : sqlerr + Z * world :=
  let p t := bool_decide (et_id t = tokenID) && bool_decide (et_used_at t = None) in
  if exists_row p (W_enrolment_tokens w) && negb (fk_ok (Some agentID) (W_agents w)) then inl FkViolation
  else inr (count_where p (W_enrolment_tokens w),
       set_db (on_enrolment_tokens (update_where p (fun t =>
         set_et_used_by_agent (Some agentID) (set_et_used_at (Some (w_now w)) t)))) w).

Definition enrol_body (token : string) (req : enrolAgentRequest)
    : prog world response (uuid * string * string) :=
  tr ← find_token token;
  let '(tokenID, role) := tr : uuid * string in
  apiKey ← GenerateSecret (writeJSON InternalServerError (error_body "key generation failed"));
  hash ← HashSecret apiKey (writeJSON InternalServerError (error_body "key hashing failed"));
  agentID ← need Tx (insert_agent (enrolled_agent req role hash (KeyID apiKey)))
              InternalServerError "agent creation failed";
  n ← need Tx (consume_token tokenID agentID) InternalServerError "token consumption failed";
  if negb (n =? 1) then fail Conflict "enrolment token already used" else
  _ ← RecordTx "admin" "agent.enrolled"
        [WithData (JObj [("agent_id", JStr (uuid_text agentID)); ("name", JStr (ea_Name req));
                         ("role", JStr role)])]
        (writeJSON InternalServerError (error_body "audit write failed"));
  Ret (agentID, apiKey, role).

Definition handleEnrolAgent (token : string) (body : option enrolAgentRequest) : handler :=
  req ← decodeJSON body;
  if ea_Name req =s "" then fail BadRequest "name is required" else
  r ← txn rollback (writeJSON InternalServerError (error_body "transaction failed"))
        (writeJSON InternalServerError (error_body "transaction failed")) (enrol_body token req);
  let '(agentID, apiKey, role) := r : uuid * string * string in
  ok Created (JObj [("agent_id", JStr (uuid_text agentID)); ("api_key", JStr apiKey);
                    ("role", JStr role)]).

(** ** Roles *)

Definition agentRole (agentID : uuid) : prog world response string :=
  r ← try_ Pool (reads (fun w => W_agents w !! agentID));
  match r with
  | inr (Some a) =>
      if (ag_name a =s "signing-worker") && negb (ag_role a =s "signing_worker") then
        _ ← try_ Pool (writes (fun w => set_db (on_agents (update_where
              (fun x => bool_decide (ag_id x = agentID)) (set_ag_role "signing_worker"))) w));
        Ret "signing_worker"
      else if negb (ag_role a =s "") then Ret (ag_role a)
      else Ret defaultAgentRole
  | _ => Ret defaultAgentRole
  end.

Definition allowedJobTypesForRole (role : string) : list string :=
  if role =s "signing_worker" then [JobTypeSign; JobTypeExportP12; JobTypeAppIDs]
  else if role =s "refresh_agent" then [JobTypeRefresh]
  else if role =s "device_service" then
    [JobTypeInstall; JobTypeVerify; JobTypeRefresh; JobTypeUninstall; JobTypeInventory;
     JobTypeLiveContainerPush; JobTypeInstalledApps]
  else [JobTypeInstall; JobTypeVerify; JobTypeUninstall; JobTypeInventory].

(** ** Heartbeats and device reports *)

Definition heartbeat_stmt (agentID : uuid) (caps : json) (w : world)
    : sqlerr + option Schema.agent * world :=
  match W_agents w !! agentID with
  | None => inr (None, w)
  | Some a =>
      let a' := set_ag_updated_at (w_now w) (set_ag_capabilities caps
                  (set_ag_last_heartbeat_at (Some (w_now w)) (set_ag_connection_state "online" a))) in
      inr (Some a', set_db (on_agents (<[agentID := a']>)) w)
  end.

Definition json_opt (o : option string) : json := match o with Some s => JStr s | None => JNull end.

Definition handleHeartbeat (agentID : uuid) (body : option (option json)) : handler :=
  capabilities ← decodeJSON body;
  o ← need Pool (heartbeat_stmt agentID (default (JObj []) capabilities))
        InternalServerError "heartbeat failed";
  match o with
  | None => fail InternalServerError "heartbeat failed"
  | Some a =>
      now ← get_ w_now;
      ok StatusOK (JObj [("agent", JObj [("id", JStr (uuid_text (ag_id a))); ("name", JStr (ag_name a));
          ("software_version", json_opt (ag_software_version a));
          ("tailnet_identity", json_opt (ag_tailnet_identity a));
          ("connection_state", JStr (ag_connection_state a));
          ("last_heartbeat_at", JStr (format_rfc3339 (default 0 (ag_last_heartbeat_at a))));
          ("role", JStr (ag_role a))]);
        ("server_time", JStr (format_rfc3339 now))])
  end.

Definition device_by_udid (udid : string) (w : world) : option device :=
  find_row (fun d => dv_udid d =s udid) (W_devices w).

(** The upsert of a reported device; the owner of a device is never replaced. *)
Definition report_device (agentID : uuid) (d : reportedDevice) (w : world)
    : sqlerr + uuid * world :=
  let platform := if rd_Platform d =s "" then "ios" else rd_Platform d in
  let status := if rd_PairingStatus d =s "" then "unknown" else rd_PairingStatus d in
  if negb (fk_ok (Some agentID) (W_agents w)) then inl FkViolation
  else match device_by_udid (rd_Udid d) w with
       | None =>
           let x := MkDevice (w_fresh w) (rd_Udid d) platform (Some (rd_DeviceName d))
                      (Some (rd_Model d)) (Some (rd_OsVersion d)) (Some agentID) status
                      (rd_DeveloperModeEnabled d) (Some (w_now w)) in
           inr (dv_id x, set_fresh (w_fresh w + 1)%N (set_db (on_devices (<[dv_id x := x]>)) w))
       | Some x =>
           let owner := match dv_agent_id x with
                        | None => Some agentID
                        | Some a => if bool_decide (a = agentID) then Some agentID else Some a
                        end in
           let x' := set_dv_last_connected_at (Some (w_now w))
                       (set_dv_developer_mode_enabled (rd_DeveloperModeEnabled d)
                         (set_dv_pairing_status status (set_dv_agent_id owner
                           (set_dv_os_version (Some (rd_OsVersion d))
                             (set_dv_model (Some (rd_Model d))
                               (set_dv_device_name (Some (rd_DeviceName d))
                                 (set_dv_platform platform x))))))) in
           inr (dv_id x, set_db (on_devices (<[dv_id x := x']>)) w)
       end.

(** One report.  The driver returns from [Query] before the statement has run:
    a rejected row shows only as an empty result, which is counted. *)
Definition report_one (agentID : uuid) (acc : Z * list (string * uuid)) (d : reportedDevice)
    : prog world response (Z * list (string * uuid)) :=
  if rd_Udid d =s "" then Ret acc else
  r ← try_ Pool (report_device agentID d);
  match r with
  | inl Fault => fail InternalServerError "device upsert failed"
  | inl _ => Ret (acc.1 + 1, acc.2)
  | inr id => Ret (acc.1 + 1, acc.2 ++ [(rd_Udid d, id)])
  end.

Definition handleReportDevices (agentID : uuid) (body : option (list reportedDevice)) : handler :=
  devices ← decodeJSON body;
  acc ← fold_ (report_one agentID) (0, []) devices;
  _ ← Record_ ("agent:" ++s uuid_text agentID) "devices.reported" [];
  ok StatusOK (JObj [("reported", JNum (Z.of_nat (length devices))); ("upserted", JNum acc.1);
    ("devices", JArr ((fun x => JObj [("udid", JStr x.1); ("id", JStr (uuid_text x.2))]) <$> acc.2))]).

(** ** Jobs *)

Definition job_json (j : job) : json :=
  JObj [("id", JStr (uuid_text (j_id j))); ("job_type", JStr (j_job_type j));
        ("state", JStr (j_state j)); ("attempt", JNum (j_attempt j));
        ("progress", JNum (j_progress j)); ("parameters", j_parameters j)].

Definition error_text (e : jerr) : string :=
  match e with
  | ErrNotClaimed => "job is not claimed by this agent"
  | ErrInvalidTransition => "invalid job state transition"
  | ErrNoRows => "no rows in result set"
  | ErrSql _ => "database error"
  | ErrMsg m => m
  end.

Definition handleCreateJob (body : option CreateRequest) : handler :=
  req ← decodeJSON body;
  r ← attempt (Create "admin" req);
  match r with
  | inl e => fail BadRequest (error_text e)
  | inr j => ok Created (job_json j)
  end.

(** The job types a claim uses, or the first one the role does not permit. *)
Definition effective_types (role : string) (asked : list string) : string + list string :=
  let allowed := allowedJobTypesForRole role in
  match asked with
  | [] => inr allowed
  | _ =>
      match List.find (fun t => negb (in_strs t allowed)) asked with
      | Some t => inl t
      | None => inr asked
      end
  end.

Definition handleClaimJobs (s : Server) (agentID : uuid) (body : option claimRequest)
    : prog world response (list job) :=
  req ← decodeJSON body;
  role ← agentRole agentID;
  match effective_types role (cq_JobTypes req) with
  | inl t => fail Forbidden ("agent role " ++s role ++s " is not permitted to claim " ++s t ++s " jobs")
  | inr types =>
      r ← attempt (Claim (job_service s) agentID (cq_DeviceIDs req) types (cq_Limit req));
      match r with
      | inl _ => fail InternalServerError "claim failed"
      | inr claimed => Ret claimed
      end
  end.

Definition handleUpdateJob (s : Server) (agentID : uuid) (path_id : string)
    (body : option UpdateRequest) : handler :=
  match uuid_parse path_id with
  | None => fail BadRequest "invalid job id"
  | Some jobID =>
      req ← decodeJSON body;
      r ← attempt (Update (job_service s) agentID jobID req);
      match r with
      | inl ErrNotClaimed => fail Conflict "job is not claimed by this agent"
      | inl ErrInvalidTransition => fail Conflict "invalid job state transition"
      | inl _ => fail InternalServerError "job update failed"
      | inr j =>
          _ ← match j_device_id j with
              | Some d =>
                  if j_state j =s StateCompleted then
                    o ← try_ Pool (reads (agent_role_of agentID));
                    match o with
                    | inr (Some role) =>
                        if role =s "device_service" then
                          _ ← try_ Pool (writes (fun w => set_db (on_devices (update_where
                                (fun x => bool_decide (dv_id x = d))
                                (set_dv_last_connected_at (Some (w_now w))))) w));
                          Ret tt
                        else Ret tt
                    | _ => Ret tt
                    end
                  else Ret tt
              | None => Ret tt
              end;
          ok StatusOK (job_json j)
      end
  end.

(** ** The same-host device service *)

Definition localDeviceServiceSentinel : string := "socket:device-service".
Definition deviceServiceNodeName : string := "device-service".
Definition deviceServiceRole : string := "device_service".

Definition sentinel_agent (id : uuid) (now : instant) : Schema.agent :=
  MkAgent id deviceServiceNodeName None None None None "online" (Some now) (JObj [])
    deviceServiceRole None (Some localDeviceServiceSentinel) now.

(** [INSERT .. ON CONFLICT (api_key_id) DO NOTHING]. *)
Definition insert_sentinel (w : world) : sqlerr + unit * world :=
  if exists_row (fun a => opt_is (ag_api_key_id a) localDeviceServiceSentinel) (W_agents w)
  then inr (tt, w)
  else
    let a := sentinel_agent (w_fresh w) (w_now w) in
    inr (tt, set_fresh (w_fresh w + 1)%N (set_db (on_agents (<[ag_id a := a]>)) w)).

Definition localDeviceServiceID (e : response) : prog world response uuid :=
  o ← must Pool (reads (agent_by_key localDeviceServiceSentinel)) (fun _ => e);
  match o with
  | Some a => Ret (ag_id a)
  | None =>
      _ ← must Pool insert_sentinel (fun _ => e);
      o' ← must Pool (reads (agent_by_key localDeviceServiceSentinel)) (fun _ => e);
      match o' with Some a => Ret (ag_id a) | None => Throw e end
  end.

(** The Unix socket: no credential, the node's own row. *)
Definition deviceService {A} (next : uuid -> prog world response A) : prog world response A :=
  id ← localDeviceServiceID
         (writeJSON InternalServerError (error_body "device service node unavailable"));
  next id.

Definition handleDeviceMe (agentID : uuid) : handler :=
  o ← need Pool (reads (fun w => W_agents w !! agentID)) InternalServerError "node lookup failed";
  match o with
  | None => fail InternalServerError "node lookup failed"
  | Some a => ok StatusOK (JObj [("agent_id", JStr (uuid_text agentID)); ("name", JStr (ag_name a));
                ("role", JStr deviceServiceRole); ("connection_state", JStr (ag_connection_state a))])
  end.

Definition handleDeviceHealth : handler :=
  _ ← need Pool (reads (fun _ => tt)) ServiceUnavailable "database unavailable";
  ok StatusOK (JObj [("status", JStr "ok"); ("transport", JStr "unix-socket");
                     ("node", JStr localDeviceServiceSentinel)]).

End agents.
