(* ===== verification/AuthSpec.v ===== *)
(** Who gets in: what each credential grants, one-time enrolment, and what an
    agent's role lets it claim. *)
From S2P Require Import Prelude GoStrings GoTime Effects Schema AuditLog Jobs JobsInvariant JobsSpec Http Auth Agents.

Section spec.
Context `{UuidText} `{HSL : SecretLaws}.

(** ** Tokens *)

Lemma str_length_nil (s : string) : String.length s = 0%nat -> s = "".
Proof using. by destruct s. Qed.

(** The printed form of an enrolment token is read back as its key id and
    its secret. *)
Theorem enrolment_token_roundtrip secret :
  secret <> "" -> ParseEnrolmentToken (FormatEnrolmentToken secret) = Some (KeyID secret, secret).
Proof using HSL.
  intros Hne. unfold ParseEnrolmentToken, FormatEnrolmentToken.
  change ("." ++s secret) with (String "." secret).
  rewrite index_byte_app by apply sha256_no_dot. unfold KeyID.
  assert ((String.length (sha256_hex secret) =? 0)%nat = false) as -> by by rewrite sha256_length.
  rewrite str_length_app. cbn [String.length].
  assert ((S (String.length (sha256_hex secret)) =? String.length (sha256_hex secret)
           + S (String.length secret))%nat = false) as ->.
  { apply Nat.eqb_neq. assert (String.length secret <> 0%nat) by (by intros ?%str_length_nil). lia. }
  cbn [orb]. rewrite str_take_app.
  change (String "." secret) with ("." ++s secret). rewrite <- str_app_assoc.
  replace (S (String.length (sha256_hex secret))) with (String.length (sha256_hex secret ++s "."))
    by (rewrite str_length_app; simpl; lia).
  by rewrite str_drop_app.
Qed.

(** ** Administrators and device tokens *)

(** The request carries the admin key. *)
Definition presents_admin (s : Server) (r : request) : Prop :=
  adminKey s <> "" /\ (bearerToken r = Some (adminKey s) \/ rq_cookie r = Some (adminKey s)).

Lemma checkAdmin_true s r :
  checkAdmin s r = true <->
  bearerToken r = Some (adminKey s) \/ rq_cookie r = Some (adminKey s).
Proof using.
  unfold checkAdmin, ConstantTimeEqual. rewrite orb_true_iff.
  destruct (bearerToken r), (rq_cookie r); rewrite ?bool_decide_eq_true; naive_solver.
Qed.

(** The request carries a device token that is stored, unrevoked, unexpired and
    has the scope. *)
Definition presents_token (w : world) (scope : string) (r : request) : Prop :=
  exists key id t, bearerToken r = Some key /\ W_device_tokens w !! id = Some t
    /\ dt_key_id t = KeyID key /\ bcrypt_verify key (dt_token_hash t) = true
    /\ dt_revoked_at t = None /\ (forall e, dt_expires_at t = Some e -> w_now w < e)
    /\ exists sc, sc ∈ dt_scopes t /\ (sc = scope \/ (scope = "read" /\ sc = "control")).

Lemma token_usable_spec w key scope t id :
  W_device_tokens w !! id = Some t -> dt_key_id t = KeyID key ->
  token_usable (w_now w) key scope t = true ->
  forall r, bearerToken r = Some key -> presents_token w scope r.
Proof using.
  intros Ht Hk Hu r Hr. unfold token_usable, VerifySecret in Hu. rewrite !andb_true_iff in Hu.
  destruct Hu as [[[Hrev Hexp] Hver] Hsc].
  exists key, id, t. split_and!; try done; [by destruct (dt_revoked_at t)| |].
  - intros e He. rewrite He in Hexp. by apply Z.ltb_lt.
  - unfold tokenHasScope in Hsc. apply existsb_exists in Hsc as (sc & Hin & Hor).
    exists sc. split; [by apply list_elem_of_In|]. bools. naive_solver.
Qed.

(** No access without a credential: a route behind [admin] or
    [adminOrToken] runs its handler only for a request that carries the admin
    key or (the latter) a stored, unrevoked, unexpired device token of the
    scope; every other request is answered 401 (503 when no key is configured)
    and changes nothing, whatever fails. *)
Theorem credentials_required s scope r (next : handler) fl w :
  (presents_admin s r \/ exists st msg, admin s r next = fail st msg /\ (st = 401 \/ st = 503))
  /\ (presents_admin s r \/ presents_token w scope r
      \/ run fl (adminOrToken s scope r next) w
         = (inl (writeJSON 401 (error_body "invalid credentials or scope")), w)).
Proof using.
  split.
  - unfold admin. destruct (adminKey s =s "") eqn:Ek; [right; eauto|]. bools.
    destruct (checkAdmin s r) eqn:Ea; simpl; [|right; eauto].
    left. apply checkAdmin_true in Ea. by split.
  - unfold adminOrToken. destruct (negb (adminKey s =s "") && checkAdmin s r) eqn:Ea.
    { left. apply andb_true_iff in Ea as [E1 E2%checkAdmin_true]. bools. by split. }
    right. destruct (bearerToken r) as [key|] eqn:Eb; [|by right].
    destruct (token_by_key (KeyID key) w) as [t|] eqn:Et.
    + destruct (token_usable (w_now w) key scope t) eqn:Eu.
      * left. apply find_row_Some in Et as (id & Hid & Hk). bools. by eapply token_usable_spec.
      * right. unfold checkDeviceToken. simpl.
        destruct fl as [|[] fl]; simpl; rewrite ?Et; simpl; rewrite ?Eu; done.
    + right. unfold checkDeviceToken. simpl. destruct fl as [|[] fl]; simpl; rewrite ?Et; done.
Qed.

(** Revocation is immediate: once a token's revocation has been answered
    with success, no request that relies on it is let in, for any scope. *)
Theorem revoked_token_refused fl path_id resp w w' id key scope :
  run fl (handleRevokeDeviceToken path_id) w = (inr resp, w') ->
  uuid_parse path_id = Some id ->
  (forall t, token_by_key (KeyID key) w' = Some t -> dt_id t = id) ->
  forall fl', (run fl' (checkDeviceToken key scope) w').1 = inr None.
Proof using.
  intros Hrun Hid Honly fl'.
  assert (Hrev : forall k t, W_device_tokens w' !! k = Some t -> dt_id t = id ->
                 is_Some (dt_revoked_at t)).
  { by_wp Hrun. unfold handleRevokeDeviceToken. rewrite Hid. split; [done|]. simpl.
    assert (Hupd : forall k t, update_where (fun t => bool_decide (dt_id t = id))
        (set_dt_revoked_at (Some (w_now w))) (W_device_tokens w) !! k = Some t -> dt_id t = id ->
        is_Some (dt_revoked_at t)).
    { intros k t. rewrite lookup_update_where. intros (x & Hx & ->)%fmap_Some.
      case_cond; bools; [eauto|done]. }
    split; done. }
  destruct (token_by_key (KeyID key) w') as [t|] eqn:Et.
  - assert (token_usable (w_now w') key scope t = false) as Hu.
    { pose proof Et as Et'. apply find_row_Some in Et as (k & Hk & _).
      unfold token_usable. destruct (Hrev k t Hk) as [x ->]; [|done]. by apply Honly. }
    unfold checkDeviceToken. simpl. destruct fl' as [|[] fl']; simpl; rewrite ?Et; simpl; rewrite ?Hu; done.
  - unfold checkDeviceToken. simpl. destruct fl' as [|[] fl']; simpl; rewrite ?Et; done.
Qed.

(** The dashboard page hands the admin key to everybody: a client that
    loads [GET /], an open route, receives a session cookie with which every
    admin check succeeds. *)
Theorem index_page_grants_admin s header (next : handler) :
  adminKey s <> "" ->
  MkRoute "GET" "/" Open ∈ routes
  /\ admin s (MkRequest header (index_cookie s)) next = next.
Proof using.
  intros Hk. split; [apply list_elem_of_In; simpl; tauto|].
  unfold admin, index_cookie. rewrite bool_decide_eq_false_2 by done.
  assert (checkAdmin s (MkRequest header (Some (adminKey s))) = true) as ->; [|done].
  apply checkAdmin_true. by right.
Qed.

(** ** Agents *)

Definition agents_wf (w : world) : Prop :=
  forall id a, W_agents w !! id = Some a -> ag_id a = id.

(** A bearer key resolves only to the agent it was issued to (the row with
    its key id, or a legacy row without key id whose hash accepts it), and
    never to the same-host device service, whose key id is no sha256. *)
Theorem bearer_key_resolves r fl w id w' :
  agents_wf w -> run fl (agent_of r) w = (inr id, w') ->
  w' = w /\ exists key a, bearerToken r = Some key /\ W_agents w !! id = Some a
    /\ (ag_api_key_id a = Some (KeyID key)
        \/ (ag_api_key_id a = None /\ exists h, ag_api_key_hash a = Some h /\ bcrypt_verify key h = true))
    /\ ag_api_key_id a <> Some localDeviceServiceSentinel.
Proof using HSL.
  intros Hw Hrun.
  assert (Hsent : forall key, KeyID key <> localDeviceServiceSentinel).
  { intros key Heq. pose proof (sha256_length key) as Hl. unfold KeyID in Heq.
    rewrite Heq in Hl. done. }
  by_wp Hrun. unfold agent_of. destruct (bearerToken r) as [key|] eqn:Eb; [|done].
  split; [done|]. simpl. destruct (agent_by_key (KeyID key) w) as [a|] eqn:Ea.
  - apply find_row_Some in Ea as (i & Hi & Hk). bools. split; [done|].
    exists key, a. rewrite (Hw _ _ Hi). split_and!; auto. rewrite Hk. intros [= Heq]. by apply Hsent in Heq.
  - split; [done|]. simpl. destruct (legacy_agent key w) as [a|] eqn:El; [|done]. split; [done|].
    unfold legacy_agent in El. apply find_some in El as [Hin Hv].
    apply list_elem_of_In, elem_of_select in Hin as [[i Hi]%elem_of_rows Hp]. bools.
    destruct Hp as [Hnone [h Hh]]. rewrite Hh in Hv.
    exists key, a. rewrite (Hw _ _ Hi). split_and!; eauto. by rewrite Hnone.
Qed.

(** ** Enrolment *)

Record tokens_wf (w : world) : Prop := {
  tw_id id t : W_enrolment_tokens w !! id = Some t -> et_id t = id;
  tw_key i j t u k : W_enrolment_tokens w !! i = Some t -> W_enrolment_tokens w !! j = Some u ->
    et_token_key t = Some k -> et_token_key u = Some k -> i = j;
}.

(** The token row a keyed token names, when it may be consumed. *)
Definition grants (w : world) (token : string) (t : enrolment_token) : Prop :=
  exists key secret, ParseEnrolmentToken token = Some (key, secret)
    /\ et_token_key t = Some key /\ W_enrolment_tokens w !! et_id t = Some t
    /\ et_used_at t = None /\ token_expired (w_now w) t = false
    /\ bcrypt_verify secret (et_token_hash t) = true.

Lemma wp_find_token w token :
  tokens_wf w -> is_Some (ParseEnrolmentToken token) ->
  wp (find_token token) (fun r w' => w' = w /\ match r with
      | inr (id, role) => exists t, grants w token t /\ id = et_id t /\ role = et_role t
      | inl _ => True end) w.
Proof using.
  intros Hw [[key secret] Hp]. unfold find_token. rewrite Hp. split; [done|]. simpl.
  destruct (enrolment_by_key key w) as [t|] eqn:Et; [|done].
  apply find_row_Some in Et as (i & Hi & Hk). bools.
  case_cond; [done|]. case_cond; [done|]. case_cond; [done|]. bools. simpl. split; [done|].
  exists t. split; [|done]. exists key, secret. rewrite (tw_id _ Hw _ _ Hi).
  split_and!; try done. by apply eq_None_not_Some.
Qed.

Definition consumable (id : uuid) (t : enrolment_token) : bool :=
  bool_decide (et_id t = id) && bool_decide (et_used_at t = None).

Lemma consume_once w t (f : enrolment_token -> enrolment_token) :
  tokens_wf w -> W_enrolment_tokens w !! et_id t = Some t -> et_used_at t = None ->
  count_where (consumable (et_id t)) (W_enrolment_tokens w) = 1
  /\ update_where (consumable (et_id t)) f (W_enrolment_tokens w)
     = <[et_id t := f t]> (W_enrolment_tokens w).
Proof using.
  intros Hw Ht Hu.
  assert (Honly : forall j y, W_enrolment_tokens w !! j = Some y ->
    consumable (et_id t) y = true -> j = et_id t).
  { intros j y Hy Hb. unfold consumable in Hb. bools. rewrite <- (tw_id _ Hw _ _ Hy). tauto. }
  assert (consumable (et_id t) t = true) by (unfold consumable; by rewrite !bool_decide_eq_true_2).
  split; [by apply (count_where_unique _ _ (et_id t) t)|by apply (update_where_unique _ _ _ (et_id t) t)].
Qed.

(** What an enrolment that succeeds has done. *)
Definition enrolled_by (w : world) (token : string) (req : enrolAgentRequest) (w' : world) : Prop :=
  exists t id a now, grants w token t /\ w_now w = now
    /\ W_agents w' = <[id := a]> (W_agents w) /\ ag_role a = et_role t /\ ag_name a = ea_Name req
    /\ W_enrolment_tokens w' = <[et_id t := set_et_used_by_agent (Some id)
                                  (set_et_used_at (Some now) t)]> (W_enrolment_tokens w).

(** The same with the key it has issued. *)
Record enrolled_as (w : world) (token : string) (req : enrolAgentRequest) (t : enrolment_token)
    (id : uuid) (apiKey : string) (a : Schema.agent) (w' : world) : Prop := {
  en_grants : grants w token t;
  en_agents : W_agents w' = <[id := a]> (W_agents w);
  en_id : ag_id a = id;
  en_role : ag_role a = et_role t;
  en_name : ag_name a = ea_Name req;
  en_key : ag_api_key_id a = Some (KeyID apiKey);
  en_secret : exists n, apiKey = random_secret n;
  en_tokens : W_enrolment_tokens w' = <[et_id t := set_et_used_by_agent (Some id)
                (set_et_used_at (Some (w_now w)) t)]> (W_enrolment_tokens w);
}.

Lemma enrolled_as_by w token req t id k a w' : enrolled_as w token req t id k a w' -> enrolled_by w token req w'.
Proof using. intros []. exists t, id, a, (w_now w). by split_and!. Qed.

Lemma consume_token_by tid id w :
  is_Some (W_agents w !! id) ->
  let p t := bool_decide (et_id t = tid) && bool_decide (et_used_at t = None) in
  consume_token tid id w = inr (count_where p (W_enrolment_tokens w),
    set_db (on_enrolment_tokens (update_where p (fun t =>
      set_et_used_by_agent (Some id) (set_et_used_at (Some (w_now w)) t)))) w).
Proof using.
  intros Ha. unfold consume_token. cbn [fk_ok]. rewrite (bool_decide_eq_true_2 _ Ha). by rewrite andb_false_r.
Qed.

Lemma wp_enrol_body w token req :
  tokens_wf w -> is_Some (ParseEnrolmentToken token) ->
  wp (enrol_body token req) (fun r w' => match r with
      | inr (id, k, role) => exists t a, role = et_role t /\ enrolled_as w token req t id k a w'
      | inl _ => True end) w.
Proof using.
  intros Hw Hp. unfold enrol_body. apply wp_bind.
  eapply wp_mono; [|by apply wp_find_token]. intros [e|[tid role]] w1 [-> Hg]; [done|].
  destruct Hg as (t & Hg & -> & ->). simpl. split; [done|]. split; [done|]. split; [done|].
  unfold insert_agent. simpl.
  case_cond; [done|]. case_cond; [done|]. split; [done|].
  pose proof Hg as (key & secret & _ & Hk & Ht & Hu & _).
  pose proof (fun f => consume_once w t f Hw Ht Hu) as Hc. unfold consumable in Hc.
  rewrite consume_token_by by (simpl; rewrite lookup_insert_eq; by eexists). cbn zeta. simpl.
  rewrite (proj1 (Hc (fun t => t))). simpl. split; [done|]. eexists t, _. split; [done|].
  split; try done; [by eexists|]. apply Hc.
Qed.

(** Every refusal is an error document. *)
Definition is_error (resp : response) : Prop := exists m, rs_body resp = error_body m.

Lemma throws_find_token token : throws is_error (find_token token).
Proof using.
  unfold find_token. destruct (ParseEnrolmentToken token) as [[key secret]|]; simpl.
  - intros [e|[t|]]; simpl; [by eexists|intros now|by eexists].
    repeat case_cond; simpl; try done; by eexists.
  - intros [e|[t|]]; simpl; [by eexists| |by eexists]. case_cond; simpl; [by eexists|done].
Qed.

Lemma throws_enrol_body token req : throws is_error (enrol_body token req).
Proof using.
  unfold enrol_body. apply throws_bind; [apply throws_find_token|]. intros [tid role]. simpl.
  intros [e|n1]; simpl; [by eexists|]. intros [e|n2]; simpl; [by eexists|].
  intros [e|id]; simpl; [by eexists|]. intros [e|n]; simpl; [by eexists|]. case_cond; [by eexists|].
  simpl. intros [e|u]; simpl; [by eexists|done].
Qed.

Lemma throws_handleEnrolAgent token body : throws is_error (handleEnrolAgent token body).
Proof using.
  unfold handleEnrolAgent. apply throws_bind; [destruct body; simpl; [done|by eexists]|]. intros req.
  case_cond; [by eexists|]. apply throws_bind; [|by intros [[]]].
  apply throws_txn; [by eexists..|]. apply throws_enrol_body.
Qed.

(** The answer to an enrolment. *)
Definition enrol_answer (id : uuid) (apiKey role : string) : response :=
  MkResponse Created (JObj [("agent_id", JStr (uuid_text id)); ("api_key", JStr apiKey); ("role", JStr role)]).

Lemma wp_handleEnrolAgent w token body :
  tokens_wf w -> is_Some (ParseEnrolmentToken token) ->
  wp (handleEnrolAgent token body) (fun r w' => match r with
      | inr resp => exists req t id k a, body = Some req /\ enrolled_as w token req t id k a w'
                      /\ resp = enrol_answer id k (et_role t)
      | inl resp => w_db w' = w_db w /\ is_error resp end) w.
Proof using.
  intros Hw Hp. eapply wp_mono; [|apply (wp_throws is_error _ (fun r w' => match r with
      | inr resp => exists req t id k a, body = Some req /\ enrolled_as w token req t id k a w'
                      /\ resp = enrol_answer id k (et_role t)
      | inl resp => w_db w' = w_db w end)); [apply throws_handleEnrolAgent|]].
  - intros [resp|resp] w' [H1' H2']; auto.
  - unfold handleEnrolAgent. destruct body as [req|]; [|done].
    apply wp_bind. cbn [decodeJSON wp]. case_cond; [done|]. apply wp_bind, wp_txn; [done|].
    eapply wp_mono; [|by apply wp_enrol_body]. intros [e|[[id k] role]] w' He; [done|].
    split; [|done]. destruct He as (t & a & -> & He). simpl. exists req, t, id, k, a. done.
Qed.

(** The token has served: whatever the time, no request is granted by it. *)
Definition used_up (w : world) (token : string) : Prop :=
  exists key secret t, ParseEnrolmentToken token = Some (key, secret) /\ et_token_key t = Some key
    /\ W_enrolment_tokens w !! et_id t = Some t /\ et_used_at t <> None.

Lemma used_up_grants w token t : tokens_wf w -> used_up w token -> ~ grants w token t.
Proof using.
  intros Hw (key & secret & u & Hp & Hk & Hu & Hn) (key2 & secret2 & Hp2 & Hk2 & Ht & Hun & _).
  rewrite Hp in Hp2. injection Hp2 as <- <-.
  pose proof (tw_key _ Hw _ _ _ _ _ Hu Ht Hk Hk2) as Hid. rewrite Hid in Hu. congruence.
Qed.

Lemma enrolled_used_up w token req t id k a w' :
  tokens_wf w -> enrolled_as w token req t id k a w' -> tokens_wf w' /\ used_up w' token.
Proof using.
  intros Hw [(key & secret & Hpk & Hk & Ht & Hu & _) _ _ _ _ _ _ Htok]. split.
  - split.
    + intros i x. rewrite Htok, lookup_insert. case_decide; [intros [= <-]; by subst|apply Hw].
    + intros i j x y k'. rewrite Htok, !lookup_insert.
      repeat case_decide; intros; simplify_eq; eauto using tw_key.
  - exists key, secret, (set_et_used_by_agent (Some id) (set_et_used_at (Some (w_now w)) t)).
    split_and!; [done|done|rewrite Htok; apply lookup_insert_eq|done].
Qed.

Lemma wp_enrol_used_up w token body :
  tokens_wf w -> used_up w token ->
  wp (handleEnrolAgent token body) (fun r w' =>
    (exists resp, r = inl resp /\ is_error resp) /\ w_db w' = w_db w) w.
Proof using.
  intros Hw Hu. eapply wp_mono; [|apply (wp_handleEnrolAgent w token body Hw)].
  - intros [resp|resp] w'; [naive_solver|]. intros (req & t & id & k & a & _ & [Hg _ _ _ _ _ _ _] & _).
    destruct (used_up_grants _ _ _ Hw Hu Hg).
  - destruct Hu as (key & secret & t & -> & _). eauto.
Qed.

(** Enrolment is one-time: a keyed token admits an agent only while its row
    is unused, unexpired and verified; the agent gets the role of the token, and
    any later attempt with the same token, whatever it sends and whatever fails,
    is refused and changes no table. *)
Theorem enrolment_is_one_time token req1 req2 fl1 fl2 w resp w1 r2 w2 :
  tokens_wf w -> is_Some (ParseEnrolmentToken token) ->
  run fl1 (handleEnrolAgent token req1) w = (inr resp, w1) ->
  run fl2 (handleEnrolAgent token req2) w1 = (r2, w2) ->
  (exists req, req1 = Some req /\ enrolled_by w token req w1)
  /\ (exists resp2, r2 = inl resp2) /\ w_db w2 = w_db w1.
Proof using.
  intros Hw Hp H1 H2.
  apply (wp_run_eq _ _ _ _ _ _ (wp_handleEnrolAgent w token req1 Hw Hp)) in H1.
  destruct H1 as (req & t & id & k & a & -> & He & _).
  destruct (enrolled_used_up _ _ _ _ _ _ _ _ Hw He) as [Hw1 Hu].
  apply (wp_run_eq _ _ _ _ _ _ (wp_enrol_used_up w1 token req2 Hw1 Hu)) in H2.
  destruct H2 as [(resp2 & -> & _) Hd]. split_and!; eauto. exists req. split; [done|].
  by eapply enrolled_as_by.
Qed.

(** ** What a role may claim *)

(** The role a claim runs under: the agent's row, except that a row named
    "signing-worker" counts as (and becomes) a signing worker. *)
Definition claim_role (w : world) (agentID : uuid) (role : string) : Prop :=
  role = defaultAgentRole
  \/ exists a, W_agents w !! agentID = Some a
       /\ (role = ag_role a \/ (ag_name a = "signing-worker" /\ role = "signing_worker")).

Lemma wp_agentRole w agentID :
  wp (agentRole agentID) (fun r w' =>
    W_jobs w' = W_jobs w /\ W_devices w' = W_devices w /\ w_fresh w' = w_fresh w
    /\ match r with inr role => claim_role w agentID role | inl _ => False end) w.
Proof using.
  unfold agentRole. split; simpl.
  - split_and!; try done. by left.
  - destruct (W_agents w !! agentID) as [a|] eqn:Ea; [|split_and!; try done; by left].
    case_cond; bools.
    + destruct_and!. split; simpl; split_and!; try done; right; eauto.
    + case_cond; simpl; split_and!; try done; [right; eauto|by left].
Qed.

Lemma effective_types_allowed role asked types :
  effective_types role asked = inr types -> types ⊆ allowedJobTypesForRole role /\ types <> [].
Proof using.
  unfold effective_types. destruct asked as [|x l].
  { intros [= <-]. split; [done|]. unfold allowedJobTypesForRole. by repeat case_cond. }
  destruct (find _ _) eqn:Ef; [done|]. intros [= <-]. split; [|done].
  intros t Ht%list_elem_of_In. apply (find_none _ _ Ef), negb_false_iff in Ht. by apply bool_decide_eq_true in Ht.
Qed.

Lemma sign_roles w agentID role t :
  claim_role w agentID role -> t ∈ allowedJobTypesForRole role ->
  t ∈ [JobTypeSign; JobTypeExportP12; JobTypeAppIDs] ->
  exists a, W_agents w !! agentID = Some a
    /\ (ag_role a = "signing_worker" \/ ag_name a = "signing-worker").
Proof using.
  intros Hr Ht Hs. assert (role = "signing_worker") as ->.
  { unfold allowedJobTypesForRole in Ht.
    case_cond; bools; [done|]. exfalso.
    rewrite !elem_of_cons, elem_of_nil in Hs. destruct_or!; subst t;
      repeat case_cond; by apply (bool_decide_eq_true_2 _) in Ht. }
  destruct Hr as [[=]|(a & Ha & [Hr|[Hn _]])]; eauto.
Qed.

(** A name chosen by the client makes an agent of any role a signing worker. *)
Theorem agent_name_grants_signing w agentID a :
  W_agents w !! agentID = Some a -> ag_name a = "signing-worker" ->
  ewp (agentRole agentID) (fun r _ => r = inr "signing_worker") w.
Proof using.
  intros Ha Hn. unfold ewp, exec, agentRole. simpl. rewrite Ha. simpl. rewrite Hn.
  destruct (ag_role a =s "signing_worker") eqn:Er; simpl; [|done]. bools. by rewrite Er.
Qed.

(** C16. A claim never exceeds the agent's role: what [POST /agent/jobs/claim]
    hands out are pending jobs of types the role permits, so a job that carries
    signing material (sign, export of a certificate, app ids) goes only to an
    agent whose row has the role signing_worker or the name signing-worker;
    a request for another type is refused and no job changes. *)
Theorem claim_respects_role s agentID body fl w r w' :
  wf_jobs w -> devices_wf w ->
  run fl (handleClaimJobs s agentID body) w = (r, w') ->
  match r with
  | inl _ => W_jobs w' = W_jobs w
  | inr js => exists role, claim_role w agentID role /\ forall j', j' ∈ js ->
      exists j, W_jobs w !! j_id j' = Some j /\ j_job_type j' = j_job_type j
        /\ j_state j = StatePending
        /\ j_job_type j ∈ allowedJobTypesForRole role
        /\ (j_job_type j ∈ [JobTypeSign; JobTypeExportP12; JobTypeAppIDs] ->
             exists a, W_agents w !! agentID = Some a
               /\ (ag_role a = "signing_worker" \/ ag_name a = "signing-worker"))
  end.
Proof using.
  intros Hw Hd Hrun. by_wp Hrun. unfold handleClaimJobs. destruct body as [req|]; [|done].
  apply wp_bind. cbn [decodeJSON wp]. apply wp_bind.
  eapply wp_mono; [|apply wp_agentRole]. intros [e|role] w1 (Hj & Hdv & Hf & Hr); [done|].
  destruct (effective_types role (cq_JobTypes req)) as [t|types] eqn:Et; [done|].
  apply effective_types_allowed in Et as [Hall Hne].
  apply wp_bind, wp_attempt. eapply wp_mono; [|apply wp_Claim].
  - intros [e|js] w2; unfold claim_outcome; simpl; rewrite Hj; [done|]. intros (_ & _ & Hjs & _).
    exists role. split; [done|]. intros j' Hin.
    destruct (Hjs j' Hin) as (j & Hl & (Hp & _ & Hty & _) & -> & _). specialize (Hty Hne).
    exists j. split_and!; try done; [by apply Hall|].
    intros Hsign. by apply (sign_roles w agentID role (j_job_type j)); [|apply Hall|].
  - destruct Hw. split; by rewrite ?Hj, ?Hf.
  - unfold devices_wf in *. by rewrite Hdv.
Qed.
End spec.
