(* ===== verification/AuthWitness.v ===== *)
(** Concrete requests on which the theorems of AuthSpec.v apply, with a sample
    of the cryptographic functions that satisfies the laws. *)
From S2P Require Import Prelude GoStrings GoTime Effects Schema Samples AuditLog Jobs JobsInvariant JobsSpec JobsWitness Http Auth Agents AuthSpec.

#[local] Existing Instance sample_uuid.

(** ** Sample cryptography *)

(** [n] characters of [s], without dots, padded with zeros. *)
Fixpoint padded (n : nat) (s : string) : string :=
  match n, s with
  | O, _ => ""
  | S n', "" => String "0" (padded n' "")
  | S n', String c s' => String (if Ascii.eqb c "." then "-" else c)%char (padded n' s')
  end.

Lemma padded_length n s : String.length (padded n s) = n.
Proof. revert s. induction n as [|n IH]; intros [|c s]; simpl; by rewrite ?IH. Qed.

Lemma padded_no_dot n s : has_byte "." (padded n s) = false.
Proof.
  revert s. induction n as [|n IH]; intros s; [by destruct s|].
  destruct s as [|c s]; cbn [padded has_byte]; [apply IH|].
  destruct (Ascii.eqb_spec c ".") as [|Hc]; [apply IH|].
  rewrite IH, ?orb_false_r. by apply Ascii.eqb_neq.
Qed.

#[local] Instance sample_secrets : SecretOps := {
  sha256_hex := padded 64;
  bcrypt_hash := fun salt s => sample_text salt ++s "$" ++s s;
  bcrypt_verify := fun s h => has_suffix ("$" ++s s) h;
  random_secret := fun n => "s" ++s sample_text n;
}.

#[local] Instance sample_secret_laws : SecretLaws.
Proof.
  split.
  - intros s. apply (padded_length 64).
  - intros s. apply (padded_no_dot 64).
  - intros salt s. apply has_suffix_true. by exists (sample_text salt).
  - done.
Qed.

(** ** Requests *)

Definition server1 : Server := NewServer svc "admin-key".

Lemma enrolment_token_roundtrip_witness :
  ParseEnrolmentToken (FormatEnrolmentToken "s3cret") = Some (KeyID "s3cret", "s3cret").
Proof. apply enrolment_token_roundtrip. done. Defined.

Definition token9 : device_token :=
  MkDeviceToken 9 "phone" (KeyID "tok") (bcrypt_hash 5 "tok") ["control"] None None None None 0.
Definition token_world : world :=
  set_db (on_device_tokens (<[9%N := token9]>)) empty_world.

Lemma revoked_token_refused_witness :
  exists resp w', run [] (handleRevokeDeviceToken (sample_text 9)) token_world = (inr resp, w')
    /\ (run [] (checkDeviceToken "tok" "read") token_world).1 = inr (Some 9%N)
    /\ forall fl', (run fl' (checkDeviceToken "tok" "read") w').1 = inr None.
Proof.
  eexists _, _. split; [vm_compute; reflexivity|]. split; [by vm_compute|].
  eapply (revoked_token_refused [] (sample_text 9) _ token_world _ 9%N);
    [vm_compute; reflexivity|by vm_compute|].
  intros t. vm_compute. by intros [= <-].
Defined.

Lemma index_page_grants_admin_witness :
  MkRoute "GET" "/" Open ∈ routes
  /\ admin server1 (MkRequest "" (index_cookie server1)) handleHealthz = handleHealthz.
Proof. apply index_page_grants_admin. done. Defined.

Definition keyed : Schema.agent :=
  MkAgent 7 "mini" None None None None "online" None (JObj []) "device_agent" None
    (Some (KeyID "agent-key")) 0.
Definition agent_world : world := set_db (on_agents (<[7%N := keyed]>)) empty_world.

Lemma bearer_key_resolves_witness :
  run [] (agent_of (MkRequest "Bearer agent-key" None)) agent_world = (inr 7%N, agent_world)
  /\ ag_api_key_id keyed <> Some localDeviceServiceSentinel.
Proof.
  assert (Hw : agents_wf agent_world).
  { intros id a. simpl. rewrite lookup_insert. case_decide; [|done]. by intros [= <-]. }
  assert (Hr : run [] (agent_of (MkRequest "Bearer agent-key" None)) agent_world
               = (inr 7%N, agent_world)) by (vm_compute; reflexivity).
  split; [exact Hr|].
  destruct (bearer_key_resolves _ _ _ _ _ Hw Hr) as (_ & key & a & _ & Ha & _ & Hs).
  vm_compute in Ha. injection Ha as <-. exact Hs.
Defined.

(** ** Enrolment *)

Definition enrol_token : enrolment_token :=
  MkEnrolToken 30 (bcrypt_hash 5 "inv") (Some (KeyID "inv")) "mini" "refresh_agent" "admin" None None None.
Definition enrol_world : world :=
  set_db (on_enrolment_tokens (<[30%N := enrol_token]>)) empty_world.
Definition enrol_req : enrolAgentRequest := MkEnrolAgent "mini" "arm64" "darwin" "1" "" None.

Lemma enrolment_is_one_time_witness :
  exists resp w1, run [] (handleEnrolAgent (FormatEnrolmentToken "inv") (Some enrol_req)) enrol_world
                  = (inr resp, w1)
    /\ (exists req, Some enrol_req = Some req
          /\ enrolled_by enrol_world (FormatEnrolmentToken "inv") req w1).
Proof.
  eexists _, _. split; [vm_compute; reflexivity|].
  eapply (enrolment_is_one_time (FormatEnrolmentToken "inv") (Some enrol_req) None [] []
            enrol_world _ _ _ _); [| |vm_compute; reflexivity|reflexivity].
  - split; intros *; simpl; rewrite ?lookup_insert; repeat case_decide; naive_solver.
  - vm_compute. eauto.
Defined.

(** ** Claims *)

Definition claim_any : claimRequest := MkClaimRequest [] [] 10.

Lemma claim_respects_role_witness :
  exists js w', run [] (handleClaimJobs server1 7 (Some claim_any)) (world_with (queued "install"))
                = (inr js, w') /\ length js = 1%nat
    /\ exists role, claim_role (world_with (queued "install")) 7 role
         /\ forall j', j' ∈ js -> j_job_type j' ∈ allowedJobTypesForRole role.
Proof.
  assert (exists js w', run [] (handleClaimJobs server1 7 (Some claim_any))
            (world_with (queued "install")) = (inr js, w') /\ length js = 1%nat)
    as (js & w' & Hrun & Hlen) by (eexists _, _; split; [vm_compute; reflexivity|reflexivity]).
  exists js, w'. split; [exact Hrun|]. split; [exact Hlen|].
  assert (Hw : wf_jobs (world_with (queued "install"))) by (by apply world_with_wf; [apply new_job_wf|]).
  destruct (claim_respects_role _ _ _ _ _ _ _ Hw (world_with_devices _) Hrun) as (role & Hr & Hjs).
  exists role. split; [exact Hr|]. intros j' Hin.
  destruct (Hjs j' Hin) as (j & _ & -> & _ & Hall & _). exact Hall.
Defined.
