(* ===== verification/Artifacts.v ===== *)
(** Artifacts (internal/artifacts/store.go, meta.go, signed_meta.go and
    internal/api/artifacts.go): the content-addressed blob store, the metadata
    read from IPA archives, and the endpoints that publish, approve and serve
    artifacts.

    The zip reader gives the entries of an archive, the plist reader a
    dictionary; both are parameters ([ArchiveOps]).  A blob is named by the
    sha256 of its bytes, so the store is the set of the hashes present.
    Temporary files never carry such a name and are not part of the state. *)
From S2P Require Import Prelude GoStrings GoTime Effects Schema AuditLog Jobs Http Auth.

(** ** Archives *)

(** An entry as [archive/zip] lists it; [ze_read] is [None] when it cannot be
    opened or read. *)
Record zip_entry := MkEntry {
  ze_Name : string;
  ze_UncompressedSize64 : Z;
  ze_read : option string
}.

Inductive pvalue :=
| PStr (s : string)
| PInt (z : Z)
| PBool (b : bool)
| PDate (t : instant)
| PArr (l : list pvalue)
| PDict (d : list (string * pvalue))
| PData (s : string).

Class ArchiveOps := {
  zip_open : string -> option (list zip_entry);
  plist_unmarshal : string -> option (list (string * pvalue));
  sprint_other : pvalue -> string;   (** [%v] of what is not text, number or bool *)
  quoted : string -> string;         (** [%q] *)
  library_text : string;             (** the library's own error text *)
}.

Definition pget (d : list (string * pvalue)) (k : string) : option pvalue :=
  snd <$> List.find (fun kv => kv.1 =s k) d.

Definition plistString (d : list (string * pvalue)) (key : string) : string :=
  match pget d key with Some (PStr s) => s | _ => "" end.

Inductive ipa_error :=
| NotZip
| Oversized (name : string)
| Unreadable (name : string)
| ReadTooLong (name : string)
| BadPlist
| BadSignedPlist
| NoInfoPlist
| NoProvision
| NoBundleIdentifier
| UnsupportedPlatform (p : string)
| BadProvision (why : string)
| BadProfilePlist.

Record Metadata := MkMetadata {
  md_BundleIdentifier : string;
  md_Version : string;
  md_BuildNumber : string;
  md_MinOSVersion : string;
  md_Platform : string;
  md_DevicePlatform : string;
  md_Extensions : list string
}.

Record SignedMetadata := MkSignedMetadata {
  sm_BundleIdentifier : string;
  sm_Version : string;
  sm_BuildNumber : string;
  sm_Platform : string;
  sm_DevicePlatform : string;
  sm_ProfileUUID : string;
  sm_ProfileName : string;
  sm_TeamID : string;
  sm_TeamName : string;
  sm_ProfileExpiry : option instant;      (** [None] is the zero time *)
  sm_AppIdentifier : string;
  sm_ProvisionedDevices : list string;
  sm_ProvisionsAllDevices : bool;
  sm_Entitlements : list (string * pvalue)
}.

Definition PlatformiOS : string := "ios".
Definition PlatformTVOS : string := "tvos".

Definition sdkPlatformToDevice (p : string) : string :=
  if p =s "iPhoneOS" then PlatformiOS else if p =s "AppleTVOS" then PlatformTVOS else "".

Definition maxMetadataEntrySize : Z := Z.shiftl 16 20.

(** [^Payload/[^/]+\.app/<file>$] *)
Definition app_file_pattern (file name : string) : bool :=
  match split_byte "/" name with
  | [p; app; f] => (p =s "Payload") && (f =s file) && has_suffix ".app" app && (4 <? String.length app)%nat
  | _ => false
  end.

Definition infoPlistPattern : string -> bool := app_file_pattern "Info.plist".
Definition provisionPattern : string -> bool := app_file_pattern "embedded.mobileprovision".

(** [path.Dir] of a name the pattern accepts. *)
Definition app_dir (name : string) : string :=
  match split_byte "/" name with p :: app :: _ => p ++s "/" ++s app | _ => "." end.

(** The bytes of an entry, read with the size limit; [too_long] is the error
    for an entry longer than it declares. *)
Definition read_entry (too_long : string -> ipa_error) (e : zip_entry) : ipa_error + string :=
  if maxMetadataEntrySize <? ze_UncompressedSize64 e then inl (Oversized (ze_Name e))
  else match ze_read e with
       | None => inl (Unreadable (ze_Name e))
       | Some raw =>
           if maxMetadataEntrySize <? Z.of_nat (String.length raw) then inl (too_long (ze_Name e))
           else inr raw
       end.

(** The extension an entry under [PlugIns] belongs to. *)
Definition extension_of (plugIns name : string) : option string :=
  let rel := trim_prefix plugIns name in
  if rel =s name then None
  else match index_str ".appex" rel with
       | Some idx => if (0 <? idx)%nat then Some (str_take (idx + 6) rel) else None
       | None => None
       end.

Definition collect_extensions (plugIns : string) (l : list zip_entry) : list string :=
  fold_left (fun seen f => match extension_of plugIns (ze_Name f) with
                           | Some ext => if in_strs ext seen then seen else seen ++ [ext]
                           | None => seen
                           end) l [].

Section artifacts.
Context `{UuidText} `{SecretOps} `{ArchiveOps}.

Definition sprint (v : pvalue) : string :=
  match v with
  | PStr s => s
  | PInt z => itoa z
  | PBool b => if b then "true" else "false"
  | _ => sprint_other v
  end.

Definition first_platform (info : list (string * pvalue)) : string :=
  match pget info "CFBundleSupportedPlatforms" with
  | Some (PArr (p :: _)) => sprint p
  | _ => ""
  end.

Definition Inspect (ipa : string) : ipa_error + Metadata :=
  match zip_open ipa with
  | None => inl NotZip
  | Some files =>
      match List.find (fun f => infoPlistPattern (ze_Name f)) files with
      | None => inl NoInfoPlist
      | Some f =>
          match read_entry Oversized f with
          | inl e => inl e
          | inr raw =>
              match plist_unmarshal raw with
              | None => inl BadPlist
              | Some info =>
                  let bundle := plistString info "CFBundleIdentifier" in
                  let platform := first_platform info in
                  let device := sdkPlatformToDevice platform in
                  if bundle =s "" then inl NoBundleIdentifier
                  else if negb (platform =s "") && (device =s "") then inl (UnsupportedPlatform platform)
                  else inr (MkMetadata bundle (plistString info "CFBundleShortVersionString")
                              (plistString info "CFBundleVersion") (plistString info "MinimumOSVersion")
                              platform device
                              (collect_extensions (app_dir (ze_Name f) ++s "/PlugIns/") files))
              end
          end
      end
  end.

Definition malformed (prefix : string) (e : ipa_error) : string :=
  prefix ++s match e with
  | NotZip => library_text
  | Oversized n => n ++s " is oversized"
  | Unreadable n => "reading " ++s n ++s ": " ++s library_text
  | ReadTooLong n => "reading " ++s n ++s ": <nil>"
  | BadPlist => "Info.plist: " ++s library_text
  | BadSignedPlist => "unmarshaling Info.plist: " ++s library_text
  | NoInfoPlist => "no Payload/*.app/Info.plist"
  | NoProvision => "no Payload/*.app/embedded.mobileprovision"
  | NoBundleIdentifier => "Info.plist lacks CFBundleIdentifier"
  | UnsupportedPlatform p =>
      "unsupported platform " ++s quoted p ++s " (expected iPhoneOS or AppleTVOS)"
  | BadProvision why => "parsing embedded.mobileprovision: " ++s why
  | BadProfilePlist => "unmarshaling profile plist: " ++s library_text
  end.

Definition ErrMalformed : ipa_error -> string := malformed "malformed IPA: ".
Definition ErrMalformedSignedIPA : ipa_error -> string := malformed "malformed signed IPA: ".

(** ** Signed archives *)

Definition ExtractProfilePlist (data : string) : string + string :=
  match index_str "<?xml" data with
  | None => inl "missing XML plist start marker"
  | Some start =>
      let rest := str_drop start data in
      match index_str "</plist>" rest with
      | None => inl "missing XML plist end marker"
      | Some endRel => inr (str_take (endRel + 8) rest)
      end
  end.

(** The last [Info.plist] and the last profile of the archive. *)
Fixpoint signed_entries (l : list zip_entry) (info prov : option string)
    : ipa_error + option string * option string :=
  match l with
  | [] => inr (info, prov)
  | f :: l' =>
      if infoPlistPattern (ze_Name f) then
        match read_entry ReadTooLong f with inl e => inl e | inr raw => signed_entries l' (Some raw) prov end
      else if provisionPattern (ze_Name f) then
        match read_entry ReadTooLong f with inl e => inl e | inr raw => signed_entries l' info (Some raw) end
      else signed_entries l' info prov
  end.

Definition signed_metadata (info profile : list (string * pvalue)) : SignedMetadata :=
  let platform := first_platform info in
  let ent := match pget profile "Entitlements" with Some (PDict d) => d | _ => [] end in
  MkSignedMetadata (plistString info "CFBundleIdentifier")
    (plistString info "CFBundleShortVersionString") (plistString info "CFBundleVersion")
    platform (sdkPlatformToDevice platform) (plistString profile "UUID") (plistString profile "Name")
    match pget profile "TeamIdentifier" with Some (PArr (t :: _)) => sprint t | _ => "" end
    (plistString profile "TeamName")
    match pget profile "ExpirationDate" with Some (PDate t) => Some t | _ => None end
    (plistString ent "application-identifier")
    match pget profile "ProvisionedDevices" with
    | Some (PArr l) => select (fun s => negb (s =s "")) (sprint <$> l)
    | _ => []
    end
    match pget profile "ProvisionsAllDevices" with Some (PBool b) => b | _ => false end
    ent.

Definition InspectSigned (ipa : string) : ipa_error + SignedMetadata :=
  match zip_open ipa with
  | None => inl NotZip
  | Some files =>
      match signed_entries files None None with
      | inl e => inl e
      | inr (None, _) => inl NoInfoPlist
      | inr (_, None) => inl NoProvision
      | inr (Some rawInfo, Some rawProv) =>
          match plist_unmarshal rawInfo with
          | None => inl BadSignedPlist
          | Some info =>
              if plistString info "CFBundleIdentifier" =s "" then inl NoBundleIdentifier
              else match ExtractProfilePlist rawProv with
                   | inl why => inl (BadProvision why)
                   | inr xml =>
                       match plist_unmarshal xml with
                       | None => inl BadProfilePlist
                       | Some profile => inr (signed_metadata info profile)
                       end
                   end
          end
      end
  end.

(** ** The store *)

Definition Exists {E} (sha : string) : prog world E bool :=
  r ← try_ Fs (reads (fun w => bool_decide (sha ∈ w_blobs w)));
  Ret (match r with inr b => b | inl _ => false end).

Definition Remove {E} (sha : string) : prog world E unit :=
  _ ← try_ Fs (writes (set_blobs (fun b => b ∖ {[sha]}))); Ret tt.

(** The hash of the bytes streamed to a temporary file. *)
Definition SaveToTemp {E} (bytes : string) (e : E) : prog world E string :=
  _ ← must Fs (reads (fun _ => tt)) (fun _ => e); Ret (sha256_hex bytes).

(** [rename] over an existing blob replaces it by the same bytes. *)
Definition Publish {E} (sum : string) (e : E) : prog world E bool :=
  r ← try_ Fs (reads (fun w => bool_decide (sum ∈ w_blobs w)));
  match r with
  | inr true => Ret false
  | _ => _ ← must Fs (writes (set_blobs (fun b => {[sum]} ∪ b))) (fun _ => e); Ret true
  end.

Definition Save {E} (bytes : string) (e : E) : prog world E string :=
  sum ← SaveToTemp bytes e; _ ← Publish sum e; Ret sum.

(** ** Endpoints *)

Definition after_last (c : ascii) (s : string) : string := default "" (last (split_byte c s)).

(** [filepath.Base] and [filepath.Ext]. *)
Definition path_base (p : string) : string :=
  if p =s "" then "."
  else let q := trim_right (Ascii.eqb "/") p in
       if q =s "" then "/" else after_last "/" q.

Definition path_ext (p : string) : string :=
  let f := after_last "/" p in
  if has_byte "." f then "." ++s after_last "." f else "".

Definition nullString (s : string) : option string := if s =s "" then None else Some s.

Definition opt_text (o : option string) : bool := match o with Some s => pg_text s | None => true end.

Definition artifact_by_sha (sha : string) (w : world) : option artifact :=
  find_row (fun a => ar_sha256 a =s sha) (W_artifacts w).

(** [INSERT INTO artifacts]: the hash is unique, texts are valid UTF-8. *)
Definition insert_artifact (mk : uuid -> instant -> artifact) (w : world) : sqlerr + uuid * world :=
  let a := mk (w_fresh w) (w_now w) in
  if negb (pg_text (ar_filename a) && opt_text (ar_version a) && opt_text (ar_build_number a)
           && opt_text (ar_bundle_identifier a) && opt_text (ar_platform a)
           && opt_text (ar_min_os_version a)) then inl SyntaxError
  else if exists_row (fun x => ar_sha256 x =s ar_sha256 a) (W_artifacts w) then inl UniqueViolation
  else inr (ar_id a, set_fresh (w_fresh w + 1)%N (set_db (on_artifacts (<[ar_id a := a]>)) w)).

Definition uploaded_artifact (sha filename source : string) (meta : Metadata) (id : uuid)
    (now : instant) : artifact :=
  MkArtifact id sha filename (nullString (md_Version meta)) (nullString (md_BuildNumber meta))
    (Some (md_BundleIdentifier meta)) (nullString (md_Platform meta))
    (nullString (md_MinOSVersion meta)) (md_Extensions meta) (Some source) "quarantined" now.

Definition upload_json (id : uuid) (sha : string) (existing : bool) (meta : Metadata)
    (state : string) : json :=
  JObj [("id", JStr (uuid_text id)); ("sha256", JStr sha); ("existing", JBool existing);
        ("bundle_identifier", JStr (md_BundleIdentifier meta)); ("version", JStr (md_Version meta));
        ("build_number", JStr (md_BuildNumber meta)); ("min_os_version", JStr (md_MinOSVersion meta));
        ("platform", JStr (md_Platform meta)); ("extensions", json_strs (md_Extensions meta));
        ("quarantine_state", JStr state)].

Definition internal (message : string) : response :=
  writeJSON InternalServerError (error_body message).

(** The transaction under the advisory lock of the hash. *)
Definition upload_body (sha filename : string) (meta : Metadata) : prog world response response :=
  _ ← need Tx (reads (fun _ => tt)) InternalServerError "lock acquisition failed";
  o ← need Tx (reads (artifact_by_sha sha)) InternalServerError "artifact lookup failed";
  _ ← Publish sha (internal "storing upload failed");
  match o with
  | Some a =>
      _ ← Record_ "admin" "artifact.uploaded"
            [WithData (JObj [("sha256", JStr sha); ("existing", JBool true)])];
      ok StatusOK (upload_json (ar_id a) sha true meta (ar_quarantine_state a))
  | None =>
      r ← try_ Tx (insert_artifact (uploaded_artifact sha filename "upload" meta));
      match r with
      | inl _ => _ ← Remove sha; fail InternalServerError "artifact insert failed"
      | inr id =>
          _ ← RecordTx "admin" "artifact.uploaded"
                [WithData (JObj [("sha256", JStr sha); ("artifact_id", JStr (uuid_text id))])]
                (internal "audit write failed");
          ok Created (upload_json id sha false meta "quarantined")
      end
  end.

Definition RequestEntityTooLarge : Z := 413.

Definition handleUploadArtifact (s : Server) (query_filename bytes : string) : handler :=
  let base := path_base query_filename in
  let filename := if (base =s ".") || (base =s "") then "app.ipa" else base in
  if negb (path_ext filename =s ".ipa") then fail BadRequest "filename must end in .ipa" else
  if maxArtifactBytes s <? Z.of_nat (String.length bytes)
  then fail RequestEntityTooLarge "request body too large" else
  sha ← SaveToTemp bytes (internal "storing upload failed");
  r ← try_ Fs (reads (fun _ => Inspect bytes));
  match r with
  | inl _ => fail BadRequest (ErrMalformed NotZip)
  | inr (inl e) => fail BadRequest (ErrMalformed e)
  | inr (inr meta) =>
      txn rollback (internal "transaction failed") (internal "transaction failed")
        (upload_body sha filename meta)
  end.

Definition artifact_states : list string := ["quarantined"; "approved"; "rejected"].

Definition state_stmt (id : uuid) (state : string) (w : world) : sqlerr + Z * world :=
  let p a := bool_decide (ar_id a = id) in
  inr (count_where p (W_artifacts w),
       set_db (on_artifacts (update_where p (set_ar_quarantine_state state))) w).

Definition handleSetArtifactState (path_id : string) (body : option string) : handler :=
  match uuid_parse path_id with
  | None => fail BadRequest "invalid artifact id"
  | Some id =>
      state ← decodeJSON body;
      if negb (in_strs state artifact_states)
      then fail BadRequest "state must be quarantined, approved or rejected" else
      txn rollback (internal "transaction failed") (internal "transaction failed") (
        n ← need Tx (state_stmt id state) InternalServerError "state update failed";
        if n =? 0 then fail NotFound "artifact not found" else
        _ ← RecordTx "admin" "artifact.state"
              [WithData (JObj [("artifact_id", JStr (uuid_text id)); ("state", JStr state)])]
              (internal "audit write failed");
        ok StatusOK (JObj [("id", JStr (uuid_text id)); ("quarantine_state", JStr state)]))
  end.

(** A download answers with the blob it serves and its file name. *)
Record served := MkServed { sv_sha256 : string; sv_filename : string }.

Definition serve (actor action : string) (id : uuid) (f : served) : prog world response served :=
  b ← Exists (sv_sha256 f);
  if negb b then fail InternalServerError "artifact blob missing" else
  _ ← Record_ actor action
        [WithData (JObj [("artifact_id", JStr (uuid_text id)); ("sha256", JStr (sv_sha256 f))])];
  Ret f.

Definition original_file (id : uuid) (w : world) : option served :=
  (fun a => MkServed (ar_sha256 a) (ar_filename a)) <$> W_artifacts w !! id.

(** Scanning a NULL hash or bundle identifier into a string fails. *)
Definition signed_file (id : uuid) (w : world) : option served :=
  sa ← W_signed w !! id; sha ← sa_signed_ipa_sha256 sa; b ← sa_signed_bundle_identifier sa;
  Some (MkServed sha (b ++s ".ipa")).

Definition approved_file (id : uuid) (w : world) : option served :=
  a ← W_artifacts w !! id;
  if ar_quarantine_state a =s "approved" then Some (MkServed (ar_sha256 a) (ar_filename a)) else None.

Definition handleDownloadArtifact (path_id : string) : prog world response served :=
  match uuid_parse path_id with
  | None => fail BadRequest "invalid artifact id"
  | Some id =>
      r ← try_ Pool (reads (original_file id));
      match r with
      | inr (Some f) => serve "admin" "artifact.downloaded" id f
      | _ =>
          r' ← try_ Pool (reads (signed_file id));
          match r' with
          | inr (Some f) => serve "admin" "artifact.downloaded" id f
          | _ => fail NotFound "artifact not found"
          end
      end
  end.

Definition handleStoreArtifactInstall (path_id : string) : prog world response served :=
  match uuid_parse path_id with
  | None => fail BadRequest "invalid artifact id"
  | Some id =>
      r ← try_ Pool (reads (approved_file id));
      match r with
      | inr (Some f) => serve "store" "artifact.installed" id f
      | _ => fail NotFound "artifact not found"
      end
  end.

End artifacts.
