(* ===== verification/Retention.v ===== *)
(** Retention (internal/retention/prune.go): expired signed artifacts are
    deleted and their blobs removed when nothing references them, and the
    invariant retention and upload maintain together: every row that names a
    blob has it ([backed]). *)
From S2P Require Import Prelude GoStrings GoTime Effects Schema AuditLog Jobs Http Auth Artifacts.

(** ** The pass *)

Definition profile_expired (retention : duration) (now : instant) (sa : signed_artifact) : bool :=
  match sa_profile_expiry_at sa with
  | Some e => e <? now - whole_seconds retention * Second
  | None => false
  end.

(** [SELECT DISTINCT signed_ipa_sha256 ..]; [None] is a NULL hash. *)
Definition expired_shas (retention : duration) (w : world) : list (option string) :=
  remove_dups (sa_signed_ipa_sha256 <$>
    select (profile_expired retention (w_now w)) (rows (W_signed w))).

(** [DELETE FROM signed_artifacts ..]: the rows affected; installation records
    that name a deleted row forget it. *)
Definition delete_signed (p : signed_artifact -> bool) (w : world) : sqlerr + Z * world :=
  let gone i := match W_signed w !! i with Some sa => p sa | None => false end in
  inr (count_where p (W_signed w),
       set_db (fun d => on_signed_artifacts (delete_where p)
                 (on_installations (update_where
                    (fun ir => match ir_signed_artifact_id ir with Some i => gone i | None => false end)
                    (set_ir_signed_artifact_id None)) d)) w).

Definition of_sha (sha : string) (sa : signed_artifact) : bool := opt_is (sa_signed_ipa_sha256 sa) sha.

Definition references (sha : string) (w : world) : Z :=
  count_where (of_sha sha) (W_signed w) + count_where (fun a => ar_sha256 a =s sha) (W_artifacts w).

(** An iteration; an error carries the count returned with it. *)
Definition prune_one (retention : duration) (acc : Z * Z) (sha : string) : prog world Z (Z * Z) :=
  let '(pruned, removed) := acc : Z * Z in
  txn_with rollback pruned fst (
    _ ← must Tx (reads (fun _ => tt)) (fun _ => pruned);
    now ← get_ w_now;
    n ← must Tx (delete_signed (fun sa => of_sha sha sa && profile_expired retention now sa))
          (fun _ => pruned);
    refs ← must Tx (reads (references sha)) (fun _ => pruned + n);
    if refs =? 0 then
      b ← Exists sha;
      if b : bool then _ ← Remove sha; Ret (pruned + n, removed + 1)
      else Ret (pruned + n, removed)
    else Ret (pruned + n, removed)).

Definition PruneSignedArtifacts (retention : duration) : prog world Z Z :=
  if retention =? 0 then Ret 0 else
  l ← must Pool (reads (expired_shas retention)) (fun _ => 0);
  match mapM id l with
  | None => Throw 0
  | Some shas =>
      acc ← fold_ (prune_one retention) (0, 0) shas;
      _ ← when (0 <? acc.1) (Record_ "retention" "signed_artifacts.pruned"
            [WithData (JObj [("pruned_rows", JNum acc.1); ("removed_files", JNum acc.2)])]);
      Ret acc.1
  end.

(** ** Rows and blobs *)

(** Every blob a row names is in the store. *)
Record backed (w : world) : Prop := {
  bk_original id a : W_artifacts w !! id = Some a -> ar_sha256 a ∈ w_blobs w;
  bk_signed id sa sha : W_signed w !! id = Some sa -> sa_signed_ipa_sha256 sa = Some sha ->
    sha ∈ w_blobs w;
}.
