(* ===== verification/ArtifactsSpec.v ===== *)
(** What uploads, approvals and retention do to rows and blobs, whatever
    statement or file operation fails. *)
From S2P Require Import Prelude GoStrings GoTime Effects Schema AuditLog Jobs Http Auth Artifacts Retention.

(** ** Retention *)

Lemma mapM_id_Some {A} (l : list (option A)) k : mapM id l = Some k -> l = Some <$> k.
Proof.
  intros H%mapM_Some_1. induction H as [|o x l k Hx _ IH]; [done|]. simpl. unfold id in Hx. by subst.
Qed.

Section retention.
Context (retention : duration) (w : world).

Abbreviation expired := (profile_expired retention (w_now w)).

(** Expired rows whose hash is no longer to be visited. *)
Definition visited (rest : list string) (sa : signed_artifact) : bool :=
  expired sa && match sa_signed_ipa_sha256 sa with
                | Some sha => negb (in_strs sha rest) | None => false end.

(** A blob that is gone belonged to expired rows only. *)
Definition blobs_pruned (w' : world) : Prop :=
  w_blobs w' ⊆ w_blobs w
  /\ forall sha, sha ∈ w_blobs w -> sha ∉ w_blobs w' ->
       (forall id a, W_artifacts w' !! id = Some a -> ar_sha256 a <> sha)
       /\ (forall id sa, W_signed w' !! id = Some sa -> sa_signed_ipa_sha256 sa <> Some sha).

Record prune_inv (rest : list string) (pruned : Z) (s : world) : Prop := {
  pi_now : w_now s = w_now w;
  pi_artifacts : W_artifacts s = W_artifacts w;
  pi_signed : W_signed s = delete_where (visited rest) (W_signed w);
  pi_count : pruned = count_where (visited rest) (W_signed w);
  pi_blobs : blobs_pruned s;
}.

Lemma visited_cons sha rest sa :
  sha ∉ rest ->
  visited rest sa = visited (sha :: rest) sa || (of_sha sha sa && expired sa).
Proof.
  intros Hn. unfold visited, of_sha. destruct (expired sa); [|by rewrite andb_false_r].
  rewrite andb_true_r. simpl. destruct (sa_signed_ipa_sha256 sa) as [h|] eqn:Eh; simpl; [|done].
  destruct (decide (h = sha)) as [->|Hne].
  - rewrite (proj2 (in_strs_false _ _) Hn). simpl. by rewrite bool_decide_eq_true_2, orb_true_r.
  - rewrite (bool_decide_eq_false_2 (_ = _)) by congruence. rewrite orb_false_r. f_equal.
    unfold in_strs. apply bool_decide_ext. set_solver.
Qed.

Lemma prune_inv_step sha rest pruned s :
  sha ∉ rest -> prune_inv (sha :: rest) pruned s ->
  wp (must Tx (delete_signed (fun sa => of_sha sha sa && profile_expired retention (w_now s) sa))
        (fun _ => pruned))
     (fun r s' => match r with
        | inl _ => True | inr n => prune_inv rest (pruned + n) s' end) s.
Proof.
  intros Hn [Hnow Ha Hs Hc Hb]. split; [done|]. simpl. rewrite Hnow.
  assert (Hstep : delete_where (fun sa => of_sha sha sa && expired sa) (W_signed s)
                  = delete_where (visited rest) (W_signed w)).
  { rewrite Hs. apply delete_where_delete. intros i x _. by apply visited_cons. }
  split; simpl; try done.
  - rewrite Hc, Hs, count_where_delete. apply count_where_ext. intros. symmetry. by apply visited_cons.
  - destruct Hb as [Hsub Hgone]. split; [done|]. intros h Hin Hout. destruct (Hgone h Hin Hout) as [Hga Hgs].
    split; [done|]. simpl. rewrite Hstep. intros id sa [Hi Hv]%lookup_delete_where_Some.
    apply (Hgs id). rewrite Hs. apply lookup_delete_where_Some. split; [done|].
    rewrite (visited_cons sha) in Hv by done. by apply orb_false_iff in Hv as [? _].
Qed.

Lemma prune_inv_remove sha rest pruned s :
  references sha s = 0 -> prune_inv rest pruned s ->
  prune_inv rest pruned (set_blobs (fun b => b ∖ {[sha]}) s).
Proof.
  intros Hr [Hnow Ha Hs Hc [Hsub Hgone]]. split; simpl; try done. split; simpl; [set_solver|].
  intros h Hin Hout. destruct (decide (h = sha)) as [->|Hne]; [|apply Hgone; set_solver].
  unfold references in Hr.
  assert (count_where (of_sha sha) (W_signed s) = 0
          /\ count_where (fun a => ar_sha256 a =s sha) (W_artifacts s) = 0) as [H1 H2]
    by (unfold count_where in *; lia).
  rewrite count_where_zero in H1. rewrite count_where_zero in H2. split.
  - intros id a Hi Hh. specialize (H2 _ _ Hi). by rewrite bool_decide_eq_false in H2.
  - intros id sa Hi Hh. specialize (H1 _ _ Hi). unfold of_sha in H1. rewrite Hh in H1.
    by apply bool_decide_eq_false in H1.
Qed.

Lemma wp_prune_one sha rest pruned removed s :
  sha ∉ rest -> prune_inv (sha :: rest) pruned s ->
  wp (prune_one retention (pruned, removed) sha)
     (fun r s' => match r with inl _ => True | inr acc => prune_inv rest acc.1 s' end) s.
Proof.
  intros Hn Hi. apply wp_txn_with; [done|]. apply wp_reads_bind; [done|].
  apply wp_get_bind, wp_bind. eapply wp_mono; [|by apply prune_inv_step].
  intros [e|n] s' Hs; [done|]. apply wp_reads_bind; [done|].
  destruct (references sha s' =? 0) eqn:Er; [|done]. apply Z.eqb_eq in Er.
  split; [done|]. simpl. destruct (bool_decide _); [|done].
  split; simpl; split; try done. by apply prune_inv_remove.
Qed.

Lemma prune_inv_init shas :
  mapM id (expired_shas retention w) = Some shas -> prune_inv shas 0 w.
Proof.
  intros Hm.
  assert (Hall : forall i sa, W_signed w !! i = Some sa -> visited shas sa = false).
  { intros i sa Hi. unfold visited. destruct (expired sa) eqn:Ee; [|done]. simpl.
    assert (Hin : sa_signed_ipa_sha256 sa ∈ expired_shas retention w).
    { apply elem_of_remove_dups, list_elem_of_fmap. exists sa. split; [done|].
      apply elem_of_select. split; [by eapply rows_lookup|done]. }
    rewrite (mapM_id_Some _ _ Hm) in Hin. apply list_elem_of_fmap in Hin as (h & Heq & Hh).
    rewrite Heq. apply negb_false_iff. by apply in_strs_true. }
  split; try done.
  - symmetry. by apply delete_where_none.
  - symmetry. by apply count_where_zero.
Qed.

Lemma prune_inv_final pruned s :
  prune_inv [] pruned s -> mapM id (expired_shas retention w) <> None ->
  W_signed s = delete_where expired (W_signed w) /\ pruned = count_where expired (W_signed w).
Proof.
  intros Hi Hsome. enough (Hext : forall i sa, W_signed w !! i = Some sa -> visited [] sa = expired sa).
  { rewrite (pi_signed _ _ _ Hi), (pi_count _ _ _ Hi). split; [|by apply count_where_ext].
    apply map_eq. intros i. apply option_eq. intros x. rewrite !lookup_delete_where_Some.
    split; intros [Hx Hv]; split; try done; [rewrite <- (Hext i)|rewrite (Hext i)]; done. }
  intros i sa Hi'. unfold visited. destruct (expired sa) eqn:Ee; [|done]. simpl.
  destruct (sa_signed_ipa_sha256 sa) eqn:Eh; [done|]. exfalso. apply Hsome.
  assert (Hin : None ∈ expired_shas retention w).
  { rewrite <- Eh. apply elem_of_remove_dups, list_elem_of_fmap. exists sa. split; [done|].
    apply elem_of_select. split; [by eapply rows_lookup|done]. }
  destruct (mapM id (expired_shas retention w)) as [k|] eqn:Em; [|done].
  rewrite (mapM_id_Some _ _ Em) in Hin. by apply list_elem_of_fmap in Hin as (? & ? & _).
Qed.
End retention.

Lemma blobs_pruned_backed w w' :
  (forall id sa, W_signed w' !! id = Some sa -> W_signed w !! id = Some sa) ->
  W_artifacts w' = W_artifacts w -> blobs_pruned w w' -> backed w -> backed w'.
Proof.
  intros Hs Ha [Hsub Hgone] [B1 B2]. split.
  - intros id a Hi. destruct (decide (ar_sha256 a ∈ w_blobs w')) as [|Hn]; [done|].
    pose proof Hi as Hi'. rewrite Ha in Hi'. by destruct (proj1 (Hgone _ (B1 _ _ Hi') Hn) _ _ Hi).
  - intros id sa sha Hi Hh. destruct (decide (sha ∈ w_blobs w')) as [|Hn]; [done|].
    by destruct (proj2 (Hgone _ (B2 _ _ _ (Hs _ _ Hi) Hh) Hn) _ _ Hi).
Qed.

(** C17. Retention: a pass that succeeds deleted exactly the signed artifacts
    whose profile expired longer ago than the window, counted them, left the
    originals alone and removed a blob only when no row names it any more, so
    every row that had its blob still has it. *)
Theorem prune_spec retention fl w n w' :
  retention <> 0 ->
  run fl (PruneSignedArtifacts retention) w = (inr n, w') ->
  W_signed w' = delete_where (profile_expired retention (w_now w)) (W_signed w)
  /\ n = count_where (profile_expired retention (w_now w)) (W_signed w)
  /\ W_artifacts w' = W_artifacts w /\ blobs_pruned w w' /\ (backed w -> backed w').
Proof.
  intros Hr Hrun. by_wp Hrun. unfold PruneSignedArtifacts.
  rewrite (proj2 (Z.eqb_neq _ _) Hr). apply wp_reads_bind; [done|].
  destruct (mapM id (expired_shas retention w)) as [shas|] eqn:Em; [|done].
  assert (Hnd : NoDup shas).
  { apply (NoDup_fmap_1 Some). rewrite <- (mapM_id_Some _ _ Em). apply NoDup_remove_dups. }
  apply wp_bind.
  apply (wp_fold _ (fun rest acc s => NoDup rest /\ prune_inv retention w rest acc.1 s)).
  - split; [done|]. by apply prune_inv_init.
  - intros [pruned removed] s [_ Hi]. simpl in *.
    destruct (prune_inv_final _ _ _ _ Hi ltac:(by rewrite Em)) as [Hs Hc].
    assert (Hall : forall s', w_db s' = w_db s -> w_blobs s' = w_blobs s ->
      W_signed s' = delete_where (profile_expired retention (w_now w)) (W_signed w)
      /\ pruned = count_where (profile_expired retention (w_now w)) (W_signed w)
      /\ W_artifacts s' = W_artifacts w /\ blobs_pruned w s' /\ (backed w -> backed s')).
    { intros s' Hd Hb. unfold blobs_pruned. rewrite Hd, Hb.
      pose proof (pi_artifacts _ _ _ _ _ Hi) as Ha. pose proof (pi_blobs _ _ _ _ _ Hi) as Hp.
      split_and!; try done; [apply Hp..|].
      apply (blobs_pruned_backed w); [rewrite Hd, Hs|by rewrite Hd|unfold blobs_pruned; by rewrite Hd, Hb].
      by intros id sa [? _]%lookup_delete_where_Some. }
    unfold when. destruct (0 <? pruned); [split|];
      first [by apply (Hall s)|by apply (Hall (set_pool_audit _ s))].
  - intros sha rest [pruned removed] s [Hn Hi]. apply NoDup_cons in Hn as [Hn Hn'].
    eapply wp_mono; [|by apply wp_prune_one]. intros [e|acc] s' Hs'; [done|]. done.
Qed.

(** ** Uploads *)

Section uploads.
Context `{UuidText} `{SecretOps} `{ArchiveOps}.

(** The world after a publication that succeeded: the blob is there. *)
Definition published (w : world) (sha : string) (w' : world) : Prop :=
  w_db w' = w_db w /\ w_blobs w' = {[sha]} ∪ w_blobs w /\ w_fresh w' = w_fresh w.

Lemma wp_Publish {E} sha (e : E) w :
  wp (Publish sha e) (fun r w' => match r with inr _ => published w sha w' | inl _ => w' = w end) w.
Proof.
  unfold published. split; simpl.
  - by split.
  - destruct (bool_decide (sha ∈ w_blobs w)) eqn:Eb; simpl; [|by split].
    bools. split_and!; try done. set_solver.
Qed.

(** What an upload leaves behind. *)
Definition uploaded (w : world) (bytes : string) (w' : world) : Prop :=
  exists id a, W_artifacts w' !! id = Some a /\ ar_sha256 a = sha256_hex bytes
    /\ sha256_hex bytes ∈ w_blobs w'
    /\ (W_artifacts w' = W_artifacts w
        \/ (W_artifacts w' = <[id := a]> (W_artifacts w) /\ ar_quarantine_state a = "quarantined"
            /\ forall i x, W_artifacts w !! i = Some x -> ar_sha256 x <> sha256_hex bytes)).

(** Every row has its blob, signed artifacts with the hash [sha] aside. *)
Definition backed_but (sha : string) (w : world) : Prop :=
  (forall id a, W_artifacts w !! id = Some a -> ar_sha256 a ∈ w_blobs w)
  /\ (forall id sa h, W_signed w !! id = Some sa -> sa_signed_ipa_sha256 sa = Some h -> h <> sha ->
       h ∈ w_blobs w).

Lemma backed_backed_but sha w : backed w -> backed_but sha w.
Proof using. intros [B1 B2]. split; eauto. Qed.

(** Rows keep their blobs when none is removed, or one that no row names. *)
Lemma backed_grow w w' :
  backed w -> W_artifacts w' = W_artifacts w -> W_signed w' = W_signed w ->
  w_blobs w ⊆ w_blobs w' -> backed w'.
Proof.
  intros [B1 B2] Ha Hs Hsub. split; [intros id a|intros id sa h]; rewrite ?Ha, ?Hs; eauto.
Qed.

Lemma backed_drop w w' sha :
  backed w -> W_artifacts w' = W_artifacts w -> W_signed w' = W_signed w ->
  (forall i x, W_artifacts w !! i = Some x -> ar_sha256 x <> sha) ->
  w_blobs w ∖ {[sha]} ⊆ w_blobs w' -> backed_but sha w'.
Proof.
  intros [B1 B2] Ha Hs Haf Hsub. split.
  - intros id a. rewrite Ha. intros Hi. specialize (Haf _ _ Hi). specialize (B1 _ _ Hi). set_solver.
  - intros id sa h. rewrite Hs. intros Hi Hh Hne. specialize (B2 _ _ _ Hi Hh).
    apply Hsub, elem_of_difference. split; [done|]. by rewrite elem_of_singleton.
Qed.

Lemma backed_add w w' id a :
  backed w -> W_artifacts w' = <[id := a]> (W_artifacts w) -> W_signed w' = W_signed w ->
  w_blobs w ⊆ w_blobs w' -> ar_sha256 a ∈ w_blobs w' -> backed w'.
Proof.
  intros [B1 B2] Ha Hs Hsub Hin. split.
  - intros i x. rewrite Ha, lookup_insert. case_decide; [by intros [= <-]|]. eauto.
  - intros i x h. rewrite Hs. eauto.
Qed.

Lemma insert_artifact_ok mk w r :
  insert_artifact mk w = inr r ->
  exists a, a = mk (w_fresh w) (w_now w) /\ r.1 = ar_id a
    /\ W_artifacts r.2 = <[ar_id a := a]> (W_artifacts w) /\ W_signed r.2 = W_signed w
    /\ w_blobs r.2 = w_blobs w
    /\ forall i x, W_artifacts w !! i = Some x -> ar_sha256 x <> ar_sha256 a.
Proof.
  unfold insert_artifact. case_cond; [done|].
  destruct (exists_row _ _) eqn:Ee; [done|]. intros [= <-]. eexists. split; [done|]. split_and!; try done.
  intros i x Hi. pose proof (exists_row_false _ _ _ _ Ee Hi) as Hx. by apply bool_decide_eq_false in Hx.
Qed.

Lemma wp_upload_body w bytes filename meta :
  backed w ->
  wp (upload_body (sha256_hex bytes) filename meta) (fun r w' =>
    backed_but (sha256_hex bytes) (rollback w w')
    /\ match r with inl _ => True | inr _ => backed w' /\ uploaded w bytes w' end) w.
Proof.
  intros Hb. unfold upload_body. set (sha := sha256_hex bytes) in *.
  assert (Hsame : forall w', w_blobs w ⊆ w_blobs w' -> backed_but sha (rollback w w'))
    by (intros; by apply backed_backed_but, (backed_grow w)).
  apply wp_reads_bind; [by auto|]. apply wp_reads_bind; [by auto|].
  apply wp_bind. eapply wp_mono; [|apply wp_Publish].
  intros [e|c] w1; [intros ->; by auto|]. intros (Hd & Hbl & Hf).
  assert (Hsub : w_blobs w ⊆ w_blobs w1) by (rewrite Hbl; set_solver).
  destruct (artifact_by_sha sha w) as [a|] eqn:Ea.
  - apply find_row_Some in Ea as (i & Hi & Hsha). bools.
    assert (Hdone : forall w2, w_db w2 = w_db w1 -> w_blobs w2 = w_blobs w1 ->
              backed w2 /\ uploaded w bytes w2).
    { intros w2 Hd2 Hb2. split; [apply (backed_grow w); rewrite ?Hd2, ?Hb2, ?Hd; done|].
      exists i, a. rewrite Hd2, Hb2, Hd, Hbl. split_and!; try done; [set_solver|by left]. }
    apply wp_bind, wp_try_bind; simpl; (split; [by apply Hsame|]); by apply Hdone.
  - pose proof (proj1 (find_row_None _ _) Ea) as Hno.
    assert (Hfree : forall i x, W_artifacts w !! i = Some x -> ar_sha256 x <> sha).
    { intros i x Hi. by apply Hno in Hi; apply bool_decide_eq_false in Hi. }
    assert (Hrem : forall w2, w_blobs w2 = w_blobs w1 \/ w_blobs w2 = w_blobs w1 ∖ {[sha]} ->
              backed_but sha (rollback w w2)).
    { intros w2 Hw2. apply (backed_drop w _ sha); try done. simpl. destruct Hw2 as [->| ->]; set_solver. }
    apply wp_try_bind; [split; simpl; (split; [|done]); apply Hrem; auto|].
    destruct (insert_artifact _ w1) as [er|[id w2]] eqn:Ei.
    { split; simpl; (split; [|done]); apply Hrem; auto. }
    apply insert_artifact_ok in Ei as (x & Hx & Hid & Hax & Hsx & Hbx & _).
    cbn [fst snd] in Hid, Hax, Hsx, Hbx.
    apply wp_must_bind; simpl; [split; [apply Hsame; by rewrite Hbx|done]|].
    split; [apply Hsame; simpl; by rewrite Hbx|].
    assert (ar_sha256 x = sha) as Hxs by by rewrite Hx.
    split.
    + apply (backed_add w _ (ar_id x) x); simpl; rewrite ?Hax, ?Hsx, ?Hbx, ?Hd, ?Hbl, ?Hxs; try done; set_solver.
    + exists (ar_id x), x. simpl. rewrite Hax, Hbx, Hbl, Hd. split_and!; try done;
        [by rewrite lookup_insert_eq|set_solver|]. right. split_and!; try done. by rewrite Hx.
Qed.

Lemma rollback_tables w w' : w_db (rollback w w') = w_db w.
Proof. done. Qed.

(** C18. Uploads, from tables in which every row has its blob: one that succeeds
    has parsed the archive, leaves exactly one more row, quarantined, or the row
    of the same content that was there, its blob in the store, and every row with
    its blob; one that fails, whatever statement or file operation it was, leaves
    the tables as they were and every row with its blob, except that a signed
    artifact with the very bytes of the upload may lose its blob: the failure
    path removes it although that row names it. *)
Theorem upload_spec s filename bytes fl w r w' :
  backed w -> run fl (handleUploadArtifact s filename bytes) w = (r, w') ->
  match r with
  | inl _ => w_db w' = w_db w /\ backed_but (sha256_hex bytes) w'
  | inr _ => backed w' /\ uploaded w bytes w' /\ exists meta, Inspect bytes = inr meta
  end.
Proof.
  intros Hb Hrun. by_wp Hrun. pose proof (backed_backed_but (sha256_hex bytes) w Hb) as Hbb.
  unfold handleUploadArtifact. cbv zeta.
  destruct (negb (path_ext _ =s ".ipa")); [by split|]. destruct (_ <? _); [by split|].
  apply wp_bind, wp_reads_bind; [by split|]. cbn [wp]. apply wp_try_bind; [by split|]. cbn [reads].
  destruct (Inspect bytes) as [e|meta] eqn:Ei; [by split|].
  apply wp_txn; [by split|]. eapply wp_mono; [|by apply wp_upload_body].
  intros [e|resp] w' [Hr Hok]; [by split|]. destruct Hok as [Hbk Hu]. split_and!; eauto.
Qed.

(** The open install route serves only the blob of an artifact that is
    approved at that moment, and only when the blob is in the store; it
    changes no table. *)
Theorem store_serves_approved path_id fl w f w' :
  run fl (handleStoreArtifactInstall path_id) w = (inr f, w') ->
  w_db w' = w_db w
  /\ exists id a, uuid_parse path_id = Some id /\ W_artifacts w !! id = Some a
       /\ ar_quarantine_state a = "approved" /\ sv_sha256 f = ar_sha256 a
       /\ ar_sha256 a ∈ w_blobs w.
Proof.
  intros Hrun. by_wp Hrun. unfold handleStoreArtifactInstall.
  destruct (uuid_parse path_id) as [id|] eqn:Ep; [|done].
  apply wp_try_bind; [done|]. cbn [reads]. unfold approved_file.
  destruct (W_artifacts w !! id) as [a|] eqn:Ea; [|done]. simpl.
  destruct (ar_quarantine_state a =s "approved") eqn:Es; [|done]. bools.
  split; [done|]. simpl. destruct (bool_decide (ar_sha256 a ∈ w_blobs w)) eqn:Eb; [|done]. bools.
  split; (split; [done|]); exists id, a; done.
Qed.
End uploads.
