(* ===== verification/ArtifactsWitness.v ===== *)
(** Concrete uploads and retention passes on which the theorems of
    ArtifactsSpec.v apply, and the two failures after which a row has lost its
    blob. *)
From S2P Require Import Prelude GoStrings GoTime Effects Schema Samples AuditLog Jobs JobsWitness Http Auth Agents AuthSpec AuthWitness Artifacts Retention ArtifactsSpec.

#[local] Existing Instance sample_uuid.
#[local] Existing Instance sample_secrets.

(** Archives that start with "PK"; the rest is the bundle identifier. *)
#[local] Instance sample_archives : ArchiveOps := {
  zip_open := fun s =>
    if has_prefix "PK" s then
      Some [MkEntry "Payload/A.app/PlugIns/E.appex/x" 1 (Some "");
            MkEntry "Payload/A.app/Info.plist" 10 (Some (trim_prefix "PK" s));
            MkEntry "Payload/A.app/embedded.mobileprovision" 10
              (Some ("sig<?xml" ++s trim_prefix "PK" s ++s "</plist>sig"))]
    else None;
  plist_unmarshal := fun s => Some [("CFBundleIdentifier", PStr s);
    ("CFBundleSupportedPlatforms", PArr [PStr "iPhoneOS"]); ("UUID", PStr "profile-1");
    ("TeamIdentifier", PArr [PStr "TEAM"]); ("ExpirationDate", PDate (40 * Day));
    ("ProvisionedDevices", PArr [PStr "UDID-1"]);
    ("Entitlements", PDict [("application-identifier", PStr "TEAM.*")])];
  sprint_other := fun _ => "?";
  quoted := fun s => s;
  library_text := "zip: not a valid zip file";
}.

Example inspect_sample :
  Inspect "PKcom.a" = inr (MkMetadata "com.a" "" "" "" "iPhoneOS" "ios" ["E.appex"]).
Proof. vm_compute. reflexivity. Qed.

Example base_samples :
  path_base "dir/App.ipa" = "App.ipa" /\ path_base "" = "." /\ path_base "a//" = "a"
  /\ path_ext "a.b/c" = "" /\ path_ext "App.tar.ipa" = ".ipa".
Proof. vm_compute. done. Qed.

(** ** Samples *)

Definition ipa : string := "PKcom.a".
Definition sha1 : string := sha256_hex ipa.

Definition original : artifact :=
  MkArtifact 3 sha1 "A.ipa" None None (Some "com.a") None None [] (Some "upload") "approved" 0.
Definition signed_of (id : uuid) (sha : string) (expiry : instant) : signed_artifact :=
  MkSigned id 3 1 2 None None (Some "com.a") (Some expiry) (Some sha) None.

Definition blob_world (arts : list artifact) (l : list signed_artifact) (blobs : gset string) : world :=
  set_blobs (fun _ => blobs) (set_db (on_artifacts (fun _ => list_to_map ((fun a => (ar_id a, a)) <$> arts)))
    (set_db (on_signed_artifacts (fun _ => list_to_map ((fun a => (sa_id a, a)) <$> l))) empty_world)).

Lemma blob_world_backed arts l blobs :
  (forall a, a ∈ arts -> ar_sha256 a ∈ blobs) ->
  (forall sa h, sa ∈ l -> sa_signed_ipa_sha256 sa = Some h -> h ∈ blobs) ->
  backed (blob_world arts l blobs).
Proof.
  intros Ha Hs. split; simpl.
  - intros id a Hi%elem_of_list_to_map_2. apply list_elem_of_fmap in Hi as (x & [= -> <-] & Hx). auto.
  - intros id sa h Hi%elem_of_list_to_map_2. apply list_elem_of_fmap in Hi as (x & [= -> <-] & Hx). eauto.
Qed.

(** ** Uploads *)

Lemma upload_spec_witness :
  exists resp w', run [] (handleUploadArtifact server1 "A.ipa" ipa) empty_world = (inr resp, w')
    /\ backed w' /\ uploaded empty_world ipa w'.
Proof.
  assert (exists resp w', run [] (handleUploadArtifact server1 "A.ipa" ipa) empty_world = (inr resp, w'))
    as (resp & w' & Hrun) by (eexists _, _; vm_compute; reflexivity).
  exists resp, w'. split; [exact Hrun|].
  assert (Hb : backed empty_world) by (split; intros *; simpl; by rewrite lookup_empty).
  destruct (upload_spec server1 "A.ipa" ipa [] empty_world (inr resp) w' Hb Hrun) as (Hbw & Hu & _).
  split; [exact Hbw|exact Hu].
Defined.

Lemma store_serves_approved_witness :
  let w := blob_world [original] [] {[sha1]} in
  exists w', run [] (handleStoreArtifactInstall (sample_text 3)) w = (inr (MkServed sha1 "A.ipa"), w')
    /\ w_db w' = w_db w.
Proof.
  intros w.
  assert (exists w', run [] (handleStoreArtifactInstall (sample_text 3)) w
                     = (inr (MkServed sha1 "A.ipa"), w')) as (w' & Hrun)
    by (eexists _; vm_compute; reflexivity).
  exists w'. split; [exact Hrun|].
  exact (proj1 (store_serves_approved (sample_text 3) [] w _ w' Hrun)).
Defined.

(** ** Retention *)

Definition old_world : world :=
  blob_world [original] [signed_of 4 "old" (- 40 * Day); signed_of 5 "new" (40 * Day)] {[sha1; "old"; "new"]}.

Lemma old_world_backed : backed old_world.
Proof.
  apply blob_world_backed.
  - intros a Ha. apply list_elem_of_singleton in Ha as ->. set_solver.
  - intros sa h. rewrite !elem_of_cons, elem_of_nil.
    intros [->|[->|[]]] [= <-]; set_solver.
Qed.

Lemma prune_spec_witness :
  exists w', run [] (PruneSignedArtifacts (30 * Day)) old_world = (inr 1, w')
    /\ backed w' /\ w_blobs w' = {[sha1; "new"]}.
Proof.
  assert (exists w', run [] (PruneSignedArtifacts (30 * Day)) old_world = (inr 1, w')
            /\ w_blobs w' = {[sha1; "new"]}) as (w' & Hrun & Hb).
  { eexists _. split; [vm_compute; reflexivity|]. vm_compute. reflexivity. }
  exists w'. split; [exact Hrun|]. split; [|exact Hb].
  exact (proj2 (proj2 (proj2 (proj2
    (prune_spec (30 * Day) [] old_world 1 w' ltac:(done) Hrun)))) old_world_backed).
Defined.

(** ** Lost blobs *)

(** Two failures lose the blob of a row that stays: a retention pass removes
    the file before it commits, so when the commit fails the rows come back
    without it; and an upload whose row cannot be inserted removes the file
    although a signed artifact has the same content. *)
Theorem failure_loses_blob :
  (exists fl e w', run fl (PruneSignedArtifacts (30 * Day)) old_world = (inl e, w')
     /\ backed old_world /\ w_db w' = w_db old_world /\ ~ backed w')
  /\ (exists fl resp w', let w := blob_world [] [signed_of 4 sha1 (40 * Day)] {[sha1]} in
       run fl (handleUploadArtifact server1 "A.ipa" ipa) w = (inl resp, w')
       /\ backed w /\ w_db w' = w_db w /\ ~ backed w').
Proof.
  split.
  - exists [false; false; false; false; false; false; false; true].
    eexists _, _. split; [vm_compute; reflexivity|]. split; [apply old_world_backed|].
    split; [vm_compute; reflexivity|].
    intros [_ Hs]. specialize (Hs 4%N (signed_of 4 "old" (- 40 * Day)) "old"
      ltac:(vm_compute; reflexivity) ltac:(vm_compute; reflexivity)).
    apply (bool_decide_eq_true_2 _) in Hs. by vm_compute in Hs.
  - exists [false; false; false; false; false; false; true].
    eexists _, _. cbv zeta. split; [vm_compute; reflexivity|]. split.
    { apply blob_world_backed; [intros a Ha; by apply elem_of_nil in Ha|].
      intros sa h Hin. apply list_elem_of_singleton in Hin as ->. intros [= <-]. set_solver. }
    split; [vm_compute; reflexivity|].
    intros [_ Hs]. specialize (Hs 4%N (signed_of 4 sha1 (40 * Day)) sha1
      ltac:(vm_compute; reflexivity) ltac:(vm_compute; reflexivity)).
    apply (bool_decide_eq_true_2 _) in Hs. by vm_compute in Hs.
Qed.
