(* ===== verification/Signing.v ===== *)
(** Signing (internal/api/signing.go): sign jobs for approved artifacts, the
    downloads of agents, and the upload of a signed archive, which is bound to
    the caller's own sign job and checked against the profile embedded in it. *)
From S2P Require Import Prelude GoStrings GoTime Effects Versions Schema AuditLog Jobs Http Auth Agents Artifacts.

Definition uuid_nil : uuid := 0%N.

Record createSignJobRequest := MkCreateSignJob {
  cs_ArtifactID : uuid;
  cs_DeviceID : uuid;
  cs_MachineName : string;
  cs_IdempotencyKey : string
}.

Record signedArtifactUploadRequest := MkSignedUpload {
  su_JobID : uuid;
  su_SourceArtifactID : uuid;
  su_DeviceID : uuid;
  su_AccountEmail : string;
  su_TeamID : string;
  su_CertSerial : string;
  su_SignedBundleIdentifier : string;
  su_SignedIPASha256 : string;
  su_DeviceCount : Z;
  su_AppIDCount : Z;
  su_AppIDMaxQuantity : option Z;
  su_AppIDAvailableQuantity : option Z
}.

(** The parsed request body: the form's values and its file. *)
Inductive multipart :=
| BodyTooLarge
| BadForm
| Form (value : string -> string) (ipa : option string).

(** ** Numbers in forms *)

(** The leading digits of a string, with the value read so far. *)
Fixpoint leading_digits (acc : Z) (s : string) : Z * string :=
  match s with
  | String c s' =>
      match digit_of c with Some d => leading_digits (10 * acc + d) s' | None => (acc, s) end
  | EmptyString => (acc, s)
  end.

Definition starts_with_digit (s : string) : bool :=
  match s with String c _ => is_digit c | EmptyString => false end.

Definition split_sign (s : string) : bool * string :=
  match s with
  | String c s' => if Ascii.eqb c "-" then (true, s') else if Ascii.eqb c "+" then (false, s') else (false, s)
  | EmptyString => (false, s)
  end.

Definition signed_value (neg : bool) (n : Z) : Z := if neg then - n else n.
Definition int64_ok (z : Z) : bool := (- 2 ^ 63 <=? z) && (z <? 2 ^ 63).

(** [fmt.Sscanf(s, "%d", &n)] with [n = 0] before: leading space, sign, digits;
    [n] stays 0 on an error. *)
Definition sscanf_d (s : string) : Z :=
  let '(neg, r) := split_sign (trim_left is_space_byte s) in
  if starts_with_digit r then
    let z := signed_value neg (leading_digits 0 r).1 in if int64_ok z then z else 0
  else 0.

(** [n, _ := strconv.ParseInt(s, 10, 64)]: 0 for what is no number, the nearest
    bound for what is out of range. *)
Definition parse_int64 (s : string) : Z :=
  let '(neg, r) := split_sign s in
  if isVersionDigits r
  then Z.max (- 2 ^ 63) (Z.min (2 ^ 63 - 1) (signed_value neg (leading_digits 0 r).1))
  else 0.

Section signing.
Context `{UuidText} `{SecretOps} `{ArchiveOps}.

(** ** Sign jobs *)

Definition device_family (platform : string) : string :=
  if (platform =s "tvos") || (platform =s "tvOS") then "tvos" else "ios".
Definition artifact_family (platform : string) : string :=
  if platform =s "AppleTVOS" then "tvos" else "ios".

(** The artifact's platform, when it is known, is of another family. *)
Definition family_mismatch (platform : option string) (deviceType : string) : bool :=
  match platform with
  | Some p => negb (p =s "") && negb (artifact_family p =s deviceType)
  | None => false
  end.

(** The job for an approved artifact and an existing device. *)
Definition sign_request (req : createSignJobRequest) (dev : device) : CreateRequest :=
  let machineName := if cs_MachineName req =s "" then "isideload-minimal" else cs_MachineName req in
  let key := if cs_IdempotencyKey req =s ""
             then "sign:" ++s uuid_text (cs_ArtifactID req) ++s ":" ++s uuid_text (cs_DeviceID req)
             else cs_IdempotencyKey req in
  MkCreateRequest JobTypeSign (Some (cs_DeviceID req)) None
    (Some (JObj [("artifact_id", JStr (uuid_text (cs_ArtifactID req)));
                 ("machine_name", JStr machineName);
                 ("udid", JStr (dv_udid dev));
                 ("device_name", JStr (default "" (dv_device_name dev)));
                 ("device_type", JStr (device_family (dv_platform dev)))]))
    key None None None.

Definition artifact_platform (id : uuid) (w : world) : option string :=
  match W_artifacts w !! id with Some a => ar_platform a | None => None end.

Definition create_sign_job (req : createSignJobRequest) (dev : device) : handler :=
  p ← try_ Pool (reads (artifact_platform (cs_ArtifactID req)));
  let platform := match p with inr o => o | inl _ => None end in
  if family_mismatch platform (device_family (dv_platform dev))
  then fail BadRequest ("artifact platform " ++s default "" platform
         ++s " does not match device platform " ++s dv_platform dev)
  else
    r ← attempt (Create "admin" (sign_request req dev));
    match r with
    | inl e => fail BadRequest (error_text e)
    | inr j => ok Created (job_json j)
    end.

Definition handleCreateSignJob (body : option createSignJobRequest) : handler :=
  req ← decodeJSON body;
  if bool_decide (cs_ArtifactID req = uuid_nil) || bool_decide (cs_DeviceID req = uuid_nil)
  then fail BadRequest "artifact_id and device_id are required" else
  q ← try_ Pool (reads (fun w => W_artifacts w !! cs_ArtifactID req));
  match q with
  | inr (Some a) =>
      if negb (ar_quarantine_state a =s "approved")
      then fail BadRequest "artifact must be approved before signing" else
      d ← try_ Pool (reads (fun w => W_devices w !! cs_DeviceID req));
      match d with
      | inr (Some dev) => create_sign_job req dev
      | _ => fail NotFound "device not found"
      end
  | _ => fail NotFound "artifact not found"
  end.

(** ** Downloads of agents *)

Definition is_active (j : job) : bool := (j_state j =s StateClaimed) || (j_state j =s StateInProgress).

Definition names (k : string) (id : uuid) (j : job) : bool :=
  opt_is (jget_text k (j_parameters j)) (uuid_text id).

(** The two [EXISTS] queries. *)
Definition sign_job_bound (agent artifactID : uuid) (w : world) : bool :=
  exists_row (fun j => opt_is (j_claimed_by j) agent && (j_job_type j =s JobTypeSign) && is_active j
                       && names "artifact_id" artifactID j) (W_jobs w).

Definition owns (agent : uuid) (d : option uuid) (w : world) : bool :=
  match d with
  | Some d => match W_devices w !! d with Some x => opt_is (dv_agent_id x) agent | None => false end
  | None => false
  end.

Definition device_job_bound (agent artifactID : uuid) (w : world) : bool :=
  exists_row (fun j => owns agent (j_device_id j) w && is_active j
                       && (names "artifact_id" artifactID j || names "signed_artifact_id" artifactID j))
    (W_jobs w).

Definition bound_by (q : world -> bool) : prog world response bool :=
  r ← try_ Pool (reads q); Ret (match r with inr b => b | inl _ => false end).

Definition agentMayAccessArtifact (agent artifactID : uuid) : prog world response bool :=
  if bool_decide (agent = uuid_nil) then Ret true else
  role ← agentRole agent;
  if role =s "device_service" then Ret true else
  role' ← agentRole agent;
  if role' =s "signing_worker" then bound_by (sign_job_bound agent artifactID)
  else bound_by (device_job_bound agent artifactID).

(** The file and the state a download finds. *)
Definition download_original (id : uuid) (w : world) : option (served * string) :=
  (fun a => (MkServed (ar_sha256 a) (ar_filename a), ar_quarantine_state a)) <$> W_artifacts w !! id.
Definition download_signed (id : uuid) (w : world) : option (served * string) :=
  (fun f => (f, "approved")) <$> signed_file id w.

Definition serve_agent (agent id : uuid) (f : served) (state : string) : prog world response served :=
  if negb (state =s "approved") then fail Forbidden "artifact is not approved" else
  may ← agentMayAccessArtifact agent id;
  if negb may then fail Forbidden "no active job held by this agent references this artifact" else
  serve ("agent:" ++s uuid_text agent) "artifact.downloaded" id f.

Definition handleAgentDownloadArtifact (agent : uuid) (path_id : string) : prog world response served :=
  match uuid_parse path_id with
  | None => fail BadRequest "invalid artifact id"
  | Some id =>
      r ← try_ Pool (reads (download_original id));
      match r with
      | inr (Some (f, state)) => serve_agent agent id f state
      | _ =>
          r' ← try_ Pool (reads (download_signed id));
          match r' with
          | inr (Some (f, state)) => serve_agent agent id f state
          | _ => fail NotFound "artifact not found"
          end
      end
  end.

(** ** Uploads of signed archives *)

Definition form_uuid (s : string) : uuid := default uuid_nil (uuid_parse s).
Definition form_int (s : string) : option Z := if s =s "" then None else Some (parse_int64 s).

Definition parse_upload (v : string -> string) : signedArtifactUploadRequest :=
  MkSignedUpload (form_uuid (v "job_id")) (form_uuid (v "source_artifact_id"))
    (form_uuid (v "device_id")) (v "account_email") (v "team_id") (v "cert_serial")
    (v "signed_bundle_identifier") (v "signed_ipa_sha256") (sscanf_d (v "device_count"))
    (sscanf_d (v "app_id_count")) (form_int (v "app_id_max_quantity"))
    (form_int (v "app_id_available_quantity")).

Definition references_artifact (params : json) (id : uuid) : bool :=
  json_is_struct params
  && match json_uuid_ptr (jget "artifact_id" params) with
     | Some o => bool_decide (default uuid_nil o = id)
     | None => false
     end.

Definition validateSignUploadBinding (agent : uuid) (req : signedArtifactUploadRequest)
    : prog world response unit :=
  r ← try_ Pool (reads (job_by_id (su_JobID req)));
  match r with
  | inr (Some j) =>
      if negb (j_job_type j =s JobTypeSign) || negb (opt_is (j_claimed_by j) agent)
      then fail Forbidden "upload is not bound to a sign job held by this agent"
      else if negb (opt_is (j_device_id j) (su_DeviceID req))
      then fail BadRequest "sign job does not target this device"
      else if negb (is_active j) then fail Conflict "sign job is not in progress"
      else if negb (references_artifact (j_parameters j) (su_SourceArtifactID req))
      then fail BadRequest "sign job does not reference this source artifact"
      else Ret tt
  | _ => fail NotFound "job not found"
  end.

Definition isValidSignedBundleID (source signed : string) : bool :=
  if (source =s "") || (signed =s "") then false
  else if source =s signed then true
  else has_prefix (source ++s ".") signed.

(** What the upload is checked against: the device's udid and platform, the
    source's bundle identifier and platform.  Scanning a NULL column fails. *)
Record target := MkTarget {
  tg_udid : string;
  tg_platform : string;
  tg_bundle : string;
  tg_sdk : string
}.

Definition upload_target (deviceID artifactID : uuid) (w : world) : option target :=
  d ← W_devices w !! deviceID; a ← W_artifacts w !! artifactID;
  b ← ar_bundle_identifier a; p ← ar_platform a;
  Some (MkTarget (dv_udid d) (dv_platform d) b p).

(** The checks of the signed archive, in order: the first failure's message. *)
Definition profile_error (req : signedArtifactUploadRequest) (t : target) (m : SignedMetadata)
    (now : instant) : option string :=
  if sm_TeamID m =s "" then Some "embedded provisioning profile lacks TeamIdentifier"
  else if negb (su_TeamID req =s "") && negb (su_TeamID req =s sm_TeamID m)
  then Some "team_id does not match embedded provisioning profile"
  else match sm_ProfileExpiry m with
  | None => Some "embedded provisioning profile lacks ExpirationDate"
  | Some e =>
  if e <? now then Some "embedded provisioning profile is expired"
  else if sm_AppIdentifier m =s ""
  then Some "embedded provisioning profile lacks application-identifier entitlement"
  else if sm_ProfileUUID m =s "" then Some "embedded provisioning profile lacks UUID"
  else if sm_ProvisionsAllDevices m
  then Some "wildcard/enterprise profile (ProvisionsAllDevices) not permitted for personal signing"
  else if (length (sm_ProvisionedDevices m) =? 0)%nat
  then Some "embedded provisioning profile contains no ProvisionedDevices"
  else if negb (existsb (fun u => equal_fold u (tg_udid t)) (sm_ProvisionedDevices m))
  then Some ("target device UDID (" ++s tg_udid t
             ++s ") is not authorized by embedded provisioning profile")
  else if negb (sm_DevicePlatform m =s tg_platform t)
  then Some ("signed IPA platform (" ++s sm_DevicePlatform m ++s ") does not match target device ("
             ++s tg_platform t ++s ")")
  else if negb (tg_sdk t =s "") && negb (sm_Platform m =s tg_sdk t)
  then Some ("signed IPA SDK platform (" ++s sm_Platform m ++s ") does not match source artifact ("
             ++s tg_sdk t ++s ")")
  else if negb (isValidSignedBundleID (tg_bundle t) (sm_BundleIdentifier m))
  then Some ("signed bundle identifier (" ++s sm_BundleIdentifier m
             ++s ") is not a valid derivative of source bundle (" ++s tg_bundle t ++s ")")
  else if negb (su_SignedBundleIdentifier req =s "")
          && negb (su_SignedBundleIdentifier req =s sm_BundleIdentifier m)
  then Some "signed_bundle_identifier does not match Info.plist"
  else if negb (sm_AppIdentifier m =s sm_TeamID m ++s "." ++s sm_BundleIdentifier m)
          && negb (sm_AppIdentifier m =s sm_TeamID m ++s ".*")
  then Some ("embedded profile application-identifier (" ++s sm_AppIdentifier m
             ++s ") does not match signed bundle (" ++s sm_TeamID m ++s "."
             ++s sm_BundleIdentifier m ++s ")")
  else None
  end.

(** *** The transaction *)

Definition opt_int4 (o : option Z) : bool := match o with Some z => is_int4 z | None => true end.

Definition account_by_team (team : string) (w : world) : option account :=
  find_row (fun a => opt_is (ac_team_identifier a) team) (W_accounts w).

Definition or_else (o : option Z) (d : option Z) : option Z := match o with Some _ => o | None => d end.

(** [INSERT INTO apple_accounts .. ON CONFLICT (team_identifier) DO UPDATE]. *)
Definition upsert_account (req : signedArtifactUploadRequest) (team : string) (w : world)
    : sqlerr + uuid * world :=
  if negb (pg_text (su_AccountEmail req) && pg_text team && is_int4 (su_DeviceCount req)
           && is_int4 (su_AppIDCount req) && opt_int4 (su_AppIDMaxQuantity req)
           && opt_int4 (su_AppIDAvailableQuantity req)) then inl SyntaxError
  else match account_by_team team w with
       | None =>
           let a := MkAccount (w_fresh w) (su_AccountEmail req) (Some team) "authenticated"
                      (Some (w_now w)) (su_AppIDCount req) (su_DeviceCount req)
                      (su_AppIDMaxQuantity req) (su_AppIDAvailableQuantity req) in
           inr (ac_id a, set_fresh (w_fresh w + 1)%N (set_db (on_accounts (<[ac_id a := a]>)) w))
       | Some a =>
           let a' := MkAccount (ac_id a) (ac_label a) (ac_team_identifier a) "authenticated"
                      (Some (w_now w)) (su_AppIDCount req) (su_DeviceCount req)
                      (or_else (su_AppIDMaxQuantity req) (ac_app_id_max_quantity a))
                      (or_else (su_AppIDAvailableQuantity req) (ac_app_id_available_quantity a)) in
           inr (ac_id a, set_db (on_accounts (<[ac_id a := a']>)) w)
       end.

(** [INSERT INTO certificates .. ON CONFLICT (serial_number) DO UPDATE]. *)
Definition upsert_certificate (serial : string) (accountID : uuid) (w : world)
    : sqlerr + uuid * world :=
  if negb (pg_text serial) then inl SyntaxError
  else if negb (fk_ok (Some accountID) (W_accounts w)) then inl FkViolation
  else match find_row (fun c => opt_is (ce_serial_number c) serial) (W_certificates w) with
       | None =>
           let c := MkCert (w_fresh w) (Some serial) accountID "signing-worker" false None None in
           inr (ce_id c, set_fresh (w_fresh w + 1)%N (set_db (on_certificates (<[ce_id c := c]>)) w))
       | Some c =>
           inr (ce_id c, set_db (on_certificates (<[ce_id c :=
                           set_ce_revoked false (set_ce_account_id accountID c)]>)) w)
       end.

Definition insert_signed (mk : uuid -> signed_artifact) (w : world) : sqlerr + uuid * world :=
  let sa := mk (w_fresh w) in
  if negb (opt_text (sa_provisioning_profile_ref sa) && opt_text (sa_signed_bundle_identifier sa))
  then inl SyntaxError
  else if negb (fk_ok (Some (sa_source_artifact_id sa)) (W_artifacts w)
           && fk_ok (Some (sa_device_id sa)) (W_devices w)
           && fk_ok (Some (sa_account_id sa)) (W_accounts w)
           && fk_ok (sa_certificate_id sa) (W_certificates w) && fk_ok (sa_job_id sa) (W_jobs w))
  then inl FkViolation
  else inr (sa_id sa, set_fresh (w_fresh w + 1)%N (set_db (on_signed_artifacts (<[sa_id sa := sa]>)) w)).

(** The install job's parameters and key: those of the refresh workflow when the
    sign job is its child. *)
Definition install_of (sign : option job) (signedID : uuid) (req : signedArtifactUploadRequest)
    (t : target) (bundle fresh_key : string) : list (string * json) * string :=
  let base := [("artifact_id", JStr (uuid_text signedID)); ("device_udid", JStr (tg_udid t));
               ("platform", JStr (tg_platform t)); ("bundle_id", JStr bundle);
               ("source_job_id", JStr (uuid_text (su_JobID req)))] in
  match sign with
  | Some j =>
      match j_parent_job_id j with
      | None => (base, fresh_key)
      | Some _ =>
          let ps := j_parameters j in
          match json_is_struct ps, json_uuid_ptr (jget "refresh_job_id" ps),
                json_uuid_ptr (jget "deployment_id" ps) with
          | true, Some (Some refresh), Some dep =>
              (base ++ [("refresh_job_id", JStr (uuid_text refresh))]
                 ++ match dep with Some d => [("deployment_id", JStr (uuid_text d))] | None => [] end
                 ++ [("signed_artifact_id", JStr (uuid_text signedID))],
               "refresh-install:" ++s uuid_text refresh ++s ":" ++s uuid_text signedID)
          | _, _, _ => (base, fresh_key)
          end
      end
  | None => (base, fresh_key)
  end.

(** [fail]: remove the blob this request created, answer, roll back. *)
Definition drop_and_fail {A} (created : bool) (sha message : string) : prog world response A :=
  _ ← when created (Remove sha); fail InternalServerError message.

(** A statement of the transaction whose error goes to [fail]. *)
Definition or_drop {X} (f : world -> sqlerr + X * world) (created : bool) (sha message : string)
    : prog world response X :=
  r ← try_ Tx f;
  match r with inr x => Ret x | inl _ => drop_and_fail created sha message end.

Definition certificate_of (req : signedArtifactUploadRequest) (accountID : uuid) (created : bool)
    (sha : string) : prog world response (option uuid) :=
  if su_CertSerial req =s "" then Ret None else
  id ← or_drop (upsert_certificate (su_CertSerial req) accountID) created sha "certificate upsert failed";
  Ret (Some id).

(** The install job of the device; its error is ignored (the transaction is
    then aborted and the next statement fails). *)
Definition insert_install (req : signedArtifactUploadRequest) (t : target) (bundle : string)
    (signedID : uuid) (sign : option job) : prog world response unit :=
  k ← fresh_uuid;
  let '(params, key) := install_of sign signedID req t bundle (uuid_text k) in
  _ ← try_ Tx (insert_job (new_job JobTypeInstall (Some (su_DeviceID req)) None (JObj params) key 3
        None (match sign with Some j => j_parent_job_id j | None => None end)
        (match sign with Some j => j_purpose j | None => None end)));
  Ret tt.

Definition enqueue_install (req : signedArtifactUploadRequest) (t : target) (bundle : string)
    (signedID : uuid) : prog world response unit :=
  o ← try_ Pool (reads (job_by_id (su_JobID req)));
  insert_install req t bundle signedID (match o with inr s => s | inl _ => None end).

Definition signed_row (req : signedArtifactUploadRequest) (m : SignedMetadata) (sha : string)
    (accountID : uuid) (certID : option uuid) (id : uuid) : signed_artifact :=
  MkSigned id (su_SourceArtifactID req) (su_DeviceID req) accountID certID
    (nullString (sm_ProfileUUID m)) (Some (sm_BundleIdentifier m)) (sm_ProfileExpiry m)
    (Some sha) (Some (su_JobID req)).

Definition signed_body (agent : uuid) (req : signedArtifactUploadRequest) (t : target)
    (m : SignedMetadata) (sha : string) (created : bool) : prog world response uuid :=
  accountID ← or_drop (upsert_account req (sm_TeamID m)) created sha "account upsert failed";
  certID ← certificate_of req accountID created sha;
  signedID ← or_drop (insert_signed (signed_row req m sha accountID certID)) created sha
               "signed artifact insert failed";
  _ ← enqueue_install req t (sm_BundleIdentifier m) signedID;
  _ ← or_drop (writes (fun w => set_db (on_audit (fun l =>
        new_event ("agent:" ++s uuid_text agent) "signed_artifact.uploaded"
          [WithData (JObj [("signed_artifact_id", JStr (uuid_text signedID)); ("sha256", JStr sha);
                           ("job_id", JStr (uuid_text (su_JobID req)))])] (w_now w) :: l)) w))
        created sha "audit write failed";
  Ret signedID.

(** The error of a transaction: one that the response already reports, or the
    commit's, whose [fail] still has to remove the blob. *)
Inductive txn_error := Answered (r : response) | CommitFailed (created : bool).

Definition lift_answered {A} (p : prog world response A) : prog world txn_error A :=
  r ← attempt p;
  match r with inl e => Throw (Answered e) | inr a => Ret a end.

Definition store_signed (agent : uuid) (req : signedArtifactUploadRequest) (t : target)
    (m : SignedMetadata) (sha : string) : handler :=
  r ← attempt (txn_with rollback (Answered (internal "transaction failed"))
        (fun a : uuid * bool => CommitFailed a.2)
        (lift_answered (
           _ ← need Tx (reads (fun _ => tt)) InternalServerError "lock acquisition failed";
           created ← Publish sha (internal "storing signed ipa failed");
           id ← signed_body agent req t m sha created;
           Ret (id, created))));
  match r with
  | inl (Answered e) => Throw e
  | inl (CommitFailed created) => drop_and_fail created sha "transaction failed"
  | inr (id, _) => ok Created (JObj [("id", JStr (uuid_text id)); ("sha256", JStr sha)])
  end.

Definition check_and_store (agent : uuid) (req : signedArtifactUploadRequest) (bytes sha : string)
    (m : SignedMetadata) : handler :=
  o ← try_ Pool (reads (upload_target (su_DeviceID req) (su_SourceArtifactID req)));
  match o with
  | inr (Some t) =>
      now ← get_ w_now;
      match profile_error req t m now with
      | Some message => fail BadRequest message
      | None => store_signed agent req t m sha
      end
  | _ => fail BadRequest "target device or source artifact not found"
  end.

Definition handleUploadSignedArtifact (agent : uuid) (body : multipart) : handler :=
  match body with
  | BodyTooLarge => fail RequestEntityTooLarge "request body too large"
  | BadForm => fail BadRequest "invalid multipart form"
  | Form value ipa =>
      let req := parse_upload value in
      if bool_decide (su_SourceArtifactID req = uuid_nil) || bool_decide (su_DeviceID req = uuid_nil)
         || bool_decide (su_JobID req = uuid_nil)
      then fail BadRequest "job_id, source_artifact_id and device_id are required" else
      _ ← validateSignUploadBinding agent req;
      match ipa with
      | None => fail BadRequest "missing ipa file"
      | Some bytes =>
          sha ← SaveToTemp bytes (internal "storing signed ipa failed");
          if negb (su_SignedIPASha256 req =s "") && negb (su_SignedIPASha256 req =s sha)
          then fail BadRequest "signed_ipa_sha256 does not match uploaded file" else
          i ← try_ Fs (reads (fun _ => InspectSigned bytes));
          match i with
          | inr (inr m) => check_and_store agent req bytes sha m
          | inr (inl e) => fail BadRequest ("signed IPA validation failed: " ++s ErrMalformedSignedIPA e)
          | inl _ => fail BadRequest ("signed IPA validation failed: " ++s ErrMalformedSignedIPA NotZip)
          end
      end
  end.

End signing.
