(* ===== verification/SigningSpec.v ===== *)
(** What a signed upload must satisfy and what it leaves behind, which archives
    are never accepted, and which downloads agents get; at the end an upload, a
    download and a refused upload on which the theorems apply. *)
From S2P Require Import Prelude GoStrings Effects GoTime Schema Samples AuditLog Jobs JobsWitness Http Auth Agents AuthSpec AuthWitness Artifacts Retention ArtifactsSpec ArtifactsWitness Signing.

Section spec.
Context `{UuidText} `{SecretOps} `{ArchiveOps}.

(** ** The checks of an upload *)

(** The caller's own active sign job for this device and source artifact. *)
Definition bound_job (w : world) (agent : uuid) (req : signedArtifactUploadRequest) (j : job) : Prop :=
  W_jobs w !! su_JobID req = Some j /\ j_job_type j = JobTypeSign /\ j_claimed_by j = Some agent
  /\ j_device_id j = Some (su_DeviceID req)
  /\ (j_state j = StateClaimed \/ j_state j = StateInProgress)
  /\ references_artifact (j_parameters j) (su_SourceArtifactID req) = true.

(** The archive is of the claimed team, unexpired, for this very device, and
    its bundle identifier derives from the source's. *)
Record acceptable (req : signedArtifactUploadRequest) (t : target) (m : SignedMetadata)
    (now : instant) : Prop := {
  ac_team : sm_TeamID m <> "" /\ (su_TeamID req = "" \/ su_TeamID req = sm_TeamID m);
  ac_unexpired : exists e, sm_ProfileExpiry m = Some e /\ now <= e;
  ac_profile : sm_ProfileUUID m <> "" /\ sm_ProvisionsAllDevices m = false;
  ac_device : exists u, u ∈ sm_ProvisionedDevices m /\ to_lower u = to_lower (tg_udid t);
  ac_platform : sm_DevicePlatform m = tg_platform t /\ (tg_sdk t = "" \/ sm_Platform m = tg_sdk t);
  ac_bundle : tg_bundle t <> "" /\ (sm_BundleIdentifier m = tg_bundle t
                \/ exists r, sm_BundleIdentifier m = tg_bundle t ++s "." ++s r);
  ac_claimed_bundle : su_SignedBundleIdentifier req = ""
                      \/ su_SignedBundleIdentifier req = sm_BundleIdentifier m;
  ac_app_id : sm_AppIdentifier m = sm_TeamID m ++s "." ++s sm_BundleIdentifier m
              \/ sm_AppIdentifier m = sm_TeamID m ++s ".*";
}.

Lemma isValidSignedBundleID_true source signed :
  isValidSignedBundleID source signed = true ->
  source <> "" /\ (signed = source \/ exists r, signed = source ++s "." ++s r).
Proof using.
  unfold isValidSignedBundleID. case_cond; [done|]. bools. case_cond; bools; [naive_solver|].
  intros [r ->]%has_prefix_true. split; [naive_solver|]. right. exists r. by rewrite str_app_assoc.
Qed.

Lemma profile_error_None req t m now :
  profile_error req t m now = None -> acceptable req t m now.
Proof using.
  unfold profile_error. intros He.
  case_cond; [done|]. case_cond; [done|]. destruct (sm_ProfileExpiry m) as [e|] eqn:Ee; [|done].
  do 11 (case_cond; [done|]). clear He.
  repeat match goal with Hb : negb _ = false |- _ => apply negb_false_iff in Hb end.
  assert (Hone : forall a b : bool, negb a && negb b = false -> a = true \/ b = true)
    by (by intros [] []; auto).
  repeat match goal with Hb : negb _ && negb _ = false |- _ => apply Hone in Hb end.
  bools. split; eauto using isValidSignedBundleID_true.
  apply existsb_exists in Heqb6 as (u & Hu & Hf). exists u. split; [by apply list_elem_of_In|].
  by apply bool_decide_eq_true in Hf.
Qed.

Lemma wp_validate agent req w :
  wp (validateSignUploadBinding agent req)
     (fun r w' => w' = w /\ match r with inr _ => exists j, bound_job w agent req j | inl _ => True end) w.
Proof using.
  unfold validateSignUploadBinding. apply wp_try_bind; [done|]. cbn [reads]. unfold job_by_id.
  destruct (W_jobs w !! su_JobID req) as [j|] eqn:Ej; [|done].
  case_cond; [done|]. case_cond; [done|]. case_cond; [done|]. case_cond; [done|].
  split; [done|]. exists j. apply orb_false_iff in Heqb as [Ht Hc].
  rewrite negb_false_iff in Ht, Hc, Heqb0, Heqb1, Heqb2. unfold is_active in Heqb1.
  bools. by split_and!.
Qed.

(** ** The transaction *)

Lemma twp_or_drop {X A} (f : world -> sqlerr + X * world) created sha message
    (k : X -> prog world response A) Q w :
  (forall x w', f w = inr (x, w') -> twp (k x) Q w') ->
  twp (or_drop f created sha message ≫= k) Q w.
Proof using.
  intros Hk. apply twp_bind. unfold or_drop. simpl.
  destruct (f w) as [er|[x w']] eqn:Ef; [done|]. by apply Hk.
Qed.

(** Tables the upserts leave alone. *)
Definition same_store (w w' : world) : Prop :=
  W_jobs w' = W_jobs w /\ W_signed w' = W_signed w /\ W_artifacts w' = W_artifacts w
  /\ w_blobs w' = w_blobs w /\ w_now w' = w_now w.

Lemma upsert_account_store req team w x w' :
  upsert_account req team w = inr (x, w') -> same_store w w'.
Proof using.
  unfold upsert_account. case_cond; [done|]. by destruct (account_by_team team w); intros [= <- <-].
Qed.

Lemma upsert_certificate_store serial acc w x w' :
  upsert_certificate serial acc w = inr (x, w') -> same_store w w'.
Proof using.
  unfold upsert_certificate. case_cond; [done|]. case_cond; [done|].
  by destruct (find_row _ _); intros [= <- <-].
Qed.

Lemma same_store_trans w1 w2 w3 : same_store w1 w2 -> same_store w2 w3 -> same_store w1 w3.
Proof using. unfold same_store. intros (?&?&?&?&?) (?&?&?&?&?). split_and!; by etrans. Qed.

(** The row of the upload, its blob, and an install job with the key (the one
    of a standalone sign when the sign job could not be read). *)
Definition stored (w : world) (req : signedArtifactUploadRequest) (t : target) (m : SignedMetadata)
    (sha : string) (id : uuid) (w' : world) : Prop :=
  (exists acc cert, W_signed w' = <[id := signed_row req m sha acc cert id]> (W_signed w))
  /\ W_artifacts w' = W_artifacts w /\ sha ∈ w_blobs w'
  /\ exists i ji sign k, W_jobs w' !! i = Some ji
       /\ (sign = W_jobs w !! su_JobID req \/ sign = None)
       /\ j_idempotency_key ji = (install_of sign id req t (sm_BundleIdentifier m) k).2.

Lemma twp_certificate_of req acc created sha {A} (k : option uuid -> prog world response A) Q w :
  (forall o w', same_store w w' -> twp (k o) Q w') ->
  twp (certificate_of req acc created sha ≫= k) Q w.
Proof using.
  intros Hk. apply twp_bind. unfold certificate_of. destruct (su_CertSerial req =s ""); [by apply Hk|].
  apply twp_or_drop. intros x w' Hu%upsert_certificate_store. by apply Hk.
Qed.

Lemma insert_job_key mk w r :
  insert_job mk w = inr r ->
  w_blobs r.2 = w_blobs w /\ W_signed r.2 = W_signed w /\ W_artifacts r.2 = W_artifacts w
  /\ exists i j, W_jobs r.2 !! i = Some j
       /\ j_idempotency_key j = j_idempotency_key (mk (w_fresh w) (w_now w)).
Proof using.
  unfold insert_job. destruct (key_taken _ w) eqn:Ek.
  - intros [= <-]. split_and!; try done. apply exists_row_true in Ek as (i & j & Hi & Hj). bools. eauto.
  - case_cond; [|done]. intros [= <-]. split_and!; try done. simpl.
    eexists _, _. by rewrite lookup_insert_eq.
Qed.

Lemma twp_enqueue_install req t bundle id w (Q : unit -> world -> Prop) :
  (forall w' k i ji, w_blobs w' = w_blobs w -> W_signed w' = W_signed w -> W_artifacts w' = W_artifacts w ->
     W_jobs w' !! i = Some ji ->
     (exists sign, (sign = W_jobs w !! su_JobID req \/ sign = None)
        /\ j_idempotency_key ji = (install_of sign id req t bundle k).2) -> Q tt w') ->
  twp (enqueue_install req t bundle id) Q w.
Proof using.
  intros HQ. unfold enqueue_install.
  assert (Hrest : forall sign, (sign = W_jobs w !! su_JobID req \/ sign = None) ->
    twp (insert_install req t bundle id sign) Q w).
  { intros sign Hs. unfold insert_install. cbn [fresh_uuid mbind prog_mbind prog_bind twp].
    destruct (install_of sign id req t bundle _) as [params key] eqn:Ek.
    cbn [try_ mbind prog_mbind prog_bind twp].
    destruct (insert_job _ _) as [er|[o w']] eqn:Ei; [done|].
    apply insert_job_key in Ei as (Hb & Hsg & Ha & i & ji & Hi & Hk).
    eapply HQ; try done. exists sign. split; [done|]. rewrite Hk. simpl. by rewrite Ek. }
  split; apply Hrest; auto.
Qed.

Lemma twp_signed_body agent req t m sha created w :
  sha ∈ w_blobs w ->
  twp (signed_body agent req t m sha created) (fun id w' => stored w req t m sha id w') w.
Proof using.
  intros Hsha. unfold signed_body.
  apply twp_or_drop. intros acc w1 Hw1%upsert_account_store.
  apply twp_certificate_of. intros cert w2 Hw2.
  pose proof (same_store_trans _ _ _ Hw1 Hw2) as (Hj & Hs & Ha & Hb & Hn).
  apply twp_or_drop. intros id w3 Hi. unfold insert_signed in Hi.
  case_cond; [done|]. case_cond; [done|]. injection Hi as <- <-.
  apply twp_bind, twp_enqueue_install.
  intros w4 k i ji Hb4 Hs4 Ha4 Hi4 Hkey. apply twp_or_drop. intros [] w5 [= <-].
  unfold stored. simpl. rewrite Hs4, Ha4, Hb4. simpl. rewrite Hs, Ha, Hb. split_and!; eauto.
  destruct Hkey as (sign & Hsign & Hkey). simpl in Hsign. rewrite Hj in Hsign.
  exists i, ji, sign, k. done.
Qed.

(** ** The endpoints *)

(** What an accepted upload has passed. *)
Definition accepted (agent : uuid) (body : multipart) (w w' : world) : Prop :=
  exists value bytes m t j id, let req := parse_upload value in
    body = Form value (Some bytes) /\ bound_job w agent req j
    /\ InspectSigned bytes = inr m
    /\ upload_target (su_DeviceID req) (su_SourceArtifactID req) w = Some t
    /\ acceptable req t m (w_now w)
    /\ (su_SignedIPASha256 req = "" \/ su_SignedIPASha256 req = sha256_hex bytes)
    /\ stored w req t m (sha256_hex bytes) id w'.

(** The answer to an upload that was stored. *)
Definition stored_answer (id : uuid) (sha : string) : response :=
  writeJSON Created (JObj [("id", JStr (uuid_text id)); ("sha256", JStr sha)]).

Lemma wp_store_signed agent req t m sha w :
  wp (store_signed agent req t m sha) (fun r w' => match r with
      | inl _ => w_db w' = w_db w
      | inr resp => exists id, resp = stored_answer id sha /\ stored w req t m sha id w' end) w.
Proof using.
  unfold store_signed. apply wp_bind, wp_attempt.
  apply wp_txn_commits; [done| |].
  - intros [e|created] s'; [done|]. unfold drop_and_fail, when, Remove. by destruct created.
  - apply twp_bind, twp_attempt; [done|].
    apply twp_bind. cbn [twp must reads]. apply twp_bind, wp_twp.
    eapply wp_mono; [|apply wp_Publish]. intros [e|created] w1; [done|]. intros (Hd & Hb & Hf).
    apply twp_bind. eapply twp_mono; [|apply twp_signed_body; rewrite Hb; set_solver].
    intros id w2 Hst. exists id. split; [done|]. unfold stored in *. by rewrite Hd in Hst.
Qed.

Lemma wp_check_and_store agent req bytes sha m w :
  wp (check_and_store agent req bytes sha m) (fun r w' => match r with
      | inl _ => w_db w' = w_db w
      | inr resp => exists t id, upload_target (su_DeviceID req) (su_SourceArtifactID req) w = Some t
          /\ acceptable req t m (w_now w) /\ resp = stored_answer id sha /\ stored w req t m sha id w' end) w.
Proof using.
  unfold check_and_store. apply wp_try_bind; [done|]. cbn [reads].
  destruct (upload_target _ _ w) as [t|] eqn:Et; [|done]. apply wp_get_bind.
  destruct (profile_error _ t m (w_now w)) eqn:Ep; [done|]. apply profile_error_None in Ep.
  eapply wp_mono; [|apply wp_store_signed]. intros [e|resp] w2 Hst; [done|].
  destruct Hst as (id & -> & Hst). by exists t, id.
Qed.

Lemma wp_upload_signed agent body w :
  wp (handleUploadSignedArtifact agent body)
     (fun r w' => match r with inl _ => w_db w' = w_db w | inr _ => accepted agent body w w' end) w.
Proof using.
  unfold handleUploadSignedArtifact.
  destruct body as [| |value ipa]; [done|done|]. cbv zeta. case_cond; [done|].
  apply wp_bind. eapply wp_mono; [|apply wp_validate].
  intros [e|[]] w1 [-> Hj]; [done|]. destruct Hj as [j Hj]. destruct ipa as [bytes|]; [|done].
  apply wp_bind, wp_reads_bind; [done|]. cbn [wp].
  destruct (negb (su_SignedIPASha256 _ =s "") && _) eqn:Esha; [done|].
  apply wp_try_bind; [done|]. cbn [reads].
  destruct (InspectSigned bytes) as [e|m] eqn:Ei; [done|].
  eapply wp_mono; [|apply wp_check_and_store]. intros [e|resp] w2 Hst; [done|].
  destruct Hst as (t & id & Et & Ep & _ & Hst). exists value, bytes, m, t, j, id. cbv zeta. split_and!; try done.
  apply andb_false_iff in Esha as [E|E]; bools; auto.
Qed.

(** C8. Signed uploads: an accepted upload comes from the agent that holds an
    active sign job for exactly this device and source artifact; its archive
    parses, its profile is unexpired, of the claimed team and lists the device,
    its platform is the device's and its bundle identifier derives from the
    source's.  It has stored one signed row with that content, the blob and an
    install job; a refused upload has changed no table, whatever failed. *)
Theorem signed_upload_spec agent body fl w r w' :
  run fl (handleUploadSignedArtifact agent body) w = (r, w') ->
  match r with
  | inl _ => w_db w' = w_db w
  | inr _ => accepted agent body w w'
  end.
Proof using. intros Hrun. exact (wp_run_eq _ _ _ _ _ _ (wp_upload_signed agent body w) Hrun). Qed.

Lemma InspectSigned_platform bytes m :
  InspectSigned bytes = inr m -> sm_DevicePlatform m = sdkPlatformToDevice (sm_Platform m).
Proof using.
  unfold InspectSigned. destruct (zip_open bytes) as [files|]; [|done].
  destruct (signed_entries files None None) as [e|[[i|] [p|]]]; try done.
  destruct (plist_unmarshal i) as [info|]; [|done]. case_cond; [done|].
  destruct (ExtractProfilePlist p) as [e|xml]; [done|].
  destruct (plist_unmarshal xml) as [profile|]; [|done]. by intros [= <-].
Qed.

Lemma sdkPlatformToDevice_range p : sdkPlatformToDevice p <> "tvOS".
Proof using. unfold sdkPlatformToDevice. by repeat case_cond. Qed.

(** Archives that can be signed but never uploaded: for a source artifact
    without a known platform and for a device whose platform is written tvOS a
    sign job passes the platform check, but every signed upload is refused. *)
Theorem upload_refuses_what_sign_accepts fl w r w' agent value ipa a d :
  let req := parse_upload value in
  W_artifacts w !! su_SourceArtifactID req = Some a -> W_devices w !! su_DeviceID req = Some d ->
  (ar_platform a = None \/ (dv_platform d = "tvOS" /\ ar_platform a = Some "AppleTVOS")) ->
  run fl (handleUploadSignedArtifact agent (Form value ipa)) w = (r, w') ->
  family_mismatch (ar_platform a) (device_family (dv_platform d)) = false
  /\ (exists resp, r = inl resp) /\ w_db w' = w_db w.
Proof using.
  intros req Ha Hd Hor Hrun. split.
  { destruct Hor as [->|[-> ->]]; done. }
  pose proof (wp_run_eq _ _ _ _ _ _ (wp_upload_signed agent (Form value ipa) w) Hrun) as Hok.
  destruct r as [resp|resp]; [by eauto|]. exfalso.
  destruct Hok as (value' & bytes & m & t & j & id & [= <- _] & _ & Hm & Ht & Hacc & _).
  unfold upload_target in Ht. change (parse_upload value) with req in Ht. rewrite Hd, Ha in Ht. simpl in Ht.
  destruct (ar_bundle_identifier a) as [b|]; [|done]. simpl in Ht.
  destruct Hor as [Hp|[Hp Hq]]; [by rewrite Hp in Ht|]. rewrite Hq in Ht. injection Ht as <-.
  destruct (ac_platform _ _ _ _ Hacc) as [Hplat _]. simpl in Hplat. rewrite Hp in Hplat.
  rewrite (InspectSigned_platform _ _ Hm) in Hplat. by apply sdkPlatformToDevice_range in Hplat.
Qed.

(** ** Downloads of agents *)

(** An active job that entitles the agent to the artifact: its own sign job, or
    any agent's active job on a device of its own. *)
Definition entitled (w : world) (agent id : uuid) : Prop :=
  exists i j, W_jobs w !! i = Some j /\ (j_state j = StateClaimed \/ j_state j = StateInProgress)
    /\ ((j_claimed_by j = Some agent /\ j_job_type j = JobTypeSign /\ names "artifact_id" id j = true)
        \/ (owns agent (j_device_id j) w = true
            /\ (names "artifact_id" id j = true \/ names "signed_artifact_id" id j = true))).

Definition exempt (w : world) (agent : uuid) : Prop :=
  agent = uuid_nil \/ exists a, W_agents w !! agent = Some a /\ ag_role a = "device_service".

Lemma bound_entitled w agent id :
  sign_job_bound agent id w = true \/ device_job_bound agent id w = true -> entitled w agent id.
Proof using.
  unfold sign_job_bound, device_job_bound, is_active.
  intros [Hb|Hb]; apply exists_row_true in Hb as (i & j & Hi & Hp); exists i, j;
    rewrite !andb_true_iff, ?orb_true_iff in Hp; bools; naive_solver.
Qed.

(** The tables the entitlement reads. *)
Definition same_rights (w w' : world) : Prop :=
  W_jobs w' = W_jobs w /\ W_devices w' = W_devices w /\ w_blobs w' = w_blobs w.

Lemma entitled_same w w' agent id : same_rights w w' -> entitled w' agent id -> entitled w agent id.
Proof using.
  intros (Hj & Hd & _). assert (Ho : forall d, owns agent d w' = owns agent d w).
  { intros [d|]; [|done]. unfold owns. by rewrite Hd. }
  unfold entitled. rewrite Hj. by setoid_rewrite Ho.
Qed.

Lemma wp_agentRole_rights w agent :
  wp (agentRole agent) (fun r w' => same_rights w w' /\ match r with
      | inr role => role = "device_service" -> exempt w agent | inl _ => False end) w.
Proof using.
  unfold agentRole, same_rights, exempt. split; simpl; [by split_and!|].
  destruct (W_agents w !! agent) as [a|] eqn:Ea; [|by split_and!].
  case_cond; bools; [split; by simpl; split_and!|].
  case_cond; simpl; split_and!; try done; eauto.
Qed.

Lemma wp_bound_by q w :
  wp (bound_by q) (fun r w' => w' = w /\ match r with inr b => b = true -> q w = true | inl _ => False end) w.
Proof using. by split; simpl. Qed.

Lemma wp_may agent id w :
  wp (agentMayAccessArtifact agent id) (fun r w' => same_rights w w' /\ match r with
      | inr b => b = true -> exempt w agent \/ entitled w agent id | inl _ => False end) w.
Proof using.
  unfold agentMayAccessArtifact. case_cond; [bools; split; [done|]; left; by left|].
  apply wp_bind. eapply wp_mono; [|apply wp_agentRole_rights].
  intros [e|role] w1 [Hs Hr]; [done|]. destruct (role =s "device_service") eqn:Er.
  { bools. split; [done|]. left. auto. }
  apply wp_bind. eapply wp_mono; [|apply wp_agentRole_rights].
  intros [e|role'] w2 [Hs2 Hr2]; [done|]. clear Hr2.
  assert (Hall : same_rights w w2).
  { destruct Hs as (?&?&?), Hs2 as (?&?&?). split_and!; by etrans. }
  destruct (role' =s "signing_worker"); (eapply wp_mono; [|apply wp_bound_by]);
    intros [e|b] w3 [-> Hb]; try done; (split; [done|]); intros ->; right;
    eapply entitled_same, bound_entitled; eauto.
Qed.

(** Agent downloads: an agent is served only the blob of an approved artifact
    or of a signed one, present in the store, and only when an active job
    entitles it: its own sign job for the artifact, or an active job that names
    the artifact on a device of its own; the exception are device services,
    which are served without any job. *)
Theorem agent_download_spec agent path_id fl w f w' :
  run fl (handleAgentDownloadArtifact agent path_id) w = (inr f, w') ->
  exists id, uuid_parse path_id = Some id
    /\ (download_original id w = Some (f, "approved") \/ download_signed id w = Some (f, "approved"))
    /\ sv_sha256 f ∈ w_blobs w
    /\ (exempt w agent \/ entitled w agent id).
Proof using.
  intros Hrun. by_wp Hrun. unfold handleAgentDownloadArtifact.
  destruct (uuid_parse path_id) as [id|] eqn:Ep; [|done].
  assert (Hserve : forall f state,
    (download_original id w = Some (f, state) \/ download_signed id w = Some (f, state)) ->
    wp (serve_agent agent id f state) (fun r _ => match r with inl _ => True | inr f =>
      exists id', Some id = Some id' /\ (download_original id' w = Some (f, "approved")
                                      \/ download_signed id' w = Some (f, "approved"))
        /\ sv_sha256 f ∈ w_blobs w /\ (exempt w agent \/ entitled w agent id') end) w).
  { intros g state Hg. unfold serve_agent. case_cond; [done|]. bools. subst state.
    apply wp_bind. eapply wp_mono; [|apply wp_may]. intros [e|b] w1 [(_ & _ & Hbl) Hb]; [done|].
    destruct b; [|done]. simpl. rewrite Hbl.
    split; [done|]. destruct (bool_decide (sv_sha256 g ∈ w_blobs w)) eqn:Eb; [|done]. bools.
    split; simpl; exists id; split_and!; auto. }
  assert (Hnext : wp (r' ← try_ Pool (reads (download_signed id));
      match r' with inr (Some (f, state)) => serve_agent agent id f state
      | _ => fail NotFound "artifact not found" end) (fun r _ => match r with inl _ => True | inr f =>
      exists id', Some id = Some id' /\ (download_original id' w = Some (f, "approved")
                                      \/ download_signed id' w = Some (f, "approved"))
        /\ sv_sha256 f ∈ w_blobs w /\ (exempt w agent \/ entitled w agent id') end) w).
  { apply wp_try_bind; [done|]. cbn [reads].
    destruct (download_signed id w) as [[g state]|] eqn:Eg; [|done]. auto. }
  apply wp_try_bind; [exact Hnext|]. cbn [reads].
  destruct (download_original id w) as [[g state]|] eqn:Eg; [auto|exact Hnext].
Qed.
End spec.

(** * Concrete uploads *)

#[local] Existing Instance sample_uuid.
#[local] Existing Instance sample_secrets.
#[local] Existing Instance sample_archives.

Example form_numbers :
  sscanf_d " 12x" = 12 /\ sscanf_d "x" = 0 /\ parse_int64 "12x" = 0 /\ parse_int64 "-7" = -7
  /\ parse_int64 "99999999999999999999" = 2 ^ 63 - 1.
Proof. vm_compute. done. Qed.

Definition source_of (platform : option string) : artifact :=
  MkArtifact 3 "src" "A.ipa" None None (Some "com.a") platform None [] (Some "upload") "approved" 0.

Definition sign_job : job :=
  claim_row 7 (5 * Minute) Hour (new_job JobTypeSign (Some 1%N) None
    (JObj [("artifact_id", JStr (sample_text 3))]) "sign" 5 None None None 50 0).

Definition sign_world (platform : option string) : world :=
  set_blobs (fun _ => {["src"]})
    (set_db (on_artifacts (fun _ => {[3%N := source_of platform]})) (world_with sign_job)).

Definition form_value (k : string) : string :=
  if k =s "job_id" then sample_text 50 else if k =s "source_artifact_id" then sample_text 3
  else if k =s "device_id" then sample_text 1 else if k =s "cert_serial" then "C1" else "".

Definition signed_ipa : string := "PKcom.a.TEAM".

Lemma signed_upload_spec_witness :
  exists resp w', run [] (handleUploadSignedArtifact 7 (Form form_value (Some signed_ipa)))
                    (sign_world (Some "iPhoneOS")) = (inr resp, w')
    /\ accepted 7 (Form form_value (Some signed_ipa)) (sign_world (Some "iPhoneOS")) w'.
Proof.
  assert (exists resp w', run [] (handleUploadSignedArtifact 7 (Form form_value (Some signed_ipa)))
            (sign_world (Some "iPhoneOS")) = (inr resp, w')) as (resp & w' & Hrun)
    by (eexists _, _; vm_compute; reflexivity).
  exists resp, w'. split; [exact Hrun|].
  exact (signed_upload_spec 7 (Form form_value (Some signed_ipa)) [] _ (inr resp) w' Hrun).
Defined.

Lemma upload_refuses_what_sign_accepts_witness :
  let w := sign_world None in
  exists r w', run [] (handleUploadSignedArtifact 7 (Form form_value (Some signed_ipa))) w = (r, w')
    /\ (exists resp, r = inl resp) /\ w_db w' = w_db w.
Proof.
  intros w. destruct (run [] (handleUploadSignedArtifact 7 (Form form_value (Some signed_ipa))) w)
    as [r w'] eqn:Hrun.
  exists r, w'. split; [reflexivity|].
  assert (Ha : W_artifacts w !! su_SourceArtifactID (parse_upload form_value) = Some (source_of None))
    by (vm_compute; reflexivity).
  assert (Hd : W_devices w !! su_DeviceID (parse_upload form_value) = Some device1)
    by (vm_compute; reflexivity).
  exact (proj2 (upload_refuses_what_sign_accepts [] w r w' 7 form_value (Some signed_ipa)
    (source_of None) device1 Ha Hd (or_introl eq_refl) Hrun)).
Defined.

Lemma agent_download_spec_witness :
  exists w', run [] (handleAgentDownloadArtifact 7 (sample_text 3)) (sign_world None)
             = (inr (MkServed "src" "A.ipa"), w')
    /\ (exempt (sign_world None) 7 \/ entitled (sign_world None) 7 3).
Proof.
  assert (exists w', run [] (handleAgentDownloadArtifact 7 (sample_text 3)) (sign_world None)
             = (inr (MkServed "src" "A.ipa"), w')) as (w' & Hrun)
    by (eexists; vm_compute; reflexivity).
  exists w'. split; [exact Hrun|].
  destruct (agent_download_spec 7 (sample_text 3) [] _ _ w' Hrun) as (id & Hid & _ & _ & Hor).
  vm_compute in Hid. injection Hid as <-. exact Hor.
Defined.
