(* ===== verification/Refresh.v ===== *)
(** Refresh orchestration (internal/api/device_refresh.go): the sign step the
    control plane runs for a refresh job of the device service, the choice of an
    update artifact, and the install child it hands out claimed. *)
From S2P Require Import Prelude GoStrings GoTime Effects Versions Schema AuditLog Jobs Scheduler Http Auth Agents Artifacts Signing.

Record refreshContext := MkRefreshContext {
  rc_refreshID : uuid;
  rc_deploymentID : option uuid;
  rc_deviceID : uuid;
  rc_purpose : string;
  rc_sourceID : uuid;
  rc_appleID : string;
  rc_udid : string;
  rc_platform : string;
  rc_deviceName : string;
  rc_updateFrom : option uuid;
  rc_sourceVersion : string;
  rc_updateToVersion : string
}.

(** What [loadRefreshContext] reads of the job's parameters. *)
Record refreshParams := MkRefreshParams {
  rp_DeploymentID : option uuid;
  rp_SourceArtifactID : option uuid;
  rp_ArtifactID : uuid;
  rp_AppleID : string;
  rp_PreviousSignedID : option uuid
}.

Section refresh.
Context `{UuidText}.

Definition decode_refreshParams (j : json) : option refreshParams :=
  _ ← is_struct j; d ← json_uuid_ptr (jget "deployment_id" j);
  s ← json_uuid_ptr (jget "source_artifact_id" j); a ← json_uuid_ptr (jget "artifact_id" j);
  i ← str_member "apple_id" j; p ← json_uuid_ptr (jget "previous_signed_artifact_id" j);
  Some (MkRefreshParams d s (default uuid_nil a) i p).

Definition refresh_source (p : refreshParams) : uuid :=
  match rp_SourceArtifactID p with
  | Some s => if bool_decide (s = uuid_nil) then rp_ArtifactID p else s
  | None => rp_ArtifactID p
  end.

(** ** Updates *)

(** The row of the first query: policy, bundle, version and platform. *)
Definition update_basis (deploymentID sourceID : uuid) (w : world)
    : option (option json * string * string * string) :=
  dep ← W_deployments w !! deploymentID; a ← W_artifacts w !! sourceID;
  b ← ar_bundle_identifier a;
  Some (dp_refresh_policy dep, b, default "" (ar_version a), default "" (ar_platform a)).

Definition auto_update (policy : option json) : bool :=
  match policy with
  | Some p => match jget "auto_update" p with Some (JBool b) => b | _ => false end
  | None => false
  end.

Definition update_candidates (bundle platform : string) (sourceID : uuid) (w : world) : list artifact :=
  select (fun a => opt_is (ar_bundle_identifier a) bundle && (default "" (ar_platform a) =s platform)
                   && (ar_quarantine_state a =s "approved") && negb (bool_decide (ar_id a = sourceID)))
    (rows (W_artifacts w)).

(** One iteration of the loop over the candidates. *)
Definition better_update (version : string) (best : option (uuid * string)) (a : artifact)
    : option (uuid * string) :=
  let v := default "" (ar_version a) in
  if (compareVersions v version <=? 0) || looksPrerelease v || looksPrerelease (ar_filename a) then best
  else
    match best with
    | Some (_, bv) => if 0 <? compareVersions v bv then Some (ar_id a, v) else best
    | None => Some (ar_id a, v)
    end.

Definition best_update (version : string) (l : list artifact) : option (uuid * string) :=
  fold_left (better_update version) l None.

(** The update artifact, its version and the original one. *)
Definition resolveUpdateArtifact {E} (deploymentID sourceID : uuid)
    : prog world E (option (uuid * string * string)) :=
  r ← try_ Pool (reads (update_basis deploymentID sourceID));
  match r with
  | inr (Some (policy, bundle, version, platform)) =>
      if bundle =s "" then Ret None else
      if negb (auto_update policy) then Ret None else
      l ← try_ Pool (reads (update_candidates bundle platform sourceID));
      match l with
      | inr l => Ret ((fun b => (b.1, b.2, version)) <$> best_update version l)
      | inl _ => Ret None
      end
  | _ => Ret None
  end.

(** ** The context of a refresh *)

(** The account of the deployment's installation record. *)
Definition deployment_account (deploymentID : uuid) (w : world) : option string :=
  head (omap (fun ir => if bool_decide (ir_deployment_id ir = deploymentID)
                        then sac ← resolved ir w; Some (ac_label sac.2) else None)
          (rows (W_installations w))).

Definition account_for {E} (p : refreshParams) : prog world E string :=
  match rp_DeploymentID p with
  | Some d =>
      if rp_AppleID p =s "" then
        r ← try_ Pool (reads (deployment_account d));
        Ret (match r with inr (Some l) => l | _ => "" end)
      else Ret (rp_AppleID p)
  | None => Ret (rp_AppleID p)
  end.

Definition update_for {E} (p : refreshParams) : prog world E (option (uuid * string * string)) :=
  match rp_DeploymentID p with
  | Some d => resolveUpdateArtifact d (refresh_source p)
  | None => Ret None
  end.

Definition loadRefreshContext (refreshID : uuid) : prog world response refreshContext :=
  r ← try_ Pool (reads (job_by_id refreshID));
  match r with
  | inr (Some j) =>
      if negb (j_job_type j =s JobTypeRefresh) then fail BadRequest "job is not a refresh job" else
      match j_device_id j with
      | None => fail BadRequest "refresh job has no device"
      | Some deviceID =>
          if negb (is_active j) then fail Conflict "refresh job is not active" else
          match decode_refreshParams (j_parameters j) with
          | None => fail BadRequest "refresh job parameters malformed"
          | Some p =>
              u ← update_for p;
              let sourceID := match u with Some x => x.1.1 | None => refresh_source p end in
              q ← try_ Pool (reads (fun w => W_artifacts w !! sourceID));
              match q with
              | inr (Some a) =>
                  if negb (ar_quarantine_state a =s "approved")
                  then fail BadRequest "artifact must be approved before signing" else
                  d ← try_ Pool (reads (fun w => W_devices w !! deviceID));
                  match d with
                  | inr (Some dev) =>
                      appleID ← account_for p;
                      if appleID =s ""
                      then fail Conflict "no Apple account resolvable for this refresh (re-associate the deployment instead of guessing)" else
                      Ret (MkRefreshContext refreshID (rp_DeploymentID p) deviceID
                             (match j_purpose j with
                              | Some s => if s =s "" then "refresh" else s | None => "refresh" end)
                             sourceID appleID (dv_udid dev) (dv_platform dev)
                             (default "" (dv_device_name dev))
                             (match u with Some _ => Some (refresh_source p) | None => None end)
                             (match u with Some x => x.2 | None => "" end)
                             (match u with Some x => x.1.2 | None => "" end))
                  | _ => fail NotFound "device not found"
                  end
              | _ => fail BadRequest "refresh artifact is not an original IPA (was it a signed derivative?)"
              end
          end
      end
  | _ => fail NotFound "refresh job not found"
  end.

(** ** Signing *)

Definition fallback_of (body : option json) : bool :=
  match body with
  | Some b => match jget "fallback" b with Some (JBool x) => x | _ => false end
  | None => false
  end.

(** The artifact the sign job is for: the original when a fallback is asked for. *)
Definition sign_source (fallback : bool) (rc : refreshContext) : uuid :=
  match rc_updateFrom rc with Some o => if fallback then o else rc_sourceID rc | None => rc_sourceID rc end.

Definition update_attempted (fallback : bool) (rc : refreshContext) : bool :=
  match rc_updateFrom rc with Some _ => negb fallback | None => false end.

Definition deployment_field (rc : refreshContext) : list (string * json) :=
  match rc_deploymentID rc with Some d => [("deployment_id", JStr (uuid_text d))] | None => [] end.

Definition refresh_sign_request (rc : refreshContext) (sourceID : uuid) : CreateRequest :=
  MkCreateRequest JobTypeSign (Some (rc_deviceID rc)) None
    (Some (JObj ([("artifact_id", JStr (uuid_text sourceID)); ("machine_name", JStr "isideload-minimal");
                  ("udid", JStr (rc_udid rc)); ("device_name", JStr (rc_deviceName rc));
                  ("device_type", JStr (device_family (rc_platform rc)));
                  ("apple_id", JStr (rc_appleID rc));
                  ("refresh_job_id", JStr (uuid_text (rc_refreshID rc)))] ++ deployment_field rc)))
    ("refresh-sign:" ++s uuid_text (rc_refreshID rc) ++s ":" ++s str_take 8 (uuid_text sourceID))
    None (Some (rc_refreshID rc)) (Some (rc_purpose rc)).

Definition sign_response (rc : refreshContext) (fallback : bool) (j : job) : json :=
  JObj [("sign_job_id", JStr (uuid_text (j_id j))); ("state", JStr (j_state j));
        ("device_id", JStr (uuid_text (rc_deviceID rc))); ("apple_id", JStr (rc_appleID rc));
        ("source_artifact_id", JStr (uuid_text (sign_source fallback rc)));
        ("update_attempted", JBool (update_attempted fallback rc));
        ("update_from_version", JStr (rc_sourceVersion rc));
        ("update_to_version", JStr (rc_updateToVersion rc))].

(** The job of the answer is kept beside it. *)
Definition refresh_sign (refreshID : uuid) (body : option json) : prog world response (job * response) :=
  rc ← loadRefreshContext refreshID;
  let fallback := fallback_of body in
  r ← attempt (Create "device-service" (refresh_sign_request rc (sign_source fallback rc)));
  match r with
  | inl e => fail BadRequest (error_text e)
  | inr j => Ret (j, writeJSON StatusOK (sign_response rc fallback j))
  end.

Definition handleDeviceRefreshSign (path_id : string) (body : option json) : handler :=
  match uuid_parse path_id with
  | None => fail BadRequest "invalid refresh job id"
  | Some refreshID => x ← refresh_sign refreshID body; Ret (x.2 : response)
  end.

(** ** Installing *)

(** [ORDER BY created_at DESC LIMIT 1]. *)
Definition newest_sign (refreshID : uuid) (w : world) : option job :=
  first_by (fun a b => j_created_at b <=? j_created_at a)
    (select (fun j => opt_is (j_parent_job_id j) refreshID && (j_job_type j =s JobTypeSign))
       (rows (W_jobs w))).

Definition signed_result (o : option json) : option uuid :=
  j ← o; _ ← is_struct j; u ← json_uuid_ptr (jget "signed_artifact_id" j);
  match u with Some x => if bool_decide (x = uuid_nil) then None else Some x | None => None end.

(** The install's bundle, udid and platform; scanning a NULL bundle fails. *)
Definition install_target (signedID deviceID : uuid) (w : world) : option (string * string * string) :=
  sa ← W_signed w !! signedID; d ← W_devices w !! deviceID; b ← sa_signed_bundle_identifier sa;
  Some (b, dv_udid d, dv_platform d).

Definition refresh_install_request (rc : refreshContext) (signID signedID : uuid)
    (t : string * string * string) : CreateRequest :=
  MkCreateRequest JobTypeInstall (Some (rc_deviceID rc)) None
    (Some (JObj ([("artifact_id", JStr (uuid_text signedID)); ("device_udid", JStr t.1.2);
                  ("platform", JStr t.2); ("bundle_id", JStr t.1.1);
                  ("source_job_id", JStr (uuid_text signID));
                  ("refresh_job_id", JStr (uuid_text (rc_refreshID rc)));
                  ("signed_artifact_id", JStr (uuid_text signedID))] ++ deployment_field rc)))
    ("refresh-install:" ++s uuid_text (rc_refreshID rc) ++s ":" ++s uuid_text signedID)
    None (Some (rc_refreshID rc)) (Some (rc_purpose rc)).

(** From the completed sign job on. *)
Definition hand_out_install (s : Server) (agent : uuid) (rc : refreshContext) (signID signedID : uuid)
    : prog world response job :=
  t ← try_ Pool (reads (install_target signedID (rc_deviceID rc)));
  match t with
  | inr (Some t) =>
      r ← attempt (Create "device-service" (refresh_install_request rc signID signedID t));
      match r with
      | inl e => fail BadRequest (error_text e)
      | inr install =>
          c ← attempt (ClaimSpecific (job_service s) agent (j_id install));
          match c with
          | inl e => Throw (writeJSON Conflict (JObj [("error", JStr (error_text e));
                       ("install_job_id", JStr (uuid_text (j_id install)));
                       ("install_state", JStr (j_state install))]))
          | inr claimed => Ret claimed
          end
      end
  | _ => fail BadRequest "signed artifact or device not found"
  end.

Definition ensure_install (s : Server) (agent refreshID : uuid) : prog world response job :=
  rc ← loadRefreshContext refreshID;
  n ← try_ Pool (reads (newest_sign refreshID));
  match n with
  | inr (Some sign) =>
      g ← try_ Pool (reads (job_by_id (j_id sign)));
      let state := match g with inr (Some j) => j_state j | _ => "" end in
      match g with
      | inr (Some j) =>
          if negb (j_state j =s StateCompleted)
          then Throw (writeJSON Conflict (JObj [("error", JStr "sign job is not completed");
                 ("sign_job_id", JStr (uuid_text (j_id sign))); ("sign_state", JStr state)]))
          else match signed_result (j_result j) with
               | None => fail Conflict "sign job completed without a signed artifact"
               | Some signedID => hand_out_install s agent rc (j_id sign) signedID
               end
      | _ => Throw (writeJSON Conflict (JObj [("error", JStr "sign job is not completed");
               ("sign_job_id", JStr (uuid_text (j_id sign))); ("sign_state", JStr state)]))
      end
  | _ => fail Conflict "no sign job for this refresh yet"
  end.

Definition handleDeviceEnsureInstall (s : Server) (agent : uuid) (path_id : string) : handler :=
  match uuid_parse path_id with
  | None => fail BadRequest "invalid refresh job id"
  | Some refreshID => j ← ensure_install s agent refreshID; ok StatusOK (job_json j)
  end.

Definition handleDeviceGetJob (path_id : string) : handler :=
  match uuid_parse path_id with
  | None => fail BadRequest "invalid job id"
  | Some jobID =>
      r ← attempt (Get jobID);
      match r with
      | inl _ => fail NotFound "job not found"
      | inr j => ok StatusOK (job_json j)
      end
  end.

End refresh.
