(* ===== verification/RefreshSpec.v ===== *)
(** What the refresh orchestration guarantees: when and to what a refresh may be
    upgraded, what a sign job is created for, and which install is handed out.
    At the end, refreshes on which the theorems apply, and the fallback that signs
    an artifact nobody approved. *)
From S2P Require Import Prelude GoStrings Effects Versions GoTime Schema Samples AuditLog Jobs JobsInvariant JobsSpec JobsCreate JobsOutcome JobsWitness Scheduler Http Auth Agents Artifacts Signing Refresh.

(** ** The choice of an update *)

Definition ver (a : artifact) : string := default "" (ar_version a).

(** A candidate that may replace [version]. *)
Definition eligible (version : string) (a : artifact) : Prop :=
  0 < compareVersions (ver a) version /\ looksPrerelease (ver a) = false
  /\ looksPrerelease (ar_filename a) = false.

(** [a] is the choice among [l]: no eligible candidate reads as a higher
    version, as far as versions are numbers. *)
Definition best_of (version : string) (l : list artifact) (a : artifact) : Prop :=
  a ∈ l /\ eligible version a
  /\ ((forall x, x ∈ l -> eligible version x -> numeric_version (ver x)) ->
      forall x, x ∈ l -> eligible version x -> compareVersions (ver x) (ver a) <= 0).

Definition chosen (version : string) (l : list artifact) (o : option (uuid * string)) : Prop :=
  match o with
  | None => forall x, x ∈ l -> ~ eligible version x
  | Some b => exists a, b = (ar_id a, ver a) /\ best_of version l a
  end.

Lemma better_update_cases version best a :
  (eligible version a /\ better_update version best a =
     match best with
     | Some (_, bv) => if 0 <? compareVersions (ver a) bv then Some (ar_id a, ver a) else best
     | None => Some (ar_id a, ver a) end)
  \/ (~ eligible version a /\ better_update version best a = best).
Proof.
  unfold better_update, eligible, ver. destruct (compareVersions _ version <=? 0) eqn:E1; simpl; bools.
  { right. split; [lia|done]. }
  destruct (looksPrerelease _) eqn:E2; simpl; [right; split; [naive_solver congruence|done]|].
  destruct (looksPrerelease (ar_filename a)) eqn:E3; simpl; [right; split; [naive_solver congruence|done]|].
  left. split_and!; done || lia.
Qed.

Lemma chosen_step version l best a :
  chosen version l best -> chosen version (l ++ [a]) (better_update version best a).
Proof.
  intros Hc. destruct (better_update_cases version best a) as [[He ->]|[He ->]].
  - destruct best as [[u bv]|]; simpl in Hc.
    + destruct Hc as (b & Eb & Hb & Heb & Hmax). injection Eb as -> ->.
      destruct (0 <? compareVersions (ver a) (ver b)) eqn:Ec; bools.
      * exists a. split; [done|]. split; [set_solver|]. split; [done|]. intros Hn x Hx Hex.
        apply elem_of_app in Hx as [Hx| ->%list_elem_of_singleton].
        { assert (compareVersions (ver x) (ver b) <= 0) by (apply Hmax; [intros z Hz; apply Hn; set_solver|done..]).
          assert (compareVersions (ver b) (ver a) <= 0) by (rewrite compareVersions_antisym_aux; lia).
          eapply compareVersions_numeric_le_trans; [..|done|done]; apply Hn; set_solver. }
        { pose proof (compareVersions_antisym_aux (ver a) (ver a)). lia. }
      * exists b. split; [done|]. split; [set_solver|]. split; [done|]. intros Hn x Hx Hex.
        apply elem_of_app in Hx as [Hx| ->%list_elem_of_singleton]; [apply Hmax; [intros z Hz; apply Hn; set_solver|done..]|lia].
    + exists a. split; [done|]. split; [set_solver|]. split; [done|]. intros _ x Hx Hex.
      apply elem_of_app in Hx as [Hx| ->%list_elem_of_singleton]; [by apply Hc in Hx|].
      pose proof (compareVersions_antisym_aux (ver a) (ver a)). lia.
  - destruct best as [b|]; simpl in *.
    + destruct Hc as (x & -> & Hx & Hex & Hmax). exists x. split; [done|]. split; [set_solver|].
      split; [done|]. intros Hn y Hy Hey. apply elem_of_app in Hy as [Hy| ->%list_elem_of_singleton]; [|by destruct He].
      apply Hmax; [|done..]. intros z Hz. apply Hn. set_solver.
    + intros x Hx. apply elem_of_app in Hx as [Hx| ->%list_elem_of_singleton]; auto.
Qed.

Lemma best_update_from version l l0 o :
  chosen version l0 o -> chosen version (l0 ++ l) (fold_left (better_update version) l o).
Proof.
  revert l0 o. induction l as [|a l IH]; intros l0 o Ho; simpl; [by rewrite app_nil_r|].
  rewrite cons_middle, app_assoc. by apply IH, chosen_step.
Qed.

Lemma best_update_chosen version l : chosen version l (best_update version l).
Proof. apply (best_update_from version l []). intros x Hx. set_solver. Qed.

Section refresh.
Context `{UuidText}.

(** The rows an update of [source] in deployment [d] is taken from. *)
Definition consents (w : world) (d source : uuid) (bundle version platform : string) : Prop :=
  exists policy, update_basis d source w = Some (policy, bundle, version, platform)
    /\ bundle <> "" /\ auto_update policy = true.

Definition update_row (w : world) (source : uuid) (bundle platform : string) (a : artifact) : Prop :=
  (exists i, W_artifacts w !! i = Some a) /\ ar_bundle_identifier a = Some bundle
  /\ default "" (ar_platform a) = platform /\ ar_quarantine_state a = "approved" /\ ar_id a <> source.

Lemma update_candidates_spec bundle platform source w a :
  a ∈ update_candidates bundle platform source w <-> update_row w source bundle platform a.
Proof using.
  unfold update_candidates, update_row. rewrite elem_of_select, elem_of_rows, !andb_true_iff, opt_is_true.
  bools. naive_solver.
Qed.

(** What a resolved update is. *)
Definition upgrade (w : world) (d source : uuid) (u : uuid * string * string) : Prop :=
  exists bundle platform a, consents w d source bundle u.2 platform
    /\ u.1 = (ar_id a, ver a) /\ best_of u.2 (update_candidates bundle platform source w) a.

Lemma wp_resolveUpdateArtifact {E} d source w :
  wp (@resolveUpdateArtifact E d source) (fun r w' => w' = w /\ exists o, r = inr o
    /\ match o with Some u => upgrade w d source u | None => True end) w.
Proof using.
  match goal with |- wp _ ?Q _ => assert (Hno : Q (inr None) w) by (split; [done|by exists None]) end.
  unfold resolveUpdateArtifact. apply wp_try_bind; [done|].
  unfold reads at 1. destruct (update_basis d source w) as [[[[policy bundle] version] platform]|] eqn:Eb;
    [|done].
  destruct (bundle =s "") eqn:En; [done|]. destruct (auto_update policy) eqn:Ea; [|done].
  apply wp_try_bind; [done|]. unfold reads. split; [done|]. eexists. split; [done|].
  pose proof (best_update_chosen version (update_candidates bundle platform source w)) as Hc.
  destruct (best_update version _) as [b|]; simpl; [|done]. destruct Hc as (a & -> & Ha).
  exists bundle, platform, a. bools. split_and!; [exists policy; done|done|done].
Qed.

(** C26. An automatic update needs the operator's consent and is the newest
    approved release: whatever fails, the artifact chosen instead of the
    scheduled one is an approved row of the same bundle and platform with a
    higher version that does not look like a prerelease, and among such rows no
    version is higher when they are numbers; nothing is written. *)
Theorem update_needs_consent {E} d source fl w r w' :
  run fl (@resolveUpdateArtifact E d source) w = (r, w') ->
  w' = w /\ forall u uv v, r = inr (Some (u, uv, v)) ->
    exists bundle platform a, consents w d source bundle v platform
      /\ update_row w source bundle platform a /\ u = ar_id a /\ uv = ver a /\ eligible v a
      /\ ((forall x, update_row w source bundle platform x -> eligible v x -> numeric_version (ver x)) ->
          forall x, update_row w source bundle platform x -> eligible v x ->
          compareVersions (ver x) uv <= 0).
Proof using.
  intros Hrun. apply (wp_run_eq _ _ _ _ _ _ (wp_resolveUpdateArtifact d source w)) in Hrun as (-> & o & -> & Ho).
  split; [done|]. intros u uv v [= ->]. destruct Ho as (bundle & platform & a & Hc & Hu & Ha & He & Hm).
  simpl in *. injection Hu as -> ->. exists bundle, platform, a.
  rewrite <- update_candidates_spec. split_and!; try done.
  intros Hn x Hx Hex. apply Hm; [|by apply update_candidates_spec|done].
  intros y Hy. apply Hn. by apply update_candidates_spec.
Qed.

(** ** The context of a refresh *)

(** Where the account comes from: the scheduler's parameters, else the
    deployment's installation record. *)
Definition account_source (w : world) (p : refreshParams) (appleID : string) : Prop :=
  appleID <> "" /\
  (rp_AppleID p = appleID
   \/ exists d, rp_DeploymentID p = Some d /\ rp_AppleID p = "" /\ deployment_account d w = Some appleID).

Definition is_approved (w : world) (id : uuid) : Prop :=
  exists a, W_artifacts w !! id = Some a /\ ar_quarantine_state a = "approved".

(** What [loadRefreshContext] has checked. *)
Record ready (w : world) (refreshID : uuid) (rc : refreshContext) : Prop := {
  rd_id : rc_refreshID rc = refreshID;
  rd_job : exists j p, W_jobs w !! refreshID = Some j /\ j_job_type j = JobTypeRefresh
    /\ is_active j = true /\ j_device_id j = Some (rc_deviceID rc)
    /\ decode_refreshParams (j_parameters j) = Some p /\ rc_deploymentID rc = rp_DeploymentID p
    /\ account_source w p (rc_appleID rc)
    /\ match rc_updateFrom rc with
       | None => rc_sourceID rc = refresh_source p
       | Some o => o = refresh_source p /\ exists d uv v, rp_DeploymentID p = Some d
                   /\ upgrade w d o (rc_sourceID rc, uv, v)
       end;
  rd_approved : is_approved w (rc_sourceID rc);
  rd_device : exists dev, W_devices w !! rc_deviceID rc = Some dev /\ rc_udid rc = dv_udid dev
    /\ rc_platform rc = dv_platform dev;
}.

Lemma wp_account_for {E} p w :
  wp (@account_for E p) (fun r w' => w' = w /\ exists a, r = inr a
    /\ (a <> "" -> account_source w p a)) w.
Proof using.
  unfold account_for, account_source. destruct (rp_DeploymentID p) as [d|]; [|simpl; eauto 8].
  destruct (rp_AppleID p =s "") eqn:Ea; bools; [|simpl; eauto 8].
  apply wp_try_bind; [simpl; eauto 8|]. unfold reads. simpl. split; [done|]. eexists. split; [done|].
  intros Hne. split; [done|]. right. exists d. destruct (deployment_account d w); naive_solver.
Qed.

Lemma wp_update_for {E} p w :
  wp (@update_for E p) (fun r w' => w' = w /\ exists o, r = inr o
    /\ match o with Some u => exists d, rp_DeploymentID p = Some d /\ upgrade w d (refresh_source p) u
       | None => True end) w.
Proof using.
  unfold update_for. destruct (rp_DeploymentID p) as [d|]; [|split; [done|by exists None]].
  eapply wp_mono; [|apply wp_resolveUpdateArtifact]. intros r w' (-> & o & -> & Ho).
  split; [done|]. exists o. split; [done|]. destruct o; eauto.
Qed.

(** A read whose result is inspected. *)
Lemma wp_read {E A X} c (g : world -> X) (k : sqlerr + X -> prog world E A) Q w :
  wp (k (inl Fault)) Q w -> wp (k (inr (g w))) Q w -> wp (try_ c (reads g) ≫= k) Q w.
Proof using. intros. by apply wp_try_bind. Qed.

Lemma wp_loadRefreshContext refreshID w :
  wp (loadRefreshContext refreshID)
    (fun r w' => w' = w /\ forall rc, r = inr rc -> ready w refreshID rc) w.
Proof using.
  match goal with |- wp _ ?Q _ => assert (Hno : forall e, Q (inl e) w) by done end.
  unfold loadRefreshContext. apply wp_read; [apply Hno|].
  destruct (job_by_id refreshID w) as [j|] eqn:Ej; [|apply Hno].
  destruct (j_job_type j =s JobTypeRefresh) eqn:Et; simpl negb; cbv iota; [|apply Hno].
  destruct (j_device_id j) as [dev|] eqn:Ed; [|apply Hno].
  destruct (is_active j) eqn:Ea; simpl negb; cbv iota; [|apply Hno].
  destruct (decode_refreshParams _) as [p|] eqn:Ep; [|apply Hno].
  apply wp_bind. eapply wp_mono; [|apply wp_update_for]. intros r w' (-> & u & -> & Hu).
  apply wp_read; [apply Hno|].
  destruct (W_artifacts w !! _) as [a|] eqn:Eq; [|apply Hno].
  destruct (ar_quarantine_state a =s "approved") eqn:Eap; simpl negb; cbv iota; [|apply Hno].
  apply wp_read; [apply Hno|]. destruct (W_devices w !! dev) as [d|] eqn:Edv; [|apply Hno].
  apply wp_bind. eapply wp_mono; [|apply wp_account_for]. intros r w' (-> & acc & -> & Hacc).
  destruct (acc =s "") eqn:Eacc; [apply Hno|]. bools. split; [done|]. intros rc [= <-].
  split; simpl; [done| |by exists a|by exists d].
  exists j, p. split_and!; try done; [by apply Hacc|].
  destruct u as [[[uid uv] v]|]; [|done]. destruct Hu as (dep & Hdep & Hu). simpl. eauto 8.
Qed.

(** ** Signing for a refresh *)

Lemma wp_refresh_sign refreshID body w :
  wf_jobs w ->
  wp (refresh_sign refreshID body) (fun r w' =>
    match r with
    | inl _ => only_jobs w w' /\ W_jobs w' = W_jobs w
    | inr x => exists rc, ready w refreshID rc
        /\ enqueued (cr_IdempotencyKey (refresh_sign_request rc (sign_source (fallback_of body) rc)))
             (created_as (refresh_sign_request rc (sign_source (fallback_of body) rc))) w
             (@inr response job x.1) w'
    end) w.
Proof using.
  intros Hw. unfold refresh_sign. apply wp_bind. eapply wp_mono; [|apply wp_loadRefreshContext].
  intros [e|rc] w' (-> & Hr); [by split; [apply only_jobs_refl|]|]. specialize (Hr rc eq_refl).
  apply wp_bind, wp_attempt. eapply wp_mono; [|by apply wp_Create].
  intros [e|j] w' (Ho & Hw' & Hf & Hj); [by split|]. exists rc. by split_and!.
Qed.

(** Asked again under the same key, the job that holds it is the answer. *)
Lemma refresh_sign_again refreshID body fl w j j2 resp2 w2 :
  wf_jobs w -> W_jobs w !! j_id j = Some j ->
  run fl (refresh_sign refreshID body) w = (inr (j2, resp2), w2) ->
  j_idempotency_key j2 = j_idempotency_key j -> j2 = j /\ W_jobs w2 = W_jobs w.
Proof using.
  intros Hw Hj Hrun Hkey. apply (wp_run_eq _ _ _ _ _ _ (wp_refresh_sign refreshID body w Hw)) in Hrun.
  destruct Hrun as (rc & _ & _ & _ & _ & Hk & Hl & Hc). cbn [fst] in *.
  destruct Hc as [[_ Heq]|(Hno & _)].
  - rewrite Heq in Hl. split; [|done].
    assert (j_id j2 = j_id j) as Hid by (eapply (wf_keys _ Hw); eauto). congruence.
  - exfalso. eapply exists_row_false in Hno; [|exact Hj]. bools. congruence.
Qed.

(** C24. A sign job for a refresh.  The request is made only for an active refresh
    job of a known device with an account that was named or recorded, never
    guessed; its source is the scheduled artifact or a consented upgrade of it,
    and approved unless the caller fell back from an upgrade to the original.
    When no job has the key of the request, which is the refresh and the first
    eight characters of the source, the answer is a new pending job of exactly
    this request and no other row changes; when one has, that job is the answer,
    as it stands and whatever it was made for ([fallback_key_collides]), and no
    row changes at all.  A later call whose answer has the same key returns the
    same job and changes nothing; an error changes nothing. *)
Theorem refresh_sign_spec refreshID body fl w r w' :
  wf_jobs w -> run fl (refresh_sign refreshID body) w = (r, w') ->
  only_jobs w w'
  /\ (forall e, r = inl e -> W_jobs w' = W_jobs w)
  /\ (forall j resp, r = inr (j, resp) -> exists rc,
       let source := sign_source (fallback_of body) rc in
       let key := "refresh-sign:" ++s uuid_text refreshID ++s ":" ++s str_take 8 (uuid_text source) in
       ready w refreshID rc
       /\ (is_approved w source \/ (fallback_of body = true /\ rc_updateFrom rc <> None))
       /\ j_idempotency_key j = key /\ W_jobs w' !! j_id j = Some j
       /\ ((key_taken key w = true /\ W_jobs w !! j_id j = Some j /\ W_jobs w' = W_jobs w)
           \/ (key_taken key w = false /\ W_jobs w !! j_id j = None /\ W_jobs w' = <[j_id j := j]> (W_jobs w)
               /\ j_state j = StatePending /\ created_as (refresh_sign_request rc source) j))
       /\ forall body2 fl2 j2 resp2 w2,
            run fl2 (refresh_sign refreshID body2) w' = (inr (j2, resp2), w2) ->
            j_idempotency_key j2 = key -> j2 = j /\ W_jobs w2 = W_jobs w').
Proof using.
  intros Hw Hrun. apply (wp_run_eq _ _ _ _ _ _ (wp_refresh_sign refreshID body w Hw)) in Hrun.
  destruct r as [e|[j resp]].
  - destruct Hrun as [Ho Hj]. split_and!; [done|by intros ? _|done].
  - destruct Hrun as (rc & Hr & Ho & Hw' & Hf & Hk & Hl & Hc). split_and!; [done|done|].
    intros ? ? [= <- <-]. exists rc. cbv zeta.
    cbn [cr_IdempotencyKey refresh_sign_request fst] in Hk, Hc. rewrite (rd_id _ _ _ Hr) in Hk, Hc.
    split_and!; [done| |done|done| |].
    + unfold sign_source. destruct (rc_updateFrom rc) eqn:Eu; [|left; apply Hr].
      destruct (fallback_of body); [by right|left; apply Hr].
    + destruct Hc as [[Ht Hc]|(Hno & _ & Hn & Hi & Hs & _ & Hc)]; [left|by right].
      by rewrite Hc in Hl.
    + intros body2 fl2 j2 resp2 w2 Hrun2 Hk2. eapply refresh_sign_again; [done..|congruence].
Qed.

(** ** Handing out the install *)

(** A job the caller holds, or one that is done. *)
Definition handed (agent : uuid) (j : job) : Prop :=
  j_state j = StateCompleted \/ (is_active j = true /\ j_claimed_by j = Some agent).

Definition others_same (id : uuid) (w w' : world) : Prop :=
  forall i, i <> id -> W_jobs w' !! i = W_jobs w !! i.

Lemma wp_claim_pending s agent id w :
  wp (claim_pending s agent id) (fun r w' => others_same id w w'
    /\ match r with
       | inl _ => True
       | inr j => W_jobs w' !! id = Some j /\ handed agent j
                  /\ exists j0, W_jobs w !! id = Some j0 /\ same_identity j0 j
       end) w.
Proof using.
  unfold claim_pending. apply wp_try_bind; [done|].
  destruct (claim_stmt _ _ _ _ w) as [e|[x w']] eqn:Ec; [done|].
  apply claim_stmt_inv in Ec as [[-> ->]|(j & Ej & _ & _ & -> & ->)]; [done|]. rewrite Ej.
  assert (Hrow : forall w', W_jobs w' = <[id := claim_row agent (leaseInterval s) (w_now w) j]> (W_jobs w) ->
    others_same id w w' /\ W_jobs w' !! id = Some (claim_row agent (leaseInterval s) (w_now w) j)
    /\ handed agent (claim_row agent (leaseInterval s) (w_now w) j)
    /\ exists j0, Some j = Some j0 /\ same_identity j0 (claim_row agent (leaseInterval s) (w_now w) j)).
  { intros w' Hw'. split_and!.
    - intros i Hi. by rewrite Hw', lookup_insert_ne.
    - by rewrite Hw', lookup_insert_eq.
    - by right.
    - exists j. split; [done|]. by repeat split. }
  split; by apply Hrow.
Qed.

Lemma wp_Get id w :
  wp (Get id) (fun r w' => w' = w /\ match r with inl _ => True | inr j => W_jobs w !! id = Some j end) w.
Proof using.
  unfold Get. split; [done|]. simpl. unfold job_by_id. by destruct (W_jobs w !! id) eqn:E.
Qed.

Lemma wp_ClaimSpecific s agent id w :
  wp (ClaimSpecific s agent id) (fun r w' => others_same id w w'
    /\ match r with
       | inl _ => True
       | inr j => W_jobs w' !! id = Some j /\ handed agent j
                  /\ exists j0, W_jobs w !! id = Some j0 /\ same_identity j0 j
       end) w.
Proof using.
  assert (Hget : forall j, W_jobs w !! id = Some j -> handed agent j ->
    wp (Get id) (fun r w' => others_same id w w' /\ match r with inl _ => True | inr x =>
       W_jobs w' !! id = Some x /\ handed agent x /\ exists j0, W_jobs w !! id = Some j0 /\ same_identity j0 x end) w).
  { intros j Hj Hh. eapply wp_mono; [|apply wp_Get]. intros [e|x] w' [-> Hx]; [done|].
    simplify_eq. split_and!; try done. eauto using same_identity_refl. }
  unfold ClaimSpecific. apply wp_read; [done|]. destruct (job_by_id id w) as [c|] eqn:Ec; [|done].
  unfold job_by_id in Ec. destruct (j_state c =s StateCompleted) eqn:E1.
  { bools. apply (Hget c); [done|by left]. }
  destruct ((j_state c =s StateClaimed) || _) eqn:E2.
  { destruct (opt_is (j_claimed_by c) agent) eqn:E3; [|done]. apply opt_is_true in E3.
    apply (Hget c); [done|by right]. }
  destruct ((j_state c =s StateFailed) || _) eqn:E4.
  - apply wp_try_bind; [done|]. unfold writes, update_job. rewrite Ec.
    eapply wp_mono; [|apply wp_claim_pending]. intros r w' [Ho Hr]. simpl in *. split.
    + intros i Hi. rewrite Ho by done. simpl. by rewrite lookup_insert_ne.
    + destruct r as [e|j]; [done|]. destruct Hr as (Hl & Hh & j0 & Hj0 & Hs).
      rewrite lookup_insert_eq in Hj0. injection Hj0 as <-. split_and!; [done..|]. exists c. by split.
  - destruct (j_state c =s StatePending); [|done].
    apply wp_claim_pending.
Qed.

Lemma same_identity_trans j1 j2 j3 : same_identity j1 j2 -> same_identity j2 j3 -> same_identity j1 j3.
Proof using. unfold same_identity. intuition congruence. Qed.

(** What an install was handed out for: the newest sign child of the refresh is
    complete and names the signed artifact, which the device's install is of. *)
Definition install_for (w : world) (refreshID signedID : uuid) (rc : refreshContext) : Prop :=
  ready w refreshID rc
  /\ exists sign t, newest_sign refreshID w = Some sign /\ j_state sign = StateCompleted
     /\ signed_result (j_result sign) = Some signedID /\ install_target signedID (rc_deviceID rc) w = Some t.

(** The row a job of key [k] had, and which rows may differ. *)
Definition handed_out (agent : uuid) (k : string) (w : world) (j : job) (w' : world) : Prop :=
  handed agent j /\ j_idempotency_key j = k /\ W_jobs w' !! j_id j = Some j /\ others_same (j_id j) w w'.

Lemma wp_hand_out s agent rc signID signedID w :
  wf_jobs w ->
  wp (hand_out_install s agent rc signID signedID) (fun r w' => forall j, r = inr j ->
     is_Some (install_target signedID (rc_deviceID rc) w)
     /\ handed_out agent ("refresh-install:" ++s uuid_text (rc_refreshID rc) ++s ":" ++s uuid_text signedID) w j w'
     /\ (key_taken (j_idempotency_key j) w = true
         \/ exists j0 t, install_target signedID (rc_deviceID rc) w = Some t /\ same_identity j0 j
             /\ created_as (refresh_install_request rc signID signedID t) j0)) w.
Proof using.
  intros Hw. unfold hand_out_install. apply wp_read; [done|].
  destruct (install_target _ _ w) as [t|] eqn:Et; [|done].
  apply wp_bind, wp_attempt. eapply wp_mono; [|by apply wp_Create].
  intros [e|i] w1 (Ho & Hw1 & Hf & Hj); [done|]. destruct Hj as (Hk & Hl & Hc).
  apply wp_bind, wp_attempt. eapply wp_mono; [|apply wp_ClaimSpecific].
  intros [e|j] w2 [Hs Hh]; [done|]. destruct Hh as (Hl2 & Hh & j0 & Hj0 & Hid). intros ? [= <-].
  rewrite Hl in Hj0. injection Hj0 as <-. assert (Hjid : j_id j = j_id i) by apply Hid.
  split; [by eauto|]. split.
  - split_and!; [done| |by rewrite Hjid|].
    + transitivity (j_idempotency_key i); [apply Hid|exact Hk].
    + rewrite Hjid. intros x Hx. rewrite Hs by done.
      destruct Hc as [[_ ->]|(_ & _ & _ & -> & _)]; [done|]. by rewrite lookup_insert_ne.
  - destruct Hc as [[Ht _]|(_ & _ & _ & _ & _ & _ & Hc)].
    + left. rewrite <- Ht, <- Hk. f_equal. apply Hid.
    + right. eauto.
Qed.

Lemma newest_sign_row refreshID w sign :
  wf_jobs w -> newest_sign refreshID w = Some sign -> W_jobs w !! j_id sign = Some sign.
Proof using.
  intros Hw Hs. apply first_by_elem, elem_of_select in Hs as [[i Hi]%elem_of_rows _].
  destruct (wf_row _ Hw _ _ Hi) as [-> _]. done.
Qed.

End refresh.

(** * Concrete refreshes *)

#[local] Existing Instance sample_uuid.

Definition ipa (id : uuid) (version state : string) : artifact :=
  MkArtifact id (sample_text id) "App.ipa" (Some version) None (Some "com.app") (Some "iPhoneOS") None []
    (Some "upload") state 0.

Definition refresh_params_json : json :=
  JObj [("deployment_id", JStr (sample_text 20)); ("artifact_id", JStr (sample_text 3));
        ("apple_id", JStr "me@example.com")].

Definition active_refresh : job :=
  claim_row 7 (5 * Minute) Hour
    (new_job JobTypeRefresh (Some 1%N) None refresh_params_json "refresh:20" 5 None None (Some "refresh") 50 0).

Definition refresh_db (original_state : string) (policy : option json) : world :=
  set_db (on_artifacts (fun _ => {[3%N := ipa 3 "1.9" original_state; 4%N := ipa 4 "1.10" "approved"]}))
    (set_db (on_deployments (fun _ => {[20%N := MkDeployment 20 1 policy None None None None None]}))
       (world_with active_refresh)).

Definition consent : option json := Some (JObj [("auto_update", JBool true)]).

Lemma refresh_db_wf st policy : wf_jobs (refresh_db st policy).
Proof. destruct (world_with_wf active_refresh) as [Hr Hk]; [|done|by split]. apply claim_row_wf, new_job_wf. Qed.

Lemma update_needs_consent_witness :
  run [] (resolveUpdateArtifact (E := response) 20 3) (refresh_db "approved" consent)
    = (inr (Some (4%N, "1.10", "1.9")), refresh_db "approved" consent)
  /\ exists bundle platform a, consents (refresh_db "approved" consent) 20 3 bundle "1.9" platform
       /\ update_row (refresh_db "approved" consent) 3 bundle platform a /\ ar_id a = 4%N.
Proof.
  assert (Hrun : run [] (resolveUpdateArtifact (E := response) 20 3) (refresh_db "approved" consent)
    = (inr (Some (4%N, "1.10", "1.9")), refresh_db "approved" consent)) by (vm_compute; reflexivity).
  split; [exact Hrun|].
  destruct (update_needs_consent 20 3 [] _ _ _ Hrun) as [_ Hu].
  destruct (Hu 4%N "1.10" "1.9" eq_refl) as (bundle & platform & a & Hc & Hr & Ha & _).
  exists bundle, platform, a. done.
Defined.

(** Without consent, or for a prerelease, the scheduled artifact is signed. *)
Example no_consent_no_update :
  (run [] (resolveUpdateArtifact (E := response) 20 3) (refresh_db "approved" None)).1 = inr None.
Proof. vm_compute. reflexivity. Qed.

Lemma refresh_sign_spec_witness :
  exists j resp w', run [] (refresh_sign 50 None) (refresh_db "approved" consent) = (inr (j, resp), w')
    /\ exists rc, ready (refresh_db "approved" consent) 50 rc /\ W_jobs w' !! j_id j = Some j.
Proof.
  assert (Hrun : exists j resp w', run [] (refresh_sign 50 None) (refresh_db "approved" consent)
            = (inr (j, resp), w')) by (eexists _, _, _; vm_compute; reflexivity).
  destruct Hrun as (j & resp & w' & Hrun). exists j, resp, w'. split; [exact Hrun|].
  destruct (refresh_sign_spec 50 None [] _ _ _ (refresh_db_wf _ _) Hrun) as (_ & _ & Hs).
  destruct (Hs j resp eq_refl) as (rc & Hr & _ & _ & Hl & _). exists rc. split; [exact Hr|exact Hl].
Defined.

(** ** The install *)

Definition sign_child : job :=
  updated_row svc (MkUpdateRequest StateCompleted None None None
      (Some (JObj [("signed_artifact_id", JStr (sample_text 9))]))) (2 * Hour)
    (claim_row 7 (5 * Minute) Hour
      (new_job JobTypeSign (Some 1%N) None (JObj []) "refresh-sign:50" 5 None (Some 50%N) (Some "refresh") 51 0)).

Definition signed9 : signed_artifact :=
  MkSigned 9 3 1 60 None None (Some "com.app.TEAM") None None (Some 51%N).

Definition install_db : world :=
  set_db (on_signed_artifacts (fun _ => {[9%N := signed9]}))
    (set_db (on_jobs (<[51%N := sign_child]>)) (refresh_db "approved" None)).

Lemma install_db_wf : wf_jobs install_db.
Proof.
  split; simpl.
  - intros id x [[<- <-]|[Hne [<- <-]%lookup_singleton_Some]]%lookup_insert_Some; (split; [done|]; split; [|done]).
    + apply updated_row_wf; [done|]. apply claim_row_wf, new_job_wf.
    + apply claim_row_wf, new_job_wf.
  - intros i1 i2 x1 x2 [[<- <-]|[Hne [<- <-]%lookup_singleton_Some]]%lookup_insert_Some
      [[<- <-]|[Hne2 [<- <-]%lookup_singleton_Some]]%lookup_insert_Some; done.
Qed.

Definition a_server : Server := NewServer svc "admin-key".


(** ** Flaws *)

(** The approval check covers the upgrade only: falling back from it enqueues a
    sign job for the original although the original is not approved. *)
Example fallback_signs_unapproved :
  let '(r, w') := exec (refresh_sign 50 (Some (JObj [("fallback", JBool true)]))) (refresh_db "quarantined" consent) in
  match r with
  | inr (j, _) => jget_text "artifact_id" (j_parameters j) = Some (sample_text 3)
  | inl _ => False
  end.
Proof. vm_compute. reflexivity. Qed.

Example unapproved_is_refused_otherwise :
  (exec (refresh_sign 50 None) (refresh_db "quarantined" None)).1
  = inl (writeJSON 400 (error_body "artifact must be approved before signing")).
Proof. vm_compute. reflexivity. Qed.

(** The key of a sign job has only the first eight characters of the source:
    artifacts that agree in these share their sign job, so the fallback of an
    upgrade is answered with the upgrade's job. *)
Example fallback_key_collides :
  str_take 8 (sample_text 3) = str_take 8 (sample_text 4)
  /\ let '(r1, w1) := exec (refresh_sign 50 None) (refresh_db "approved" consent) in
     let '(r2, _) := exec (refresh_sign 50 (Some (JObj [("fallback", JBool true)]))) w1 in
     match r1, r2 with
     | inr (j1, _), inr (j2, _) => j2 = j1 /\ jget_text "artifact_id" (j_parameters j2) = Some (sample_text 4)
     | _, _ => False
     end.
Proof. vm_compute. done. Qed.
