(* ===== verification/Base64.v ===== *)
(** encoding/base64, the standard encoding: with padding, line breaks ignored
    when reading. *)
From S2P Require Import Prelude GoStrings GoTime.

Definition b64_char (v : Z) : ascii :=
  ascii_of_N (Z.to_N (if v <? 26 then 65 + v else if v <? 52 then 71 + v else if v <? 62 then v - 4
                      else if v =? 62 then 43 else 47)).

Definition b64_val (c : ascii) : option Z :=
  let n := Z.of_N (byte_n c) in
  if (65 <=? n) && (n <=? 90) then Some (n - 65)
  else if (97 <=? n) && (n <=? 122) then Some (n - 71)
  else if (48 <=? n) && (n <=? 57) then Some (n + 4)
  else if n =? 43 then Some 62 else if n =? 47 then Some 63 else None.

Definition byte_z (c : ascii) : Z := Z.of_N (byte_n c).
Definition byte_of (n : Z) : ascii := ascii_of_N (Z.to_N (n mod 256)).

(** [base64.StdEncoding.EncodeToString] *)
Fixpoint b64_encode (s : string) : string :=
  match s with
  | String a (String b (String c r)) =>
      let n := byte_z a * 65536 + byte_z b * 256 + byte_z c in
      String (b64_char (n / 262144)) (String (b64_char (n / 4096 mod 64))
        (String (b64_char (n / 64 mod 64)) (String (b64_char (n mod 64)) (b64_encode r))))
  | String a (String b "") =>
      let n := byte_z a * 1024 + byte_z b * 4 in
      String (b64_char (n / 4096)) (String (b64_char (n / 64 mod 64)) (String (b64_char (n mod 64)) "="))
  | String a "" =>
      let n := byte_z a * 16 in String (b64_char (n / 64)) (String (b64_char (n mod 64)) "==")
  | EmptyString => ""
  end.

(** Groups of four; the last may be padded. *)
Fixpoint b64_groups (s : string) : option string :=
  match s with
  | EmptyString => Some ""
  | String a (String b (String c (String d r))) =>
      x ← b64_val a; y ← b64_val b;
      if Ascii.eqb c "=" then
        if Ascii.eqb d "=" && (r =s "") then Some (String (byte_of (x * 4 + y / 16)) "") else None
      else
        z ← b64_val c;
        if Ascii.eqb d "=" then
          if r =s "" then Some (String (byte_of (x * 4 + y / 16)) (String (byte_of (y * 16 + z / 4)) "")) else None
        else
          v ← b64_val d; t ← b64_groups r;
          Some (String (byte_of (x * 4 + y / 16)) (String (byte_of (y * 16 + z / 4)) (String (byte_of (z * 64 + v)) t)))
  | _ => None
  end.

Fixpoint strip_breaks (s : string) : string :=
  match s with
  | EmptyString => ""
  | String c r => if Ascii.eqb c "010" || Ascii.eqb c "013" then strip_breaks r else String c (strip_breaks r)
  end.

(** [base64.StdEncoding.DecodeString] *)
Definition b64_decode (s : string) : option string := b64_groups (strip_breaks s).

(** ** Round trip *)

(** What a digit of the encoding is. *)
Definition plain_digit (v : Z) : bool :=
  bool_decide (b64_val (b64_char v) = Some v) && negb (Ascii.eqb (b64_char v) "=")
  && negb (Ascii.eqb (b64_char v) "010") && negb (Ascii.eqb (b64_char v) "013").

Lemma digit_plain v : 0 <= v < 64 ->
  b64_val (b64_char v) = Some v /\ Ascii.eqb (b64_char v) "=" = false
  /\ Ascii.eqb (b64_char v) "010" || Ascii.eqb (b64_char v) "013" = false.
Proof.
  intros Hv. assert (plain_digit v = true) as Hp by (apply (all_below_spec plain_digit 64 0); [by vm_compute|lia]).
  unfold plain_digit in Hp. rewrite !andb_true_iff, !negb_true_iff in Hp. destruct Hp as [[[Ha Hb] Hc] Hd].
  bools. rewrite Hc, Hd. done.
Qed.

Lemma byte_z_bound c : 0 <= byte_z c < 256.
Proof. unfold byte_z, byte_n. pose proof (N_ascii_bounded c). lia. Qed.

Lemma byte_of_z c n : n mod 256 = byte_z c -> byte_of n = c.
Proof. intros Hn. unfold byte_of. rewrite Hn. unfold byte_z. rewrite N2Z.id. apply ascii_N_embedding. Qed.

Lemma strip_digit v r : 0 <= v < 64 -> strip_breaks (String (b64_char v) r) = String (b64_char v) (strip_breaks r).
Proof. intros Hv. simpl. by destruct (digit_plain v Hv) as (_ & _ & ->). Qed.

Ltac digits := split_and!; div_lia.

(** One group of four digits, read back as the bytes it came from. *)
Lemma group_full a b c r t :
  b64_groups r = Some t ->
  let n := byte_z a * 65536 + byte_z b * 256 + byte_z c in
  b64_groups (String (b64_char (n / 262144)) (String (b64_char (n / 4096 mod 64))
    (String (b64_char (n / 64 mod 64)) (String (b64_char (n mod 64)) r)))) = Some (String a (String b (String c t))).
Proof.
  intros Hr n. pose proof (byte_z_bound a). pose proof (byte_z_bound b). pose proof (byte_z_bound c).
  destruct (digit_plain (n / 262144)) as (E1 & _ & _); [unfold n; div_lia|].
  destruct (digit_plain (n / 4096 mod 64)) as (E2 & _ & _); [div_lia|].
  destruct (digit_plain (n / 64 mod 64)) as (E3 & F3 & _); [div_lia|].
  destruct (digit_plain (n mod 64)) as (E4 & F4 & _); [div_lia|].
  cbn [b64_groups]. rewrite E1, E2. cbn [mbind option_bind]. rewrite F3, E3. cbn [mbind option_bind].
  rewrite F4, E4, Hr. cbn [mbind option_bind].
  rewrite (byte_of_z a), (byte_of_z b), (byte_of_z c); [done|unfold n; div_lia..].
Qed.

Lemma group_two a b :
  let n := byte_z a * 1024 + byte_z b * 4 in
  b64_groups (String (b64_char (n / 4096)) (String (b64_char (n / 64 mod 64)) (String (b64_char (n mod 64)) "=")))
  = Some (String a (String b "")).
Proof.
  intros n. pose proof (byte_z_bound a). pose proof (byte_z_bound b).
  destruct (digit_plain (n / 4096)) as (E1 & _ & _); [unfold n; div_lia|].
  destruct (digit_plain (n / 64 mod 64)) as (E2 & _ & _); [div_lia|].
  destruct (digit_plain (n mod 64)) as (E3 & F3 & _); [div_lia|].
  cbn [b64_groups]. rewrite E1, E2. cbn [mbind option_bind]. rewrite F3, E3. cbn [mbind option_bind].
  change (Ascii.eqb "=" "=") with true. rewrite bool_decide_eq_true_2 by done.
  rewrite (byte_of_z a), (byte_of_z b); [done|unfold n; div_lia..].
Qed.

Lemma group_one a :
  let n := byte_z a * 16 in
  b64_groups (String (b64_char (n / 64)) (String (b64_char (n mod 64)) "==")) = Some (String a "").
Proof.
  intros n. pose proof (byte_z_bound a).
  destruct (digit_plain (n / 64)) as (E1 & _ & _); [unfold n; div_lia|].
  destruct (digit_plain (n mod 64)) as (E2 & _ & _); [div_lia|].
  cbn [b64_groups]. rewrite E1, E2. cbn [mbind option_bind].
  change (Ascii.eqb "=" "=") with true. cbn [andb]. rewrite bool_decide_eq_true_2 by done.
  rewrite (byte_of_z a); [done|unfold n; div_lia].
Qed.

Lemma strip_encode s : strip_breaks (b64_encode s) = b64_encode s.
Proof.
  assert (Hlen : forall n s, (String.length s <= n)%nat -> strip_breaks (b64_encode s) = b64_encode s).
  { clear. intros n. induction n as [|n IH]; intros [|a [|b [|c r]]] Hn; try done; simpl in Hn; try lia;
      pose proof (byte_z_bound a); try pose proof (byte_z_bound b); try pose proof (byte_z_bound c);
      cbn [b64_encode]; rewrite !strip_digit by div_lia; [done..|].
    rewrite IH by lia. done. }
  by apply (Hlen (String.length s)).
Qed.

Lemma b64_roundtrip s : b64_decode (b64_encode s) = Some s.
Proof.
  unfold b64_decode. rewrite strip_encode.
  assert (Hlen : forall n s, (String.length s <= n)%nat -> b64_groups (b64_encode s) = Some s).
  { clear. intros n. induction n as [|n IH]; intros [|a [|b [|c r]]] Hn; try done; simpl in Hn; try lia.
    - apply group_one.
    - apply group_two.
    - apply group_full, IH. lia. }
  by apply (Hlen (String.length s)).
Qed.
