(* ===== verification/Guard.v ===== *)
(** The Apple circuit breaker and rate cap of the signing worker
    (cmd/signing-worker/main.go, appleGuard). *)
From S2P Require Import Prelude GoStrings GoTime Effects Schema.

Definition breakerAuthThreshold : Z := 3.
Definition breakerCooldown : duration := Hour.
Definition maxAppleRunsPerHour : Z := 12.

Record appleGuardState := MkGuard {
  ConsecutiveAuthFailures : Z;
  BreakerUntilUnix : Z;
  AttemptUnix : list Z
}.

Definition zeroGuard : appleGuardState := MkGuard 0 0 [].

(** [t.Unix()] *)
Definition unix (t : instant) : Z := t / Second.

Definition prune (now : instant) (g : appleGuardState) : appleGuardState :=
  MkGuard (ConsecutiveAuthFailures g) (BreakerUntilUnix g)
    (select (fun t => unix (now - Hour) <=? t) (AttemptUnix g)).

(** [allow]: the verdict, and the state it leaves (pruned unless the breaker is
    open). *)
Definition allow (now : instant) (g : appleGuardState) : (bool * string) * appleGuardState :=
  if unix now <? BreakerUntilUnix g then
    ((false, "circuit breaker open after repeated Apple-auth failures; next probe at "
             ++s format_rfc3339 (BreakerUntilUnix g * Second)), g)
  else
    let g' := prune now g in
    if maxAppleRunsPerHour <=? Z.of_nat (length (AttemptUnix g')) then
      ((false, "Apple rate cap reached (" ++s itoa maxAppleRunsPerHour
               ++s " runs/hour); oldest attempt ages out at "
               ++s format_rfc3339 (default 0 (head (AttemptUnix g')) * Second + Hour)), g')
    else ((true, ""), g').

Definition noteRun (now : instant) (succeeded authFailure : bool) (g : appleGuardState)
    : appleGuardState :=
  let attempts := AttemptUnix g ++ [unix now] in
  if succeeded then MkGuard 0 (BreakerUntilUnix g) attempts
  else if authFailure then
    let n := wrap64 (ConsecutiveAuthFailures g + 1) in
    MkGuard n (if breakerAuthThreshold <=? n then unix (now + breakerCooldown) else BreakerUntilUnix g)
      attempts
  else MkGuard (ConsecutiveAuthFailures g) (BreakerUntilUnix g) attempts.

(** ** The state file *)

Definition encode_guard (g : appleGuardState) : json :=
  JObj [("consecutive_auth_failures", JNum (ConsecutiveAuthFailures g));
        ("breaker_until_unix", JNum (BreakerUntilUnix g));
        ("attempt_unix", match AttemptUnix g with [] => JNull | l => JArr (JNum <$> l) end)].

(** Decoding keeps the members it can read and leaves the others at zero. *)
Definition int_or_zero (j : option json) : Z :=
  match j with
  | Some (JNum z) => if (- 2 ^ 63 <=? z) && (z <? 2 ^ 63) then z else 0
  | _ => 0
  end.

Definition newAppleGuard (file : option json) : appleGuardState :=
  match file with
  | None => zeroGuard
  | Some j =>
      MkGuard (int_or_zero (jget "consecutive_auth_failures" j))
        (int_or_zero (jget "breaker_until_unix" j))
        match jget "attempt_unix" j with
        | Some (JArr l) => (fun x => int_or_zero (Some x)) <$> l
        | _ => []
        end
  end.

(** ** Specification *)

Definition int64 (z : Z) : Prop := - 2 ^ 63 <= z < 2 ^ 63.

Definition guard_in_range (g : appleGuardState) : Prop :=
  int64 (ConsecutiveAuthFailures g) /\ int64 (BreakerUntilUnix g)
  /\ Forall int64 (AttemptUnix g).

Lemma int_or_zero_num z : int64 z -> int_or_zero (Some (JNum z)) = z.
Proof.
  intros [H1 H2]. simpl. by rewrite (proj2 (Z.leb_le _ _) H1), (proj2 (Z.ltb_lt _ _) H2).
Qed.

(** The breaker survives a restart: what was saved is read back. *)
Theorem guard_survives_restart g :
  guard_in_range g -> newAppleGuard (Some (encode_guard g)) = g.
Proof.
  intros (H1 & H2 & H3). destruct g as [n b l].
  cbn [ConsecutiveAuthFailures BreakerUntilUnix AttemptUnix] in *.
  destruct l as [|x l].
  - change (MkGuard (int_or_zero (Some (JNum n))) (int_or_zero (Some (JNum b))) [] = MkGuard n b []).
    by rewrite (int_or_zero_num n H1), (int_or_zero_num b H2).
  - change (MkGuard (int_or_zero (Some (JNum n))) (int_or_zero (Some (JNum b)))
      ((fun y => int_or_zero (Some y)) <$> (JNum <$> x :: l)) = MkGuard n b (x :: l)).
    rewrite (int_or_zero_num n H1), (int_or_zero_num b H2), <- list_fmap_compose. f_equal.
    rewrite <- (list_fmap_id (x :: l)) at 2.
    apply list_fmap_ext. intros i y Hy. apply int_or_zero_num. by eapply Forall_lookup_1.
Qed.

(** *** The rate cap *)

(** How many recorded runs fall into [t, t + 3600]. *)
Definition in_window (t : Z) (runs : list Z) : Z :=
  Z.of_nat (length (select (fun x => (t <=? x) && (x <=? t + 3600)) runs)).

Definition recent (t : Z) (runs : list Z) : list Z := select (fun x => t <=? x) runs.

(** All the runs recorded so far against the guard's memory of them, at clock
    [now]: nothing recorded lies in the future, the guard remembers the last
    hour, and no hour holds more than the cap. *)
Record capped (runs : list Z) (now : instant) (g : appleGuardState) : Prop := {
  cp_past x : x ∈ runs -> x <= unix now;
  cp_memory : recent (unix now - 3600) (AttemptUnix g) = recent (unix now - 3600) runs;
  cp_cap t : in_window t runs <= maxAppleRunsPerHour;
}.

Lemma unix_mono t t' : t <= t' -> unix t <= unix t'.
Proof. intros. apply Z.div_le_mono; [done|lia]. Qed.

Lemma unix_shift t : unix (t - Hour) = unix t - 3600.
Proof.
  unfold unix. replace (t - Hour) with (t + (-3600) * Second) by (unfold Hour, Minute, Second; lia).
  rewrite Z.div_add by done. lia.
Qed.

Lemma recent_later t t' runs : t <= t' -> recent t' (recent t runs) = recent t' runs.
Proof.
  intros Ht. unfold recent. rewrite select_select. apply select_ext. intros x.
  destruct (Z.leb_spec t x), (Z.leb_spec t' x); simpl; try done. lia.
Qed.

(** Time passes. *)
Lemma capped_later runs now now' g : now <= now' -> capped runs now g -> capped runs now' g.
Proof.
  intros Hn [Hp Hm Hc]. pose proof (unix_mono _ _ Hn). split; [|..|done].
  - intros x Hx. specialize (Hp x Hx). lia.
  - rewrite <- (recent_later (unix now - 3600)) by lia. rewrite Hm. apply recent_later. lia.
Qed.

Lemma allow_capped runs now g r g' :
  allow now g = (r, g') -> capped runs now g -> capped runs now g'.
Proof.
  unfold allow, prune. rewrite unix_shift. intros Ha [Hp Hm Hc].
  repeat case_cond; injection Ha as <- <-; split; try done; simpl;
    fold (recent (unix now - 3600) (AttemptUnix g)); rewrite recent_later by lia; done.
Qed.

Lemma allow_true_few runs now g s g' :
  allow now g = ((true, s), g') -> capped runs now g ->
  Z.of_nat (length (recent (unix now - 3600) runs)) < maxAppleRunsPerHour.
Proof.
  unfold allow, prune. rewrite unix_shift. intros Ha [Hp Hm Hc]. rewrite <- Hm.
  repeat case_cond; try done. by apply Z.leb_gt in Heqb0.
Qed.

Lemma length_select_le {A} (p q : A -> bool) l :
  (forall x, p x = true -> q x = true) -> (length (select p l) <= length (select q l))%nat.
Proof.
  intros H. induction l as [|x l IH]; [done|]. simpl. specialize (H x).
  destruct (p x), (q x); simpl; lia.
Qed.

(** A run recorded after a favourable verdict keeps the cap. *)
Lemma noteRun_capped runs now now' g ok authf :
  now <= now' -> capped runs now' g ->
  Z.of_nat (length (recent (unix now - 3600) runs)) < maxAppleRunsPerHour ->
  capped (runs ++ [unix now']) now' (noteRun now' ok authf g).
Proof.
  intros Hn [Hp Hm Hc] Hfew. pose proof (unix_mono _ _ Hn) as Hu.
  assert (Ha : AttemptUnix (noteRun now' ok authf g) = AttemptUnix g ++ [unix now'])
    by (unfold noteRun; by repeat case_cond).
  split.
  - intros x [Hx|Hx%list_elem_of_singleton]%elem_of_app; [by apply Hp|lia].
  - rewrite Ha. unfold recent in *. rewrite !select_app. by rewrite Hm.
  - intros t. unfold in_window. rewrite select_app, length_app. simpl.
    destruct ((t <=? unix now') && (unix now' <=? t + 3600)) eqn:Ew; simpl; [|specialize (Hc t); unfold in_window in Hc; lia].
    bools. pose proof (length_select_le (fun x => (t <=? x) && (x <=? t + 3600))
      (fun x => unix now - 3600 <=? x) runs) as Hl.
    unfold recent in Hfew. unfold maxAppleRunsPerHour in *.
    assert (Hin : forall x, (t <=? x) && (x <=? t + 3600) = true -> (unix now - 3600 <=? x) = true).
    { intros x Hx. bools. destruct Hx. apply Z.leb_le. lia. }
    specialize (Hl Hin). lia.
Qed.

(** *** The breaker *)

(** A third failure in a row opens the breaker for the cooldown. *)
Lemma noteRun_until now g :
  0 <= ConsecutiveAuthFailures g < 2 ^ 62 -> breakerAuthThreshold <= ConsecutiveAuthFailures g + 1 ->
  BreakerUntilUnix (noteRun now false true g) = unix now + 3600.
Proof.
  intros Hr Hn. unfold noteRun. simpl.
  rewrite wrap64_id by lia. rewrite (proj2 (Z.leb_le _ _) Hn).
  unfold unix, breakerCooldown. replace (now + Hour) with (now + 3600 * Second)
    by (unfold Hour, Minute, Second; lia). by rewrite Z.div_add.
Qed.
