(* ===== verification/Worker.v ===== *)
(** The signing worker (cmd/signing-worker/main.go): credentials, the claim
    loop behind the Apple guard, the three kinds of jobs, and the envelope
    encryption of the signing state.

    The control plane and the helper binaries are outside the process: what
    they answer is a parameter of each run ([externals]).  The worker's state
    are the guard, the encrypted volume, the memory-backed runtime directory,
    the heartbeats running, and a trace of the statuses posted and of the helper
    runs. *)
From S2P Require Import Prelude GoStrings GoTime Effects Schema Guard Base64.

(** ** Configuration and credentials *)

Record config := MkConfig {
  controlPlane : string;
  agentStateDir : string;
  importDir : string;
  stateRuntime : string;
  signonlyBin : string;
  p12exportBin : string;
  appidsBin : string;
  anisetteURL : string;
  appleID : string;
  applePassword : string;
  enrolToken : string;
  codeFile : string
}.

Definition with_account (id password : string) (c : config) : config :=
  MkConfig (controlPlane c) (agentStateDir c) (importDir c) (stateRuntime c) (signonlyBin c)
    (p12exportBin c) (appidsBin c) (anisetteURL c) id password (enrolToken c) (codeFile c).

Definition envOr (env : string -> string) (key fallback : string) : string :=
  if env key =s "" then fallback else env key.

(** A line of a credentials file; what is already set stays. *)
Definition parse_line (c : config) (raw : string) : config :=
  let line := trim_space raw in
  let c := if has_prefix "SIDEY_APPLE_ID=" line && (appleID c =s "")
           then with_account (trim_prefix "SIDEY_APPLE_ID=" line) (applePassword c) c else c in
  if has_prefix "SIDEY_APPLE_MAIN_PASSWORD=" line && (applePassword c =s "")
  then with_account (appleID c) (trim_prefix "SIDEY_APPLE_MAIN_PASSWORD=" line) c else c.

Definition newline : ascii := "010".

Definition parseCreds (data : string) (c : config) : config :=
  fold_left parse_line (split_byte newline data) c.

Definition readCredsFile (file : option string) (c : config) : config :=
  match file with Some data => parseCreds data c | None => c end.

Definition loadCredsFile (file : option string) (c : config) : config := readCredsFile file c.

(** The configuration [main] starts with. *)
Definition load_config (env : string -> string) (secret state_file : option string) : config :=
  let c := MkConfig (envOr env "SIDEY_CONTROL_PLANE_URL" "http://127.0.0.1:8080")
    (envOr env "SIDEY_AGENT_STATE_DIR" "/var/lib/sidey/signing-worker")
    (env "SIDEY_IMPORT_STATE_DIR") (envOr env "SIDEY_STATE_RUNTIME_DIR" "/run/sidey/signing-state")
    (envOr env "SIDEY_SIGNONLY_BIN" "/usr/local/bin/signonly")
    (envOr env "SIDEY_P12EXPORT_BIN" "/usr/local/bin/p12export")
    (envOr env "SIDEY_APPIDS_BIN" "/usr/local/bin/appids")
    (envOr env "SIDEY_ANISETTE_URL" "http://127.0.0.1:6970")
    (env "SIDEY_APPLE_ID") (env "SIDEY_APPLE_MAIN_PASSWORD") (env "SIDEY_ENROLMENT_TOKEN")
    (envOr env "SIDEY_2FA_CODE_FILE" "/tmp/opencode/2fa-code.txt") in
  let c := if (appleID c =s "") || (applePassword c =s "") then readCredsFile secret c else c in
  loadCredsFile state_file c.

(** [json.Unmarshal] into a [map[string]string]: null is the empty string, any
    other type fails. *)
Definition string_map (j : json) : option (list (string * string)) :=
  match j with
  | JNull => Some []
  | JObj l => mapM (fun kv => match kv.2 with
                              | JStr s => Some (kv.1, s) | JNull => Some (kv.1, "")
                              | _ => None end) l
  | _ => None
  end.

Definition add_accounts (m : gmap string string) (file : option json) : gmap string string :=
  match file with
  | None => m
  | Some j =>
      match string_map j with
      | None => m
      | Some l =>
          (* the decoded map first: a later member replaces an earlier one *)
          let parsed := fold_left (fun p kv => <[kv.1 := kv.2]> p) l (∅ : gmap string string) in
          map_fold (fun id pass acc => if negb (id =s "") && negb (pass =s "") then <[id := pass]> acc
                                       else acc) m parsed
      end
  end.

Definition read_accounts (files : list (option json)) : gmap string string :=
  fold_left add_accounts files ∅.

Definition getCredentials (c : config) (files : list (option json)) (requested : string)
    : string * string :=
  let accounts := read_accounts files in
  if negb (requested =s "") then
    match accounts !! requested with
    | Some pass => (requested, pass)
    | None =>
        if (requested =s appleID c) && negb (applePassword c =s "") then (appleID c, applePassword c)
        else ("", "")
    end
  else if negb (appleID c =s "") && negb (applePassword c =s "") then (appleID c, applePassword c)
  else match map_to_list accounts with [(id, pass)] => (id, pass) | _ => ("", "") end.

(** ** Decoding *)

Record signParams := MkSignParams {
  sp_ArtifactID : string;
  sp_MachineName : string;
  sp_DeviceUdid : string;
  sp_DeviceName : string;
  sp_DeviceType : string;
  sp_AppleID : string;
  sp_SourceURL : string
}.

Definition decode_signParams (j : json) : option signParams :=
  _ ← is_struct j; a ← str_member "artifact_id" j; m ← str_member "machine_name" j;
  u ← str_member "udid" j; n ← str_member "device_name" j; t ← str_member "device_type" j;
  i ← str_member "apple_id" j; s ← str_member "source_url" j;
  Some (MkSignParams a m u n t i s).

Record exportP12Params := MkExportParams { ep_AppleID : string; ep_MachineName : string }.

Definition decode_exportP12Params (j : json) : option exportP12Params :=
  _ ← is_struct j; a ← str_member "apple_id" j; m ← str_member "machine_name" j;
  Some (MkExportParams a m).

Record appidsParams := MkAppidsParams { ap_Action : string; ap_AppleID : string; ap_AppIDs : list string }.

Definition decode_appidsParams (j : json) : option appidsParams :=
  _ ← is_struct j; a ← str_member "action" j; i ← str_member "apple_id" j; l ← strs_member "app_ids" j;
  Some (MkAppidsParams a i l).

(** What a helper prints; [hr_rest] keeps the members that are only passed on. *)
Record helperResult := MkHelperResult {
  hr_Status : string;
  hr_Category : string;
  hr_Error : string;
  hr_rest : json
}.

(** The members each helper's result type declares besides these. *)
Record resultShape := MkShape {
  sh_strings : list string; sh_ints : list string; sh_others : list string; sh_apps : list string }.

(** A list of structs of the three strings of [appIDsApp]. *)
Definition apps_member (k : string) (j : json) : option unit :=
  match jget k j with
  | None | Some JNull => Some tt
  | Some (JArr l) =>
      _ ← mapM (fun x => _ ← is_struct x; _ ← str_member "app_id_id" x; _ ← str_member "identifier" x;
                         str_member "name" x) l;
      Some tt
  | Some _ => None
  end.

Definition signonlyShape : resultShape :=
  MkShape ["signed_ipa_sha256"; "bundle_identifier"; "signed_bundle_identifier"; "version";
           "profile_expiry_at"; "cert_serial"; "team_id"]
    ["device_count"; "app_id_count"; "app_id_max_quantity"; "app_id_available_quantity"] [] [].
Definition p12Shape : resultShape :=
  MkShape ["p12_sha256"; "cert_serial"; "team_id"; "machine_name"; "machine_id"] [] [] [].
Definition appIDsShape : resultShape :=
  MkShape ["mode"] ["max_quantity"; "available_quantity"] ["deleted"] ["app_ids"].

(** [json.Unmarshal] of a helper's output; [None] when it is no JSON or a member
    has the wrong type. *)
Definition parse_result (sh : resultShape) (stdout : option json) : option helperResult :=
  j ← stdout; _ ← is_struct j;
  s ← str_member "status" j; c ← str_member "category" j; e ← str_member "error" j;
  _ ← mapM (fun k => str_member k j) (sh_strings sh);
  _ ← mapM (fun k => int_member k j) (sh_ints sh);
  _ ← mapM (fun k => strs_member k j) (sh_others sh);
  _ ← mapM (fun k => apps_member k j) (sh_apps sh);
  Some (MkHelperResult s c e j).

Definition parseSignonly (stdout : option json) : option helperResult := parse_result signonlyShape stdout.
Definition parseP12export (stdout : option json) : option helperResult := parse_result p12Shape stdout.
Definition parseAppIDs (stdout : option json) : option helperResult := parse_result appIDsShape stdout.

Definition rest_str (k : string) (r : helperResult) : string := default "" (str_member k (hr_rest r)).
Definition rest_int (k : string) (r : helperResult) : option Z :=
  match int_member k (hr_rest r) with Some o => o | None => None end.

(** ** The outside *)

Inductive process :=
| StartFailed (err : string)
| Exited (err : option string) (stdout : option json) (stderr : string)
| TimedOut.

(** A helper invocation: binary, arguments and the variables added to the
    environment. *)
Record invocation := MkInvocation { iv_bin : string; iv_args : list string; iv_env : list (string * string) }.

(** A file tree of one level of names, by relative path. *)
Abbreviation files := (gmap string string).

Record claimed_job := MkClaimed {
  cj_ID : string;
  cj_JobType : string;
  cj_DeviceID : option string;
  cj_Parameters : option json      (** [None] when it is no JSON *)
}.

(** The answer to a download: a transport error, or status and body, with the
    error that ends the body early, if any. *)
Inductive download_answer :=
  DownloadError (err : string) | DownloadAnswer (status : Z) (body : string) (cut : option string).

(** The answer to an upload: a transport error, or status, body text and the id
    in the body ([None] when the body does not decode). *)
Inductive upload_answer := UploadError (err : string) | UploadAnswer (status : Z) (body : string) (id : option string).

Record externals := MkExternals {
  ex_claim : option (list claimed_job);                  (** [None]: error or undecodable *)
  ex_download : string -> download_answer;               (** by artifact id *)
  ex_run : invocation -> process;
  ex_touch : invocation -> files -> files;               (** what the run does to the state files *)
  ex_took : invocation -> duration;
  ex_upload : list (string * string) -> upload_answer;
  ex_accounts : list (option json);                      (** the accounts.json files *)
  ex_io_text : string;                                   (** the text of an I/O error *)
  ex_kek : option string;                                (** the key, if one is configured *)
  ex_p12 : string                                        (** the exported file *)
}.

Class AeadOps := {
  aead_seal : string -> string -> string -> string;      (** key, nonce, plain text *)
  aead_open : string -> string -> string -> option string;
  aead_nonce : N -> string;                              (** [rand.Read] *)
}.

Class AeadLaws `{AeadOps} := {
  aead_open_seal k n p : aead_open k n (aead_seal k n p) = Some p;
  aead_nonce_length i : String.length (aead_nonce i) = 12%nat;
}.

(** ** State *)

Record post := MkPost {
  po_job : string;
  po_state : string;
  po_progress : option Z;
  po_category : string;
  po_details : string;
  po_result : option json
}.

Record wstate := MkW {
  ws_now : instant;
  ws_guard : appleGuardState;
  ws_guard_file : option json;
  ws_volume : option files;        (** <state dir>/state, encrypted *)
  ws_runtime : option files;       (** the runtime directory, plain *)
  ws_heartbeats : list string;     (** jobs whose heartbeat goroutine runs *)
  ws_posts : list post;
  ws_runs : list Z;                (** when each helper run ended *)
  ws_notes : list Z;               (** the runs the guard was told of *)
  ws_rand : N
}.

Definition set_clock (t : instant) (w : wstate) : wstate :=
  MkW t (ws_guard w) (ws_guard_file w) (ws_volume w) (ws_runtime w) (ws_heartbeats w) (ws_posts w)
    (ws_runs w) (ws_notes w) (ws_rand w).
Definition set_guard (g : appleGuardState) (w : wstate) : wstate :=
  MkW (ws_now w) g (ws_guard_file w) (ws_volume w) (ws_runtime w) (ws_heartbeats w) (ws_posts w)
    (ws_runs w) (ws_notes w) (ws_rand w).
Definition set_guard_file (f : option json) (w : wstate) : wstate :=
  MkW (ws_now w) (ws_guard w) f (ws_volume w) (ws_runtime w) (ws_heartbeats w) (ws_posts w)
    (ws_runs w) (ws_notes w) (ws_rand w).
Definition set_volume (v : option files) (w : wstate) : wstate :=
  MkW (ws_now w) (ws_guard w) (ws_guard_file w) v (ws_runtime w) (ws_heartbeats w) (ws_posts w)
    (ws_runs w) (ws_notes w) (ws_rand w).
Definition set_runtime (v : option files) (w : wstate) : wstate :=
  MkW (ws_now w) (ws_guard w) (ws_guard_file w) (ws_volume w) v (ws_heartbeats w) (ws_posts w)
    (ws_runs w) (ws_notes w) (ws_rand w).
Definition set_heartbeats (f : list string -> list string) (w : wstate) : wstate :=
  MkW (ws_now w) (ws_guard w) (ws_guard_file w) (ws_volume w) (ws_runtime w) (f (ws_heartbeats w))
    (ws_posts w) (ws_runs w) (ws_notes w) (ws_rand w).
Definition add_post (p : post) (w : wstate) : wstate :=
  MkW (ws_now w) (ws_guard w) (ws_guard_file w) (ws_volume w) (ws_runtime w) (ws_heartbeats w)
    (ws_posts w ++ [p]) (ws_runs w) (ws_notes w) (ws_rand w).
Definition add_run (t : Z) (w : wstate) : wstate :=
  MkW (ws_now w) (ws_guard w) (ws_guard_file w) (ws_volume w) (ws_runtime w) (ws_heartbeats w)
    (ws_posts w) (ws_runs w ++ [t]) (ws_notes w) (ws_rand w).
Definition add_note (t : Z) (w : wstate) : wstate :=
  MkW (ws_now w) (ws_guard w) (ws_guard_file w) (ws_volume w) (ws_runtime w) (ws_heartbeats w)
    (ws_posts w) (ws_runs w) (ws_notes w ++ [t]) (ws_rand w).
Definition set_rand (n : N) (w : wstate) : wstate :=
  MkW (ws_now w) (ws_guard w) (ws_guard_file w) (ws_volume w) (ws_runtime w) (ws_heartbeats w)
    (ws_posts w) (ws_runs w) (ws_notes w) n.

Definition maxErrorDetails : nat := 2000.
Definition defaultMachineName : string := "isideload-minimal".

(** One heartbeat of the job less. *)
Fixpoint remove_one (x : string) (l : list string) : list string :=
  match l with
  | [] => []
  | y :: l' => if y =s x then l' else y :: remove_one x l'
  end.

(** ** Envelope encryption *)

Definition hex_digit (c : ascii) : option Z :=
  let n := Z.of_N (byte_n c) in
  if (48 <=? n) && (n <=? 57) then Some (n - 48)
  else if (97 <=? n) && (n <=? 102) then Some (n - 87)
  else if (65 <=? n) && (n <=? 70) then Some (n - 55)
  else None.

(** [hex.DecodeString] *)
Fixpoint hex_decode (s : string) : option string :=
  match s with
  | EmptyString => Some ""
  | String a (String b s') =>
      x ← hex_digit a; y ← hex_digit b; r ← hex_decode s';
      Some (String (ascii_of_N (Z.to_N (16 * x + y))) r)
  | String _ EmptyString => None
  end.

Definition kekFromFile (file : option string) : option string :=
  data ← file; key ← hex_decode (trim_space data);
  if (String.length key =? 32)%nat then Some key else None.

(** [kek]: the secret file, else the environment. *)
Definition kek (secret : option string) (env : string) : option string :=
  match kekFromFile secret with
  | Some k => Some k
  | None => if env =s "" then None else kekFromFile (Some env)
  end.

Section worker.
Context `{AeadOps} (ex : externals).

Definition no_kek : string :=
  "no KEK available (mount /run/secrets/apple_credential_key or set SIDEY_KEK)".

Definition need_kek : prog wstate string string :=
  match ex_kek ex with Some k => Ret k | None => Throw no_kek end.

(** An I/O step of the worker. *)
Definition io {E X} (f : wstate -> sqlerr + X * wstate) (e : string -> E) : prog wstate E X :=
  must Fs f (fun _ => e (ex_io_text ex)).

Definition write_file (m : option files) (rel content : string) : option files :=
  Some (<[rel := content]> (default ∅ m)).

Definition envelope (key nonce plain : string) : string := nonce ++s aead_seal key nonce plain.

Definition open_envelope (key data : string) : string + string :=
  if (String.length data <? 12)%nat then inl "encrypted file too short"
  else match aead_open key (str_take 12 data) (str_drop 12 data) with
       | None => inl "decrypt failed (wrong KEK?): cipher: message authentication failed"
       | Some plain => inr plain
       end.

(** Reading the source is the first step; its content is passed. *)
Definition encryptFile (content rel : string) : prog wstate string unit :=
  key ← need_kek;
  _ ← io (reads (fun _ => tt)) id;
  nonce ← io (fun w => inr (aead_nonce (ws_rand w), set_rand (ws_rand w + 1)%N w)) id;
  io (writes (fun w => set_volume (write_file (ws_volume w) rel (envelope key nonce content)) w)) id.

Definition decryptFile (data rel : string) : prog wstate string unit :=
  key ← need_kek;
  _ ← io (reads (fun _ => tt)) id;
  match open_envelope key data with
  | inl e => Throw e
  | inr plain => io (writes (fun w => set_runtime (write_file (ws_runtime w) rel plain) w)) id
  end.

Definition decryptState : prog wstate string unit :=
  r ← try_ Fs (reads ws_volume);
  match r with
  | inr (Some m) => for_ (map_to_list m) (fun f => decryptFile f.2 f.1)
  | _ => Ret tt
  end.

Definition encryptState : prog wstate string unit :=
  r ← try_ Fs (reads ws_runtime);
  match r with
  | inr (Some m) => for_ (map_to_list m) (fun f => encryptFile f.2 f.1)
  | _ => Ret tt
  end.

(** The source directory: files, and directories of files (deeper levels are
    not visited). *)
Inductive dir_entry := FileEntry (name content : string) | DirEntry (name : string) (sub : list (string * string)).

Definition import_entry (e : dir_entry) : prog wstate string unit :=
  match e with
  | FileEntry n content => encryptFile content n
  | DirEntry n sub =>
      _ ← io (reads (fun _ => tt)) id;
      for_ sub (fun f => encryptFile f.2 (n ++s "/" ++s f.1))
  end.

Definition importState (src : option (list dir_entry)) : prog wstate string unit :=
  r ← try_ Fs (reads ws_volume);
  match r with
  | inr (Some _) => Ret tt
  | _ =>
      match src with
      | None => Throw (ex_io_text ex)
      | Some entries => for_ entries import_entry
      end
  end.

(** ** Statuses, heartbeats, the guard *)

Definition postJobStatus {E} (jobID state : string) (progress : option Z) (category details : string)
    (result : option json) : prog wstate E unit :=
  _ ← try_ Pool (writes (add_post (MkPost jobID state progress category details result))); Ret tt.

Definition in_progress {E} (jobID : string) (p : Z) : prog wstate E unit :=
  postJobStatus jobID "in_progress" (Some p) "" "" None.

Definition start_heartbeat {E} (jobID : string) : prog wstate E unit :=
  put_ (set_heartbeats (cons jobID)).
Definition stop_heartbeat {E} (jobID : string) : prog wstate E unit :=
  put_ (set_heartbeats (remove_one jobID)).

(** [appleGate.noteRun], whose [save] may fail silently. *)
Definition note_run {E} (succeeded authFailure : bool) : prog wstate E unit :=
  _ ← put_ (fun w => add_note (unix (ws_now w))
              (set_guard (noteRun (ws_now w) succeeded authFailure (ws_guard w)) w));
  _ ← try_ Fs (writes (fun w => set_guard_file (Some (encode_guard (ws_guard w))) w));
  Ret tt.

(** [defer os.RemoveAll(cfg.stateRuntime)] *)
Definition wipe {E} : prog wstate E unit :=
  _ ← try_ Fs (writes (set_runtime None)); Ret tt.

Definition make_runtime (w : wstate) : wstate := set_runtime (Some (default ∅ (ws_runtime w))) w.

(** ** Helpers *)

Definition run_helper {E} (iv : invocation) : prog wstate E process :=
  match ex_run ex iv with
  | StartFailed e => Ret (StartFailed e)
  | p => Act (fun w =>
           let now := ws_now w + Z.max 0 (ex_took ex iv) in
           (p, add_run (unix now) (set_runtime (ex_touch ex iv <$> ws_runtime w) (set_clock now w)))) Ret
  end.

(** The result and the error of a helper run. *)
Definition helper_outcome (name : string) (parse : option json -> option helperResult) (p : process)
    : option helperResult * option string :=
  match p with
  | StartFailed e => (None, Some e)
  | TimedOut => (Some (MkHelperResult "" "timeout" "" JNull), Some (name ++s " timed out"))
  | Exited (Some e) stdout stderr =>
      let r := default (MkHelperResult "" "other" (trim_space stderr) JNull) (parse stdout) in
      let r := if hr_Error r =s "" then MkHelperResult (hr_Status r) (hr_Category r) e (hr_rest r) else r in
      (Some r, Some (name ++s " failed: " ++s hr_Error r))
  | Exited None stdout _ =>
      match parse stdout with
      | None => (None, Some (name ++s " produced no JSON result"))
      | Some r =>
          if negb (hr_Status r =s "ok") then (Some r, Some (name ++s " error: " ++s hr_Error r))
          else (Some r, None)
      end
  end.

Definition credential_env (c : config) (password : string) : list (string * string) :=
  [("SIDEY_APPLE_MAIN_PASSWORD", password); ("SIDEY_ISIDELOAD_STATE", stateRuntime c);
   ("ANISETTE_URL", anisetteURL c)].

Definition runSignonly {E} (c : config) (machineName : string) (p : signParams)
    : prog wstate E (option helperResult * option string) :=
  if (appleID c =s "") || (applePassword c =s "")
  then Ret (None, Some "Apple credentials not configured (SIDEY_APPLE_ID / SIDEY_APPLE_MAIN_PASSWORD)")
  else if sp_DeviceUdid p =s ""
  then Ret (None, Some "no device UDID: refusing to sign without a target device")
  else
    r ← run_helper (MkInvocation (signonlyBin c) [appleID c; "source.ipa"; "signed.ipa"]
          (credential_env c (applePassword c)
           ++ [("MACHINE_NAME", machineName); ("DEVICE_UDID", sp_DeviceUdid p);
               ("DEVICE_NAME", sp_DeviceName p); ("DEVICE_TYPE", sp_DeviceType p);
               ("SIGNONLY_2FA_CODE_FILE", codeFile c)]
           ++ (if sp_SourceURL p =s "" then [] else [("SIDEY_SOURCE_URL", sp_SourceURL p)])));
    Ret (helper_outcome "signonly" parseSignonly r).

Definition runP12export {E} (c : config) (id password machineName : string)
    : prog wstate E (option helperResult * option string) :=
  r ← run_helper (MkInvocation (p12exportBin c) [id; "certificate.p12"]
        (credential_env c password
         ++ [("MACHINE_NAME", machineName); ("SIGNONLY_2FA_CODE_FILE", codeFile c)]));
  Ret (helper_outcome "p12export" parseP12export r).

Definition runAppIDs {E} (c : config) (id password action : string) (ids : list string)
    : prog wstate E (option helperResult * option string) :=
  r ← run_helper (MkInvocation (appidsBin c) (id :: action :: ids)
        (credential_env c password ++ [("SIGNONLY_2FA_CODE_FILE", codeFile c)]));
  Ret (helper_outcome "appids" parseAppIDs r).

(** The category and details a failed run is reported with. *)
Definition failure_report (r : option helperResult) (err : string) : string * string :=
  let category := match r with
                  | Some x => if hr_Category x =s "" then "other" else hr_Category x
                  | None => "other" end in
  let details := match r with
                 | Some x => if hr_Error x =s "" then err else hr_Error x
                 | None => err end in
  (category, truncate_str maxErrorDetails details).


(** ** Jobs *)

(** The text in double quotes. *)
Definition quote (s : string) : string := String (ascii_of_N 34) (s ++s String (ascii_of_N 34) "").

Definition no_account : string :=
  "no Apple account selected: job names an unknown account, or several are configured and none was requested".

(** Report a failure and return. *)
Definition give_up_with {A} (jobID category details : string) : prog wstate unit A :=
  _ ← postJobStatus jobID "failed" None category details None; Throw tt.

Definition reencrypt {E} : prog wstate E unit := _ ← attempt encryptState; Ret tt.

(** The same inside a sign job: the state goes back to the volume when it may
    have changed, and the heartbeat stops. *)
Definition sign_fails {A} (jobID category details : string) (changed : bool) : prog wstate unit A :=
  _ ← postJobStatus jobID "failed" None category details None;
  _ ← when changed reencrypt;
  _ ← stop_heartbeat jobID;
  Throw tt.

Definition quantity_field (k : string) (o : option Z) : list (string * string) :=
  match o with Some z => [(k, itoa z)] | None => [] end.

(** The fields of the upload form; empty ones are left out. *)
Definition upload_fields (c : config) (jobID deviceID : string) (p : signParams) (r : helperResult)
    : list (string * string) :=
  select (fun kv => negb (kv.2 =s ""))
    ([("job_id", jobID); ("source_artifact_id", sp_ArtifactID p); ("device_id", deviceID);
      ("account_email", appleID c); ("team_id", rest_str "team_id" r);
      ("cert_serial", rest_str "cert_serial" r); ("profile_expiry_at", rest_str "profile_expiry_at" r);
      ("signed_bundle_identifier", rest_str "signed_bundle_identifier" r);
      ("signed_ipa_sha256", rest_str "signed_ipa_sha256" r);
      ("device_count", itoa (default 0 (rest_int "device_count" r)));
      ("app_id_count", itoa (default 0 (rest_int "app_id_count" r)))]
     ++ quantity_field "app_id_max_quantity" (rest_int "app_id_max_quantity" r)
     ++ quantity_field "app_id_available_quantity" (rest_int "app_id_available_quantity" r)).

(** The error, if any.  The body goes to a file of the working directory. *)
Definition downloadArtifact {E} (artifactID : string) : prog wstate E (option string) :=
  match ex_download ex artifactID with
  | DownloadError e => Ret (Some e)
  | DownloadAnswer status body cut =>
      if negb (status =? 200)
      then Ret (Some ("download returned " ++s itoa status ++s ": " ++s trim_space (str_take 512 body)))
      else
        f ← try_ Fs (reads (fun _ => tt));
        match f with
        | inl _ => Ret (Some (ex_io_text ex))
        | inr _ =>
            n ← try_ Fs (reads (fun _ => tt));
            Ret (match n with inl _ => Some (ex_io_text ex) | inr _ => cut end)
        end
  end.

Definition uploadSignedIPA {E} (c : config) (jobID deviceID : string) (p : signParams)
    (r : helperResult) : prog wstate E (string + string) :=
  o ← try_ Fs (reads (fun _ => tt));
  match o with
  | inl _ => Ret (inl (ex_io_text ex))
  | inr _ =>
      Ret match ex_upload ex (upload_fields c jobID deviceID p r) with
          | UploadError e => inl e
          | UploadAnswer status body id =>
              if negb (status =? 201)
              then inl ("upload returned " ++s itoa status ++s ": " ++s trim_space body)
              else match id with Some i => inr i | None => inl "unexpected end of JSON input" end
          end
  end.

Definition json_of_str (s : string) : json := JStr s.
Definition json_of_int (o : option Z) : json := match o with Some z => JNum z | None => JNull end.

Definition sign_result (signedID : string) (r : helperResult) : json :=
  JObj ([("signed_artifact_id", JStr signedID)]
    ++ ((fun k => (k, JStr (rest_str k r))) <$> sh_strings signonlyShape)
    ++ [("device_count", JNum (default 0 (rest_int "device_count" r)));
        ("app_id_count", JNum (default 0 (rest_int "app_id_count" r)));
        ("app_id_max_quantity", json_of_int (rest_int "app_id_max_quantity" r));
        ("app_id_available_quantity", json_of_int (rest_int "app_id_available_quantity" r))]).

(** From the working directory to the final status; [runSignJob] wipes the
    runtime directory afterwards. *)
Definition sign_steps (c : config) (jobID : string) (deviceID : option string) (p : signParams)
    (machineName : string) : prog wstate unit unit :=
  d ← downloadArtifact (sp_ArtifactID p);
  match (d : option string) with
  | Some e => sign_fails jobID "other" ("artifact download failed: " ++s e) false
  | None =>
      _ ← in_progress jobID 15;
      m ← try_ Fs (writes make_runtime);
      match m with
      | inl _ => sign_fails jobID "other" (ex_io_text ex) false
      | inr _ =>
          dec ← attempt decryptState;
          match dec with
          | inl e => sign_fails jobID "certificate" ("state decrypt failed: " ++s e) false
          | inr _ =>
              let '(id, password) := getCredentials c (ex_accounts ex) (sp_AppleID p) in
              if (id =s "") || (password =s "") then sign_fails jobID "auth" no_account true else
              let signCfg := with_account id password c in
              o ← runSignonly signCfg machineName p;
              match (o : option helperResult * option string) with
              | (Some r, None) =>
                  _ ← note_run true false;
                  _ ← in_progress jobID 85;
                  match deviceID with
                  | None => sign_fails jobID "other" "sign job has no device_id" true
                  | Some dev =>
                      u ← uploadSignedIPA signCfg jobID dev p r;
                      match (u : string + string) with
                      | inl e => sign_fails jobID "other" ("signed ipa upload failed: " ++s e) true
                      | inr signedID =>
                          _ ← reencrypt;
                          _ ← postJobStatus jobID "completed" None "" "" (Some (sign_result signedID r));
                          stop_heartbeat jobID
                      end
                  end
              | (r, err) =>
                  let '(category, details) := failure_report r (default "" err) in
                  _ ← note_run false (category =s "auth");
                  sign_fails jobID category details true
              end
          end
      end
  end.

Definition runSignJob (c : config) (jobID : string) (deviceID : option string) (raw : option json)
    : prog wstate unit unit :=
  _ ← in_progress jobID 5;
  match (j ← raw; decode_signParams j) with
  | None => give_up_with jobID "other" "sign job parameters missing artifact_id"
  | Some p =>
      if sp_ArtifactID p =s "" then give_up_with jobID "other" "sign job parameters missing artifact_id"
      else if sp_DeviceUdid p =s ""
      then give_up_with jobID "other" "sign job parameters missing udid (no target device)"
      else
        let machineName := if sp_MachineName p =s "" then defaultMachineName else sp_MachineName p in
        _ ← start_heartbeat jobID;
        t ← try_ Fs (reads (fun _ => tt));
        match t with
        | inl _ => give_up_with jobID "other" (ex_io_text ex)
        | inr _ =>
            r ← attempt (sign_steps c jobID deviceID p machineName);
            _ ← wipe;
            match (r : unit + unit) with inl _ => Throw tt | inr _ => Ret tt end
        end
  end.

Definition p12_result (r : helperResult) : json :=
  JObj ([("p12_base64", JStr (b64_encode (ex_p12 ex)))]
    ++ ((fun k => (k, JStr (rest_str k r))) <$> sh_strings p12Shape)).

Definition export_steps (c : config) (jobID id password machineName : string) : prog wstate unit unit :=
  m ← try_ Fs (writes make_runtime);
  match m with
  | inl _ => give_up_with jobID "other" (ex_io_text ex)
  | inr _ =>
      dec ← attempt decryptState;
      match dec with
      | inl e => give_up_with jobID "certificate" ("state decrypt failed: " ++s e)
      | inr _ =>
          o ← runP12export c id password machineName;
          match (o : option helperResult * option string) with
          | (Some r, None) =>
              f ← try_ Fs (reads (fun _ => tt));
              match f with
              | inl _ =>
                  _ ← postJobStatus jobID "failed" None "other" (ex_io_text ex) None;
                  _ ← reencrypt; Throw tt
              | inr _ =>
                  _ ← postJobStatus jobID "completed" None "" "" (Some (p12_result r));
                  _ ← reencrypt;
                  note_run true false
              end
          | (r, err) =>
              let '(category, details) := failure_report r (default "" err) in
              _ ← note_run false (category =s "auth");
              _ ← postJobStatus jobID "failed" None category details None;
              _ ← reencrypt; Throw tt
          end
      end
  end.

Definition runExportP12Job (c : config) (jobID : string) (raw : option json) : prog wstate unit unit :=
  _ ← in_progress jobID 5;
  match (j ← raw; decode_exportP12Params j) with
  | None => give_up_with jobID "other" ("export_p12 job parameters malformed: " ++s ex_io_text ex)
  | Some p =>
      let '(id, password) := getCredentials c (ex_accounts ex) (ep_AppleID p) in
      if (id =s "") || (password =s "") then give_up_with jobID "auth" no_account else
      let machineName := if ep_MachineName p =s "" then defaultMachineName else ep_MachineName p in
      t ← try_ Fs (reads (fun _ => tt));
      match t with
      | inl _ => give_up_with jobID "other" (ex_io_text ex)
      | inr _ =>
          r ← attempt (export_steps c jobID id password machineName);
          _ ← wipe;
          match (r : unit + unit) with inl _ => Throw tt | inr _ => Ret tt end
      end
  end.

Definition appids_result (r : helperResult) : json :=
  JObj ((fun k => (k, default JNull (jget k (hr_rest r))))
          <$> ["mode"; "deleted"; "app_ids"; "max_quantity"; "available_quantity"]).

(** No deferred cleanup here. *)
Definition runAppIDsJob (c : config) (jobID : string) (raw : option json) : prog wstate unit unit :=
  _ ← in_progress jobID 5;
  match (j ← raw; decode_appidsParams j) with
  | None => give_up_with jobID "other" ("appids job parameters malformed: " ++s ex_io_text ex)
  | Some p =>
      if negb (ap_Action p =s "list") && negb (ap_Action p =s "delete")
      then give_up_with jobID "other" ("appids action must be " ++s quote "list" ++s " or " ++s quote "delete")
      else if (ap_Action p =s "delete") && (length (ap_AppIDs p) =? 0)%nat
      then give_up_with jobID "other" "appids delete requires at least one app_id_id"
      else
        let '(id, password) := getCredentials c (ex_accounts ex) (ap_AppleID p) in
        if (id =s "") || (password =s "") then give_up_with jobID "auth" no_account else
        m ← try_ Fs (writes make_runtime);
        match m with
        | inl _ => give_up_with jobID "other" (ex_io_text ex)
        | inr _ =>
            dec ← attempt decryptState;
            match dec with
            | inl e => give_up_with jobID "certificate" ("state decrypt failed: " ++s e)
            | inr _ =>
                o ← runAppIDs c id password (ap_Action p) (ap_AppIDs p);
                match (o : option helperResult * option string) with
                | (Some r, None) =>
                    _ ← reencrypt;
                    _ ← note_run true false;
                    postJobStatus jobID "completed" None "" "" (Some (appids_result r))
                | (r, err) =>
                    let '(category, details) := failure_report r (default "" err) in
                    _ ← note_run false (category =s "auth");
                    _ ← postJobStatus jobID "failed" None category details None;
                    _ ← reencrypt; Throw tt
                end
            end
        end
  end.

(** ** The loop *)

Definition dispatchJob (c : config) (j : claimed_job) : prog wstate unit unit :=
  if cj_JobType j =s "sign" then runSignJob c (cj_ID j) (cj_DeviceID j) (cj_Parameters j)
  else if cj_JobType j =s "export_p12" then runExportP12Job c (cj_ID j) (cj_Parameters j)
  else if cj_JobType j =s "appids" then runAppIDsJob c (cj_ID j) (cj_Parameters j)
  else postJobStatus (cj_ID j) "failed" None "other"
         ("signing worker does not handle job type " ++s cj_JobType j) None.

(** The function of a job may return early; the loop goes on. *)
Definition claimAndRun (c : config) : prog wstate unit unit :=
  r ← try_ Pool (reads (fun _ => ex_claim ex));
  match r with
  | inr (Some jobs) => for_ jobs (fun j => _ ← attempt (dispatchJob c j); Ret tt)
  | _ => Ret tt
  end.

(** One iteration of [main]'s loop. *)
Definition loop_step (c : config) : prog wstate unit unit :=
  ok ← Act (fun w => let '(v, g) := allow (ws_now w) (ws_guard w) in (v.1, set_guard g w)) Ret;
  if ok : bool then claimAndRun c else Ret tt.

End worker.
