(* ===== verification/WorkerSpec.v ===== *)
(** What the signing worker promises: the hourly cap and the breaker over every
    history of loop iterations, the signing state that is restored and wiped,
    and the strict choice of the Apple account. *)
From S2P Require Import Prelude GoStrings GoTime Effects Schema Guard Worker.

Section worker.
Context `{AeadOps}.

(** ** Steps that do not report to the guard *)

(** The guard is left alone and the clock does not run backwards. *)
Definition quiet (w w' : wstate) : Prop :=
  ws_notes w' = ws_notes w /\ ws_guard w' = ws_guard w /\ ws_now w <= ws_now w'.

(** The same, and the heartbeats running are left alone. *)
Definition calm (w w' : wstate) : Prop := quiet w w' /\ ws_heartbeats w' = ws_heartbeats w.

Lemma quiet_refl w : quiet w w.
Proof using. split_and!; done || lia. Qed.

Section stable.
Context (ex : externals) (J : wstate -> Prop) (HJ : forall w w', calm w w' -> J w -> J w').

Lemma keeps_writes {E X} c (f : wstate -> wstate) (k : sqlerr + unit -> prog wstate E X) :
  (forall w, calm w (f w)) -> (forall o, keeps J (k o)) -> keeps J (Stmt c (writes f) k).
Proof using HJ. intros Hf Hk. apply keeps_stmt; [|done]. intros w [] w' Hw [= <-]. eauto. Qed.

Lemma keeps_postJobStatus {E} jobID st p cat det res :
  keeps J (@postJobStatus E jobID st p cat det res).
Proof using HJ.
  apply keeps_writes; [|intros []; apply keeps_ret]. intros w. unfold calm, quiet; split_and!; done || (simpl; lia).
Qed.

Lemma keeps_put {E} (f : wstate -> wstate) : (forall w, calm w (f w)) -> keeps J (@put_ wstate E f).
Proof using HJ. intros Hf. apply keeps_act; [|intros; apply keeps_ret]. intros w Hw. simpl. eauto. Qed.

Lemma keeps_wipe {E} : keeps J (@wipe E).
Proof using HJ.
  apply keeps_writes; [|intros []; apply keeps_ret]. intros w. unfold calm, quiet; split_and!; done || (simpl; lia).
Qed.

Lemma keeps_try_read {E X} c (g : wstate -> X) : keeps J (@try_ wstate E X c (reads g)).
Proof using. apply keeps_stmt; [by intros ??? ? [= <- <-]|intros; apply keeps_ret]. Qed.
Lemma keeps_make_runtime {E} : keeps J (@try_ wstate E unit Fs (writes make_runtime)).
Proof using HJ.
  apply keeps_writes; [|intros; apply keeps_ret]. intros w. unfold calm, quiet; split_and!; done || (simpl; lia).
Qed.

Lemma keeps_io {E X} (f : wstate -> sqlerr + X * wstate) (e : string -> E) :
  (forall w x w', f w = inr (x, w') -> calm w w') -> keeps J (io ex f e).
Proof using HJ.
  intros Hf. apply keeps_stmt; [|intros []; [apply keeps_throw|apply keeps_ret]].
  intros w x w' Hw Hfw. eauto.
Qed.

Lemma keeps_need_kek : keeps J (need_kek ex).
Proof using. unfold need_kek. destruct (ex_kek ex); [apply keeps_ret|apply keeps_throw]. Qed.

Lemma keeps_encryptFile content rel : keeps J (encryptFile ex content rel).
Proof using HJ.
  unfold encryptFile. apply keeps_bind; [apply keeps_need_kek|intros key].
  apply keeps_bind; [|intros _; apply keeps_bind; [|intros nonce]];
    apply keeps_io; intros w x w' [= <- <-]; unfold calm, quiet; split_and!; done || (simpl; lia).
Qed.

Lemma keeps_decryptFile data rel : keeps J (decryptFile ex data rel).
Proof using HJ.
  unfold decryptFile. apply keeps_bind; [apply keeps_need_kek|intros key].
  apply keeps_bind; [|intros _; destruct (open_envelope key data); [apply keeps_throw|]];
    apply keeps_io; intros w x w' [= <- <-]; unfold calm, quiet; split_and!; done || (simpl; lia).
Qed.

Lemma keeps_encryptState : keeps J (encryptState ex).
Proof using HJ.
  unfold encryptState. apply keeps_bind; [apply keeps_try_read|]. intros [|[m|]]; [apply keeps_ret| |apply keeps_ret].
  apply keeps_for. intros f _. apply keeps_encryptFile.
Qed.
Lemma keeps_decryptState : keeps J (decryptState ex).
Proof using HJ.
  unfold decryptState. apply keeps_bind; [apply keeps_try_read|]. intros [|[m|]]; [apply keeps_ret| |apply keeps_ret].
  apply keeps_for. intros f _. apply keeps_decryptFile.
Qed.

Lemma keeps_reencrypt {E} : keeps J (@reencrypt _ ex E).
Proof using HJ.
  unfold reencrypt. apply keeps_bind; [apply keeps_attempt, keeps_encryptState|intros; apply keeps_ret].
Qed.

Lemma keeps_run_helper {E} iv : keeps J (@run_helper ex E iv).
Proof using HJ.
  unfold run_helper. destruct (ex_run ex iv); [apply keeps_ret|..];
    (apply keeps_act; [|intros; apply keeps_ret]; intros w Hw; simpl; apply (HJ w); [|done];
     unfold calm, quiet; split_and!; done || (simpl; lia)).
Qed.

Lemma keeps_give_up {A} jobID cat det : keeps J (@give_up_with A jobID cat det).
Proof using HJ.
  unfold give_up_with. apply keeps_bind; [apply keeps_postJobStatus|intros; apply keeps_throw].
Qed.
Lemma keeps_download {E} a : keeps J (@downloadArtifact ex E a).
Proof using HJ.
  unfold downloadArtifact. repeat keeps_step.
Qed.
Lemma keeps_upload {E} c jobID dev p r : keeps J (@uploadSignedIPA ex E c jobID dev p r).
Proof using HJ.
  unfold uploadSignedIPA. apply keeps_bind; [apply keeps_try_read|]. intros [|]; apply keeps_ret.
Qed.
Lemma keeps_runSignonly {E} c m p : keeps J (@runSignonly ex E c m p).
Proof using HJ.
  unfold runSignonly. repeat case_cond; try apply keeps_ret;
    (apply keeps_bind; [apply keeps_run_helper|intros; apply keeps_ret]).
Qed.
Lemma keeps_runP12export {E} c i pw m : keeps J (@runP12export ex E c i pw m).
Proof using HJ. apply keeps_bind; [apply keeps_run_helper|intros; apply keeps_ret]. Qed.
Lemma keeps_runAppIDs {E} c i pw a l : keeps J (@runAppIDs ex E c i pw a l).
Proof using HJ. apply keeps_bind; [apply keeps_run_helper|intros; apply keeps_ret]. Qed.
End stable.

Section quiet_stable.
Context (ex : externals) (J : wstate -> Prop) (HJ : forall w w', quiet w w' -> J w -> J w').

Lemma keeps_put_quiet {E} (f : wstate -> wstate) : (forall w, quiet w (f w)) -> keeps J (@put_ wstate E f).
Proof using HJ. intros Hf. apply keeps_act; [|intros; apply keeps_ret]. intros w Hw. simpl. eauto. Qed.

Lemma keeps_start {E} jobID : keeps J (@start_heartbeat E jobID).
Proof using HJ. apply keeps_put_quiet. intros w. unfold calm, quiet; split_and!; done || (simpl; lia). Qed.
Lemma keeps_stop {E} jobID : keeps J (@stop_heartbeat E jobID).
Proof using HJ. apply keeps_put_quiet. intros w. unfold calm, quiet; split_and!; done || (simpl; lia). Qed.
Lemma keeps_sign_fails {A} jobID cat det b : keeps J (@sign_fails _ ex A jobID cat det b).
Proof using HJ.
  unfold sign_fails, when. apply keeps_bind; [apply keeps_postJobStatus; unfold calm; naive_solver|intros _].
  apply keeps_bind; [destruct b; [apply keeps_reencrypt; unfold calm; naive_solver|apply keeps_ret]|intros _].
  apply keeps_bind; [apply keeps_stop|intros; apply keeps_throw].
Qed.
End quiet_stable.
End worker.

#[export] Hint Resolve keeps_postJobStatus keeps_start keeps_stop keeps_wipe keeps_try_read
  keeps_make_runtime keeps_encryptState keeps_decryptState keeps_reencrypt keeps_give_up
  keeps_sign_fails keeps_download keeps_upload keeps_runSignonly keeps_runP12export keeps_runAppIDs
  keeps_attempt : keeps.

(** ** At most one report per job *)

Section cap.
Context `{AeadOps}.

(** Since [w0]: nothing reported, or one run reported. *)
Definition one_note (w0 w : wstate) : Prop :=
  quiet w0 w
  \/ exists t ok authf, ws_now w0 <= t <= ws_now w
     /\ ws_notes w = ws_notes w0 ++ [unix t] /\ ws_guard w = noteRun t ok authf (ws_guard w0).

Lemma quiet_trans w1 w2 w3 : quiet w1 w2 -> quiet w2 w3 -> quiet w1 w3.
Proof using. intros (?&?&?) (?&?&?). split_and!; [by etrans..|lia]. Qed.

Lemma quiet_stable w0 w w' : quiet w w' -> quiet w0 w -> quiet w0 w'.
Proof using. intros. by eapply quiet_trans. Qed.

Lemma one_note_stable w0 w w' : quiet w w' -> one_note w0 w -> one_note w0 w'.
Proof using.
  intros Hq [Hw|(t & ok & a & Ht & Hn & Hg)]; [left; by eapply quiet_trans|].
  right. destruct Hq as (Hn' & Hg' & Hc). exists t, ok, a. rewrite Hn', Hg'. split_and!; done || lia.
Qed.

Lemma quiet_stable_calm w0 w w' : calm w w' -> quiet w0 w -> quiet w0 w'.
Proof using. intros [? _]. by apply quiet_stable. Qed.

Lemma one_note_stable_calm w0 w w' : calm w w' -> one_note w0 w -> one_note w0 w'.
Proof using. intros [? _]. by apply one_note_stable. Qed.

#[local] Hint Resolve quiet_stable one_note_stable quiet_stable_calm one_note_stable_calm : keeps.

(** The rest of a job after a quiet step, and after the report. *)
Lemma wp_quiet_bind {E A B} w0 (p : prog wstate E A) (f : A -> prog wstate E B) w :
  keeps (quiet w0) p -> quiet w0 w -> (forall a w', quiet w0 w' -> wp (f a) (fun _ => one_note w0) w') ->
  wp (p ≫= f) (fun _ => one_note w0) w.
Proof using.
  intros Hp Hq Hf. apply wp_bind. eapply wp_mono; [|by apply Hp].
  intros [e|a] w' Hw'; [by left|by apply Hf].
Qed.

Lemma wp_quiet {E A} w0 (p : prog wstate E A) w :
  keeps (quiet w0) p -> quiet w0 w -> wp p (fun _ => one_note w0) w.
Proof using. intros Hp Hq. eapply wp_mono; [|by apply Hp]. intros r w' Hw'. by left. Qed.

Lemma wp_note_bind {E A} w0 ok authf (k : unit -> prog wstate E A) w :
  quiet w0 w -> (forall u, keeps (one_note w0) (k u)) ->
  wp (note_run ok authf ≫= k) (fun _ => one_note w0) w.
Proof using.
  intros (Hn & Hg & Hc) Hk. unfold note_run.
  assert (Hone : forall f, one_note w0 (set_guard_file f (add_note (unix (ws_now w))
            (set_guard (noteRun (ws_now w) ok authf (ws_guard w)) w)))).
  { intros f. right. exists (ws_now w), ok, authf. simpl. rewrite Hn, Hg. split_and!; done || lia. }
  split; simpl; apply Hk; [|apply Hone]. exact (Hone (ws_guard_file w)).
Qed.

Lemma keeps_one_of_two {A} w0 (r : unit + unit) (a : A) :
  keeps (one_note w0) (match r with inl _ => Throw tt | inr _ => Ret a end).
Proof using. destruct r; [apply keeps_throw|apply keeps_ret]. Qed.

Context (ex : externals).

Lemma wp_sign_steps w0 c jobID dev p m w :
  quiet w0 w -> wp (sign_steps ex c jobID dev p m) (fun _ => one_note w0) w.
Proof using.
  intros Hq. unfold sign_steps. apply wp_quiet_bind; [eauto with keeps|done|]. clear w Hq.
  intros [e|] w Hq; [apply wp_quiet; eauto with keeps|].
  apply wp_quiet_bind; [unfold in_progress; eauto with keeps|done|]. clear w Hq. intros _ w Hq.
  apply wp_quiet_bind; [eauto with keeps|done|]. clear w Hq.
  intros [e|_] w Hq; [apply wp_quiet; eauto with keeps|].
  apply wp_quiet_bind; [eauto with keeps|done|]. clear w Hq.
  intros [e|_] w Hq; [apply wp_quiet; eauto with keeps|].
  destruct (getCredentials _ _ _) as [i pw].
  destruct ((i =s "") || (pw =s "")); [apply wp_quiet; eauto with keeps|].
  apply wp_quiet_bind; [eauto with keeps|done|]. clear w Hq. intros [[r|] [err|]] w Hq;
    try (destruct (failure_report _ _) as [cat det]; apply wp_note_bind; [done|]; eauto with keeps; fail).
  apply wp_note_bind; [done|]. intros _.
  apply keeps_bind; [unfold in_progress; eauto with keeps|intros _].
  destruct dev as [d|]; [|eauto with keeps].
  apply keeps_bind; [eauto with keeps|]. intros [e|sid]; [eauto with keeps|].
  apply keeps_bind; [eauto with keeps|intros _].
  apply keeps_bind; [eauto with keeps|intros _]. eauto with keeps.
Qed.

Lemma wp_then_keeps {E A B} w0 (p : prog wstate E A) (f : A -> prog wstate E B) w :
  wp p (fun _ => one_note w0) w -> (forall a, keeps (one_note w0) (f a)) ->
  wp (p ≫= f) (fun _ => one_note w0) w.
Proof using.
  intros Hp Hf. apply wp_bind. eapply wp_mono; [|exact Hp]. intros [e|a] w' Hw'; [done|by apply Hf].
Qed.

(** The end of a job with a deferred cleanup. *)
Lemma wp_cleanup w0 (p : prog wstate unit unit) w :
  wp p (fun _ => one_note w0) w ->
  wp (r ← attempt p; _ ← wipe; match (r : unit + unit) with inl _ => Throw tt | inr _ => Ret tt end)
    (fun _ => one_note w0) w.
Proof using.
  intros Hp. apply wp_then_keeps; [by apply wp_attempt|]. intros r.
  apply keeps_bind; [eauto with keeps|]. intros _. apply keeps_one_of_two.
Qed.

Lemma wp_runSignJob w0 c jobID dev raw w :
  quiet w0 w -> wp (runSignJob ex c jobID dev raw) (fun _ => one_note w0) w.
Proof using.
  intros Hq. unfold runSignJob, in_progress. apply wp_quiet_bind; [eauto with keeps|done|]. clear w Hq.
  intros _ w Hq. destruct (_ ≫= _) as [p|]; [|apply wp_quiet; eauto with keeps].
  destruct (sp_ArtifactID p =s ""); [apply wp_quiet; eauto with keeps|].
  destruct (sp_DeviceUdid p =s ""); [apply wp_quiet; eauto with keeps|].
  apply wp_quiet_bind; [eauto with keeps|done|]. clear w Hq. intros _ w Hq.
  apply wp_quiet_bind; [eauto with keeps|done|]. clear w Hq.
  intros [e|_] w Hq; [apply wp_quiet; eauto with keeps|]. by apply wp_cleanup, wp_sign_steps.
Qed.

Lemma wp_export_steps w0 c jobID i pw m w :
  quiet w0 w -> wp (export_steps ex c jobID i pw m) (fun _ => one_note w0) w.
Proof using.
  intros Hq. unfold export_steps. apply wp_quiet_bind; [eauto with keeps|done|]. clear w Hq.
  intros [e|_] w Hq; [apply wp_quiet; eauto with keeps|].
  apply wp_quiet_bind; [eauto with keeps|done|]. clear w Hq.
  intros [e|_] w Hq; [apply wp_quiet; eauto with keeps|].
  apply wp_quiet_bind; [eauto with keeps|done|]. clear w Hq. intros [[r|] [err|]] w Hq;
    try (destruct (failure_report _ _) as [cat det]; apply wp_note_bind; [done|]; intros _;
         apply keeps_bind; [eauto with keeps|intros _]; apply keeps_bind; [eauto with keeps|];
         intros _; apply keeps_throw).
  apply wp_quiet_bind; [eauto with keeps|done|]. clear w Hq. intros [e|_] w Hq.
  - apply wp_quiet; [|done]. apply keeps_bind; [eauto with keeps|intros _].
    apply keeps_bind; [eauto with keeps|intros _; apply keeps_throw].
  - apply wp_quiet_bind; [eauto with keeps|done|]. clear w Hq. intros _ w Hq.
    apply wp_quiet_bind; [eauto with keeps|done|]. clear w Hq. intros _ w Hq.
    apply (wp_note_bind w0 true false Ret); [done|]. intros u. apply keeps_ret.
Qed.

Lemma wp_runExportP12Job w0 c jobID raw w :
  quiet w0 w -> wp (runExportP12Job ex c jobID raw) (fun _ => one_note w0) w.
Proof using.
  intros Hq. unfold runExportP12Job, in_progress. apply wp_quiet_bind; [eauto with keeps|done|]. clear w Hq.
  intros _ w Hq. destruct (_ ≫= _) as [p|]; [|apply wp_quiet; eauto with keeps].
  destruct (getCredentials _ _ _) as [i pw].
  destruct ((i =s "") || (pw =s "")); [apply wp_quiet; eauto with keeps|].
  apply wp_quiet_bind; [eauto with keeps|done|]. clear w Hq.
  intros [e|_] w Hq; [apply wp_quiet; eauto with keeps|]. by apply wp_cleanup, wp_export_steps.
Qed.

Lemma wp_runAppIDsJob w0 c jobID raw w :
  quiet w0 w -> wp (runAppIDsJob ex c jobID raw) (fun _ => one_note w0) w.
Proof using.
  intros Hq. unfold runAppIDsJob, in_progress. apply wp_quiet_bind; [eauto with keeps|done|]. clear w Hq.
  intros _ w Hq. destruct (_ ≫= _) as [p|]; [|apply wp_quiet; eauto with keeps].
  destruct (negb _ && negb _); [apply wp_quiet; eauto with keeps|].
  destruct ((_ =s "delete") && _); [apply wp_quiet; eauto with keeps|].
  destruct (getCredentials _ _ _) as [i pw].
  destruct ((i =s "") || (pw =s "")); [apply wp_quiet; eauto with keeps|].
  apply wp_quiet_bind; [eauto with keeps|done|]. clear w Hq.
  intros [e|_] w Hq; [apply wp_quiet; eauto with keeps|].
  apply wp_quiet_bind; [eauto with keeps|done|]. clear w Hq.
  intros [e|_] w Hq; [apply wp_quiet; eauto with keeps|].
  apply wp_quiet_bind; [eauto with keeps|done|]. clear w Hq. intros [[r|] [err|]] w Hq;
    try (destruct (failure_report _ _) as [cat det]; apply wp_note_bind; [done|]; intros _;
         apply keeps_bind; [eauto with keeps|intros _]; apply keeps_bind; [eauto with keeps|];
         intros _; apply keeps_throw).
  apply wp_quiet_bind; [eauto with keeps|done|]. clear w Hq. intros _ w Hq.
  apply wp_note_bind; [done|]. intros _. eauto with keeps.
Qed.

Lemma wp_dispatchJob w0 c j w : quiet w0 w -> wp (dispatchJob ex c j) (fun _ => one_note w0) w.
Proof using.
  intros Hq. unfold dispatchJob. repeat case_cond;
    auto using wp_runSignJob, wp_runExportP12Job, wp_runAppIDsJob. apply wp_quiet; eauto with keeps.
Qed.

(** ** The loop *)

(** The control plane answers a claim with at most the one job asked for. *)
Definition one_job : Prop :=
  match ex_claim ex with Some l => (length l <= 1)%nat | None => True end.

Lemma wp_claimAndRun c w :
  one_job -> wp (claimAndRun ex c) (fun _ => one_note w) w.
Proof using.
  intros H1. unfold claimAndRun. apply wp_try_bind; [left; apply quiet_refl|].
  unfold reads, one_job in *. destruct (ex_claim ex) as [[|j [|]]|]; try (left; apply quiet_refl);
    [|simpl in H1; lia].
  simpl. apply wp_bind, wp_bind, wp_attempt. eapply wp_mono; [|apply wp_dispatchJob, quiet_refl]. done.
Qed.
End cap.

(** ** Histories of the loop *)

(** One round of [main]'s loop: the wait before it, what the outside answers,
    and the I/O faults. *)
Record round := MkRound { rd_wait : duration; rd_ex : externals; rd_faults : list bool }.

Section history.
Context `{AeadOps} (c : config).

Definition play (w : wstate) (r : round) : wstate :=
  (run (rd_faults r) (loop_step (rd_ex r) c) (set_clock (ws_now w + rd_wait r) w)).2.

Definition plays (rs : list round) (w : wstate) : wstate := fold_left play rs w.

Definition fair (r : round) : Prop := 0 <= rd_wait r /\ one_job (rd_ex r).

Definition w_capped (w : wstate) : Prop := capped (ws_notes w) (ws_now w) (ws_guard w).

Lemma wp_loop_step ex w :
  one_job ex -> w_capped w -> wp (loop_step ex c) (fun _ => w_capped) w.
Proof using.
  intros H1 Hc. unfold loop_step. apply wp_act_bind.
  destruct (allow (ws_now w) (ws_guard w)) as [[ok s] g] eqn:Ea.
  pose proof (allow_capped _ _ _ _ _ Ea Hc) as Hc'. destruct ok; [|done]. cbn [fst snd].
  eapply wp_mono; [|by apply wp_claimAndRun].
  intros _ w' [(Hn & Hg & Ht)|(t & ok & a & Ht & Hn & Hg)]; unfold w_capped; rewrite Hn, Hg; simpl in *.
  - by eapply capped_later.
  - apply (capped_later _ t); [lia|]. apply (noteRun_capped _ (ws_now w)); [lia| |by eapply allow_true_few].
    apply (capped_later _ (ws_now w)); [lia|done].
Qed.

Lemma plays_capped rs w : Forall fair rs -> w_capped w -> w_capped (plays rs w).
Proof using.
  intros Hf. revert w. induction Hf as [|r rs [Hw H1] _ IH]; intros w Hc; simpl; [done|].
  apply IH. unfold play. apply (wp_run _ (fun _ => w_capped)). apply wp_loop_step; [done|].
  eapply capped_later, Hc. simpl. lia.
Qed.

(** C10. The hourly rate cap: over every history of rounds of the worker's loop,
    whatever the control plane, the helpers and the disk do, no window of one
    hour holds more than twelve reported Apple runs. *)
Theorem hourly_rate_cap rs w t :
  Forall fair rs -> w_capped w -> in_window t (ws_notes (plays rs w)) <= maxAppleRunsPerHour.
Proof using. intros Hf Hc. by apply (plays_capped rs w Hf Hc). Qed.

(** Nothing but the clock. *)
Lemma play_blocked w r :
  (allow (ws_now w + rd_wait r) (ws_guard w)).1.1 = false ->
  (allow (ws_now w + rd_wait r) (ws_guard w)).2 = ws_guard w ->
  play w r = set_clock (ws_now w + rd_wait r) w.
Proof using.
  unfold play, loop_step. simpl. destruct (allow _ _) as [[ok s] g]. simpl. by intros -> ->.
Qed.

Definition waits (rs : list round) : Z := foldr (fun r t => rd_wait r + t) 0 rs.

Lemma waits_nonneg rs : Forall fair rs -> 0 <= waits rs.
Proof using. induction 1 as [|r rs [Hr _] _ IH]; simpl; lia. Qed.

Lemma breaker_blocked rs w :
  Forall fair rs -> unix (ws_now w + waits rs) < BreakerUntilUnix (ws_guard w) ->
  plays rs w = set_clock (ws_now w + waits rs) w.
Proof using.
  intros Hf. revert w. induction Hf as [|r rs [Hw H1] Hf IH]; intros w Hb.
  - simpl. rewrite Z.add_0_r. by destruct w.
  - pose proof (waits_nonneg rs Hf). simpl in Hb |- *. rewrite Z.add_assoc in *.
    assert (Hopen : unix (ws_now w + rd_wait r) < BreakerUntilUnix (ws_guard w)).
    { eapply Z.le_lt_trans, Hb. apply unix_mono. lia. }
    apply Z.ltb_lt in Hopen. rewrite play_blocked by (unfold allow; by rewrite Hopen).
    by rewrite IH.
Qed.

(** C23. The circuit breaker: after a third Apple login failure in a row, rounds
    that stay within the cooldown hour change nothing but the clock: no job is
    claimed, no helper runs, no status is posted. *)
Theorem breaker_holds rs w w0 :
  ws_guard w = noteRun (ws_now w) false true (ws_guard w0) ->
  breakerAuthThreshold <= ConsecutiveAuthFailures (ws_guard w0) + 1 ->
  0 <= ConsecutiveAuthFailures (ws_guard w0) < 2 ^ 62 ->
  Forall fair rs -> unix (ws_now w + waits rs) < unix (ws_now w) + 3600 ->
  plays rs w = set_clock (ws_now w + waits rs) w.
Proof using.
  intros Hg Hn Hr Hf Ht. apply breaker_blocked; [done|]. by rewrite Hg, noteRun_until.
Qed.
End history.
