(* ===== verification/WorkerState.v ===== *)
(** The signing worker's secrets: the choice of the Apple account, the signing
    state sealed on the volume and its plain copy, and what a job leaves
    behind. *)
From S2P Require Import Prelude GoStrings GoTime Effects Schema Guard Worker WorkerSpec.

(** ** The Apple account *)

Definition proper (m : gmap string string) : Prop :=
  forall id p, m !! id = Some p -> id <> "" /\ p <> "".

Lemma add_accounts_proper m file : proper m -> proper (add_accounts m file).
Proof.
  intros Hm. unfold add_accounts. destruct file as [j|]; [|done]. destruct (string_map j) as [l|]; [|done].
  set (p := fold_left _ l _). clearbody p.
  apply (map_fold_weak_ind (fun acc _ => proper acc)); [done|].
  intros id x p' acc _ Hacc. destruct (negb (id =s "") && negb (x =s "")) eqn:E; [|done].
  bools. destruct E as [E1 E2]. intros i y. destruct (decide (id = i)) as [<-|Hne].
  - rewrite lookup_insert_eq. intros [= <-]. by bools.
  - rewrite lookup_insert_ne by done. apply Hacc.
Qed.

Lemma read_accounts_proper fs : proper (read_accounts fs).
Proof.
  unfold read_accounts. assert (Hm : proper ∅) by (intros ??; by rewrite lookup_empty).
  revert Hm. generalize (∅ : gmap string string).
  induction fs as [|f fs IH]; intros m Hm; simpl; [done|]. by apply IH, add_accounts_proper.
Qed.

(** The accounts a job may end up with. *)
Definition configured (c : config) (fs : list (option json)) (id p : string) : Prop :=
  read_accounts fs !! id = Some p \/ (id = appleID c /\ p = applePassword c).

(** The account choice never guesses: what is returned is a configured
    account with a password, the requested one when one was requested; with
    none requested and no default, only a lone account qualifies. *)
Theorem getCredentials_strict c fs requested id p :
  getCredentials c fs requested = (id, p) -> id <> "" ->
  p <> "" /\ configured c fs id p /\ (requested <> "" -> id = requested)
  /\ (requested = "" -> appleID c = "" -> read_accounts fs = {[id := p]}).
Proof.
  pose proof (read_accounts_proper fs) as Hp. unfold getCredentials, configured.
  destruct (requested =s "") eqn:Er; simpl; bools.
  - destruct (negb (appleID c =s "") && negb (applePassword c =s "")) eqn:Ed; bools.
    + intros [= <- <-] _. destruct Ed as [E1 E2]. bools. split_and!; try done. by right.
    + destruct (map_to_list (read_accounts fs)) as [|[i x] [|]] eqn:El; intros [= <- <-] Hi; try done.
      assert (Hm : read_accounts fs = {[i := x]}).
      { apply map_to_list_inj. by rewrite El, map_to_list_singleton. }
      rewrite Hm. specialize (Hp i x). rewrite Hm in Hp. rewrite lookup_singleton_eq in *.
      split_and!; try done; [by apply Hp|by left].
  - destruct (read_accounts fs !! requested) as [pass|] eqn:El.
    + intros [= <- <-] _. destruct (Hp _ _ El). split_and!; try done. by left.
    + destruct ((requested =s appleID c) && negb (applePassword c =s "")) eqn:Ed; intros [= <- <-] Hi; [|done].
      bools. destruct Ed as [-> Ed]. bools. split_and!; try done. by right.
Qed.

(** ** The sealed state *)

Section state.
Context `{AeadLaws} (ex : externals).

(** The volume is a map of plain files, each under an envelope of the key. *)
Definition sealed (k : string) (plain : files) (v : files) : Prop :=
  forall f, match v !! f with
            | None => plain !! f = None
            | Some d => exists p, plain !! f = Some p /\ open_envelope k d = inr p
            end.

Lemma open_seal k i p : open_envelope k (envelope k (aead_nonce i) p) = inr p.
Proof using H0.
  unfold open_envelope, envelope. pose proof (aead_nonce_length i) as Hl.
  rewrite <- Hl at 2 3. rewrite str_take_app, str_drop_app, aead_open_seal.
  rewrite str_length_app, Hl. by rewrite (proj2 (Nat.ltb_ge _ _)) by lia.
Qed.

Lemma sealed_insert k plain v f p i :
  sealed k plain v -> sealed k (<[f := p]> plain) (<[f := envelope k (aead_nonce i) p]> v).
Proof using H0.
  intros Hs g. destruct (decide (f = g)) as [<-|Hne].
  - rewrite !lookup_insert_eq. exists p. split; [done|apply open_seal].
  - rewrite !lookup_insert_ne by done. apply Hs.
Qed.

Definition overlay (l : list (string * string)) (plain : files) : files :=
  fold_left (fun m f => <[f.1 := f.2]> m) l plain.

Lemma overlay_union l plain : NoDup l.*1 -> overlay l plain = list_to_map l ∪ plain.
Proof using.
  revert plain. induction l as [|[f p] l IH]; intros plain Hnd; simpl; [by rewrite map_empty_union|].
  apply NoDup_cons in Hnd as [Hf Hnd]. unfold overlay in *. simpl. rewrite IH by done.
  rewrite <- insert_union_l, insert_union_r; [done|]. by apply not_elem_of_list_to_map_1.
Qed.

Lemma overlay_map m plain : overlay (map_to_list m) plain = m ∪ plain.
Proof using. rewrite overlay_union by apply NoDup_fst_map_to_list. by rewrite list_to_map_to_list. Qed.

Context (key : string) (Hkey : ex_kek ex = Some key).

Lemma exec_encryptFile p f w :
  exec (encryptFile ex p f) w =
    (inr tt, set_volume (write_file (ws_volume w) f (envelope key (aead_nonce (ws_rand w)) p))
               (set_rand (ws_rand w + 1)%N w)).
Proof using Hkey. unfold encryptFile, need_kek. by rewrite Hkey. Qed.

Lemma exec_decryptFile d f p w :
  open_envelope key d = inr p ->
  exec (decryptFile ex d f) w = (inr tt, set_runtime (write_file (ws_runtime w) f p) w).
Proof using Hkey. intros Ho. unfold exec, decryptFile, need_kek. rewrite Hkey. simpl. by rewrite Ho. Qed.

Lemma seal_files l plain v w :
  sealed key plain v -> ws_volume w = Some v ->
  ewp (for_ l (fun f => encryptFile ex f.2 f.1))
    (fun r w' => r = inr tt /\ ws_runtime w' = ws_runtime w
       /\ exists v', ws_volume w' = Some v' /\ sealed key (overlay l plain) v') w.
Proof using All.
  revert plain v w. induction l as [|[f p] l IH]; intros plain v w Hs Hv; [by split_and!; eauto|].
  apply ewp_bind. eapply ewp_exec; [apply exec_encryptFile|].
  set (w1 := set_volume _ _). cbv beta iota. apply (IH _ (<[f := envelope key (aead_nonce (ws_rand w)) p]> v) w1).
  - by apply sealed_insert.
  - subst w1. simpl. by rewrite Hv.
Qed.

(** What an envelope holds. *)
Definition opened (d : string) : string :=
  match open_envelope key d with inr p => p | inl _ => "" end.

Lemma unseal_files l w rt :
  (forall f d, (f, d) ∈ l -> open_envelope key d = inr (opened d)) -> ws_runtime w = Some rt ->
  ewp (for_ l (fun f => decryptFile ex f.2 f.1))
    (fun r w' => r = inr tt /\ ws_volume w' = ws_volume w
       /\ ws_runtime w' = Some (overlay (prod_map id opened <$> l) rt)) w.
Proof using All.
  revert rt w. induction l as [|[f d] l IH]; intros rt w Ho Hr; [by split_and!|].
  assert (Hd : open_envelope key d = inr (opened d)) by (apply (Ho f); by left).
  apply ewp_bind. eapply ewp_exec; [by apply exec_decryptFile|].
  set (w1 := set_runtime _ _). cbv beta iota. eapply ewp_mono; [|apply (IH (<[f := opened d]> rt) w1)].
  - intros r w' (H1 & H2 & H3). by split_and!.
  - intros g e Hg. apply (Ho g e). by right.
  - subst w1. simpl. by rewrite Hr.
Qed.

Lemma sealed_opened plain v : sealed key plain v -> opened <$> v = plain.
Proof using.
  intros Hs. apply map_eq. intros f. rewrite lookup_fmap. specialize (Hs f).
  destruct (v !! f) as [d|]; simpl; [|done]. destruct Hs as (p & -> & Ho). unfold opened. by rewrite Ho.
Qed.

Lemma sealed_opens plain v f d :
  sealed key plain v -> v !! f = Some d -> open_envelope key d = inr (opened d).
Proof using.
  intros Hs Hf. specialize (Hs f). rewrite Hf in Hs. destruct Hs as (p & _ & Ho). unfold opened.
  by rewrite Ho.
Qed.

Lemma encryptState_seals plain v m w :
  sealed key plain v -> ws_volume w = Some v -> ws_runtime w = Some m ->
  ewp (encryptState ex)
    (fun r w' => r = inr tt /\ ws_runtime w' = Some m
       /\ exists v', ws_volume w' = Some v' /\ sealed key (m ∪ plain) v') w.
Proof using All.
  intros Hs Hv Hm. unfold encryptState. apply ewp_bind. eapply ewp_exec; [reflexivity|]. simpl.
  rewrite Hm. eapply ewp_mono; [|by eapply seal_files]. rewrite overlay_map. naive_solver congruence.
Qed.

Lemma decryptState_opens plain v m w :
  sealed key plain v -> ws_volume w = Some v -> ws_runtime w = Some m ->
  ewp (decryptState ex)
    (fun r w' => r = inr tt /\ ws_volume w' = Some v /\ ws_runtime w' = Some (plain ∪ m)) w.
Proof using All.
  intros Hs Hv Hm. unfold decryptState. apply ewp_bind. eapply ewp_exec; [reflexivity|]. simpl.
  rewrite Hv. eapply ewp_mono; [|eapply unseal_files; [|exact Hm]].
  - intros r w' (-> & -> & ->). split_and!; [done..|]. f_equal.
    rewrite overlay_union.
    + rewrite list_to_map_fmap, list_to_map_to_list. by rewrite (sealed_opened plain).
    + rewrite <- list_fmap_compose. apply NoDup_fst_map_to_list.
  - intros f d Hfd%elem_of_map_to_list. by eapply sealed_opens.
Qed.

(** C21. Round trip of the signing state: what a job leaves in the runtime
    directory is sealed onto the volume, and once the plain copy is wiped the
    next job's decryption brings back exactly these files, over those sealed
    before that this job did not write. *)
Theorem state_roundtrip plain v m w :
  sealed key plain v -> ws_volume w = Some v -> ws_runtime w = Some m ->
  ewp (_ ← encryptState ex; _ ← wipe; _ ← try_ Fs (writes make_runtime); decryptState ex)
    (fun r w' => r = inr tt /\ ws_runtime w' = Some (m ∪ plain)
       /\ exists v', ws_volume w' = Some v' /\ sealed key (m ∪ plain) v') w.
Proof using All.
  intros Hs Hv Hm. apply ewp_bind. eapply ewp_mono; [|by eapply encryptState_seals].
  intros r w' (-> & Hm' & v' & Hv' & Hs').
  apply ewp_bind. eapply ewp_exec; [reflexivity|]. apply ewp_bind. eapply ewp_exec; [reflexivity|].
  eapply ewp_mono; [|by apply (decryptState_opens (m ∪ plain) v' ∅)].
  intros r w'' (-> & Hv'' & Hm''). rewrite map_union_empty in Hm''. eauto.
Qed.
End state.

(** ** What a job leaves behind *)

Create HintDb steady.

Section cleanup.
Context `{AeadOps} (ex : externals).

Definition beats (l : list string) (w : wstate) : Prop := ws_heartbeats w = l.

Lemma beats_stable l w w' : calm w w' -> beats l w -> beats l w'.
Proof using. intros [_ Hb] Hw. unfold beats in *. congruence. Qed.

#[local] Hint Resolve beats_stable : keeps.

Lemma keeps_note_run {E} l ok authf : keeps (beats l) (@note_run E ok authf).
Proof using.
  intros w Hw. split; exact Hw.
Qed.

#[local] Hint Resolve keeps_note_run : keeps.

(** A step that never gives up and leaves the heartbeats alone. *)
Definition steady {A} l (p : prog wstate unit A) : Prop := keeps (beats l) p /\ throws (fun _ => False) p.

Lemma wp_steady_bind {A B} l (p : prog wstate unit A) (f : A -> prog wstate unit B) Q w :
  steady l p -> beats l w -> (forall a w', beats l w' -> wp (f a) Q w') -> wp (p ≫= f) Q w.
Proof using.
  intros [Hp Ht] Hw Hf. apply wp_bind. eapply wp_mono; [|apply wp_throws; [exact Ht|by apply Hp]].
  intros [e|a] w' [Hw' He]; [done|by apply Hf].
Qed.

Lemma steady_post l jobID st p cat det res : steady l (postJobStatus jobID st p cat det res).
Proof using. split; [eauto with keeps|by intros ?]. Qed.
Lemma steady_read {X} l c (g : wstate -> X) : steady l (try_ c (reads g)).
Proof using. split; [eauto with keeps|by intros ?]. Qed.
Lemma steady_make_runtime l : steady l (try_ Fs (writes make_runtime)).
Proof using. split; [eauto with keeps|by intros ?]. Qed.
Lemma steady_attempt {E X} l (p : prog wstate E X) : keeps (beats l) p -> steady l (attempt p).
Proof using. intros Hp. split; [by apply keeps_attempt|apply throws_attempt]. Qed.
Lemma steady_reencrypt l : steady l (reencrypt ex).
Proof using.
  split; [eauto with keeps|]. apply throws_bind; [apply throws_attempt|done].
Qed.
Lemma steady_note_run l ok a : steady l (note_run ok a).
Proof using. split; [eauto with keeps|by intros ??]. Qed.
Lemma steady_runSignonly l c m p : steady l (runSignonly ex c m p).
Proof using.
  split; [eauto with keeps|]. unfold runSignonly, run_helper. repeat case_cond; try done;
    by destruct (ex_run ex _); simpl; auto.
Qed.
Lemma steady_download l a : steady l (downloadArtifact ex a).
Proof using.
  split; [eauto with keeps|]. unfold downloadArtifact. destruct (ex_download ex a); [done|].
  case_cond; [done|]. intros [|]; [done|by intros [|]].
Qed.
Lemma steady_upload l c jobID dev p r : steady l (uploadSignedIPA ex c jobID dev p r).
Proof using. split; [eauto with keeps|by intros [|]]. Qed.

#[local] Hint Resolve steady_post steady_read steady_make_runtime steady_attempt steady_reencrypt
  steady_note_run steady_runSignonly steady_download steady_upload : steady.

Lemma wp_stop {A} jobID l (k : unit -> prog wstate unit A) Q w :
  beats l w -> (forall w', beats (remove_one jobID l) w' -> wp (k tt) Q w') ->
  wp (stop_heartbeat jobID ≫= k) Q w.
Proof using. intros Hw Hk. apply wp_act_bind. apply Hk. unfold beats in *. simpl. by rewrite Hw. Qed.

Lemma wp_sign_fails {A} jobID l cat det b w :
  beats l w -> wp (@sign_fails _ ex A jobID cat det b) (fun _ => beats (remove_one jobID l)) w.
Proof using.
  intros Hw. unfold sign_fails. eapply wp_steady_bind; [auto with steady|done|]. clear w Hw. intros _ w Hw.
  eapply wp_steady_bind with (l := l); [|done|].
  - destruct b; [apply steady_reencrypt|by split; [apply keeps_ret|]].
  - intros _ w' Hw'. by eapply wp_stop.
Qed.

(** On every exit, the heartbeat of the job is stopped. *)
Lemma wp_sign_steps_stops l c jobID dev p m w :
  beats l w -> wp (sign_steps ex c jobID dev p m) (fun _ => beats (remove_one jobID l)) w.
Proof using.
  intros Hw. unfold sign_steps, in_progress.
  eapply wp_steady_bind; [auto with steady|done|]. clear w Hw. intros [e|] w Hw; [by apply wp_sign_fails|].
  eapply wp_steady_bind; [auto with steady|done|]. clear w Hw. intros _ w Hw.
  eapply wp_steady_bind; [auto with steady|done|]. clear w Hw. intros [e|_] w Hw; [by apply wp_sign_fails|].
  eapply wp_steady_bind; [eauto with steady keeps|done|]. clear w Hw. intros [e|_] w Hw; [by apply wp_sign_fails|].
  destruct (getCredentials _ _ _) as [i pw]. case_cond; [by apply wp_sign_fails|].
  eapply wp_steady_bind; [auto with steady|done|]. clear w Hw. intros [[r|] [err|]] w Hw;
    try (destruct (failure_report _ _) as [cat det]; eapply wp_steady_bind; [auto with steady|done|];
         intros _ w' Hw'; by apply wp_sign_fails).
  eapply wp_steady_bind; [auto with steady|done|]. clear w Hw. intros _ w Hw.
  eapply wp_steady_bind; [auto with steady|done|]. clear w Hw. intros _ w Hw.
  destruct dev as [d|]; [|by apply wp_sign_fails].
  eapply wp_steady_bind; [auto with steady|done|]. clear w Hw. intros [e|sid] w Hw; [by apply wp_sign_fails|].
  eapply wp_steady_bind; [auto with steady|done|]. clear w Hw. intros _ w Hw.
  eapply wp_steady_bind; [auto with steady|done|]. clear w Hw. intros _ w Hw.
  unfold stop_heartbeat, put_. simpl. unfold beats in *. simpl. by rewrite Hw.
Qed.

Lemma remove_one_head x l : remove_one x (x :: l) = l.
Proof using. simpl. by rewrite bool_decide_eq_true_2. Qed.

(** The deferred cleanup runs on every exit; it counts when it succeeds. *)
Lemma run_deferred_wipe b fl l (p : prog wstate unit unit) w :
  let q := r ← attempt p; _ ← wipe; match (r : unit + unit) with inl _ => Throw tt | inr _ => Ret tt end in
  wp p (fun _ => beats l) w -> last_faulted b fl q w = false ->
  ws_runtime (run fl q w).2 = None /\ beats l (run fl q w).2.
Proof using.
  intros q Hp. apply (lwp_run b q (fun _ w' => ws_runtime w' = None /\ beats l w')).
  apply lwp_bind, wp_attempt. eapply wp_mono; [|exact Hp].
  intros r w' Hw' b'. split; [by destruct r|]. by destruct r.
Qed.

Lemma keeps_export_steps l c jobID i pw m : keeps (beats l) (export_steps ex c jobID i pw m).
Proof using.
  unfold export_steps. apply keeps_bind; [eauto with keeps|]. intros [e|_]; [eauto with keeps|].
  apply keeps_bind; [eauto with keeps|]. intros [e|_]; [eauto with keeps|].
  apply keeps_bind; [eauto with keeps|]. intros [[r|] [err|]];
    try (destruct (failure_report _ _); repeat (apply keeps_bind; [eauto with keeps|intros _]); apply keeps_throw).
  apply keeps_bind; [eauto with keeps|]. intros [e|_].
  - repeat (apply keeps_bind; [eauto with keeps|intros _]). apply keeps_throw.
  - do 2 (apply keeps_bind; [eauto with keeps|intros _]). eauto with keeps.
Qed.

(** No plain signing state that was not there before, and no heartbeat running
    that did not run before. *)
Definition cleaned (w w' : wstate) : Prop :=
  (ws_runtime w' = None \/ ws_runtime w' = ws_runtime w) /\ ws_heartbeats w' = ws_heartbeats w.

(** A first report, whether it arrives or not. *)
Lemma run_in_progress {A} b fl jobID k (f : unit -> prog wstate unit A) w :
  exists w1, ws_runtime w1 = ws_runtime w /\ ws_heartbeats w1 = ws_heartbeats w
    /\ run fl (in_progress jobID k ≫= f) w = run (tail fl) (f tt) w1
    /\ exists b1, last_faulted b fl (in_progress jobID k ≫= f) w = last_faulted b1 (tail fl) (f tt) w1.
Proof using.
  destruct fl as [|[] fl]; simpl; eexists;
    (split; [|split; [|split; [reflexivity|eexists; reflexivity]]]); reflexivity.
Qed.

Lemma give_up_cleans fl jobID cat det w w1 :
  ws_runtime w1 = ws_runtime w -> ws_heartbeats w1 = ws_heartbeats w ->
  cleaned w (run fl (give_up_with (A := unit) jobID cat det) w1).2.
Proof using. intros Hr Hb. destruct fl as [|[] fl]; simpl; split; simpl; auto. Qed.

(** Work in a temporary directory that could be made. *)
Lemma run_in_workdir {A} b fl (f : sqlerr + unit -> prog wstate unit A) w :
  head fl <> Some true ->
  run fl (try_ Fs (reads (fun _ => tt)) ≫= f) w = run (tail fl) (f (inr tt)) w
  /\ last_faulted b fl (try_ Fs (reads (fun _ => tt)) ≫= f) w = last_faulted false (tail fl) (f (inr tt)) w.
Proof using. by destruct fl as [|[] fl]. Qed.

Lemma run_start {A} b fl jobID (f : unit -> prog wstate unit A) w :
  run fl (start_heartbeat jobID ≫= f) w = run fl (f tt) (set_heartbeats (cons jobID) w)
  /\ last_faulted b fl (start_heartbeat jobID ≫= f) w = last_faulted b fl (f tt) (set_heartbeats (cons jobID) w).
Proof using. done. Qed.

Lemma head_tail {X} (l : list X) : head (tail l) = l !! 1%nat.
Proof using. by destruct l as [|? []]. Qed.

Lemma run_runSignJob_cleans c jobID dev raw fl w :
  fl !! 1%nat <> Some true -> last_faulted false fl (runSignJob ex c jobID dev raw) w = false ->
  cleaned w (run fl (runSignJob ex c jobID dev raw) w).2.
Proof using.
  unfold runSignJob. intros Hfl.
  match goal with |- context [run fl (in_progress jobID 5 ≫= ?f) w] =>
    destruct (run_in_progress false fl jobID 5 f w) as (w1 & Hr & Hb & -> & b1 & ->) end.
  destruct (_ ≫= _) as [p|]; [|by intros; apply give_up_cleans].
  destruct (sp_ArtifactID p =s ""); [by intros; apply give_up_cleans|].
  destruct (sp_DeviceUdid p =s ""); [by intros; apply give_up_cleans|].
  rewrite <- head_tail in Hfl. cbv zeta.
  match goal with |- context [run (tail fl) (start_heartbeat jobID ≫= ?f) w1] =>
    destruct (run_start b1 (tail fl) jobID f w1) as [-> ->] end.
  match goal with |- context [run (tail fl) (try_ Fs ?g ≫= ?f) ?w2] =>
    destruct (run_in_workdir b1 (tail fl) f w2 Hfl) as [-> ->] end.
  intros Hl. eapply (run_deferred_wipe _ _ (ws_heartbeats w1)) in Hl as [Hw' Hb'].
  2: { rewrite <- (remove_one_head jobID (ws_heartbeats w1)).
       by apply wp_sign_steps_stops. }
  split; [by left|]. by rewrite <- Hb.
Qed.

Lemma run_runExportP12Job_cleans c jobID raw fl w :
  fl !! 1%nat <> Some true -> last_faulted false fl (runExportP12Job ex c jobID raw) w = false ->
  cleaned w (run fl (runExportP12Job ex c jobID raw) w).2.
Proof using.
  unfold runExportP12Job. intros Hfl.
  match goal with |- context [run fl (in_progress jobID 5 ≫= ?f) w] =>
    destruct (run_in_progress false fl jobID 5 f w) as (w1 & Hr & Hb & -> & b1 & ->) end.
  destruct (_ ≫= _) as [p|]; [|by intros; apply give_up_cleans].
  destruct (getCredentials _ _ _) as [i pw]. case_cond; [by intros; apply give_up_cleans|].
  rewrite <- head_tail in Hfl. cbv zeta.
  match goal with |- context [run (tail fl) (try_ Fs ?g ≫= ?f) ?w2] =>
    destruct (run_in_workdir b1 (tail fl) f w2 Hfl) as [-> ->] end.
  intros Hl. eapply (run_deferred_wipe _ _ (ws_heartbeats w1)) in Hl as [Hw' Hb'].
  2: { by apply keeps_export_steps. }
  split; [by left|]. by rewrite <- Hb.
Qed.

(** C22. Sign and certificate-export jobs leave nothing plain behind: whatever the
    control plane, the helper, the decryption, the disk and the upload do, as long
    as two steps work, the temporary directory can be made (the second fallible
    step of the job) and the deferred removal of the runtime directory (the last
    one) succeeds, the decrypted signing state is gone, or the job gave up before
    it touched the directory, and no heartbeat runs that did not run before.
    Both conditions are needed: [mkdir_failure_leaks_heartbeat],
    [failed_removal_leaves_plaintext]. *)
Theorem signing_jobs_clean_up c j fl w :
  cj_JobType j = "sign" \/ cj_JobType j = "export_p12" ->
  fl !! 1%nat <> Some true ->
  last_faulted false fl (dispatchJob ex c j) w = false ->
  cleaned w (run fl (dispatchJob ex c j) w).2.
Proof using.
  intros Ht. unfold dispatchJob. destruct Ht as [->| ->]; simpl;
    [apply run_runSignJob_cleans|apply run_runExportP12Job_cleans].
Qed.
End cleanup.
