(* ===== verification/WorkerWitness.v ===== *)
(** The theorems about the signing worker at concrete runs, and the runs that
    show its flaws. *)
From S2P Require Import Prelude GoStrings GoTime Effects Schema Guard Worker WorkerSpec WorkerState.

(** A sealing that records key and nonce in front of the text. *)
#[local] Instance sample_aead : AeadOps := {
  aead_seal k n p := (k ++s n) ++s p;
  aead_open k n d := if has_prefix (k ++s n) d then Some (str_drop (String.length (k ++s n)) d) else None;
  aead_nonce i := "nonce-123456"
}.

#[local] Instance sample_aead_laws : AeadLaws.
Proof.
  split; [|done]. intros k n p. simpl. rewrite has_prefix_app, str_drop_app. done.
Qed.

Definition a_config : config :=
  MkConfig "http://cp" "/state" "" "/run/state" "signonly" "p12export" "appids" "http://anisette"
    "me@example.com" "secret" "" "/2fa".

Definition a_sign_job : claimed_job :=
  MkClaimed "job-1" "sign" (Some "device-1")
    (Some (JObj [("artifact_id", JStr "artifact-1"); ("udid", JStr "udid-1")])).

(** An outside in which the helper ends as [p] and the upload succeeds. *)
Definition outside (claimed : list claimed_job) (p : process) : externals :=
  MkExternals (Some claimed) (fun _ => DownloadAnswer 200 "PK" None) (fun _ => p) (fun _ m => <["cache" := "new"]> m)
    (fun _ => 60 * Second) (fun _ => UploadAnswer 201 "" (Some "signed-1")) [] "input/output error"
    (Some "key") "cDEy".

Definition helper_ok : process := Exited None (Some (JObj [("status", JStr "ok")])) "".
Definition auth_failure : process :=
  Exited None (Some (JObj [("status", JStr "error"); ("category", JStr "auth"); ("error", JStr "login")])) "".

Definition the_volume : files := {["session" := envelope "key" (aead_nonce 0) "plain session"]}.

Definition start_state : wstate :=
  MkW (1000 * Hour) zeroGuard None (Some the_volume) None [] [] [] [] 1.

Lemma start_capped : w_capped start_state.
Proof.
  split.
  - intros x Hx. by apply not_elem_of_nil in Hx.
  - done.
  - intros t. by vm_compute.
Qed.

Definition a_history (p : process) (n : nat) : list round :=
  replicate n (MkRound (20 * Second) (outside [a_sign_job] p) []).

Lemma a_history_fair p n : Forall fair (a_history p n).
Proof. apply Forall_replicate. split; [done|]. unfold one_job. simpl. lia. Qed.

(** Twenty rounds of successful jobs: the cap stops the worker at twelve. *)
Example twelve_runs : ws_notes (plays a_config (a_history helper_ok 20) start_state)
  = (fun i => 3600000 + 80 * i) <$> seqZ 1 12.
Proof. vm_compute. reflexivity. Qed.

Lemma hourly_rate_cap_witness :
  Forall fair (a_history helper_ok 20) /\ in_window 3600000 (ws_notes (plays a_config (a_history helper_ok 20) start_state)) = 12
  /\ in_window 3600000 (ws_notes (plays a_config (a_history helper_ok 20) start_state)) <= maxAppleRunsPerHour.
Proof.
  split_and!; [apply a_history_fair|by vm_compute|].
  apply hourly_rate_cap; [apply a_history_fair|apply start_capped].
Defined.

(** Two failed logins, then the third. *)
Definition two_failures : wstate := plays a_config (a_history auth_failure 2) start_state.
Definition three_failures : wstate := plays a_config (a_history auth_failure 3) start_state.

Lemma breaker_holds_witness :
  ws_guard three_failures = noteRun (ws_now three_failures) false true (ws_guard two_failures)
  /\ plays a_config (a_history auth_failure 100) three_failures
     = set_clock (ws_now three_failures + 2000 * Second) three_failures.
Proof.
  split; [by vm_compute|].
  apply (breaker_holds a_config (a_history auth_failure 100) three_failures two_failures);
    [by vm_compute|by vm_compute|by vm_compute|apply a_history_fair|by vm_compute].
Defined.

(** ** Secrets *)

Definition two_accounts : list (option json) :=
  [None; Some (JObj [("a@example.com", JStr "pa"); ("b@example.com", JStr "pb"); ("c@example.com", JStr "")])].

Definition no_default : config := with_account "" "" a_config.

Example ambiguous_account : getCredentials no_default two_accounts "" = ("", "").
Proof. vm_compute. reflexivity. Qed.
Example unknown_account : getCredentials a_config two_accounts "c@example.com" = ("", "").
Proof. vm_compute. reflexivity. Qed.

Lemma getCredentials_strict_witness :
  getCredentials a_config two_accounts "b@example.com" = ("b@example.com", "pb")
  /\ configured a_config two_accounts "b@example.com" "pb".
Proof.
  split; [by vm_compute|].
  apply (getCredentials_strict a_config two_accounts "b@example.com" "b@example.com" "pb"); [by vm_compute|done].
Defined.

Definition job_state : wstate := set_runtime (Some {["cache" := "new cache"]}) start_state.

Lemma volume_sealed : sealed "key" {["session" := "plain session"]} the_volume.
Proof.
  assert (Hs : sealed "key" ∅ ∅) by (intros f; by rewrite !lookup_empty).
  exact (sealed_insert "key" ∅ ∅ "session" "plain session" 0 Hs).
Qed.

Lemma state_roundtrip_witness :
  ewp (_ ← encryptState (outside [] helper_ok); _ ← wipe; _ ← try_ Fs (writes make_runtime);
       decryptState (outside [] helper_ok))
    (fun r w' => r = inr tt
       /\ ws_runtime w' = Some ({["cache" := "new cache"]} ∪ {["session" := "plain session"]})
       /\ exists v', ws_volume w' = Some v'
          /\ sealed "key" ({["cache" := "new cache"]} ∪ {["session" := "plain session"]}) v') job_state.
Proof.
  apply (state_roundtrip (outside [] helper_ok) "key" eq_refl {["session" := "plain session"]} the_volume);
    [apply volume_sealed|reflexivity|reflexivity].
Defined.

(** The report of progress, the download and the decryption fail on the way. *)
Lemma signing_jobs_clean_up_witness :
  let fl := [true; false; true; true; false; true] in
  let r := run fl (dispatchJob (outside [] auth_failure) a_config a_sign_job) start_state in
  last_faulted false fl (dispatchJob (outside [] auth_failure) a_config a_sign_job) start_state = false
  /\ cleaned start_state r.2.
Proof.
  split; [vm_compute; reflexivity|].
  apply signing_jobs_clean_up; [by left|done|vm_compute; reflexivity].
Defined.

(** ** Flaws *)

(** [runAppIDsJob] has no deferred cleanup: the decrypted signing state stays in
    the runtime directory after the job. *)
Definition an_appids_job : claimed_job :=
  MkClaimed "job-2" "appids" None (Some (JObj [("action", JStr "list")])).

Example appids_leaves_plaintext :
  ws_runtime (exec (dispatchJob (outside [] helper_ok) a_config an_appids_job) start_state).2
  = Some {["session" := "plain session"; "cache" := "new"]}.
Proof. vm_compute. reflexivity. Qed.

(** [runSignJob] returns on a failed [MkdirTemp] without closing the channel of
    the heartbeat it started: the lease of the failed job is renewed for good. *)
Example mkdir_failure_leaks_heartbeat :
  ws_heartbeats (run [false; true] (dispatchJob (outside [] helper_ok) a_config a_sign_job) start_state).2
  = ["job-1"].
Proof. vm_compute. reflexivity. Qed.

(** The error of the deferred removal is dropped: the plain state stays. *)
Example failed_removal_leaves_plaintext :
  exists fl, last_faulted false fl (dispatchJob (outside [] helper_ok) a_config a_sign_job) start_state = true
  /\ ws_runtime (run fl (dispatchJob (outside [] helper_ok) a_config a_sign_job) start_state).2 <> None.
Proof. exists (repeat false 20 ++ [true]). vm_compute. split; [reflexivity|discriminate]. Qed.

(** [runExportP12Job] returns on an unreadable result without telling the guard:
    the run is not counted against the hourly cap. *)
Definition an_export_job : claimed_job := MkClaimed "job-3" "export_p12" None (Some (JObj [])).

Example unread_p12_is_uncounted :
  let w := (run [false; false; false; false; false; false; true]
              (dispatchJob (outside [] helper_ok) a_config an_export_job) start_state).2 in
  length (ws_runs w) = 1%nat /\ ws_notes w = []
  /\ po_state <$> ws_posts w = ["in_progress"; "failed"].
Proof. vm_compute. done. Qed.

(** An import that stops half way is taken for a finished one at the next start. *)
Definition two_files : option (list dir_entry) :=
  Some [FileEntry "anisette" "a"; FileEntry "session" "b"].
Definition empty_volume : wstate := MkW 0 zeroGuard None None None [] [] [] [] 1.

Example failed_import_is_taken_for_done :
  let ex := outside [] helper_ok in
  let '(r, w) := run [false; false; false; false; false; true] (importState ex two_files) empty_volume in
  let '(r', w') := exec (importState ex two_files) w in
  r = inl "input/output error" /\ r' = inr tt
  /\ dom (default ∅ (ws_volume w')) = {["anisette"]}.
Proof. vm_compute. done. Qed.
