(* ===== verification/Reports.v ===== *)
(** The signing worker's reports on their way to the queue: the statuses it posts
    (cmd/signing-worker/main.go, postJobStatus and the heartbeat of a sign job)
    as the requests the control plane decodes, and their reception by
    [handleUpdateJob].

    A text goes over the wire as a JSON string: encoding/json replaces every byte
    that is not part of well-formed UTF-8 by U+FFFD. *)
From S2P Require Import Prelude GoStrings GoTime Effects Schema AuditLog Jobs Http Auth Agents Guard Worker.

(** ** Texts in JSON *)

Definition replacement : string := String "239" (String "191" (String "189" "")).

Definition two_bytes (a b : ascii) : bool :=
  (194 <=? N_of_ascii a)%N && (N_of_ascii a <? 224)%N && utf8_tail b.

Definition three_bytes (a b c : ascii) : bool :=
  let n := N_of_ascii a in let m := N_of_ascii b in
  (224 <=? n)%N && (n <? 240)%N && utf8_tail b && utf8_tail c && ((225 <=? n)%N || (160 <=? m)%N)
  && (negb (n =? 237)%N || (m <? 160)%N).

Definition four_bytes (a b c d : ascii) : bool :=
  let n := N_of_ascii a in let m := N_of_ascii b in
  (240 <=? n)%N && (n <? 245)%N && utf8_tail b && utf8_tail c && utf8_tail d
  && ((241 <=? n)%N || (144 <=? m)%N) && (negb (n =? 244)%N || (m <? 144)%N).

(** What [json.Unmarshal] reads of what [json.Marshal] wrote. *)
Fixpoint scrub (s : string) : string :=
  match s with
  | EmptyString => ""
  | String a s1 =>
      if is_ascii a then String a (scrub s1) else
      match s1 with
      | EmptyString => replacement
      | String b s2 =>
          if two_bytes a b then String a (String b (scrub s2)) else
          match s2 with
          | EmptyString => replacement ++s scrub s1
          | String c s3 =>
              if three_bytes a b c then String a (String b (String c (scrub s3))) else
              match s3 with
              | EmptyString => replacement ++s scrub s1
              | String d s4 =>
                  if four_bytes a b c d then String a (String b (String c (String d (scrub s4))))
                  else replacement ++s scrub s1
              end
          end
      end
  end.

(** ** Requests *)

(** A member that is left out when it is empty. *)
Definition sent_text (s : string) : option string := if s =s "" then None else Some (scrub s).

Fixpoint scrub_json (j : json) : json :=
  match j with
  | JStr s => JStr (scrub s)
  | JArr l => JArr (map scrub_json l)
  | JObj l => JObj (map (fun kv => (scrub kv.1, scrub_json kv.2)) l)
  | _ => j
  end.

Definition request_of (p : post) : UpdateRequest :=
  MkUpdateRequest (po_state p) (po_progress p) (sent_text (po_category p)) (sent_text (po_details p))
    (scrub_json <$> po_result p).

(** What the heartbeat of a sign job posts. *)
Definition heartbeat_post (jobID : string) : post := MkPost jobID "in_progress" None "" "" None.

(** The heartbeat runs beside the job: its posts may come between any two of the
    job's, and after the last one. *)
Inductive with_heartbeats (jobID : string) : list post -> list post -> Prop :=
| wh_nil : with_heartbeats jobID [] []
| wh_post p l l' : with_heartbeats jobID l l' -> with_heartbeats jobID (p :: l) (p :: l')
| wh_beat l l' : with_heartbeats jobID l l' -> with_heartbeats jobID l (heartbeat_post jobID :: l').

(** ** Reception *)

Section reception.
Context `{UuidText}.

Definition receive (s : Server) (agent : uuid) (w : world) (p : post) : world :=
  (exec (handleUpdateJob s agent (po_job p) (Some (request_of p))) w).2.

(** The reports of one job arrive in order; in between others work on the rows
    they hold, and time passes. *)
Inductive reception (s : Server) (agent id : uuid) : list post -> world -> world -> Prop :=
| rc_nil w : reception s agent id [] w w
| rc_post p ps w w' :
    reception s agent id ps (receive s agent w p) w' -> reception s agent id (p :: ps) w w'
| rc_others ps w w1 w' :
    W_jobs w1 !! id = W_jobs w !! id -> reception s agent id ps w1 w' -> reception s agent id ps w w'.
End reception.
