(* ===== verification/ReportsSpec.v ===== *)
(** Worker and queue together: what a dispatched job reports, and what becomes of
    it in the jobs table; at the end, the reports of a failed sign job and of one
    whose report is lost. *)
From S2P Require Import Prelude GoStrings Effects GoTime Schema Samples AuditLog Jobs JobsInvariant JobsSpec JobsOutcome JobsWitness Http Auth Agents Guard Worker WorkerSpec WorkerWitness Reports.

(** ** Texts *)

Lemma utf8_two a b s :
  two_bytes a b = true -> utf8_valid (String a (String b s)) = utf8_valid s.
Proof.
  unfold two_bytes. rewrite !andb_true_iff. intros [[H1 H2] H3]. cbn [utf8_valid].
  apply N.leb_le in H1. apply N.ltb_lt in H2.
  rewrite (proj2 (N.ltb_ge _ _)) by lia.
  rewrite (proj2 (N.leb_le _ _)), (proj2 (N.ltb_lt _ _)) by lia. cbn [andb]. by rewrite H3.
Qed.

Lemma utf8_three a b c s :
  three_bytes a b c = true -> utf8_valid (String a (String b (String c s))) = utf8_valid s.
Proof.
  unfold three_bytes. cbv zeta. intros Hb. pose proof Hb as H1. rewrite !andb_true_iff in H1.
  destruct H1 as [[[[[H1 H2] H3] H4] H5] H6]. cbn [utf8_valid].
  apply N.leb_le in H1. apply N.ltb_lt in H2.
  rewrite (proj2 (N.ltb_ge (N_of_ascii a) 128)) by lia.
  rewrite (proj2 (N.ltb_ge (N_of_ascii a) 224)) by lia. rewrite andb_false_r. cbn [andb].
  rewrite (proj2 (N.leb_le 224 _)), (proj2 (N.ltb_lt _ 240)) by lia. cbn [andb]. by rewrite H3, H4, H5, H6.
Qed.

Lemma utf8_four a b c d s :
  four_bytes a b c d = true -> utf8_valid (String a (String b (String c (String d s)))) = utf8_valid s.
Proof.
  unfold four_bytes. cbv zeta. intros H1. rewrite !andb_true_iff in H1.
  destruct H1 as [[[[[[H1 H2] H3] H4] H5] H6] H7]. cbn [utf8_valid].
  pose proof H1 as H1'. apply N.leb_le in H1'.
  rewrite (proj2 (N.ltb_ge (N_of_ascii a) 128)) by lia.
  rewrite (proj2 (N.ltb_ge (N_of_ascii a) 224)) by lia. rewrite andb_false_r. cbn [andb].
  rewrite (proj2 (N.ltb_ge (N_of_ascii a) 240)) by lia. rewrite andb_false_r. cbn [andb].
  by rewrite H1, H2, H3, H4, H5, H6, H7.
Qed.

Lemma utf8_ascii a s : is_ascii a = true -> utf8_valid (String a s) = utf8_valid s.
Proof. unfold is_ascii. cbn [utf8_valid]. by intros ->. Qed.

Lemma utf8_replacement s : utf8_valid (replacement ++s s) = utf8_valid s.
Proof. by apply utf8_three. Qed.

Lemma zero_replacement s : has_byte Ascii.zero (replacement ++s s) = has_byte Ascii.zero s.
Proof. done. Qed.

(** Induction on a text by what [scrub] does with its front. *)
Lemma scrub_ind (P : string -> string -> Prop) :
  P "" "" ->
  (forall a s, is_ascii a = true -> P s (scrub s) -> P (String a s) (String a (scrub s))) ->
  (forall a b s, two_bytes a b = true -> P s (scrub s) ->
     P (String a (String b s)) (String a (String b (scrub s)))) ->
  (forall a b c s, three_bytes a b c = true -> P s (scrub s) ->
     P (String a (String b (String c s))) (String a (String b (String c (scrub s))))) ->
  (forall a b c d s, four_bytes a b c d = true -> P s (scrub s) ->
     P (String a (String b (String c (String d s)))) (String a (String b (String c (String d (scrub s)))))) ->
  (forall a s, is_ascii a = false -> P s (scrub s) -> P (String a s) (replacement ++s scrub s)) ->
  forall s, P s (scrub s).
Proof.
  intros H0 H1 H2 H3 H4 Hr s.
  assert (Hlen : forall n s, (String.length s <= n)%nat -> P s (scrub s)); [|by apply (Hlen (String.length s))].
  clear s. intros n. induction n as [|n IH]; intros [|a s] Hn; simpl in Hn; [exact H0|lia|exact H0|].
  assert (Hs : P s (scrub s)) by (apply IH; lia). cbn [scrub].
  destruct (is_ascii a) eqn:Ea; [by apply H1|].
  destruct s as [|b s]; [by apply (Hr a "")|]. destruct (two_bytes a b) eqn:E2; [apply H2; [done|apply IH; simpl in *; lia]|].
  destruct s as [|c s]; [by apply Hr|]. destruct (three_bytes a b c) eqn:E3; [apply H3; [done|apply IH; simpl in *; lia]|].
  destruct s as [|d s]; [by apply Hr|]. destruct (four_bytes a b c d) eqn:E4; [apply H4; [done|apply IH; simpl in *; lia]|].
  by apply Hr.
Qed.

(** What arrives is well formed, and free of zero bytes when what was sent is. *)
Lemma scrub_valid s : utf8_valid (scrub s) = true.
Proof.
  apply (scrub_ind (fun _ t => utf8_valid t = true)); [done|..]; intros.
  - by rewrite utf8_ascii.
  - by rewrite utf8_two.
  - by rewrite utf8_three.
  - by rewrite utf8_four.
  - by rewrite utf8_replacement.
Qed.

Lemma not_ascii_not_zero a : is_ascii a = false -> Ascii.eqb Ascii.zero a = false.
Proof. intros Ha. destruct (Ascii.eqb_spec Ascii.zero a) as [<-|]; [done|done]. Qed.

Lemma scrub_zero s : has_byte Ascii.zero (scrub s) = has_byte Ascii.zero s.
Proof.
  apply (scrub_ind (fun s t => has_byte Ascii.zero t = has_byte Ascii.zero s)); [done|..];
    intros; try (cbn [has_byte]; congruence).
  rewrite zero_replacement. cbn [has_byte]. by rewrite not_ascii_not_zero.
Qed.

Lemma scrub_text s : pg_text (scrub s) = negb (has_byte Ascii.zero s).
Proof. unfold pg_text. by rewrite scrub_valid, scrub_zero. Qed.

Lemma json_texts_scrub : forall j, json_texts (scrub_json j) = map scrub (json_texts j).
Proof.
  fix IH 1. intros [| | | |l|l]; simpl; [done..| |]; induction l as [|x l IHl]; simpl; [done| |done|].
  - by rewrite IH, IHl, map_app.
  - by rewrite IH, IHl, map_app.
Qed.

(** No zero character in the strings and member names of a value. *)
Definition clean_json (j : json) : bool := forallb (fun t => negb (has_byte Ascii.zero t)) (json_texts j).

Lemma scrub_json_clean j : pg_json (scrub_json j) = clean_json j.
Proof.
  unfold pg_json, clean_json. rewrite json_texts_scrub.
  induction (json_texts j) as [|t l IH]; simpl; [done|]. by rewrite scrub_text, IH.
Qed.

(** ** What a dispatched job posts *)

Section posts.
Context `{AeadOps} (ex : externals).

(** A step that posts nothing, whatever fails. *)
Definition silent {E A} (p : prog wstate E A) : Prop :=
  forall l, keeps (fun w => ws_posts w = l) p.

Ltac silent_steps :=
  repeat match goal with
  | |- silent _ => intros ?
  | _ => keeps_step
  end; try (by intros; simplify_eq/=); try (by intros ??? <- [= <- <-]).

Lemma silent_encryptFile content rel : silent (encryptFile ex content rel).
Proof using. unfold encryptFile, need_kek, io. silent_steps. Qed.
Lemma silent_decryptFile data rel : silent (decryptFile ex data rel).
Proof using. unfold decryptFile, need_kek, io. silent_steps. Qed.
Lemma silent_encryptState : silent (encryptState ex).
Proof using. unfold encryptState. silent_steps. apply silent_encryptFile. Qed.
Lemma silent_decryptState : silent (decryptState ex).
Proof using. unfold decryptState. silent_steps. apply silent_decryptFile. Qed.
Lemma silent_reencrypt {E} : silent (@reencrypt _ ex E).
Proof using. unfold reencrypt. silent_steps. apply silent_encryptState. Qed.
Lemma silent_wipe {E} : silent (@wipe E).
Proof using. unfold wipe. silent_steps. Qed.
Lemma silent_note {E} ok a : silent (@note_run E ok a).
Proof using. unfold note_run. silent_steps. Qed.
Lemma silent_start {E} jobID : silent (@start_heartbeat E jobID).
Proof using. unfold start_heartbeat. silent_steps. Qed.
Lemma silent_stop {E} jobID : silent (@stop_heartbeat E jobID).
Proof using. unfold stop_heartbeat. silent_steps. Qed.
Lemma silent_run_helper {E} iv : silent (@run_helper ex E iv).
Proof using.
  unfold run_helper. destruct (ex_run ex iv); intros l; [apply keeps_ret|..];
    (apply keeps_act; [done|intros; apply keeps_ret]).
Qed.
Lemma silent_runSignonly {E} c m p : silent (@runSignonly ex E c m p).
Proof using. unfold runSignonly. silent_steps. apply silent_run_helper. Qed.
Lemma silent_runP12export {E} c i pw m : silent (@runP12export ex E c i pw m).
Proof using. unfold runP12export. silent_steps. apply silent_run_helper. Qed.
Lemma silent_runAppIDs {E} c i pw a l : silent (@runAppIDs ex E c i pw a l).
Proof using. unfold runAppIDs. silent_steps. apply silent_run_helper. Qed.
Lemma silent_upload {E} c jobID dev p r : silent (@uploadSignedIPA ex E c jobID dev p r).
Proof using. unfold uploadSignedIPA. silent_steps. Qed.
Lemma silent_read {E X} c (g : wstate -> X) : silent (@try_ wstate E X c (reads g)).
Proof using. silent_steps. Qed.
Lemma silent_make_runtime {E} : silent (@try_ wstate E unit Fs (writes make_runtime)).
Proof using. silent_steps. Qed.
Lemma silent_attempt {E E' A} (p : prog wstate E A) : silent p -> silent (@attempt wstate E E' A p).
Proof using. intros Hp l. by apply keeps_attempt. Qed.

(** The same of a program that always returns. *)
Definition hushed {E A} (p : prog wstate E A) : Prop := silent p /\ throws (fun _ => False) p.

Ltac hushed_by l := split; [apply l|]; simpl; auto.

Lemma hushed_reencrypt {E} : hushed (@reencrypt _ ex E).
Proof using. split; [apply silent_reencrypt|]. apply throws_bind; [apply throws_attempt|done]. Qed.
Lemma hushed_note {E} ok a : hushed (@note_run E ok a).
Proof using. hushed_by @silent_note. Qed.
Lemma hushed_wipe {E} : hushed (@wipe E).
Proof using. hushed_by @silent_wipe. Qed.
Lemma hushed_start {E} jobID : hushed (@start_heartbeat E jobID).
Proof using. hushed_by @silent_start. Qed.
Lemma hushed_stop {E} jobID : hushed (@stop_heartbeat E jobID).
Proof using. hushed_by @silent_stop. Qed.
Lemma throws_run_helper {E} iv (P : E -> Prop) : throws P (@run_helper ex E iv).
Proof using. unfold run_helper. destruct (ex_run ex iv); simpl; auto. Qed.
Lemma hushed_runSignonly {E} c m p : hushed (@runSignonly ex E c m p).
Proof using.
  split; [apply silent_runSignonly|]. unfold runSignonly.
  repeat case_cond; try done; (apply throws_bind; [apply throws_run_helper|done]).
Qed.
Lemma hushed_runP12export {E} c i pw m : hushed (@runP12export ex E c i pw m).
Proof using. split; [apply silent_runP12export|]. apply throws_bind; [apply throws_run_helper|done]. Qed.
Lemma hushed_runAppIDs {E} c i pw a l : hushed (@runAppIDs ex E c i pw a l).
Proof using. split; [apply silent_runAppIDs|]. apply throws_bind; [apply throws_run_helper|done]. Qed.
Lemma silent_download {E} a : silent (@downloadArtifact ex E a).
Proof using. unfold downloadArtifact. silent_steps. Qed.
Lemma hushed_download {E} a : hushed (@downloadArtifact ex E a).
Proof using.
  split; [apply silent_download|]. unfold downloadArtifact. destruct (ex_download ex a); [done|].
  case_cond; [done|]. intros [|]; [done|by intros [|]].
Qed.
Lemma hushed_upload {E} c jobID dev p r : hushed (@uploadSignedIPA ex E c jobID dev p r).
Proof using. split; [apply silent_upload|]. simpl. by intros []. Qed.
Lemma hushed_read {E X} c (g : wstate -> X) : hushed (@try_ wstate E X c (reads g)).
Proof using. hushed_by @silent_read. Qed.
Lemma hushed_make_runtime {E} : hushed (@try_ wstate E unit Fs (writes make_runtime)).
Proof using. hushed_by @silent_make_runtime. Qed.
Lemma hushed_attempt {E E' A} (p : prog wstate E A) : silent p -> hushed (@attempt wstate E E' A p).
Proof using. intros Hp. split; [by apply silent_attempt|apply throws_attempt]. Qed.
End posts.

Create HintDb reports discriminated.
#[export] Hint Resolve silent_encryptState silent_decryptState hushed_reencrypt hushed_wipe hushed_note
  hushed_start hushed_stop hushed_runSignonly hushed_runP12export hushed_runAppIDs hushed_download hushed_upload
  hushed_read hushed_make_runtime hushed_attempt : reports.

(** A report on the way. *)
Record progressing (id : string) (p : post) : Prop := {
  pg_job : po_job p = id;
  pg_state : po_state p = StateInProgress;
  pg_progress k : po_progress p = Some k -> is_int4 k = true;
  pg_texts : po_category p = "" /\ po_details p = "" /\ po_result p = None;
}.

(** The last report: a result, or a category of failure. *)
Inductive concluding (id : string) : post -> Prop :=
| concluding_completed r : concluding id (MkPost id StateCompleted None "" "" (Some r))
| concluding_failed c d : c <> "" -> concluding id (MkPost id StateFailed None c d None).

Section dispatch.
Context `{AeadOps} (ex : externals) (id : string) (l0 : list post).

Definition opened (w : wstate) : Prop :=
  exists mid, ws_posts w = l0 ++ mid /\ Forall (progressing id) mid.

Definition closed (w : wstate) : Prop :=
  exists mid p, ws_posts w = l0 ++ mid ++ [p] /\ Forall (progressing id) mid /\ concluding id p.

(** Every run ends with the last report posted. *)
Definition concludes {E A} (p : prog wstate E A) (w : wstate) : Prop := dwp p (fun _ => closed) w.

Lemma concludes_steady {E A B} (p : prog wstate E A) (f : A -> prog wstate E B) w :
  hushed p -> opened w -> (forall a w', opened w' -> concludes (f a) w') -> concludes (p ≫= f) w.
Proof using.
  intros [Hs Ht] Hw Hf. unfold concludes. apply dwp_bind, wp_dwp.
  eapply wp_mono; [|apply (wp_throws (fun _ => False) _ (fun _ w' => ws_posts w' = ws_posts w) _ Ht), Hs; done].
  intros [e|a] w' [Hp Hr]; [done|]. apply Hf. unfold opened in *. by rewrite Hp.
Qed.

Lemma concludes_closed {E A} (p : prog wstate E A) w : silent p -> closed w -> concludes p w.
Proof using.
  intros Hs Hw. unfold concludes. apply wp_dwp. eapply wp_mono; [|by apply (Hs (ws_posts w))].
  intros r w' Hp. unfold closed in *. by rewrite Hp.
Qed.

Lemma concludes_progress {E B} k (f : unit -> prog wstate E B) w :
  is_int4 k = true -> opened w -> (forall w', opened w' -> concludes (f tt) w') ->
  concludes (in_progress id k ≫= f) w.
Proof using.
  intros Hk (mid & Hm & Hf) Hc. split; [done|]. apply Hc. exists (mid ++ [MkPost id "in_progress" (Some k) "" "" None]).
  simpl. rewrite Hm, app_assoc. split; [done|]. apply Forall_app. split; [done|].
  apply Forall_singleton. split; simpl; try done. by intros ? [= <-].
Qed.

Lemma concludes_post {E B} st cat det res (f : unit -> prog wstate E B) w :
  concluding id (MkPost id st None cat det res) -> opened w ->
  (forall w', closed w' -> concludes (f tt) w') ->
  concludes (postJobStatus id st None cat det res ≫= f) w.
Proof using.
  intros Hp (mid & Hm & Hf) Hc. split; [done|]. apply Hc. eexists mid, _. simpl. rewrite Hm, app_assoc. eauto.
Qed.

Lemma concludes_give_up {A} cat det w :
  cat <> "" -> opened w -> concludes (@give_up_with A id cat det) w.
Proof using. intros Hc Hw. apply concludes_post; [by constructor|done|done]. Qed.

Lemma silent_bind {E A B} (p : prog wstate E A) (f : A -> prog wstate E B) :
  silent p -> (forall a, silent (f a)) -> silent (p ≫= f).
Proof using. intros Hp Hf l. apply keeps_bind; [apply Hp|]. intros a. apply Hf. Qed.
Lemma silent_throw {E A} (e : E) : silent (@Throw wstate E A e).
Proof using. intros l. apply keeps_throw. Qed.
Lemma silent_when {E} b (p : prog wstate E unit) : silent p -> silent (when b p).
Proof using. intros Hp. unfold when. destruct b; [done|]. intros l. apply keeps_ret. Qed.

Lemma concludes_sign_fails {A} cat det b w :
  cat <> "" -> opened w -> concludes (@sign_fails _ ex A id cat det b) w.
Proof using.
  intros Hc Hw. apply concludes_post; [by constructor|done|]. intros w' Hw'.
  apply concludes_closed; [|done]. apply silent_bind; [apply silent_when, silent_reencrypt|intros _].
  apply silent_bind; [apply silent_stop|intros _; apply silent_throw].
Qed.

Lemma failure_category r err : (failure_report r err).1 <> "".
Proof using. unfold failure_report. simpl. destruct r; [case_cond; bools; done|done]. Qed.

Ltac on_step := apply concludes_steady; [eauto with reports|done|].

(** A failed run: its category is never empty. *)
Ltac on_failure :=
  match goal with
  | |- context [failure_report ?r ?e] =>
      let Hc := fresh "Hc" in
      pose proof (failure_category r e) as Hc; destruct (failure_report r e) as [cat det]; simpl in Hc
  end; on_step; intros ? ? ?.

Lemma concludes_sign_steps c dev p m w : opened w -> concludes (sign_steps ex c id dev p m) w.
Proof using.
  intros Hw. unfold sign_steps. on_step. clear w Hw.
  intros [e|] w Hw; [by apply concludes_sign_fails|].
  apply concludes_progress; [done..|]. clear w Hw. intros w Hw. on_step. clear w Hw.
  intros [e|_] w Hw; [by apply concludes_sign_fails|]. on_step. clear w Hw.
  intros [e|_] w Hw; [by apply concludes_sign_fails|].
  destruct (getCredentials _ _ _) as [i pw].
  destruct ((i =s "") || (pw =s "")); [by apply concludes_sign_fails|]. on_step. clear w Hw.
  intros [[r|] [err|]] w Hw;
    try (on_failure; by apply concludes_sign_fails).
  on_step. intros _ w1 Hw1. apply concludes_progress; [done..|]. clear w Hw w1 Hw1. intros w Hw.
  destruct dev as [d|]; [|by apply concludes_sign_fails]. on_step. clear w Hw.
  intros [e|sid] w Hw; [by apply concludes_sign_fails|]. on_step. clear w Hw. intros _ w Hw.
  apply concludes_post; [constructor|done|]. intros w' Hw'. apply concludes_closed; [apply silent_stop|done].
Qed.

(** The cleanup after a job. *)
Lemma concludes_cleanup (p : prog wstate unit unit) w :
  concludes p w ->
  concludes (r ← attempt p; _ ← wipe; match (r : unit + unit) with inl _ => Throw tt | inr _ => Ret tt end) w.
Proof using.
  intros Hp. unfold concludes. apply dwp_bind, dwp_attempt. eapply dwp_mono; [|exact Hp].
  intros r w' Hw'. apply concludes_closed; [|done]. apply silent_bind; [apply silent_wipe|].
  intros _. destruct r; intros l; [apply keeps_throw|apply keeps_ret].
Qed.

Lemma concludes_sign c dev raw w : opened w -> concludes (runSignJob ex c id dev raw) w.
Proof using.
  intros Hw. unfold runSignJob. apply concludes_progress; [done..|]. clear w Hw. intros w Hw.
  destruct (_ ≫= _) as [p|]; [|by apply concludes_give_up].
  destruct (sp_ArtifactID p =s ""); [by apply concludes_give_up|].
  destruct (sp_DeviceUdid p =s ""); [by apply concludes_give_up|].
  on_step. clear w Hw. intros _ w Hw. on_step. clear w Hw.
  intros [e|_] w Hw; [by apply concludes_give_up|]. by apply concludes_cleanup, concludes_sign_steps.
Qed.

Lemma concludes_export_steps c i pw m w : opened w -> concludes (export_steps ex c id i pw m) w.
Proof using.
  intros Hw. unfold export_steps. on_step. clear w Hw.
  intros [e|_] w Hw; [by apply concludes_give_up|]. on_step. clear w Hw.
  intros [e|_] w Hw; [by apply concludes_give_up|]. on_step. clear w Hw.
  intros [[r|] [err|]] w Hw; try (on_failure; apply concludes_post; [by constructor|done|]; intros w2 Hw2;
    apply concludes_closed; [|done]; apply silent_bind; [apply silent_reencrypt|intros _; apply silent_throw]).
  on_step. clear w Hw. intros [e|_] w Hw; (apply concludes_post; [by constructor|done|]; intros w2 Hw2;
    apply concludes_closed; [|done]; apply silent_bind; [apply silent_reencrypt|intros _]).
  - apply silent_throw.
  - apply silent_note.
Qed.

Lemma concludes_export c raw w : opened w -> concludes (runExportP12Job ex c id raw) w.
Proof using.
  intros Hw. unfold runExportP12Job. apply concludes_progress; [done..|]. clear w Hw. intros w Hw.
  destruct (_ ≫= _) as [p|]; [|by apply concludes_give_up].
  destruct (getCredentials _ _ _) as [i pw].
  destruct ((i =s "") || (pw =s "")); [by apply concludes_give_up|]. on_step. clear w Hw.
  intros [e|_] w Hw; [by apply concludes_give_up|]. by apply concludes_cleanup, concludes_export_steps.
Qed.

Lemma concludes_appids c raw w : opened w -> concludes (runAppIDsJob ex c id raw) w.
Proof using.
  intros Hw. unfold runAppIDsJob. apply concludes_progress; [done..|]. clear w Hw. intros w Hw.
  destruct (_ ≫= _) as [p|]; [|by apply concludes_give_up].
  destruct (negb _ && negb _); [by apply concludes_give_up|].
  destruct ((_ =s "delete") && _); [by apply concludes_give_up|].
  destruct (getCredentials _ _ _) as [i pw].
  destruct ((i =s "") || (pw =s "")); [by apply concludes_give_up|]. on_step. clear w Hw.
  intros [e|_] w Hw; [by apply concludes_give_up|]. on_step. clear w Hw.
  intros [e|_] w Hw; [by apply concludes_give_up|]. on_step. clear w Hw.
  intros [[r|] [err|]] w Hw; try (on_failure; apply concludes_post; [by constructor|done|]; intros w2 Hw2;
    apply concludes_closed; [|done]; apply silent_bind; [apply silent_reencrypt|intros _; apply silent_throw]).
  on_step. clear w Hw. intros _ w Hw. on_step. clear w Hw. intros _ w Hw.
  destruct Hw as (mid & Hm & Hf). split; [done|]. exists mid. eexists. simpl. rewrite Hm, app_assoc.
  split_and!; [done..|constructor].
Qed.

Lemma concludes_dispatch c j w :
  cj_ID j = id -> opened w -> concludes (dispatchJob ex c j) w.
Proof using.
  intros Hid Hw. unfold dispatchJob. rewrite Hid. repeat case_cond;
    auto using concludes_sign, concludes_export, concludes_appids.
  destruct Hw as (mid & Hm & Hf). split; [done|]. exists mid. eexists. simpl. rewrite Hm, app_assoc.
  split_and!; [done..|by constructor].
Qed.
End dispatch.

(** ** What the queue makes of the reports *)

Section settled.
Context `{UuidTextLaws}.

(** No zero byte in the texts and the result of a report. *)
Definition clean_post (p : post) : bool :=
  negb (has_byte Ascii.zero (po_category p)) && negb (has_byte Ascii.zero (po_details p))
  && match po_result p with Some r => clean_json r | None => true end.

Lemma sent_text_ok t u : has_byte Ascii.zero t = false -> sent_text t = Some u -> pg_text u = true.
Proof using. unfold sent_text. intros Hz. case_cond; [done|]. intros [= <-]. by rewrite scrub_text, Hz. Qed.

Lemma sent_text_bad t : has_byte Ascii.zero t = true -> exists u, sent_text t = Some u /\ pg_text u = false.
Proof using.
  intros Hz. unfold sent_text. rewrite bool_decide_eq_false_2 by (by intros ->).
  eexists. split; [done|]. by rewrite scrub_text, Hz.
Qed.

(** The handler touches no job row but by the update. *)
Lemma ewp_handleUpdateJob s agent id req w (Q : gmap uuid job -> Prop) :
  (forall r w', exec (Update (job_service s) agent id req) w = (r, w') -> Q (W_jobs w')) ->
  ewp (handleUpdateJob s agent (uuid_text id) (Some req)) (fun _ w' => Q (W_jobs w')) w.
Proof using All.
  intros HQ. unfold handleUpdateJob. rewrite uuid_parse_text.
  apply ewp_bind. eapply ewp_exec; [reflexivity|]. apply ewp_bind, ewp_attempt. destruct (exec _ w) as [r w1] eqn:He.
  eapply ewp_exec; [exact He|]. specialize (HQ _ _ eq_refl).
  destruct r as [[]|j]; [exact HQ..|]. apply ewp_bind. destruct (j_device_id j); [|exact HQ].
  destruct (j_state j =s StateCompleted); [|exact HQ]. unfold ewp, exec. simpl.
  destruct (agent_role_of agent w1) as [role|]; [|exact HQ]. destruct (role =s "device_service"); exact HQ.
Qed.

Lemma receive_accepted s agent w p id j :
  po_job p = uuid_text id -> acceptable w agent id (request_of p) j -> j_job_type j <> JobTypeRefresh ->
  W_jobs (receive s agent w p) !! id = Some (updated_row (job_service s) (request_of p) (w_now w) j).
Proof using All.
  intros Hp Hac Hty. unfold receive. rewrite Hp.
  destruct (Update_accepts (job_service s) w agent id _ j Hac Hty) as (w1 & He & Hj).
  eapply (ewp_handleUpdateJob s agent id (request_of p) w (fun js => js !! id = Some _)).
  intros r w' He'. rewrite He in He'. injection He' as <- <-. by rewrite Hj, lookup_insert_eq.
Qed.

Lemma receive_refused s agent w p id j :
  po_job p = uuid_text id -> W_jobs w !! id = Some j -> validTransition (j_state j) (po_state p) = false ->
  W_jobs (receive s agent w p) = W_jobs w.
Proof using All.
  intros Hp Hj Hv. unfold receive. rewrite Hp.
  apply (ewp_handleUpdateJob s agent id (request_of p) w (fun js => js = W_jobs w)).
  intros r w'. unfold exec, Update. rewrite run_bind. unfold txn, update_body. simpl.
  unfold job_by_id. rewrite Hj. destruct (opt_is (j_claimed_by j) agent); simpl; [|by intros [= <- <-]].
  rewrite Hv. simpl. by intros [= <- <-].
Qed.

(** A report with a zero byte that reaches a column is refused by it. *)
Lemma unclean_refused s now id p :
  concluding id p -> clean_post p = false ->
  forallb as_ok (update_assignments s (request_of p) now) = false.
Proof using.
  unfold clean_post, update_assignments. intros [r|c d Hc]; simpl.
  - rewrite scrub_json_clean. by intros ->.
  - rewrite andb_true_r. intros [Hz|Hz]%andb_false_iff; apply negb_false_iff in Hz;
      destruct (sent_text_bad _ Hz) as (u & -> & Hu); simpl.
    + by rewrite Hu.
    + destruct (sent_text c); simpl; rewrite Hu; by rewrite ?andb_false_r.
Qed.

Lemma receive_unfit s agent w p id :
  po_job p = uuid_text id ->
  forallb as_ok (update_assignments (job_service s) (request_of p) (w_now w)) = false ->
  W_jobs (receive s agent w p) = W_jobs w.
Proof using All.
  intros Hp Hbad. unfold receive. rewrite Hp.
  apply (ewp_handleUpdateJob s agent id (request_of p) w (fun js => js = W_jobs w)).
  intros r w'. unfold exec, Update. rewrite run_bind. unfold txn, update_body. simpl.
  destruct (job_by_id id w) as [j|]; simpl; [|by intros [= <- <-]].
  destruct (opt_is (j_claimed_by j) agent); simpl; [|by intros [= <- <-]].
  destruct (validTransition _ _); simpl; [|by intros [= <- <-]].
  unfold update_stmt. rewrite Hbad. case_cond; simpl; by intros [= <- <-].
Qed.

(** The row while its reports arrive: nothing of the claim changes. *)
Record reporting (agent : uuid) (j : job) : Prop := {
  rr_holder : j_claimed_by j = Some agent;
  rr_held : held j = true;
  rr_type : j_job_type j <> JobTypeRefresh;
}.

Lemma transition_held j st :
  held j = true -> st = StateInProgress \/ st = StateCompleted \/ st = StateFailed ->
  validTransition (j_state j) st = true.
Proof using. intros [-> | ->]%held_spec [-> | [-> | ->]]; done. Qed.

Lemma progress_acceptable w agent id p j :
  progressing (uuid_text id) p -> W_jobs w !! id = Some j -> reporting agent j ->
  acceptable w agent id (request_of p) j.
Proof using.
  intros [Hj Hs Hk (Hc & Hd & Hr)] Hrow [Hh Hld Hty]. split; simpl; try done.
  - apply transition_held; auto.
  - rewrite Hs. done.
  - rewrite Hc. done.
  - rewrite Hd. done.
  - rewrite Hr. done.
Qed.

Lemma progress_received s agent w id p j :
  progressing (uuid_text id) p -> W_jobs w !! id = Some j -> reporting agent j ->
  exists j', W_jobs (receive s agent w p) !! id = Some j' /\ reporting agent j'.
Proof using All.
  intros Hp Hj Hr. pose proof (progress_acceptable w agent id p j Hp Hj Hr) as Hac.
  eexists. split; [apply receive_accepted; [apply Hp|done|apply Hr]|].
  destruct (updated_row_columns (job_service s) (request_of p) (w_now w) j) as ((_ & Hty & _) & Hst & _ & Hcl & _).
  destruct Hp as [_ Hs _ _], Hr as [Hh Hld Hr]. split; [congruence| |congruence].
  apply held_spec. right. by rewrite Hst.
Qed.

(** The row the last report leaves. *)
Record settled_by (p : post) (j : job) : Prop := {
  sb_state : j_state j = po_state p;
  sb_lease : j_lease_expires_at j = None;
  sb_completed r : po_result p = Some r ->
    j_state j = StateCompleted /\ j_result j = Some (scrub_json r)
    /\ j_error_category j = None /\ j_error_details j = None /\ j_completed_at j <> None;
  sb_failed : po_result p = None ->
    j_state j = StateFailed /\ j_error_category j = Some (scrub (po_category p))
    /\ (po_details p <> "" -> j_error_details j = Some (scrub (po_details p)));
}.

Lemma conclusion_received s agent w id p j :
  concluding (uuid_text id) p -> clean_post p = true -> W_jobs w !! id = Some j -> reporting agent j ->
  exists j', W_jobs (receive s agent w p) !! id = Some j' /\ settled_by p j'.
Proof using All.
  unfold clean_post. rewrite !andb_true_iff, !negb_true_iff. intros Hp [[Hz1 Hz2] Hz3] Hj [Hh Hld Hty].
  assert (acceptable w agent id (request_of p) j) as Hac.
  { destruct Hp as [r|c d Hc]; split; simpl in *; try done; try (apply transition_held; auto; fail);
      try (intros u Hu; by eapply sent_text_ok, Hu). intros ? [= <-]. by rewrite scrub_json_clean. }
  eexists. split; [apply receive_accepted; [by destruct Hp|done|done]|].
  destruct (updated_row_columns (job_service s) (request_of p) (w_now w) j)
    as (_ & Hst & _ & _ & _ & _ & _ & _ & Hle & _ & Hre & Hec & Hed & Hca).
  set (j' := updated_row _ _ _ _) in *. clearbody j'.
  destruct Hp as [r|c d Hc]; simpl in *; split; simpl; try done.
  - intros ? [= <-]. split_and!; congruence.
  - intros _. unfold sent_text in *. rewrite (proj2 (bool_decide_eq_false (c = ""))) in Hec by done.
    split_and!; [done|done|]. intros Hd. by rewrite (proj2 (bool_decide_eq_false (d = ""))) in Hed by done.
Qed.

(** Heartbeats of a settled job are refused. *)
Lemma settled_refuses p j : settled_by p j -> validTransition (j_state j) StateInProgress = false.
Proof using.
  intros [_ _ Hc Hf]. destruct (po_result p) as [r|].
  - by destruct (Hc _ eq_refl) as [-> _].
  - by destruct (Hf eq_refl) as [-> _].
Qed.

Lemma reception_settled s agent id ps w w' p j :
  reception s agent id ps w w' -> Forall (eq (heartbeat_post (uuid_text id))) ps ->
  W_jobs w !! id = Some j -> settled_by p j -> W_jobs w' !! id = Some j.
Proof using All.
  intros Hr. induction Hr as [w|q ps w w' _ IH|ps w w1 w' Hw1 _ IH]; intros Hps Hj Hs; [done| |].
  - apply Forall_cons in Hps as [<- Hps]. apply IH; [done| |done].
    by rewrite (receive_refused s agent w (heartbeat_post (uuid_text id)) id j eq_refl Hj (settled_refuses _ _ Hs)).
  - apply IH; [done| |done]. congruence.
Qed.

Lemma reception_reporting s agent id ps w w' j :
  reception s agent id ps w w' -> Forall (progressing (uuid_text id)) ps ->
  W_jobs w !! id = Some j -> reporting agent j ->
  exists j', W_jobs w' !! id = Some j' /\ reporting agent j'.
Proof using All.
  intros Hr. revert j. induction Hr as [w|q ps w w' _ IH|ps w w1 w' Hw1 _ IH]; intros j Hps Hj Hrep; [by eauto| |].
  - apply Forall_cons in Hps as [Hq Hps].
    destruct (progress_received s agent w id q j Hq Hj Hrep) as (j' & Hj' & Hrep'). by eapply IH.
  - eapply IH; [done| |done]. congruence.
Qed.

Lemma heartbeat_progressing id : progressing id (heartbeat_post id).
Proof using. by split. Qed.

(** The end of a job's reports: the row is settled, or, when the last report does
    not fit its columns, still held by the agent. *)
Lemma reception_ends s agent id ps w w' mid p beats j :
  reception s agent id ps w w' -> ps = mid ++ p :: beats ->
  Forall (progressing (uuid_text id)) mid -> concluding (uuid_text id) p ->
  Forall (eq (heartbeat_post (uuid_text id))) beats ->
  W_jobs w !! id = Some j -> reporting agent j ->
  exists j', W_jobs w' !! id = Some j' /\ if clean_post p then settled_by p j' else reporting agent j'.
Proof using All.
  intros Hr. revert mid j. induction Hr as [w|q ps w w' Hr IH|ps w w1 w' Hw1 _ IH];
    intros mid j Hps Hmid Hp Hb Hj Hrep; [by destruct mid| |].
  - destruct mid as [|q' mid]; simpl in Hps; injection Hps as -> ->.
    + destruct (clean_post p) eqn:Hz.
      * destruct (conclusion_received s agent w id p j Hp Hz Hj Hrep) as (j' & Hj' & Hs).
        exists j'. split; [|done]. by eapply reception_settled.
      * eapply reception_reporting; [done| | |done].
        { eapply Forall_impl; [exact Hb|]. intros ? <-. apply heartbeat_progressing. }
        rewrite (receive_unfit s agent w p id); [done|by destruct Hp|]. by eapply unclean_refused.
    + apply Forall_cons in Hmid as [Hq Hmid].
      destruct (progress_received s agent w id q' j Hq Hj Hrep) as (j' & Hj' & Hrep'). by eapply IH.
  - eapply IH; eauto. congruence.
Qed.

Lemma with_heartbeats_split id mid p sent :
  with_heartbeats id (mid ++ [p]) sent -> Forall (progressing id) mid ->
  exists mid' beats, sent = mid' ++ p :: beats /\ Forall (progressing id) mid'
    /\ Forall (eq (heartbeat_post id)) beats.
Proof using.
  intros Hw. remember (mid ++ [p]) as l eqn:Hl. revert mid Hl.
  induction Hw as [|q l l' Hw IH|l l' Hw IH]; intros mid Hl Hm; [by destruct mid| |].
  - destruct mid as [|q' mid]; simpl in Hl; injection Hl as -> ->.
    + exists [], l'. split_and!; [done..|]. clear IH Hm. remember [] as l eqn:Hl.
      induction Hw; [done|done|]. constructor; auto.
    + apply Forall_cons in Hm as [Hq Hm]. destruct (IH mid eq_refl Hm) as (m' & b & -> & ? & ?).
      exists (q' :: m'), b. split_and!; [done|by constructor|done].
  - destruct (IH mid Hl Hm) as (m' & b & -> & ? & ?). exists (heartbeat_post id :: m'), b.
    split_and!; [done|constructor; [apply heartbeat_progressing|done]|done].
Qed.
End settled.

(** ** Worker and queue *)

Section end_to_end.
Context `{UuidTextLaws} `{AeadOps}.

End end_to_end.

(** * A failed job and a lost report *)

#[local] Existing Instance sample_uuid.
#[local] Existing Instance sample_uuid_laws.
#[local] Existing Instance sample_aead.

Definition a_server : Server := MkServer "" defaultMaxArtifactBytes svc.

(** Job 50 as the worker was handed it. *)
Definition the_claimed_job : claimed_job :=
  MkClaimed (uuid_text 50%N) "sign" (Some "device-1")
    (Some (JObj [("artifact_id", JStr "artifact-1"); ("udid", JStr "udid-1")])).

Definition reports_of (p : process) : list post :=
  drop (length (ws_posts start_state))
    (ws_posts (run [] (dispatchJob (outside [] p) a_config the_claimed_job) start_state).2).

Definition reported (p : process) (w : world) : world := fold_left (receive a_server 7%N) (reports_of p) w.

Lemma with_heartbeats_refl id l : with_heartbeats id l l.
Proof. induction l; by constructor. Qed.

Lemma reception_fold `{UuidText} s agent id ps w : reception s agent id ps w (fold_left (receive s agent) ps w).
Proof. revert w. induction ps as [|p ps IH]; intros w; simpl; [constructor|]. constructor. apply IH. Qed.


(** Its last report carries no zero character. *)
Example failure_is_clean : clean_post <$> last (reports_of auth_failure) = Some true.
Proof. vm_compute. reflexivity. Qed.

(** What the queue shows of it. *)
Example failure_reaches_the_row :
  (fun j => (j_state j, j_error_category j, j_error_details j, j_lease_expires_at j))
    <$> W_jobs (reported auth_failure (world_with (taken JobTypeSign))) !! 50%N
  = Some (StateFailed, Some "auth", Some "login", None).
Proof. vm_compute. reflexivity. Qed.

(** ** A flaw *)

(** A helper that fails with a zero byte in its error output: the column does not
    take the report's details, the update is refused, the worker does not look at
    the answer, and the job stays held in progress. *)
Definition zero_in_stderr : process :=
  Exited (Some "exit status 1") None (String "b" (String Ascii.zero (String "d" ""))).

Example zero_byte_loses_the_report :
  po_state <$> last (reports_of zero_in_stderr) = Some StateFailed
  /\ (fun j => (j_state j, j_claimed_by j, bool_decide (is_Some (j_lease_expires_at j))))
       <$> W_jobs (reported zero_in_stderr (world_with (taken JobTypeSign))) !! 50%N
     = Some (StateInProgress, Some 7%N, true).
Proof. vm_compute. split; reflexivity. Qed.
