(* ===== verification/Net.v ===== *)
(** Package net, as far as the discovery endpoints use it: addresses as text,
    prefixes, membership.  An address is the number its sixteen bytes spell; an
    IPv4 address is the mapped one (::ffff:a.b.c.d). *)
From S2P Require Import Prelude GoStrings GoTime.

(** ** Addresses as text *)

Definition mapped_base : Z := Z.shiftl 65535 32.

Definition of_v4 (v : Z) : Z := mapped_base + v.

(** [ip.To4() != nil] *)
Definition is4 (x : Z) : bool := Z.shiftr x 32 =? 65535.

(** A decimal octet: no sign, no leading zero, at most 255. *)
Fixpoint decimal (acc : Z) (s : string) : option Z :=
  match s with
  | EmptyString => Some acc
  | String c s' => match digit_of c with Some d => decimal (10 * acc + d) s' | None => None end
  end.

Definition octet (s : string) : option Z :=
  match s with
  | EmptyString => None
  | String c s' =>
      if Ascii.eqb c "0" && negb (s' =s "") then None
      else n ← decimal 0 s; if n <=? 255 then Some n else None
  end.

Definition parseIPv4 (s : string) : option Z :=
  match split_byte "." s with
  | [a; b; c; d] =>
      a ← octet a; b ← octet b; c ← octet c; d ← octet d;
      Some (((a * 256 + b) * 256 + c) * 256 + d)
  | _ => None
  end.

Definition hex_of (c : ascii) : option Z :=
  let n := Z.of_N (byte_n c) in
  if (48 <=? n) && (n <=? 57) then Some (n - 48)
  else if (97 <=? n) && (n <=? 102) then Some (n - 87)
  else if (65 <=? n) && (n <=? 70) then Some (n - 55)
  else None.

(** The leading hexadecimal digits of a group: how many, their value, the rest;
    [None] when there are more than four. *)
Fixpoint hex_group (off : nat) (acc : Z) (s : string) : option (nat * Z * string) :=
  match s with
  | EmptyString => Some (off, acc, s)
  | String c s' =>
      match hex_of c with
      | Some d => if (3 <? off)%nat then None else hex_group (S off) (acc * 16 + d) s'
      | None => Some (off, acc, s)
      end
  end.

(** The loop over the groups; [n] of the eight are still to come, [ell] is the
    number of groups before the ellipsis, [gs] the groups read, in order. *)
Fixpoint groups6 (n : nat) (ell : option nat) (gs : list Z) (s : string) : option (list Z * option nat) :=
  match n with
  | O => if s =s "" then Some (gs, ell) else None
  | S n' =>
      match hex_group 0 0 s with
      | None => None
      | Some (off, acc, r) =>
          if (off =? 0)%nat then None else
          match r with
          | EmptyString => Some (gs ++ [acc], ell)
          | String c r' =>
              if Ascii.eqb c "." then
                match ell, n with
                | None, 2%nat | Some _, S (S _) =>
                    v ← parseIPv4 s; Some (gs ++ [v / 65536; v mod 65536], ell)
                | _, _ => None
                end
              else if negb (Ascii.eqb c ":") then None
              else match r' with
                   | EmptyString => None
                   | String c' r'' =>
                       if Ascii.eqb c' ":" then
                         match ell with
                         | Some _ => None
                         | None =>
                             let gs := gs ++ [acc] in
                             if r'' =s "" then Some (gs, Some (length gs))
                             else groups6 n' (Some (length gs)) gs r''
                         end
                       else groups6 n' ell (gs ++ [acc]) r'
                   end
          end
      end
  end.

Definition spell (gs : list Z) : Z := fold_left (fun acc g => acc * 65536 + g) gs 0.

(** The ellipsis stands for one group of zeros at least. *)
Definition expand (gs : list Z) (ell : option nat) : option Z :=
  let missing := (8 - length gs)%nat in
  match ell with
  | None => if (missing =? 0)%nat then Some (spell gs) else None
  | Some i => if (missing =? 0)%nat then None
              else Some (spell (take i gs ++ replicate missing 0 ++ drop i gs))
  end.

Definition parseIPv6 (s : string) : option Z :=
  if has_prefix "::" s then
    let r := str_drop 2 s in
    if r =s "" then Some 0 else ge ← groups6 8 (Some O) [] r; expand ge.1 ge.2
  else ge ← groups6 8 None [] s; expand ge.1 ge.2.

(** The first of the bytes that tell the forms apart. *)
Fixpoint first_mark (s : string) : option ascii :=
  match s with
  | EmptyString => None
  | String c s' => if Ascii.eqb c "." || Ascii.eqb c ":" || Ascii.eqb c "%" then Some c else first_mark s'
  end.

(** [net.ParseIP]: an address with a zone is none. *)
Definition ParseIP (s : string) : option Z :=
  if has_byte "%" s then None else
  match first_mark s with
  | Some c => if Ascii.eqb c "." then of_v4 <$> parseIPv4 s else parseIPv6 s
  | None => None
  end.

(** ** Prefixes *)

(** [net.IPNet]: the masked address and the length of the prefix, counted from
    the first of the sixteen bytes. *)
Record ipnet := MkIPNet { nn_ip : Z; nn_ones : Z }.

Definition mask (ones : Z) : Z := Z.shiftl (Z.ones ones) (128 - ones).

(** [net.ParseCIDR]; the mask is digits only. *)
Definition ParseCIDR (s : string) : option ipnet :=
  match index_byte "/" s with
  | None => None
  | Some i =>
      x ← ParseIP (str_take i s);
      let m := str_drop (S i) s in
      if m =s "" then None else
      n ← decimal 0 m;
      let v4 := match first_mark (str_take i s) with Some c => Ascii.eqb c "." | None => false end in
      let ones := if v4 then 96 + n else n in
      if ones <=? 128 then Some (MkIPNet (Z.land x (mask ones)) ones) else None
  end.

(** [n.Contains(ip)]: a network of four bytes holds addresses of four bytes. *)
Definition Contains (n : ipnet) (x : Z) : bool :=
  Bool.eqb (is4 (nn_ip n)) (is4 x)
  && (Z.land (nn_ip n) (mask (nn_ones n)) =? Z.land x (mask (nn_ones n))).

(** ** Host and port *)

Fixpoint last_index (c : ascii) (s : string) : option nat :=
  match s with
  | EmptyString => None
  | String d s' => match last_index c s' with
                   | Some i => Some (S i)
                   | None => if Ascii.eqb c d then Some O else None
                   end
  end.

(** [net.SplitHostPort]: the host, [None] on an error. *)
Definition split_host (s : string) : option string :=
  i ← last_index ":" s;
  if has_prefix "[" s then
    e ← index_byte "]" s;
    if (S e =? i)%nat then
      let host := str_take (e - 1) (str_drop 1 s) in
      if has_byte "[" (str_drop 1 s) || has_byte "]" (str_drop (S e) s) then None else Some host
    else None
  else
    let host := str_take i s in
    if has_byte ":" host || has_byte "[" s || has_byte "]" s then None else Some host.

(** ** Printing *)

Definition hex_digit (n : Z) : ascii := ascii_of_N (Z.to_N (if n <? 10 then 48 + n else 87 + n)).

(** [strconv.AppendUint(b, x, 16)] below 2^16. *)
Definition hex16 (x : Z) : string :=
  let d k := String (hex_digit (Z.shiftr x k mod 16)) "" in
  if x <? 16 then d 0 else if x <? 256 then d 4 ++s d 0
  else if x <? 4096 then d 8 ++s d 4 ++s d 0 else d 12 ++s d 8 ++s d 4 ++s d 0.

Definition groups_of (x : Z) : list Z :=
  (fun k => Z.shiftr x k mod 65536) <$> [112; 96; 80; 64; 48; 32; 16; 0].

(** The zeros a list starts with. *)
Fixpoint zeros (gs : list Z) : nat :=
  match gs with g :: gs' => if g =? 0 then S (zeros gs') else O | [] => O end.

(** The first longest run of at least two zero groups: start and length. *)
Definition zero_run (gs : list Z) : option (nat * nat) :=
  fold_left (fun best i =>
    let l := zeros (drop i gs) in
    match best with
    | Some (_, b) => if (b <? l)%nat then Some (i, l) else best
    | None => if (1 <? l)%nat then Some (i, l) else None
    end) (seq 0 8) None.

Definition hex_list (gs : list Z) : string := join ":" (hex16 <$> gs).

(** [ip.String()] *)
Definition ip_string (x : Z) : string :=
  if is4 x then
    join "." ((fun k => itoa (Z.shiftr x k mod 256)) <$> [24; 16; 8; 0])
  else
    let gs := groups_of x in
    match zero_run gs with
    | Some (i, l) => hex_list (take i gs) ++s "::" ++s hex_list (drop (i + l) gs)
    | None => hex_list gs
    end.

Example addresses :
  ip_string <$> ParseIP "10.0.0.1" = Some "10.0.0.1"
  /\ ip_string <$> ParseIP "::ffff:10.0.0.1" = Some "10.0.0.1"
  /\ ip_string <$> ParseIP "2001:DB8:0:0:1::1" = Some "2001:db8::1:0:0:1"
  /\ ip_string <$> ParseIP "::" = Some "::" /\ ip_string <$> ParseIP "fe80::1" = Some "fe80::1"
  /\ ip_string <$> ParseIP "1::" = Some "1::" /\ ip_string <$> ParseIP "1:2:3:4:5:6:7:8" = Some "1:2:3:4:5:6:7:8"
  /\ ParseIP <$> ["1.2.3"; "01.2.3.4"; "256.1.1.1"; "1::2::3"; "1:2:3:4:5:6:7"; "1:2:3:4:5:6:7:8:9"; "::1%eth0"; "12345::";
                  "1:2:3:4:5:6:7::8"; ":1"; "1:"; ""]
     = [None; None; None; None; None; None; None; None; None; None; None; None].
Proof. vm_compute. done. Qed.
