(* ===== verification/Host.v ===== *)
(** The host of the control plane: the process state together with the small
    files it keeps outside the database (account credentials, verification
    codes, the list of sources).

    A handler that also touches files is a program on a larger state; [zoom]
    runs a program of the smaller state in it, through the interface [Lens]. *)
From S2P Require Import Prelude GoStrings Effects Schema.

(** [S] is a part of [T]. *)
Class Lens (S T : Type) := {
  lget : T -> S;
  lset : S -> T -> T;
  lget_lset s t : lget (lset s t) = s;
  lset_lget t : lset (lget t) t = t;
  lset_lset s s' t : lset s (lset s' t) = lset s t;
}.

Fixpoint zoom {S T E A} `{Lens S T} (p : prog S E A) : prog T E A :=
  match p with
  | Ret a => Ret a
  | Throw e => Throw e
  | Act f k => Act (fun t => let '(x, s) := f (lget t) in (x, lset s t)) (fun x => zoom (k x))
  | Stmt c f k =>
      Stmt c (fun t => match f (lget t) with
                       | inl er => inl er
                       | inr (x, s) => inr (x, lset s t)
                       end) (fun o => zoom (k o))
  end.

Section zoom.
Context {S T E A : Type} `{Lens S T}.

Lemma run_zoom fl (p : prog S E A) t :
  run fl (zoom p) t = let '(r, s) := run fl p (lget t) in (r, lset s t).
Proof using.
  revert fl t. induction p as [a|e|X f k IH|X c f k IH]; intros fl t; simpl; [by rewrite lset_lget..| |].
  - destruct (f (lget t)) as [x s] eqn:Ef. rewrite IH, lget_lset.
    destruct (run fl (k x) s) as [r s']. by rewrite lset_lset.
  - assert (Hgo : forall fl', match match f (lget t) with inl er => inl er | inr (x, s) => inr (x, lset s t) end with
        | inl er => run fl' (zoom (k (inl er))) t | inr (x, t') => run fl' (zoom (k (inr x))) t' end
      = let '(r, s) := match f (lget t) with inl er => run fl' (k (inl er)) (lget t)
                       | inr (x, s) => run fl' (k (inr x)) s end in (r, lset s t)).
    { intros fl'. destruct (f (lget t)) as [er|[x s]]; rewrite IH; [done|]. rewrite lget_lset.
      destruct (run fl' (k (inr x)) s) as [r s']. by rewrite lset_lset. }
    destruct fl as [|[] fl]; [apply (Hgo [])|apply IH|apply Hgo].
Qed.

Lemma wp_zoom (p : prog S E A) (Q : E + A -> T -> Prop) t :
  wp p (fun r s => Q r (lset s t)) (lget t) -> wp (zoom p) Q t.
Proof using.
  revert t. induction p as [a|e|X f k IH|X c f k IH]; intros t; simpl; [by rewrite lset_lget..| |].
  - destruct (f (lget t)) as [x s]. intros Hk. apply IH. rewrite lget_lset.
    eapply wp_mono; [|exact Hk]. intros r s'. by rewrite lset_lset.
  - intros [Hf Hs]. split; [by apply IH|]. destruct (f (lget t)) as [er|[x s]]; [by apply IH|].
    apply IH. rewrite lget_lset. eapply wp_mono; [|exact Hs]. intros r s'. by rewrite lset_lset.
Qed.

Lemma ewp_zoom (p : prog S E A) (Q : E + A -> T -> Prop) t :
  ewp p (fun r s => Q r (lset s t)) (lget t) -> ewp (zoom p) Q t.
Proof using.
  unfold ewp, exec. rewrite run_zoom. by destruct (run [] p (lget t)).
Qed.
End zoom.

(** ** Files *)

(** [h_json] are the files that are meant to hold JSON, [None] when one does
    not; [h_text] the others. *)
Record host := MkHost {
  h_world : world;
  h_json : gmap string (option json);
  h_text : gmap string string
}.

Definition set_world (w : world) (h : host) : host := MkHost w (h_json h) (h_text h).
Definition set_json (f : gmap string (option json) -> gmap string (option json)) (h : host) : host :=
  MkHost (h_world h) (f (h_json h)) (h_text h).
Definition set_text (f : gmap string string -> gmap string string) (h : host) : host :=
  MkHost (h_world h) (h_json h) (f (h_text h)).

#[global] Instance world_of_host : Lens world host.
Proof. refine {| lget := h_world; lset := set_world |}; [done|by intros []|done]. Defined.

Section disk.
Context {S E : Type} `{Lens host S}.

(** [os.ReadFile] of a JSON file: [None] when it cannot be read, [Some None]
    when what it holds is no JSON. *)
Definition ReadJSON (path : string) : prog S E (option (option json)) :=
  r ← try_ Fs (reads (fun s => h_json (lget s) !! path));
  Ret (match r with inr o => o | inl _ => None end).

(** [_ = os.MkdirAll(dir, ..); _ = os.WriteFile(path, ..)]: best effort. *)
Definition WriteJSON (path : string) (j : json) : prog S E unit :=
  _ ← try_ Fs (writes (fun s => lset (set_json (<[path := Some j]>) (lget s)) s)); Ret tt.

Definition WriteText (path : string) (text : string) : prog S E unit :=
  _ ← try_ Fs (writes (fun s => lset (set_text (<[path := text]>) (lget s)) s)); Ret tt.
End disk.

#[global] Instance lens_id S : Lens S S.
Proof. refine {| lget := fun s => s; lset := fun s _ => s |}; done. Defined.
