(* ===== verification/WorkerAgent.v ===== *)
(** The signing worker as an agent (cmd/signing-worker/main.go: ensureAgent,
    heartbeat, serveHealthz and the start of main), together with the endpoints
    of the control plane it calls.

    A [site] is one control plane and one worker with the files of its state
    directory.  A call over the network is three steps: the way there, the
    endpoint's own statements, the way back; the first and the last may fail. *)
From S2P Require Import Prelude GoStrings GoTime Effects Schema AuditLog Jobs Http Auth Agents Host Guard Worker.

Record site := MkSite {
  si_cp : world;
  si_worker : wstate;
  si_key : option string;        (** the file api_key *)
  si_id : option string          (** the file agent_id *)
}.

Definition set_cp (w : world) (t : site) : site := MkSite w (si_worker t) (si_key t) (si_id t).
Definition set_worker (w : wstate) (t : site) : site := MkSite (si_cp t) w (si_key t) (si_id t).
Definition set_key (k : option string) (t : site) : site := MkSite (si_cp t) (si_worker t) k (si_id t).
Definition set_id (i : option string) (t : site) : site := MkSite (si_cp t) (si_worker t) (si_key t) i.

#[global] Instance world_of_site : Lens world site.
Proof. refine {| lget := si_cp; lset := set_cp |}; [done|by intros []|done]. Defined.
#[global] Instance worker_of_site : Lens wstate site.
Proof. refine {| lget := si_worker; lset := set_worker |}; [done|by intros []|done]. Defined.

(** ** Header values *)

(** [httpguts.ValidHeaderFieldValue]: no control character but the tab. *)
Definition valid_field_byte (c : ascii) : bool :=
  let n := N_of_ascii c in ((32 <=? n)%N && negb (n =? 127)%N) || (n =? 9)%N.

Definition valid_field (s : string) : bool := forallb valid_field_byte (String.list_ascii_of_string s).

Definition is_field_space (c : ascii) : bool := (N_of_ascii c =? 32)%N || (N_of_ascii c =? 9)%N.

Fixpoint drop_field_spaces (l : list ascii) : list ascii :=
  match l with c :: l' => if is_field_space c then drop_field_spaces l' else l | [] => [] end.

(** The value the server reads: blanks at the end are gone. *)
Definition received_field (s : string) : string :=
  String.string_of_list_ascii (rev (drop_field_spaces (rev (String.list_ascii_of_string s)))).

Definition bearer (secret : string) : string := "Bearer " ++s secret.

Section worker_agent.
Context `{UuidText} `{SecretOps} `{AeadOps}.

(** The text of a network error. *)
Variable net_text : string.

(** A request with a bearer token and the answer to it. *)
Definition exchange (secret : string) (h : request -> handler) : prog site string response :=
  if negb (valid_field (bearer secret)) then Throw net_text else
  _ ← must Pool (reads (fun _ => tt)) (fun _ => net_text);
  r ← attempt (zoom (S := world) (h (MkRequest (received_field (bearer secret)) None)));
  _ ← must Pool (reads (fun _ => tt)) (fun _ => net_text);
  Ret (answer r).

(** ** Enrolment *)

Definition enrol_request (name arch : string) : enrolAgentRequest :=
  MkEnrolAgent name arch "linux" "phase-f" "signing-worker" (Some (JObj [("signing", JBool true)])).

(** The two members read of the answer, whatever its status. *)
Definition decode_enrolled (j : json) : option (string * string) :=
  _ ← is_struct j; i ← str_member "agent_id" j; k ← str_member "api_key" j; Some (i, k).

(** [os.WriteFile]: the file is truncated first. *)
Definition write_out (io_text : string) (set : option string -> site -> site) (data : string)
    : prog site string unit :=
  _ ← must Fs (writes (set (Some ""))) (fun _ => io_text);
  must Fs (writes (set (Some data))) (fun _ => io_text).

(** [ensureAgent] without stored credentials. *)
Definition enrol (c : config) (io_text name arch : string) : prog site string (string * string) :=
  if enrolToken c =s "" then Throw "no agent key and no SIDEY_ENROLMENT_TOKEN" else
  resp ← exchange (enrolToken c)
           (fun r => enrolmentToken r (fun token => handleEnrolAgent token (Some (enrol_request name arch))));
  match decode_enrolled (rs_body resp) with
  | None => Throw ("enrol response: " ++s net_text)
  | Some (id, key) =>
      if key =s "" then Throw "enrol returned no api_key" else
      _ ← write_out io_text set_key key;
      _ ← write_out io_text set_id id;
      Ret (key, id)
  end.

Definition ensureAgent (c : config) (io_text name arch : string) : prog site string (string * string) :=
  k ← try_ Fs (reads si_key);
  i ← match (k : sqlerr + option string) with
      | inr (Some _) => try_ Fs (reads si_id)
      | _ => Ret (inl Fault)
      end;
  match k, i with
  | inr (Some key), inr (Some id) => Ret (key, id)
  | _, _ => enrol c io_text name arch
  end.

(** ** Heartbeat *)

Definition worker_capabilities : json := JObj [("signing", JBool true)].

(** Whatever comes of it. *)
Definition heartbeat (agentKey : string) : prog site unit unit :=
  _ ← attempt (exchange agentKey (fun r => agent r (fun id => handleHeartbeat id (Some (Some worker_capabilities)))));
  Ret tt.

(** ** The start *)

(** An error with what was being done in front. *)
Definition wrapping {A} (what : string) (p : prog site string A) : prog site string A :=
  r ← attempt p;
  match (r : string + A) with inl e => Throw (what ++s e) | inr a => Ret a end.

Definition load_guard (w : wstate) : wstate := set_guard (newAppleGuard (ws_guard_file w)) w.

(** [main] up to the loop; an error is [log.Fatalf].  [ex] is the disk of the
    worker, [src] the directory of the import. *)
Definition start (c : config) (ex : externals) (src : option (list dir_entry)) (arch : string)
    : prog site string (string * string) :=
  _ ← must Fs (reads (fun _ => tt)) (fun _ => "state dir: " ++s ex_io_text ex);
  ki ← wrapping "agent setup: " (ensureAgent c (ex_io_text ex) "signing-worker" arch);
  _ ← (if importDir c =s "" then Ret tt
       else wrapping "state import: " (zoom (S := wstate) (importState ex src)));
  g ← try_ Fs (reads si_worker);
  _ ← put_ (fun t => set_worker (match g with inl _ => set_guard zeroGuard (si_worker t)
                                 | inr _ => load_guard (si_worker t) end) t);
  Ret ki.

(** Where the health endpoint listens, and its answer. *)
Definition serveHealthz (env : string -> string) : string * (Z * string) :=
  (":" ++s envOr env "PORT" "8090", (200, "ok")).
End worker_agent.
