(* ===== verification/WorkerAgentSpec.v ===== *)
(** The worker enrols with the token it was given, once, and is known from then
    on; and what a lost file costs.  At the end, a worker that enrols, one that is
    restarted, and one that loses its key. *)
From S2P Require Import Prelude GoStrings Effects GoTime Schema Samples AuditLog Jobs JobsInvariant JobsSpec Http Auth Agents AuthSpec AuthWitness Guard Worker WorkerWitness Host WorkerAgent.

Section site.
Context `{UuidText} `{HSL : SecretLaws} `{AeadOps}.

Lemma ewp_eq {S E A} (p : prog S E A) s r s' : ewp p (fun o t => o = r /\ t = s') s -> exec p s = (r, s').
Proof using. unfold ewp. destruct (exec p s) as [o t]. simpl. by intros [-> ->]. Qed.

(** What the worker's own steps leave alone. *)
Lemma keeps_own {E A} (J : site -> Prop) (p : prog wstate E A) :
  (forall s t, J t -> J (set_worker s t)) -> keeps J (zoom p).
Proof using. intros HJ t Ht. apply wp_zoom, wp_always. intros. by apply HJ. Qed.

Lemma find_row_only {A} (p : A -> bool) (m : gmap uuid A) i x :
  m !! i = Some x -> p x = true -> (forall j y, m !! j = Some y -> p y = true -> y = x) ->
  find_row p m = Some x.
Proof using.
  intros Hx Hp Hu. destruct (find_row p m) as [y|] eqn:E.
  - apply find_row_Some in E as (j & Hj & Hpj). by rewrite (Hu j y Hj Hpj).
  - rewrite find_row_None in E. by rewrite (E _ _ Hx) in Hp.
Qed.

(** ** Restarts *)

Context (net_text : string) (c : config).

(** The token the control plane is shown. *)
Definition presented : option string :=
  if valid_field (bearer (enrolToken c))
  then bearerToken (MkRequest (received_field (bearer (enrolToken c))) None) else None.

Section once.
Context (token : string) (Hpres : presented = Some token) (Hparse : is_Some (ParseEnrolmentToken token)).
Context (w0 : world).

(** Since [w0]: no row has changed, or the token is used up by one agent. *)
Definition enrolled_once (t : site) : Prop :=
  tokens_wf (si_cp t) /\
  ((W_agents (si_cp t) = W_agents w0 /\ W_enrolment_tokens (si_cp t) = W_enrolment_tokens w0)
   \/ (used_up (si_cp t) token /\ exists et id a,
         ag_role a = et_role et /\ ag_name a = "signing-worker"
         /\ W_enrolment_tokens w0 !! et_id et = Some et /\ et_used_at et = None
         /\ W_agents (si_cp t) = <[id := a]> (W_agents w0))).

Lemma db_once w t :
  w_db w = w_db (si_cp t) -> enrolled_once t -> enrolled_once (set_cp w t).
Proof using.
  unfold enrolled_once, used_up. simpl. intros Hdb [Hw Ht]. rewrite Hdb. split; [|exact Ht].
  split; rewrite Hdb; apply Hw.
Qed.

Lemma keeps_write_out io (set : option string -> site -> site) data :
  (forall o t, si_cp (set o t) = si_cp t) -> keeps enrolled_once (write_out io set data).
Proof using.
  intros Hset. unfold write_out.
  assert (forall o t, enrolled_once t -> enrolled_once (set o t)) as Hk.
  { intros o t. unfold enrolled_once. by rewrite Hset. }
  apply keeps_bind; [|intros _]; (apply keeps_stmt; [|intros [|]; auto using keeps_throw, keeps_ret]);
    intros t x t' Ht [= <- <-]; by apply Hk.
Qed.

Lemma keeps_exchange_enrol arch name :
  name = "signing-worker" ->
  keeps enrolled_once (exchange net_text (enrolToken c)
    (fun r => enrolmentToken r (fun tk => handleEnrolAgent tk (Some (enrol_request name arch))))).
Proof using Hpres Hparse.
  intros ->. unfold exchange. pose proof Hpres as Hp. unfold presented in Hp.
  destruct (valid_field (bearer (enrolToken c))) eqn:Ev; [|done]. cbn [negb].
  apply keeps_bind; [apply keeps_stmt; [by intros ??? ? [= <- <-]|intros [|]; [apply keeps_throw|apply keeps_ret]]|].
  intros _. apply keeps_bind.
  - intros t Ht. apply wp_attempt, wp_zoom. unfold enrolmentToken. rewrite Hp.
    destruct Ht as [Hw Ht]. destruct Ht as [[Ha Htk]|[Hu Hrest]].
    + eapply wp_mono; [|by apply wp_handleEnrolAgent]. intros [resp|resp] w'.
      * intros [Hdb _]. apply db_once; [done|]. split; [done|by left].
      * intros (req & et & id & k & a & [= <-] & He & _).
        pose proof (enrolled_used_up _ _ _ _ _ _ _ _ Hw He) as [Hw' Hu]. split; [done|]. right.
        split; [done|]. pose proof He as [(key & secret & _ & _ & Het & Hun & _) Hag _ Hr Hn _ _ _].
        exists et, id, a. simpl. rewrite <- Htk, <- Ha. done.
    + eapply wp_mono; [|by apply wp_enrol_used_up]. intros r w' [_ Hdb].
      apply db_once; [done|]. split; [done|by right].
  - intros r. apply keeps_bind; [|intros; apply keeps_ret].
    apply keeps_stmt; [by intros ??? ? [= <- <-]|intros [|]; [apply keeps_throw|apply keeps_ret]].
Qed.

Lemma keeps_enrol io arch : keeps enrolled_once (enrol net_text c io "signing-worker" arch).
Proof using Hpres Hparse.
  unfold enrol. case_cond; [apply keeps_throw|]. apply keeps_bind; [by apply keeps_exchange_enrol|]. intros resp.
  destruct (decode_enrolled _) as [[id key]|]; [|apply keeps_throw]. case_cond; [apply keeps_throw|].
  apply keeps_bind; [by apply keeps_write_out|intros _]. apply keeps_bind; [by apply keeps_write_out|].
  intros _. apply keeps_ret.
Qed.

Lemma keeps_wrapping {A} (J : site -> Prop) what (p : prog site string A) :
  keeps J p -> keeps J (wrapping what p).
Proof using.
  intros Hp. apply keeps_bind; [by apply keeps_attempt|]. intros [e|a]; [apply keeps_throw|apply keeps_ret].
Qed.

Lemma keeps_site_start ex src arch : keeps enrolled_once (start net_text c ex src arch).
Proof using Hpres Hparse.
  unfold start. apply keeps_bind; [apply keeps_stmt; [by intros ??? ? [= <- <-]|intros [|]; [apply keeps_throw|apply keeps_ret]]|].
  intros _. apply keeps_bind.
  { apply keeps_wrapping. unfold ensureAgent.
    apply keeps_bind; [apply keeps_stmt; [by intros ??? ? [= <- <-]|intros; apply keeps_ret]|]. intros k.
    apply keeps_bind.
    { destruct k as [|[]]; try apply keeps_ret. apply keeps_stmt; [by intros ??? ? [= <- <-]|intros; apply keeps_ret]. }
    intros i. pose proof (keeps_enrol (ex_io_text ex) arch) as Hen.
    destruct k as [|[]]; [apply Hen| |apply Hen]. destruct i as [|[]]; [apply Hen|apply keeps_ret|apply Hen]. }
  intros ki. apply keeps_bind.
  { case_cond; [apply keeps_ret|]. apply keeps_wrapping, keeps_own. by intros s t. }
  intros _. apply keeps_bind; [apply keeps_stmt; [by intros ??? ? [= <- <-]|intros; apply keeps_ret]|].
  intros g. apply keeps_bind; [|intros; apply keeps_ret]. apply keeps_act; [by intros|intros; apply keeps_ret].
Qed.
End once.

Definition restart (ex : externals) (src : option (list dir_entry)) (arch : string)
    (t : site) (x : instant * list bool) : site :=
  (run x.2 (start net_text c ex src arch) (set_cp (set_now x.1 (si_cp t)) t)).2.

(** The worker enrols at most once: over every history of restarts, at any
    times and whatever fails on the network, in the control plane and on the
    disk, the one-time token it was given adds at most one agent, of the role of
    that token; no other agent and no other token is touched. *)
Theorem restarts_enrol_once token ex src arch xs t :
  presented = Some token -> is_Some (ParseEnrolmentToken token) -> tokens_wf (si_cp t) ->
  let t' := fold_left (restart ex src arch) xs t in
  (W_agents (si_cp t') = W_agents (si_cp t)
   /\ W_enrolment_tokens (si_cp t') = W_enrolment_tokens (si_cp t))
  \/ (used_up (si_cp t') token /\ exists et id a,
        ag_role a = et_role et /\ ag_name a = "signing-worker"
        /\ W_enrolment_tokens (si_cp t) !! et_id et = Some et /\ et_used_at et = None
        /\ W_agents (si_cp t') = <[id := a]> (W_agents (si_cp t))).
Proof using HSL.
  intros Hp Hk Hw. simpl. set (w0 := si_cp t).
  assert (enrolled_once token w0 t) as Ht by (split; [done|by left]). clearbody w0.
  enough (enrolled_once token w0 (fold_left (restart ex src arch) xs t)) as [_ He] by exact He.
  revert t Hw Ht. induction xs as [|x xs IH]; intros t Hw Ht; simpl; [done|].
  assert (enrolled_once token w0 (restart ex src arch t x)) as Hx.
  { unfold restart. apply keeps_run; [by apply keeps_site_start|]. by apply db_once. }
  apply IH; [apply Hx|done].
Qed.

(** ** A lost file *)

(** Enrolled, but a file of the pair is missing. *)
Definition locked_out (token : string) (t : site) : Prop :=
  tokens_wf (si_cp t) /\ used_up (si_cp t) token /\ (si_key t = None \/ si_id t = None).

Lemma wp_network {E A} (e : E) (k : unit -> prog site E A) Q t :
  Q (inl e) t -> wp (k tt) Q t -> wp (must Pool (reads (fun _ => tt)) (fun _ => e) ≫= k) Q t.
Proof using. intros. split; [done|]. simpl. done. Qed.

Lemma wp_enrol_locked token io arch t :
  presented = Some token -> locked_out token t ->
  wp (enrol net_text c io "signing-worker" arch) (fun r t' => (exists e, r = inl e) /\ locked_out token t') t.
Proof using HSL.
  intros Hp Ht. pose proof Ht as (Hw & Hu & Hf). unfold enrol. case_cond; [simpl; eauto|].
  apply wp_bind. unfold exchange. unfold presented in Hp.
  destruct (valid_field (bearer (enrolToken c))) eqn:Ev; [|simpl; eauto]. cbn [negb].
  apply wp_network; [eauto|]. apply wp_bind, wp_attempt, wp_zoom. unfold enrolmentToken. rewrite Hp.
  eapply wp_mono; [|by apply wp_enrol_used_up].
  intros r w' [(resp & -> & m & Hm) Hdb].
  assert (locked_out token (set_cp w' t)) as Ht'.
  { split_and!; [|by unfold used_up in *; simpl; rewrite Hdb|done].
    split; simpl; rewrite Hdb; apply Hw. }
  apply wp_network; [eauto|]. unfold answer. cbn [wp]. rewrite Hm. simpl. eauto.
Qed.

Lemma wp_start_locked token ex src arch t :
  presented = Some token -> locked_out token t ->
  wp (start net_text c ex src arch) (fun r t' => (exists e, r = inl e) /\ locked_out token t') t.
Proof using HSL.
  intros Hp Ht. unfold start. apply wp_bind. split; [simpl; eauto|]. simpl reads. cbv beta iota.
  cbn [wp]. apply wp_bind. unfold wrapping. apply wp_bind, wp_attempt.
  eapply (wp_mono _ (fun r t' => (exists e, r = inl e) /\ locked_out token t')).
  { intros r t' [[e ->] Hl]. simpl. eauto. }
  unfold ensureAgent. pose proof (wp_enrol_locked token (ex_io_text ex) arch t Hp Ht) as He.
  apply wp_bind. split; [by apply wp_bind|]. unfold reads. cbn [wp].
  destruct (si_key t) as [key|] eqn:Ek; [|by apply wp_bind].
  apply wp_bind. split; [done|]. cbn [wp].
  destruct (si_id t) as [i|] eqn:Ei; [|done]. destruct Ht as (_ & _ & [?|?]); congruence.
Qed.

(** A lost file locks the worker out: once the token is used and a file of
    the stored pair is missing, every later start fails, at any time and
    whatever else happens, until someone supplies a new token. *)
Theorem lost_file_locks_out token ex src arch xs t :
  presented = Some token -> locked_out token t ->
  let t' := fold_left (restart ex src arch) xs t in
  forall fl, exists e, (run fl (start net_text c ex src arch) t').1 = inl e.
Proof using HSL.
  intros Hp Ht. simpl. intros fl.
  assert (locked_out token (fold_left (restart ex src arch) xs t)) as Hl.
  { revert t Ht. induction xs as [|x xs IH]; intros t Ht; simpl; [done|]. apply IH. unfold restart.
    eapply (wp_run _ (fun r t' => (exists e, r = inl e) /\ locked_out token t')).
    apply wp_start_locked; [done|]. destruct Ht as (Hw & Hu & Hf). split_and!; [|done|done].
    split; apply Hw. }
  by apply (wp_run _ (fun r t' => (exists e, r = inl e) /\ locked_out token t') _
    (wp_start_locked token ex src arch _ Hp Hl) fl).
Qed.

(** ** The first start *)

(** A secret that survives the header of a request. *)
Definition plain_secret (s : string) : Prop :=
  valid_field (bearer s) = true /\ received_field (bearer s) = bearer s.

Lemma bearerToken_plain s : s <> "" -> bearerToken (MkRequest (bearer s) None) = Some s.
Proof using.
  intros Hs. unfold bearerToken, bearer. simpl. destruct (String.length s) eqn:El; [|done].
  by apply str_length_nil in El.
Qed.

(** The token admits an agent, and the key about to be drawn is new. *)
Record admits (w : world) (token : string) (t : enrolment_token) : Prop := {
  ad_wf : tokens_wf w;
  ad_grants : grants w token t;
  ad_role : et_role t ∈ validAgentRoles;
  ad_new i x : W_agents w !! i = Some x -> ag_api_key_id x <> Some (KeyID (random_secret (w_fresh w)));
}.

Lemma admits_answered w token t req :
  admits w token t -> ea_Name req <> "" ->
  exists id a w', exec (handleEnrolAgent token (Some req)) w
      = (inr (enrol_answer id (random_secret (w_fresh w)) (et_role t)), w')
    /\ enrolled_as w token req t id (random_secret (w_fresh w)) a w'.
Proof using HSL.
  intros [Hw Hg Hr Hn] Hname. pose proof Hg as (key & secret & Hp & Hk & Ht & Hu & He & Hv).
  assert (Hkey : enrolment_by_key key w = Some t).
  { apply (find_row_only _ _ _ _ Ht); [by bools|]. intros j y Hy Hky. bools.
    pose proof (tw_key _ Hw _ _ _ _ _ Hy Ht Hky Hk) as ->. congruence. }
  pose proof (wp_ewp _ _ _ (wp_handleEnrolAgent w token (Some req) Hw ltac:(eauto))) as Hwp.
  unfold ewp in Hwp.
  assert (exists id w', exec (handleEnrolAgent token (Some req)) w
            = (inr (enrol_answer id (random_secret (w_fresh w)) (et_role t)), w')) as (id & w' & Hrun).
  { unfold handleEnrolAgent, exec, enrol_body, find_token. rewrite Hp. simpl.
    rewrite bool_decide_eq_false_2 by done. simpl. rewrite Hkey. simpl.
    rewrite Hu, He. unfold VerifySecret.
    rewrite Hv. simpl. unfold insert_agent. simpl.
    rewrite (proj2 (in_strs_true _ _)) by done. cbn [negb].
    match goal with |- context [exists_row ?p ?m] =>
      destruct (exists_row p m) eqn:Ex; [exfalso|] end.
    { apply exists_row_true in Ex as (i & x & Hx & Hb).
      apply andb_true_iff in Hb as [_ Hb%bool_decide_eq_true]. by destruct (Hn _ _ Hx). }
    pose proof (proj1 (consume_once w t id Hw Ht Hu)) as Hc. unfold consumable in Hc.
    simpl. rewrite consume_token_by by (simpl; rewrite lookup_insert_eq; by eexists). cbn zeta. simpl.
    rewrite Hc. simpl. eauto. }
  rewrite Hrun in Hwp. simpl in Hwp. destruct Hwp as (q & et & id' & k & a & [= <-] & Hen & Heq).
  assert (et = t) as ->.
  { destruct (en_grants _ _ _ _ _ _ _ _ Hen) as (k2 & s2 & Hp2 & Hk2 & Ht2 & _).
    rewrite Hp in Hp2. injection Hp2 as <- <-.
    pose proof (tw_key _ Hw _ _ _ _ _ Ht2 Ht Hk2 Hk) as Hi. rewrite Hi in Ht2. congruence. }
  exists id', a, w'. injection Heq as Hid <-. unfold enrol_answer in *. rewrite Hid in Hrun. done.
Qed.

Lemma exec_exchange secret h t r w' :
  plain_secret secret -> secret <> "" ->
  exec (h (MkRequest (bearer secret) None)) (si_cp t) = (r, w') ->
  exec (exchange net_text secret h) t = (inr (answer r), set_cp w' t).
Proof using.
  intros [Hv Hr] Hs He. apply ewp_eq. unfold exchange. rewrite Hv. cbn [negb]. apply ewp_bind.
  eapply ewp_exec; [reflexivity|]. apply ewp_bind, ewp_attempt, ewp_zoom. rewrite Hr.
  eapply ewp_exec; [exact He|]. by eapply ewp_exec; [reflexivity|].
Qed.

Lemma agent_key_known w t token req id k a w' :
  enrolled_as w token req t id k a w' -> k <> "" ->
  (forall i x, W_agents w !! i = Some x -> ag_api_key_id x <> Some (KeyID k)) ->
  exec (agent_of (MkRequest (bearer k) None)) w' = (inr id, w').
Proof using.
  intros [_ Hag Hid _ _ Hkey _ _] Hk Hn. unfold exec, agent_of. rewrite bearerToken_plain by done.
  simpl.
  assert (agent_by_key (KeyID k) w' = Some a) as ->; [|by rewrite <- Hid].
  apply (find_row_only _ _ id); [rewrite Hag; apply lookup_insert_eq|by apply opt_is_true|].
  intros j y Hy Hky. apply opt_is_true in Hky. rewrite Hag, lookup_insert in Hy.
  case_decide; [congruence|]. by destruct (Hn _ _ Hy).
Qed.

(** Enrolment as the worker sees it. *)
Lemma exec_ensureAgent io arch t id key role w' :
  enrolToken c <> "" -> plain_secret (enrolToken c) -> key <> "" -> si_key t = None \/ si_id t = None ->
  exec (handleEnrolAgent (enrolToken c) (Some (enrol_request "signing-worker" arch))) (si_cp t)
    = (inr (enrol_answer id key role), w') ->
  exec (ensureAgent net_text c io "signing-worker" arch) t
    = (inr (key, uuid_text id), set_id (Some (uuid_text id)) (set_key (Some key) (set_cp w' t))).
Proof using.
  intros Htok Hpt Hkey Hmiss Hrun.
  assert (exec (enrol net_text c io "signing-worker" arch) t
    = (inr (key, uuid_text id), set_id (Some (uuid_text id)) (set_key (Some key) (set_cp w' t)))) as Henr.
  { assert (exec (exchange net_text (enrolToken c) (fun r => enrolmentToken r (fun tk =>
              handleEnrolAgent tk (Some (enrol_request "signing-worker" arch))))) t
            = (inr (answer (inr (enrol_answer id key role))), set_cp w' t)) as Hcall.
    { apply (exec_exchange _ _ _ _ _ Hpt Htok). unfold enrolmentToken. by rewrite bearerToken_plain. }
    unfold enrol. rewrite bool_decide_eq_false_2 by done. unfold exec in *. rewrite run_bind, Hcall.
    simpl. by rewrite bool_decide_eq_false_2. }
  unfold ensureAgent, exec in *. rewrite run_bind. simpl.
  destruct (si_key t) as [k|] eqn:Ek; simpl; [|done].
  destruct (si_id t) as [i|] eqn:Ei; simpl; [|done]. destruct Hmiss; congruence.
Qed.

(** What [start] does to the worker's own state when nothing is imported. *)
Lemma exec_start ex src arch t r t1 :
  importDir c = "" -> exec (ensureAgent net_text c (ex_io_text ex) "signing-worker" arch) t = (inr r, t1) ->
  exec (start net_text c ex src arch) t = (inr r, set_worker (load_guard (si_worker t1)) t1).
Proof using.
  intros Hi He. apply ewp_eq. unfold start. apply ewp_bind. eapply ewp_exec; [reflexivity|].
  apply ewp_bind. unfold wrapping. apply ewp_bind, ewp_attempt. eapply ewp_exec; [exact He|].
  eapply ewp_exec; [reflexivity|]. rewrite bool_decide_eq_true_2 by done. by eapply ewp_exec; [reflexivity|].
Qed.

(** C14. The first start of a worker: with an invitation the control plane admits
    and nothing failing, the worker is enrolled, keeps the key and the id it was
    given, is known by that key, may claim signing jobs, is online after a
    heartbeat, and a second start finds the same pair without touching the
    control plane. *)
Theorem worker_enrols ex src arch t et :
  let key := random_secret (w_fresh (si_cp t)) in
  enrolToken c <> "" -> plain_secret (enrolToken c) -> plain_secret key -> importDir c = "" ->
  si_key t = None \/ si_id t = None -> admits (si_cp t) (enrolToken c) et ->
  exists id a t',
    exec (start net_text c ex src arch) t = (inr (key, uuid_text id), t')
    /\ si_key t' = Some key /\ si_id t' = Some (uuid_text id)
    /\ enrolled_as (si_cp t) (enrolToken c) (enrol_request "signing-worker" arch) et id key a (si_cp t')
    /\ exec (agent_of (MkRequest (received_field (bearer key)) None)) (si_cp t') = (inr id, si_cp t')
    /\ (exec (agentRole id) (si_cp t')).1 = inr "signing_worker"
    /\ exec (start net_text c ex src arch) t' = (inr (key, uuid_text id), t')
    /\ exists a', W_agents (si_cp (exec (heartbeat net_text key) t').2) !! id = Some a'
         /\ ag_connection_state a' = "online" /\ ag_last_heartbeat_at a' = Some (w_now (si_cp t'))
         /\ ag_capabilities a' = worker_capabilities.
Proof using HSL.
  intros key Htok Hpt Hpk Himp Hmiss Had.
  assert (key <> "") as Hkey by apply secret_nonempty.
  destruct (admits_answered _ _ _ (enrol_request "signing-worker" arch) Had) as (id & a & w' & Hrun & Hen); [done|].
  fold key in Hrun, Hen.
  pose proof (exec_ensureAgent (ex_io_text ex) arch t id key (et_role et) w' Htok Hpt Hkey Hmiss Hrun) as Hens.
  pose proof (exec_start ex src arch t _ _ Himp Hens) as Hstart.
  eexists id, a, _. split; [exact Hstart|]. cbn [si_key si_id si_cp set_worker set_id set_key set_cp].
  pose proof (agent_key_known _ _ _ _ _ _ _ _ Hen Hkey (ad_new _ _ _ Had)) as Hagent.
  split; [done|]. split; [done|]. split; [done|].
  destruct Hpk as [Hv Hr]. rewrite Hr. split; [exact Hagent|].
  pose proof Hen as [_ Hag Hid Hrole Hname _ _ _].
  split; [|split].
  - unfold exec, agentRole. simpl. rewrite Hag, lookup_insert_eq. simpl. rewrite Hname. simpl.
    destruct (ag_role a =s "signing_worker") eqn:Er; simpl; [|done]. bools. by rewrite Er.
  - erewrite exec_start; [|done|unfold exec, ensureAgent; rewrite run_bind; reflexivity]. done.
  - unfold heartbeat. set (t' := set_worker _ _).
    assert (exec (agent (MkRequest (bearer key) None) (fun i => handleHeartbeat i (Some (Some worker_capabilities)))) w'
      = (exec (handleHeartbeat id (Some (Some worker_capabilities))) w')) as Hh.
    { unfold agent, exec in *. by rewrite run_bind, Hagent. }
    destruct (exec (handleHeartbeat id (Some (Some worker_capabilities))) w') as [r w2] eqn:Hb.
    pose proof (exec_exchange key (fun r => agent r (fun i => handleHeartbeat i (Some (Some worker_capabilities))))
      t' r w2 (conj Hv Hr) Hkey Hh) as Hc.
    assert (exec (_ ← attempt (exchange net_text key (fun r => agent r (fun i => handleHeartbeat i (Some (Some worker_capabilities)))));
              (Ret tt : prog site unit unit)) t' = (inr tt, set_cp w2 t')) as ->.
    { apply ewp_eq, ewp_bind, ewp_attempt. by eapply ewp_exec; [exact Hc|]. }
    simpl. unfold exec, handleHeartbeat in Hb. simpl in Hb. unfold heartbeat_stmt in Hb.
    rewrite Hag, lookup_insert_eq in Hb. simpl in Hb. injection Hb as <- <-. simpl.
    rewrite lookup_insert_eq. eexists. split; [done|]. done.
Qed.
End site.

(** * Concrete starts *)

#[local] Existing Instance sample_uuid.
#[local] Existing Instance sample_secrets.
#[local] Existing Instance sample_secret_laws.
#[local] Existing Instance sample_aead.

Definition worker_token : enrolment_token :=
  MkEnrolToken 30 (bcrypt_hash 5 "inv") (Some (KeyID "inv")) "worker" "signing_worker" "admin" None None None.
Definition invited_world : world := set_db (on_enrolment_tokens (<[30%N := worker_token]>)) empty_world.

Definition invited_config : config :=
  MkConfig "http://cp" "/state" "" "/run/state" "signonly" "p12export" "appids" "http://anisette"
    "me@example.com" "secret" (FormatEnrolmentToken "inv") "/2fa".

Definition new_site : site := MkSite invited_world start_state None None.

Definition the_start : prog site string (string * string) :=
  start "connection refused" invited_config (outside [] helper_ok) None "arm64".

Lemma invited_tokens_wf : tokens_wf invited_world.
Proof. split; intros *; simpl; rewrite ?lookup_insert; repeat case_decide; naive_solver. Qed.

Lemma invited_presented : presented invited_config = Some (FormatEnrolmentToken "inv").
Proof. vm_compute. reflexivity. Qed.

Lemma invited_parses : is_Some (ParseEnrolmentToken (FormatEnrolmentToken "inv")).
Proof. eexists. vm_compute. reflexivity. Qed.

Lemma invited_admits : admits invited_world (FormatEnrolmentToken "inv") worker_token.
Proof.
  split; [apply invited_tokens_wf| |by apply (bool_decide_unpack _)|by intros i x; simpl; rewrite lookup_empty].
  eexists _, _. split; [vm_compute; reflexivity|]. by split_and!; vm_compute.
Qed.

Lemma worker_enrols_witness :
  exists id a t',
    exec the_start new_site = (inr (random_secret 100%N, uuid_text id), t')
    /\ enrolled_as invited_world (FormatEnrolmentToken "inv") (enrol_request "signing-worker" "arm64")
         worker_token id (random_secret 100%N) a (si_cp t')
    /\ (exec (agentRole id) (si_cp t')).1 = inr "signing_worker"
    /\ exec the_start t' = (inr (random_secret 100%N, uuid_text id), t').
Proof.
  pose proof (worker_enrols "connection refused" invited_config (outside [] helper_ok) None "arm64" new_site
    worker_token) as Hw. cbv zeta in Hw.
  destruct Hw as (id & a & t' & Hs & _ & _ & He & _ & Hr & Ha & _).
  - done.
  - by split; vm_compute.
  - by split; vm_compute.
  - reflexivity.
  - by left.
  - exact invited_admits.
  - exists id, a, t'. split; [exact Hs|]. split; [exact He|]. split; [exact Hr|exact Ha].
Defined.

(** ** Restarts *)

(** The answer gets lost, the worker is restarted twice. *)
Definition lost_answer : list bool := replicate 11 false ++ [true].
Definition three_starts : list (instant * list bool) :=
  [(13 * Hour, lost_answer); (14 * Hour, []); (15 * Hour, [true])].

Lemma restarts_enrol_once_witness :
  let t' := fold_left (restart "connection refused" invited_config (outside [] helper_ok) None "arm64")
              three_starts new_site in
  used_up (si_cp t') (FormatEnrolmentToken "inv")
  /\ exists et id a, ag_role a = et_role et /\ W_agents (si_cp t') = <[id := a]> (W_agents invited_world).
Proof.
  cbv zeta.
  destruct (restarts_enrol_once "connection refused" invited_config (FormatEnrolmentToken "inv") (outside [] helper_ok) None "arm64"
    three_starts new_site invited_presented invited_parses invited_tokens_wf) as [[Ha _]|[Hu (et & id & a & Hr & _ & _ & _ & Ha)]].
  - exfalso. apply (f_equal size) in Ha. vm_compute in Ha. discriminate Ha.
  - split; [exact Hu|]. exists et, id, a. split; [exact Hr|exact Ha].
Defined.

(** ** A flaw *)

(** The disk fails once, as the key is written: the control plane has the agent,
    the token is used, and the worker never starts again. *)
Definition failed_write : list bool := replicate 13 false ++ [true].
Definition keyless_site : site := (run failed_write the_start new_site).2.

Example failed_write_loses_the_key :
  (run failed_write the_start new_site).1 = inl "agent setup: input/output error"
  /\ size (W_agents (si_cp keyless_site)) = 1%nat
  /\ si_key keyless_site = Some "" /\ si_id keyless_site = None
  /\ (exec the_start keyless_site).1 = inl "agent setup: enrol returned no api_key".
Proof. vm_compute. repeat split. Qed.

Definition spent_token : enrolment_token :=
  set_et_used_by_agent (Some 102%N) (set_et_used_at (Some (12 * Hour)) worker_token).

Lemma keyless_tokens : W_enrolment_tokens (si_cp keyless_site) = {[30%N := spent_token]}.
Proof. vm_compute. reflexivity. Qed.

Lemma keyless_locked : locked_out (FormatEnrolmentToken "inv") keyless_site.
Proof.
  split_and!.
  - split; rewrite keyless_tokens.
    + by intros id t [<- <-]%lookup_singleton_Some.
    + by intros i j t u k [<- _]%lookup_singleton_Some [<- _]%lookup_singleton_Some.
  - exists (KeyID "inv"), "inv", spent_token. rewrite keyless_tokens.
    split_and!; [vm_compute; reflexivity|reflexivity|apply lookup_singleton_eq|done].
  - right. vm_compute. reflexivity.
Qed.

Lemma lost_file_locks_out_witness :
  exists e, (run [] the_start (fold_left (restart "connection refused" invited_config (outside [] helper_ok) None "arm64")
               three_starts keyless_site)).1 = inl e.
Proof.
  apply (lost_file_locks_out "connection refused" invited_config (FormatEnrolmentToken "inv") (outside [] helper_ok) None "arm64"
    three_starts keyless_site invited_presented keyless_locked []).
Defined.
