(* ===== verification/Uploads.v ===== *)
(** The upload of a signed archive on both sides: the form the signing worker
    writes (cmd/signing-worker/main.go, uploadSignedIPA) as the control plane
    reads it (internal/api/signing.go, handleUploadSignedArtifact). *)
From S2P Require Import Prelude GoStrings GoTime Versions Effects Schema AuditLog Jobs Http Auth Artifacts Signing Guard Worker.

(** [r.FormValue]: the first value of a name, empty without one. *)
Definition form_of (fields : list (string * string)) (k : string) : string :=
  match List.find (fun kv => kv.1 =s k) fields with Some kv => kv.2 | None => "" end.

Section uploads.
Context `{UuidText}.

(** The body of the worker's request for a job. *)
Definition worker_form (c : config) (job device : uuid) (p : signParams) (r : helperResult) (ipa : string)
    : multipart :=
  Form (form_of (upload_fields c (uuid_text job) (uuid_text device) p r)) (Some ipa).

(** What the worker means to say. *)
Definition meant_upload (c : config) (job device source : uuid) (r : helperResult)
    : signedArtifactUploadRequest :=
  MkSignedUpload job source device (appleID c) (rest_str "team_id" r) (rest_str "cert_serial" r)
    (rest_str "signed_bundle_identifier" r) (rest_str "signed_ipa_sha256" r)
    (default 0 (rest_int "device_count" r)) (default 0 (rest_int "app_id_count" r))
    (rest_int "app_id_max_quantity" r) (rest_int "app_id_available_quantity" r).

(** The id the worker reads of the answer. *)
Definition answered_id (j : json) : option string := _ ← is_struct j; str_member "id" j.
End uploads.
