(* ===== verification/UploadsSpec.v ===== *)
(** The control plane reads of the worker's form what the worker wrote, knows the
    job by it, and what it then stores is what the worker reports; at the end, an
    upload of the worker. *)
From S2P Require Import Prelude GoStrings Effects Versions GoTime Schema Samples AuditLog Jobs JobsWitness Http Auth Agents AuthSpec AuthWitness Artifacts Retention ArtifactsSpec ArtifactsWitness Signing SigningSpec Guard Worker WorkerWitness Uploads.

(** ** Decimal numbers *)

Lemma digit_of_pretty d : (d < 10)%N -> digit_of (pretty_N_char d) = Some (Z.of_N d).
Proof.
  intros Hd. assert (d = 0 \/ d = 1 \/ d = 2 \/ d = 3 \/ d = 4 \/ d = 5 \/ d = 6 \/ d = 7 \/ d = 8 \/ d = 9)%N as Hc by lia.
  by destruct_or! Hc; subst.
Qed.

Lemma is_digit_pretty d : is_digit (pretty_N_char (d mod 10)) = true.
Proof.
  pose proof (N.mod_lt d 10 ltac:(done)) as Hd. set (x := (d mod 10)%N) in *. clearbody x.
  assert (x = 0 \/ x = 1 \/ x = 2 \/ x = 3 \/ x = 4 \/ x = 5 \/ x = 6 \/ x = 7 \/ x = 8 \/ x = 9)%N as Hc by lia.
  by destruct_or! Hc; subst.
Qed.

Lemma leading_digits_pretty x s :
  leading_digits 0 (pretty_N_go x s) = leading_digits (Z.of_N x) s.
Proof.
  revert s. induction (N.lt_wf_0 x) as [x _ IH]; intros s.
  destruct (decide (x = 0%N)) as [->|Hx]; [by rewrite pretty_N_go_0|].
  rewrite pretty_N_go_step by lia. rewrite IH by (apply N.div_lt; lia). cbn [leading_digits].
  rewrite digit_of_pretty by (by apply N.mod_lt). f_equal.
  rewrite N2Z.inj_div, N2Z.inj_mod. pose proof (Z.div_mod (Z.of_N x) 10 ltac:(lia)). simpl in *. lia.
Qed.

Lemma all_digits_pretty x s : all_digits s = true -> all_digits (pretty_N_go x s) = true.
Proof.
  revert s. induction (N.lt_wf_0 x) as [x _ IH]; intros s Hs.
  destruct (decide (x = 0%N)) as [->|Hx]; [by rewrite pretty_N_go_0|].
  rewrite pretty_N_go_step by lia. apply IH; [apply N.div_lt; lia|]. cbn [all_digits].
  by rewrite is_digit_pretty, Hs.
Qed.

Lemma pretty_N_digits x :
  isVersionDigits (pretty x) = true /\ leading_digits 0 (pretty x) = (Z.of_N x, "").
Proof.
  unfold pretty, pretty_N. case_decide as Hx; [by subst|]. split.
  - unfold isVersionDigits. rewrite bool_decide_eq_false_2.
    + by apply all_digits_pretty.
    + rewrite pretty_N_go_step by lia. intros He. apply (f_equal (leading_digits 0)) in He.
      rewrite leading_digits_pretty in He. cbn [leading_digits] in He.
      rewrite digit_of_pretty in He by (by apply N.mod_lt). injection He as He.
      rewrite N2Z.inj_div, N2Z.inj_mod in He. pose proof (Z.div_mod (Z.of_N x) 10 ltac:(lia)). simpl in *. lia.
  - rewrite leading_digits_pretty. done.
Qed.

(** The reading of what [itoa] wrote. *)
Lemma split_itoa z :
  exists neg r, split_sign (itoa z) = (neg, r) /\ isVersionDigits r = true
    /\ signed_value neg (leading_digits 0 r).1 = z.
Proof.
  destruct z as [|p|p].
  - by exists false, "0".
  - exists false, (pretty (Npos p)). destruct (pretty_N_digits (Npos p)) as [Hd Hl].
    split_and!; [|done|by rewrite Hl]. change (itoa (Z.pos p)) with (pretty (Npos p)).
    unfold isVersionDigits in Hd. destruct (pretty (Npos p)) as [|a s]; [done|]. simpl in Hd.
    apply andb_true_iff in Hd as [Ha _]. unfold split_sign.
    destruct (Ascii.eqb_spec a "-") as [->|_]; [done|]. by destruct (Ascii.eqb_spec a "+") as [->|_].
  - exists true, (pretty (Npos p)). destruct (pretty_N_digits (Npos p)) as [Hd Hl].
    split_and!; [done|done|by rewrite Hl].
Qed.

Lemma digits_start r : isVersionDigits r = true -> starts_with_digit r = true.
Proof. unfold isVersionDigits. destruct r; [done|]. simpl. by intros [? _]%andb_true_iff. Qed.

Lemma digit_no_space a : is_digit a = true -> is_space_byte a = false.
Proof. destruct a as [[] [] [] [] [] [] [] []]; done. Qed.

Lemma trim_left_itoa z : trim_left is_space_byte (itoa z) = itoa z.
Proof.
  assert (exists a s, itoa z = String a s /\ is_space_byte a = false) as (a & s & Hz & Ha).
  { destruct z as [|p|p]; [by eexists _, _| |by eexists _, _].
    destruct (pretty_N_digits (Npos p)) as [Hd _]. change (itoa (Z.pos p)) with (pretty (Npos p)).
    unfold isVersionDigits in Hd. destruct (pretty (Npos p)) as [|a s]; [done|]. simpl in Hd.
    apply andb_true_iff in Hd as [Hd _]. exists a, s. split; [done|]. by apply digit_no_space. }
  rewrite Hz. cbn [trim_left]. by rewrite Ha.
Qed.

Lemma sscanf_itoa z : int64_ok z = true -> sscanf_d (itoa z) = z.
Proof.
  intros Hz. unfold sscanf_d. rewrite trim_left_itoa.
  destruct (split_itoa z) as (neg & r & -> & Hd & Hv). rewrite digits_start, Hv, Hz by done. done.
Qed.

Lemma parse_itoa z : int64_ok z = true -> parse_int64 (itoa z) = z.
Proof.
  intros Hz. unfold parse_int64. destruct (split_itoa z) as (neg & r & -> & Hd & Hv). rewrite Hd, Hv.
  unfold int64_ok in Hz. bools. lia.
Qed.

Lemma itoa_nonempty z : itoa z <> "".
Proof.
  intros He. destruct (split_itoa z) as (neg & r & Hs & Hd & _). rewrite He in Hs.
  injection Hs as <- <-. done.
Qed.

(** ** The form *)

Lemma form_select l k :
  NoDup l.*1 -> form_of (select (fun kv => negb (kv.2 =s "")) l) k = form_of l k.
Proof.
  unfold form_of. induction l as [|[a v] l IH]; [done|]. intros Hnd.
  rewrite fmap_cons in Hnd. apply NoDup_cons in Hnd as [Ha Hnd].
  change (select (fun kv => negb (kv.2 =s "")) ((a, v) :: l)) with
    (if negb (v =s "") then (a, v) :: select (fun kv => negb (kv.2 =s "")) l else select (fun kv => negb (kv.2 =s "")) l).
  cbn [List.find fst]. destruct (v =s "") eqn:Ev; cbn [negb List.find fst];
    (destruct (a =s k) eqn:Ek; cbn [snd]; [|by apply IH]).
  - bools. subst. destruct (List.find _ (select _ l)) as [[b u]|] eqn:Ef; [|done]. exfalso.
    apply find_some in Ef as [Hin Hb]. simpl in Hb. bools. subst. apply Ha, list_elem_of_fmap.
    exists (k, u). split; [done|]. apply list_elem_of_In in Hin. by apply elem_of_select in Hin as [? _].
  - done.
Qed.

Section uploads.
Context `{UuidTextLaws}.

(** The fields before the empty ones are dropped have names of their own. *)
Lemma form_of_upload c job dev p r k :
  form_of (upload_fields c job dev p r) k =
  form_of ([("job_id", job); ("source_artifact_id", sp_ArtifactID p); ("device_id", dev);
      ("account_email", appleID c); ("team_id", rest_str "team_id" r);
      ("cert_serial", rest_str "cert_serial" r); ("profile_expiry_at", rest_str "profile_expiry_at" r);
      ("signed_bundle_identifier", rest_str "signed_bundle_identifier" r);
      ("signed_ipa_sha256", rest_str "signed_ipa_sha256" r);
      ("device_count", itoa (default 0 (rest_int "device_count" r)));
      ("app_id_count", itoa (default 0 (rest_int "app_id_count" r)))]
     ++ quantity_field "app_id_max_quantity" (rest_int "app_id_max_quantity" r)
     ++ quantity_field "app_id_available_quantity" (rest_int "app_id_available_quantity" r)) k.
Proof using.
  apply form_select.
  destruct (rest_int "app_id_max_quantity" r), (rest_int "app_id_available_quantity" r);
    apply (bool_decide_unpack _); vm_compute; exact I.
Qed.

Lemma rest_int_ok k r z : rest_int k r = Some z -> int64_ok z = true.
Proof using.
  unfold rest_int, int_member. destruct (jget k (hr_rest r)) as [[]|]; try done.
  unfold int64_ok. destruct (_ && _) eqn:Hb; [|done]. by intros [= ->].
Qed.

Lemma rest_count k r : sscanf_d (itoa (default 0 (rest_int k r))) = default 0 (rest_int k r).
Proof using.
  apply sscanf_itoa. destruct (rest_int k r) as [z|] eqn:Hz; [|done]. by eapply rest_int_ok.
Qed.

Lemma rest_quantity k r z : rest_int k r = Some z -> form_int (itoa z) = Some z.
Proof using.
  intros Hz. unfold form_int. rewrite bool_decide_eq_false_2 by apply itoa_nonempty.
  by rewrite parse_itoa by (by eapply rest_int_ok).
Qed.

(** What is read of the form is what was meant. *)
Lemma parse_worker_form c job dev art p r :
  uuid_parse (sp_ArtifactID p) = Some art ->
  parse_upload (form_of (upload_fields c (uuid_text job) (uuid_text dev) p r)) = meant_upload c job dev art r.
Proof using All.
  intros Ha. unfold parse_upload, meant_upload, form_uuid. rewrite !form_of_upload. unfold form_of.
  destruct (rest_int "app_id_max_quantity" r) as [x|] eqn:Ex,
    (rest_int "app_id_available_quantity" r) as [y|] eqn:Ey; simpl;
    rewrite !uuid_parse_text, Ha, !rest_count; simpl;
    rewrite ?(rest_quantity _ _ _ Ex), ?(rest_quantity _ _ _ Ey); reflexivity.
Qed.
End uploads.

(** ** Worker and control plane *)

Section accepted.
Context `{UuidTextLaws} `{SecretOps} `{ArchiveOps}.

Lemma worker_params_reference j p art :
  decode_signParams j = Some p -> sp_ArtifactID p <> "" -> uuid_parse (sp_ArtifactID p) = Some art ->
  references_artifact j art = true.
Proof using.
  intros Hd Hne Ha. unfold decode_signParams in Hd.
  destruct (is_struct j) as [[]|] eqn:Hst; [|done]. simpl in Hd.
  destruct (str_member "artifact_id" j) as [a|] eqn:Hs; [|done]. simpl in Hd.
  repeat (match type of Hd with (?o ≫= _) = _ => destruct o; [simpl in Hd|done] end).
  injection Hd as <-. simpl in *. unfold references_artifact.
  assert (json_is_struct j = true) as -> by (by destruct j). unfold str_member in Hs. unfold json_uuid_ptr.
  destruct (jget "artifact_id" j) as [[]|]; try done; injection Hs as <-; try done.
  rewrite Ha. simpl. by rewrite bool_decide_eq_true_2.
Qed.

Lemma exec_validate agent w j dev art req :
  W_jobs w !! j_id j = Some j -> j_job_type j = JobTypeSign -> j_claimed_by j = Some agent ->
  is_active j = true -> j_device_id j = Some dev -> references_artifact (j_parameters j) art = true ->
  su_JobID req = j_id j -> su_DeviceID req = dev -> su_SourceArtifactID req = art ->
  exec (validateSignUploadBinding agent req) w = (inr tt, w).
Proof using.
  intros Hj Hty Hcl Hact Hdev Href Hr1 Hr2 Hr3. unfold exec, validateSignUploadBinding. simpl.
  unfold job_by_id. rewrite Hr1, Hr2, Hr3, Hj, Hty. simpl. rewrite (proj2 (opt_is_true _ _) Hcl). simpl.
  rewrite (proj2 (opt_is_true _ _) Hdev). simpl. by rewrite Hact, Href.
Qed.

Lemma wp_upload_answer agent value bytes m w :
  InspectSigned bytes = inr m ->
  wp (handleUploadSignedArtifact agent (Form value (Some bytes))) (fun r w' => match r with
      | inl _ => True
      | inr resp => exists t id, resp = stored_answer id (sha256_hex bytes)
          /\ stored w (parse_upload value) t m (sha256_hex bytes) id w' end) w.
Proof using.
  intros Hi. unfold handleUploadSignedArtifact. cbv zeta. case_cond; [done|].
  apply wp_bind. eapply wp_mono; [|apply wp_validate]. intros [e|[]] w1 [-> _]; [done|].
  apply wp_bind, wp_reads_bind; [done|]. cbn [wp]. case_cond; [done|].
  apply wp_try_bind; [done|]. cbn [reads]. rewrite Hi.
  eapply wp_mono; [|apply wp_check_and_store]. intros [e|resp] w2; [done|].
  intros (t & id & _ & _ & -> & Hst). by exists t, id.
Qed.

(** C15. What the worker uploads is recognised: for a sign job the worker holds,
    whose parameters it could read, the control plane decodes from the worker's
    form exactly the ids of the job and the helper's values, the binding to the
    job is accepted, and only the archive itself and the database decide; when
    the upload is stored, whatever fails on the way, the answer carries the
    identifier the worker reads and reports, and the row of that identifier is
    the signed derivative for this job, device and source. *)
Theorem worker_upload_is_recognised agent c w j dev art p r bytes m :
  W_jobs w !! j_id j = Some j -> j_job_type j = JobTypeSign -> j_claimed_by j = Some agent ->
  is_active j = true -> j_device_id j = Some dev ->
  decode_signParams (j_parameters j) = Some p -> sp_ArtifactID p <> "" ->
  uuid_parse (sp_ArtifactID p) = Some art ->
  j_id j <> uuid_nil -> dev <> uuid_nil -> art <> uuid_nil ->
  rest_str "signed_ipa_sha256" r = "" \/ rest_str "signed_ipa_sha256" r = sha256_hex bytes ->
  InspectSigned bytes = inr m ->
  let form := worker_form c (j_id j) dev p r bytes in
  let req := meant_upload c (j_id j) dev art r in
  exec (handleUploadSignedArtifact agent form) w = exec (check_and_store agent req bytes (sha256_hex bytes) m) w
  /\ forall fl resp w', run fl (handleUploadSignedArtifact agent form) w = (inr resp, w') ->
     exists sid sa, rs_status resp = 201 /\ answered_id (rs_body resp) = Some (uuid_text sid)
       /\ W_signed w' !! sid = Some sa /\ sa_job_id sa = Some (j_id j) /\ sa_device_id sa = dev
       /\ sa_source_artifact_id sa = art /\ sa_signed_ipa_sha256 sa = Some (sha256_hex bytes).
Proof using All.
  intros Hj Hty Hcl Hact Hdev Hp Hne Hart Hn1 Hn2 Hn3 Hsha Hi form req.
  pose proof (parse_worker_form c (j_id j) dev art p r Hart) as Hreq. fold req in Hreq. split.
  - unfold form, worker_form, handleUploadSignedArtifact. rewrite Hreq.
    rewrite !bool_decide_eq_false_2 by done. cbn [orb].
    pose proof (exec_validate agent w j dev art req Hj Hty Hcl Hact Hdev
      (worker_params_reference _ _ _ Hp Hne Hart) eq_refl eq_refl eq_refl) as Hv.
    unfold exec in *. rewrite run_bind, Hv. simpl.
    assert (negb (su_SignedIPASha256 req =s "") && negb (su_SignedIPASha256 req =s sha256_hex bytes) = false) as Hs.
    { apply andb_false_iff. destruct Hsha as [Hs|Hs]; [left|right]; apply negb_false_iff, bool_decide_eq_true; exact Hs. }
    simpl in Hs. rewrite Hs. simpl. by rewrite Hi.
  - intros fl resp w' Hrun.
    apply (wp_run_eq _ _ _ _ _ _ (wp_upload_answer agent _ bytes m w Hi)) in Hrun.
    destruct Hrun as (t & sid & -> & Hst). rewrite Hreq in Hst.
    destruct Hst as ((acc & cert & Hsig) & _). exists sid, (signed_row req m (sha256_hex bytes) acc cert sid).
    rewrite Hsig. split_and!; try done. apply lookup_insert_eq.
Qed.
End accepted.

(** * An upload that is recognised *)

#[local] Existing Instance sample_uuid.
#[local] Existing Instance sample_uuid_laws.
#[local] Existing Instance sample_secrets.
#[local] Existing Instance sample_archives.

Definition phone_world : world := sign_world (Some "iPhoneOS").

(** A helper that names its certificate and the quota of app ids, and nothing else. *)
Definition a_result : helperResult :=
  MkHelperResult "ok" "" "" (JObj [("cert_serial", JStr "C1"); ("app_id_count", JNum (-3)); ("app_id_max_quantity", JNum 10)]).

Definition a_params : signParams := MkSignParams (sample_text 3) "" "" "" "" "" "".

Definition sent_form : multipart := worker_form a_config 50 1 a_params a_result signed_ipa.

(** The numbers arrive, the field the helper did not write is absent. *)
Example the_numbers_arrive :
  match sent_form with
  | Form value _ => let req := parse_upload value in
      su_AppIDCount req = -3 /\ su_DeviceCount req = 0 /\ su_AppIDMaxQuantity req = Some 10
      /\ su_AppIDAvailableQuantity req = None /\ value "team_id" = ""
  | _ => False end.
Proof. vm_compute. done. Qed.

Lemma worker_upload_is_recognised_witness :
  exists m resp w' sid, InspectSigned signed_ipa = inr m
    /\ run [] (handleUploadSignedArtifact 7 sent_form) phone_world = (inr resp, w')
    /\ answered_id (rs_body resp) = Some (uuid_text sid) /\ is_Some (W_signed w' !! sid).
Proof.
  destruct (InspectSigned signed_ipa) as [|m] eqn:Hi; [vm_compute in Hi; discriminate|].
  destruct (run [] (handleUploadSignedArtifact 7 sent_form) phone_world) as [[|resp] w'] eqn:Hrun;
    [vm_compute in Hrun; discriminate|].
  destruct (worker_upload_is_recognised 7 a_config phone_world sign_job 1 3 a_params a_result signed_ipa m
    eq_refl eq_refl eq_refl eq_refl eq_refl eq_refl ltac:(done) ltac:(vm_compute; reflexivity) ltac:(done) ltac:(done) ltac:(done)
    (or_introl eq_refl) Hi) as [_ Hall].
  destruct (Hall [] resp w' Hrun) as (sid & sa & _ & Hid & Hrow & _).
  exists m, resp, w', sid. split_and!; [reflexivity|reflexivity|exact Hid|by exists sa].
Defined.
