(* ===== verification/Accounts.v ===== *)
(** Apple accounts and the operator's actions (internal/api/accounts.go): saving
    and deleting credentials, verification codes, App ID management, the choice
    of the account that signs, deploying, refreshing by hand, and the
    LiveContainer jobs.

    A panic of the handler is the error [panicked], which the server recovers from
    (System.v).  Directories are not part of the state, so [MkdirAll]
    has no node of its own; a file that cannot be written is a fault of its
    write. *)
From S2P Require Import Prelude GoStrings GoTime Effects Schema AuditLog Jobs Scheduler Http Auth Agents Artifacts Signing Host.

Definition BadGateway : Z := 502.

Definition panicked : response := MkResponse 0 JNull.

(** ** The origin of a request *)

Record origin := MkOrigin { og_TLS : bool; og_X_Forwarded_Proto : string; og_Host : string }.

Definition proto_of (o : origin) : string :=
  if og_TLS o || (og_X_Forwarded_Proto o =s "https") then "https" else "http".

Definition selfSourceURL (o : origin) : string :=
  proto_of o ++s "://" ++s og_Host o ++s "/api/v1/store/source.json".

(** ** The account that signs *)

(** [auth_state IN ('authenticated', 'authenticating')] *)
Definition may_sign (a : account) : bool :=
  (ac_auth_state a =s "authenticated") || (ac_auth_state a =s "authenticating").

(** [COALESCE(app_id_available_quantity, GREATEST(0, 3 - registered_app_id_count))];
    the subtraction is one of integers. *)
Definition slots (a : account) : Z :=
  match ac_app_id_available_quantity a with
  | Some n => n
  | None => Z.max 0 (3 - ac_registered_app_id_count a)
  end.

Definition slots_overflow (a : account) : bool :=
  match ac_app_id_available_quantity a with
  | Some _ => false
  | None => negb (is_int4 (3 - ac_registered_app_id_count a))
  end.

(** [last_auth_at DESC]: NULL comes first. *)
Definition later_auth (a b : account) : bool :=
  match ac_last_auth_at a, ac_last_auth_at b with
  | None, _ => true
  | Some _, None => false
  | Some s, Some t => t <=? s
  end.

Definition authenticated (a : account) : bool := ac_auth_state a =s "authenticated".

(** The [ORDER BY] of the choice. *)
Definition preferred (a b : account) : bool :=
  if Bool.eqb (authenticated a) (authenticated b) then
    (slots b <? slots a) || ((slots a =? slots b) && later_auth a b)
  else authenticated a.

Definition auto_account (w : world) : sqlerr + option account * world :=
  let l := select may_sign (rows (W_accounts w)) in
  if existsb slots_overflow l then inl SyntaxError else inr (first_by preferred l, w).

(** An explicit account is kept; [""] and ["auto"] ask for the choice. *)
Definition pick_account (requested : string) : prog world response string :=
  let appleID := trim_space requested in
  if (appleID =s "") || (appleID =s "auto") then
    r ← try_ Pool auto_account;
    match r with
    | inr (Some a) => if ac_label a =s "" then Ret appleID else Ret (ac_label a)
    | _ => Ret appleID
    end
  else Ret appleID.

Section accounts.
Context `{UuidText} `{SecretOps} `{ArchiveOps}.

(** ** App IDs *)

Definition dquote : string := String "034" "".

Record manageAppIDsRequest := MkManageAppIDs {
  ma_Action : string;
  ma_AppleID : string;
  ma_AppIDs : option (list string)          (** [None] is nil *)
}.

Definition appids_json (o : option (list string)) : json :=
  match o with Some l => json_strs l | None => JNull end.

Definition appids_request (action appleID : string) (ids : option (list string)) : CreateRequest :=
  MkCreateRequest JobTypeAppIDs None None
    (Some (JObj [("action", JStr action); ("apple_id", JStr appleID); ("app_ids", appids_json ids)]))
    ("appids:" ++s action ++s if action =s "delete" then ":" ++s join "+" (default [] ids) else "")
    None None None.

Definition handleManageAppIDs (body : option manageAppIDsRequest) : handler :=
  req ← decodeJSON body;
  let action := trim_space (ma_Action req) in
  let appleID := trim_space (ma_AppleID req) in
  if negb (action =s "list") && negb (action =s "delete")
  then fail BadRequest ("action must be " ++s dquote ++s "list" ++s dquote ++s " or " ++s dquote ++s "delete" ++s dquote)
  else if (action =s "delete") && (length (default [] (ma_AppIDs req)) =? 0)%nat
  then fail BadRequest "app_ids required for delete"
  else
    r ← attempt (Create "admin" (appids_request action appleID (ma_AppIDs req)));
    match r with
    | inl _ => fail InternalServerError "failed to create appids job"
    | inr j => ok StatusOK (JObj [("job_id", JStr (uuid_text (j_id j))); ("state", JStr (j_state j));
                                  ("job_type", JStr (j_job_type j))])
    end.

(** ** Verification codes and credentials *)

Definition code_paths : list string :=
  ["/tmp/opencode/2fa-code.txt"; "/var/lib/sidey/signing-worker/2fa-code.txt";
   "/run/sidey/signing-state/2fa-code.txt"].

Definition nl : string := String "010" "".

Definition write_code (code : string) : prog host response unit :=
  for_ code_paths (fun cp => WriteText cp (code ++s nl)).

Definition handleSubmit2FACode (body : option string) : prog host response response :=
  code ← zoom (decodeJSON body);
  let code := trim_space code in
  if code =s "" then zoom (fail BadRequest "two_factor_code is required") else
  _ ← write_code code;
  _ ← zoom (Record_ "admin" "apple_account.2fa_submitted" []);
  Ret (writeJSON StatusOK (JObj [("status", JStr "ok")])).

Record updateAppleCredentialsRequest := MkUpdateCredentials {
  uc_AppleID : string;
  uc_ApplePassword : string;
  uc_TwoFactorCode : string
}.

Definition accounts_paths : list string :=
  ["/var/lib/sidey/signing-worker/accounts.json"; "/run/sidey/accounts.json"].

Definition credential_paths : list string :=
  ["/var/lib/sidey/signing-worker/credentials"; "/run/secrets/apple_credentials";
   "/home/ubuntu/git/sidey-server/deploy/secrets/apple_credentials"].

(** [json.Unmarshal] into the map: null makes it nil ([None]); a member that is
    no string becomes the empty string and is an error; so is a value that is no
    object, which leaves the map as it was.  The flag is [err == nil]. *)
Definition unmarshal_accounts (j : json) : option (gmap string string) * bool :=
  match j with
  | JNull => (None, true)
  | JObj l =>
      (Some (fold_left (fun m kv => <[kv.1 := match kv.2 with JStr s => s | _ => "" end]> m) l ∅),
       forallb (fun kv => match kv.2 with JStr _ | JNull => true | _ => false end) l)
  | _ => (Some ∅, false)
  end.

(** [json.MarshalIndent] of the map; the order of members says nothing. *)
Definition marshal_accounts (m : option (gmap string string)) : json :=
  match m with Some m => JObj (prod_map id JStr <$> map_to_list m) | None => JNull end.

(** One iteration of the loop over the accounts files; an assignment to a nil
    map panics. *)
Definition store_password (id password path : string) : prog host response unit :=
  o ← ReadJSON path;
  let accounts := match o with Some (Some j) => (unmarshal_accounts j).1 | _ => Some ∅ end in
  match accounts with
  | None => Throw panicked
  | Some m => WriteJSON path (marshal_accounts (Some (<[id := password]> m)))
  end.

Definition credsContent (id password : string) : string :=
  "SIDEY_APPLE_ID=" ++s id ++s nl ++s "SIDEY_APPLE_MAIN_PASSWORD=" ++s password ++s nl.

Definition account_by_label (label : string) (w : world) : option account :=
  find_row (fun a => ac_label a =s label) (W_accounts w).

Definition set_authenticating (id : uuid) (w : world) : world :=
  set_db (on_accounts (update_where (fun a => bool_decide (ac_id a = id))
    (set_ac_auth_state "authenticating"))) w.

Definition insert_account (label : string) (w : world) : sqlerr + unit * world :=
  if pg_text label then
    let a := MkAccount (w_fresh w) label None "authenticating" None 0 0 None None in
    inr (tt, set_fresh (w_fresh w + 1)%N (set_db (on_accounts (<[ac_id a := a]>)) w))
  else inl SyntaxError.

(** The upsert by label: any error of the lookup leads to the insert. *)
Definition upsert_by_label (label : string) : prog world response unit :=
  o ← try_ Pool (reads (account_by_label label));
  match o with
  | inr (Some a) => need Pool (writes (set_authenticating (ac_id a))) InternalServerError "saving account record failed"
  | _ => need Pool (insert_account label) InternalServerError "saving account record failed"
  end.

Definition handleUpdateAppleCredentials (body : option updateAppleCredentialsRequest)
    : prog host response response :=
  req ← zoom (decodeJSON body);
  let id := trim_space (uc_AppleID req) in
  let password := trim_space (uc_ApplePassword req) in
  let code := trim_space (uc_TwoFactorCode req) in
  if (id =s "") || (password =s "")
  then zoom (fail BadRequest "apple_id and apple_password are required") else
  _ ← for_ accounts_paths (store_password id password);
  _ ← for_ credential_paths (fun p => WriteText p (credsContent id password));
  _ ← when (negb (code =s "")) (write_code code);
  _ ← zoom (upsert_by_label id);
  _ ← zoom (Record_ "admin" "apple_account.updated"
        [WithData (JObj [("apple_id", JStr id); ("has_2fa", JBool (negb (code =s "")))])]);
  Ret (writeJSON StatusOK (JObj [("status", JStr "ok"); ("apple_id", JStr id);
    ("message", JStr "credentials saved; signing worker will authenticate on next sign job")])).

(** [DELETE FROM apple_accounts]: certificates go with the account; signed
    artifacts hold both back. *)
Definition delete_account (id : uuid) (w : world) : sqlerr + unit * world :=
  let owned c := bool_decide (ce_account_id c = id) in
  if exists_row (fun sa => bool_decide (sa_account_id sa = id)
        || match sa_certificate_id sa with
           | Some c => match W_certificates w !! c with Some x => owned x | None => false end
           | None => false end) (W_signed w) then inl FkViolation
  else inr (tt, set_db (fun d => on_accounts (delete id) (on_certificates (delete_where owned) d)) w).

Definition forget_password (label path : string) : prog host response unit :=
  o ← ReadJSON path;
  match o with
  | Some (Some j) =>
      let '(m, good) := unmarshal_accounts j in
      when good (WriteJSON path (marshal_accounts (delete label <$> m)))
  | _ => Ret tt
  end.

Definition handleDeleteAppleAccount (path_id : string) : prog host response response :=
  match uuid_parse path_id with
  | None => zoom (fail BadRequest "invalid account id")
  | Some id =>
      o ← try_ Pool (reads (fun h => W_accounts (h_world h) !! id));
      match o with
      | inr (Some a) =>
          _ ← zoom (need Pool (delete_account id) InternalServerError "delete account failed");
          _ ← for_ accounts_paths (forget_password (ac_label a));
          _ ← zoom (Record_ "admin" "apple_account.deleted"
                [WithData (JObj [("account_id", JStr (uuid_text id)); ("apple_id", JStr (ac_label a))])]);
          Ret (writeJSON StatusOK (JObj [("status", JStr "deleted"); ("id", JStr (uuid_text id));
                                         ("apple_id", JStr (ac_label a))]))
      | _ => zoom (fail NotFound "account not found")
      end
  end.

(** ** Deploying *)

(** [INSERT INTO jobs .. VALUES (job_type, device, params, max_attempts, uuid)]. *)
Definition queue_job (job_type : string) (dev : uuid) (params : list (string * json)) (max_attempts : Z)
    (message : string) : prog world response uuid :=
  k ← fresh_uuid;
  need Pool (insert_job_strict (new_job job_type (Some dev) None (JObj params) (uuid_text k) max_attempts
               None None None)) InternalServerError message.

(** The device a handler works on, or its answer that there is none. *)
Definition target_device (id : uuid) : prog world response device :=
  o ← try_ Pool (reads (fun w => W_devices w !! id));
  match o with
  | inr (Some d) => Ret d
  | _ => fail BadRequest "device not found"
  end.

Definition device_params (d : device) : list (string * json) :=
  [("udid", JStr (dv_udid d)); ("device_name", JStr (default "" (dv_device_name d)));
   ("device_type", JStr (dv_platform d))].

Record adminDeployRequest := MkAdminDeploy {
  ad_ArtifactID : uuid;
  ad_DeviceID : uuid;
  ad_AutoApprove : bool;
  ad_AppleID : string
}.

Definition deploy_params (artifact : uuid) (d : device) (appleID source_url : string) : list (string * json) :=
  ("artifact_id", JStr (uuid_text artifact)) :: device_params d
  ++ [("machine_name", JStr "isideload-minimal"); ("apple_id", JStr appleID); ("source_url", JStr source_url)].

(** The job, its audit event and the answer. *)
Definition deploy_enqueue (o : origin) (req : adminDeployRequest) (d : device) (appleID : string) : handler :=
  id ← queue_job JobTypeSign (ad_DeviceID req)
         (deploy_params (ad_ArtifactID req) d appleID (selfSourceURL o)) 5 "enqueuing sign job failed";
  _ ← Record_ "admin" "deploy.started"
        [WithData (JObj [("artifact_id", JStr (uuid_text (ad_ArtifactID req)));
                         ("device_id", JStr (uuid_text (ad_DeviceID req))); ("apple_id", JStr appleID);
                         ("sign_job_id", JStr (uuid_text id))])];
  ok Created (JObj [("status", JStr "ok"); ("mode", JStr "native");
                    ("artifact_id", JStr (uuid_text (ad_ArtifactID req)));
                    ("device_id", JStr (uuid_text (ad_DeviceID req))); ("apple_id", JStr appleID);
                    ("sign_job_id", JStr (uuid_text id))]).

Definition handleAdminDeploy (o : origin) (body : option adminDeployRequest) : handler :=
  req ← decodeJSON body;
  if bool_decide (ad_ArtifactID req = uuid_nil) || bool_decide (ad_DeviceID req = uuid_nil)
  then fail BadRequest "artifact_id and device_id are required" else
  _ ← need Pool (state_stmt (ad_ArtifactID req) "approved") InternalServerError "approving artifact failed";
  d ← target_device (ad_DeviceID req);
  appleID ← pick_account (ad_AppleID req);
  deploy_enqueue o req d appleID.

(** ** Refreshing by hand *)

Record manualRefreshRequest := MkManualRefresh { mr_DeploymentID : uuid; mr_Reason : string }.

(** The joined row; scanning a NULL expiry fails. *)
Record refresh_row := MkRefreshRow {
  rr_deviceID : uuid;
  rr_device : device;
  rr_expiry : instant;
  rr_sourceID : uuid;
  rr_prevSignedID : option uuid;
  rr_account : account
}.

Definition refresh_lineage (deploymentID : uuid) (w : world) : option refresh_row :=
  dep ← W_deployments w !! deploymentID;
  x ← head (omap (fun ir => if bool_decide (ir_deployment_id ir = deploymentID)
                            then pair ir <$> resolved ir w else None) (rows (W_installations w)));
  d ← W_devices w !! dp_device_id dep; e ← ir_provisioning_expiry_at x.1;
  Some (MkRefreshRow (dp_device_id dep) d e (sa_source_artifact_id x.2.1) (ir_signed_artifact_id x.1) x.2.2).

Definition manual_params (req : manualRefreshRequest) (r : refresh_row) : json :=
  JObj [("deployment_id", JStr (uuid_text (mr_DeploymentID req)));
        ("source_artifact_id", JStr (uuid_text (rr_sourceID r)));
        ("previous_signed_artifact_id", JStr (default "" (uuid_text <$> rr_prevSignedID r)));
        ("apple_account_id", JStr (uuid_text (ac_id (rr_account r))));
        ("apple_id", JStr (ac_label (rr_account r)));
        ("udid", JStr (dv_udid (rr_device r)));
        ("device_name", JStr (default "" (dv_device_name (rr_device r))));
        ("expiry_at", JStr (format_rfc3339 (rr_expiry r)));
        ("artifact_id", JStr (uuid_text (rr_sourceID r)));
        ("reason", JStr (mr_Reason req))].

(** The job is kept beside the answer. *)
Definition manual_refresh (req : manualRefreshRequest) : prog world response job :=
  o ← try_ Pool (reads (refresh_lineage (mr_DeploymentID req)));
  match o with
  | inr (Some row) =>
      k ← fresh_uuid;
      r ← attempt (CreateRefresh "admin" (Some (rr_deviceID row)) (Some (manual_params req row))
            ("manual:" ++s uuid_text k) 15 "manual_refresh");
      match r with
      | inl _ => fail InternalServerError "refresh creation failed"
      | inr j =>
          _ ← Record_ "admin" "refresh.manual"
                [WithData (JObj [("deployment_id", JStr (uuid_text (mr_DeploymentID req)));
                                 ("job_id", JStr (uuid_text (j_id j)))])];
          Ret j
      end
  | _ => fail Conflict "deployment is not linked to a signed artifact and Apple account (re-associate instead of guessing)"
  end.

Definition handleManualRefresh (body : option manualRefreshRequest) : handler :=
  req ← decodeJSON body;
  if bool_decide (mr_DeploymentID req = uuid_nil) then fail BadRequest "deployment_id is required" else
  j ← manual_refresh req;
  ok Created (job_json j).

(** ** LiveContainer *)

Definition livecontainer_bundle : string := "com.kdt.livecontainer".

(** The row the install uses when there is one: approved, the newest, and not a
    placeholder. *)
Definition livecontainer_artifact (w : world) : option artifact :=
  first_by (fun a b => ar_imported_at b <=? ar_imported_at a)
    (select (fun a => (opt_is (ar_bundle_identifier a) livecontainer_bundle
                       || contains (to_lower (ar_filename a)) "livecontainer")
                      && (ar_quarantine_state a =s "approved")
                      && negb (has_prefix "livecontainer-" (ar_sha256 a)))
       (rows (W_artifacts w))).

(** [INSERT INTO artifacts .. ON CONFLICT (sha256) DO UPDATE SET upd RETURNING]. *)
Definition upsert_artifact (mk : uuid -> instant -> artifact) (upd : artifact -> artifact) (w : world)
    : sqlerr + artifact * world :=
  match insert_artifact mk w with
  | inl UniqueViolation =>
      match artifact_by_sha (ar_sha256 (mk (w_fresh w) (w_now w))) w with
      | Some a => inr (upd a, set_db (on_artifacts (<[ar_id a := upd a]>)) w)
      | None => inl Fault
      end
  | inl e => inl e
  | inr (id, w') => inr (mk (w_fresh w) (w_now w), w')
  end.

Definition imported_artifact (sha filename source state : string) (meta : Metadata) (id : uuid)
    (now : instant) : artifact :=
  MkArtifact id sha filename (Some (md_Version meta)) None (Some (md_BundleIdentifier meta))
    (Some (md_Platform meta)) None [] (Some source) state now.

Definition livecontainer_metadata : Metadata :=
  MkMetadata livecontainer_bundle "3.8.0" "" "" "iPhoneOS" "" [].

(** The release downloaded from GitHub; [None] when that fails. *)
Definition download_livecontainer (release : option string) : prog world response uuid :=
  match release with
  | None => fail BadGateway "failed to download LiveContainer IPA from GitHub"
  | Some bytes =>
      sha ← SaveToTemp bytes (internal "saving LiveContainer download failed");
      i ← try_ Fs (reads (fun _ => Inspect bytes));
      let meta := match i with inr (inr m) => m | _ => livecontainer_metadata end in
      _ ← Publish sha (internal "publishing LiveContainer artifact failed");
      a ← need Pool (upsert_artifact (imported_artifact sha "LiveContainer.ipa" "github" "approved" meta)
                       (set_ar_quarantine_state "approved"))
            InternalServerError "saving LiveContainer artifact record failed";
      Ret (ar_id a)
  end.

Record liveContainerInstallRequest := MkLiveContainerInstall { lc_DeviceID : uuid; lc_AppleID : string }.

Definition handleInstallLiveContainer (o : origin) (release : option string)
    (body : option liveContainerInstallRequest) : handler :=
  req ← decodeJSON body;
  if bool_decide (lc_DeviceID req = uuid_nil) then fail BadRequest "device_id is required" else
  d ← target_device (lc_DeviceID req);
  a ← try_ Pool (reads livecontainer_artifact);
  artifactID ← match a with
               | inr (Some a) => Ret (ar_id a)
               | _ => download_livecontainer release
               end;
  appleID ← pick_account (lc_AppleID req);
  id ← queue_job JobTypeSign (lc_DeviceID req)
         (deploy_params artifactID d appleID (selfSourceURL o) ++ [("is_container", JBool true)]) 5
         "enqueuing LiveContainer install job failed";
  _ ← Record_ "admin" "livecontainer.install_queued"
        [WithData (JObj [("device_id", JStr (uuid_text (lc_DeviceID req)));
                         ("sign_job_id", JStr (uuid_text id))])];
  ok Created (JObj [("status", JStr "ok"); ("artifact_id", JStr (uuid_text artifactID));
                    ("device_id", JStr (uuid_text (lc_DeviceID req)));
                    ("sign_job_id", JStr (uuid_text id));
                    ("message", JStr "LiveContainer installation queued for device")]).

Definition default_bundle (s : string) : string :=
  if trim_space s =s "" then livecontainer_bundle else trim_space s.

Record liveContainerPushRequest := MkLiveContainerPush {
  lp_ArtifactID : uuid;
  lp_DeviceID : uuid;
  lp_BundleID : string
}.

Definition push_params (artifact : uuid) (d : device) (bundleID : string) : list (string * json) :=
  ("artifact_id", JStr (uuid_text artifact)) :: device_params d
  ++ [("target", JStr "livecontainer"); ("bundle_id", JStr bundleID)].

(** The approval's error is ignored. *)
Definition handleLiveContainerPush (body : option liveContainerPushRequest) : handler :=
  req ← decodeJSON body;
  if bool_decide (lp_ArtifactID req = uuid_nil) || bool_decide (lp_DeviceID req = uuid_nil)
  then fail BadRequest "artifact_id and device_id are required" else
  d ← target_device (lp_DeviceID req);
  _ ← try_ Pool (state_stmt (lp_ArtifactID req) "approved");
  id ← queue_job "livecontainer_push" (lp_DeviceID req)
         (push_params (lp_ArtifactID req) d (default_bundle (lp_BundleID req))) 3
         "enqueuing LiveContainer push job failed";
  _ ← Record_ "admin" "livecontainer.push_queued"
        [WithData (JObj [("artifact_id", JStr (uuid_text (lp_ArtifactID req)));
                         ("device_id", JStr (uuid_text (lp_DeviceID req))); ("job_id", JStr (uuid_text id))])];
  ok Created (JObj [("status", JStr "ok"); ("mode", JStr "livecontainer");
                    ("artifact_id", JStr (uuid_text (lp_ArtifactID req)));
                    ("device_id", JStr (uuid_text (lp_DeviceID req))); ("job_id", JStr (uuid_text id));
                    ("message", JStr "Guest IPA queued for wireless LiveContainer HouseArrest transfer")]).

Record installedAppsRequest := MkInstalledApps { ia_DeviceID : uuid; ia_BundleID : string }.

Definition handleInstalledApps (body : option installedAppsRequest) : handler :=
  req ← decodeJSON body;
  if bool_decide (ia_DeviceID req = uuid_nil) then fail BadRequest "device_id is required" else
  d ← target_device (ia_DeviceID req);
  id ← queue_job "installed_apps" (ia_DeviceID req)
         (device_params d ++ [("bundle_id", JStr (default_bundle (ia_BundleID req)))]) 2
         "enqueuing installed apps inventory job failed";
  _ ← Record_ "admin" "installed_apps.queued"
        [WithData (JObj [("device_id", JStr (uuid_text (ia_DeviceID req))); ("job_id", JStr (uuid_text id))])];
  ok Created (JObj [("status", JStr "ok"); ("job_id", JStr (uuid_text id));
                    ("message", JStr "Installed apps inventory queued")]).

End accounts.
