(* ===== verification/AccountsSpec.v ===== *)
(** What the account and operator endpoints guarantee: which account a sign job
    gets, what a deployment enqueues, that saved credentials reach the signing
    worker, and that a refresh asked for by hand follows the recorded lineage. *)
From S2P Require Import Prelude GoStrings GoTime Effects Schema AuditLog Jobs JobsInvariant JobsSpec JobsCreate Scheduler Http Auth Agents Artifacts Signing Refresh RefreshSpec Host Accounts Guard Worker WorkerSpec WorkerState.

(** ** The choice of the account *)

Lemma later_auth_total a b : later_auth a b = true \/ later_auth b a = true.
Proof. unfold later_auth. destruct (ac_last_auth_at a), (ac_last_auth_at b); auto. lia. Qed.

Lemma later_auth_trans a b c :
  later_auth a b = true -> later_auth b c = true -> later_auth a c = true.
Proof.
  unfold later_auth. destruct (ac_last_auth_at a), (ac_last_auth_at b), (ac_last_auth_at c); auto; try done. lia.
Qed.

Lemma preferred_total a b : preferred a b = true \/ preferred b a = true.
Proof.
  unfold preferred. pose proof (later_auth_total a b).
  destruct (authenticated a), (authenticated b); simpl; auto;
    rewrite !orb_true_iff, !andb_true_iff, !Z.ltb_lt, !Z.eqb_eq;
    destruct (Z.lt_total (slots a) (slots b)) as [?|[?|?]]; naive_solver lia.
Qed.

Lemma preferred_iff a b :
  preferred a b = true <->
  (authenticated b = true -> authenticated a = true)
  /\ (authenticated a = authenticated b ->
      slots b < slots a \/ (slots a = slots b /\ later_auth a b = true)).
Proof.
  unfold preferred. destruct (authenticated a), (authenticated b); simpl; bools; naive_solver.
Qed.

Lemma preferred_trans a b c : preferred a b = true -> preferred b c = true -> preferred a c = true.
Proof.
  rewrite !preferred_iff. pose proof (later_auth_trans a b c).
  destruct (authenticated a), (authenticated b), (authenticated c); naive_solver lia.
Qed.

(** An account on record that may sign. *)
Definition signer (w : world) (a : account) : Prop :=
  (exists i, W_accounts w !! i = Some a) /\ may_sign a = true.

Lemma signer_elem w a : a ∈ select may_sign (rows (W_accounts w)) <-> signer w a.
Proof. unfold signer. rewrite elem_of_select, elem_of_rows. naive_solver. Qed.

(** [a] is the account the automatic choice takes: proven accounts first, then
    the one with the most free App ID slots, then the one that signed in last. *)
Definition best_signer (w : world) (a : account) : Prop :=
  signer w a /\ forall b, signer w b ->
    (authenticated b = true -> authenticated a = true)
    /\ (authenticated a = authenticated b ->
        slots b <= slots a /\ (slots b = slots a -> later_auth a b = true)).

(** The query fails on an account whose slots overflow. *)
Definition countable (w : world) : Prop := forall a, signer w a -> slots_overflow a = false.

Lemma auto_account_fails w e : auto_account w = inl e -> ~ countable w.
Proof.
  unfold auto_account. destruct (existsb slots_overflow _) eqn:Ex; [|done]. intros _ Hc.
  apply existsb_exists in Ex as (x & Hx & Ho). apply list_elem_of_In, signer_elem, Hc in Hx. congruence.
Qed.

Lemma auto_account_spec w o w' :
  auto_account w = inr (o, w') -> w' = w /\ countable w /\
  match o with Some a => best_signer w a | None => forall a, ~ signer w a end.
Proof.
  unfold auto_account. destruct (existsb _ _) eqn:Ex; [done|]. intros [= <- <-]. split; [done|]. split.
  { intros a Ha%signer_elem. destruct (slots_overflow a) eqn:Ho; [|done].
    rewrite <- not_true_iff_false, existsb_exists in Ex. destruct Ex. exists a. by rewrite <- list_elem_of_In. }
  destruct (first_by preferred _) as [a|] eqn:Ef.
  - pose proof (first_by_elem _ _ _ Ef) as Ha. split; [by apply signer_elem|].
    intros b Hb%signer_elem.
    pose proof (first_by_least _ _ _ _ preferred_total preferred_trans Ef Hb) as Hp%preferred_iff. naive_solver lia.
  - apply first_by_None in Ef. intros a Ha%signer_elem. rewrite Ef in Ha. set_solver.
Qed.

(** [""] and ["auto"] leave the account to the program. *)
Definition automatic (requested : string) : bool :=
  (trim_space requested =s "") || (trim_space requested =s "auto").

(** The Apple ID a request ends up with: the one it names; for an automatic one
    the label of the best account; its own text only when the query is not
    answered, no account may sign or the best one has no label. *)
Record choice (w : world) (answered : bool) (requested l : string) : Prop := {
  ch_named : automatic requested = false -> l = trim_space requested;
  ch_best : automatic requested = true -> answered = true -> countable w -> (exists a, signer w a) ->
    exists a, best_signer w a /\ l = if ac_label a =s "" then trim_space requested else ac_label a;
  ch_none : automatic requested = true -> answered = false \/ ~ countable w \/ (forall a, ~ signer w a) ->
    l = trim_space requested;
}.

(** [answered]: the query of the accounts, the first statement, does not fail. *)
Lemma run_pick_account {A} fl requested (k : string -> prog world response A) w :
  exists l fl', choice w (negb (bool_decide (head fl = Some true))) requested l
    /\ run fl (pick_account requested ≫= k) w = run fl' (k l) w.
Proof.
  unfold pick_account. fold (automatic requested). destruct (automatic requested) eqn:Et.
  2: { exists (trim_space requested), fl. split; [|done]. split; [done|by rewrite Et..]. }
  assert (Hno : forall fl', head fl' = Some true \/ ~ countable w \/ (forall a, ~ signer w a) ->
    choice w (negb (bool_decide (head fl' = Some true))) requested (trim_space requested)).
  { intros fl' Hor. split; [by intros ?|intros _ Ha Hc Hs|done]. exfalso.
    rewrite negb_true_iff, bool_decide_eq_false in Ha. destruct Hs as [a Ha']. naive_solver. }
  destruct (auto_account w) as [e|[o w']] eqn:Ea.
  - apply auto_account_fails in Ea as Hc. exists (trim_space requested), (tail fl). split; [by auto|].
    by destruct fl as [|[] fl]; simpl; rewrite ?Ea.
  - apply auto_account_spec in Ea as Hs. destruct Hs as (-> & Hc & Ho).
    destruct (decide (head fl = Some true)) as [Hf|Hf].
    { exists (trim_space requested), (tail fl). split; [by auto|]. by destruct fl as [|[] fl]. }
    destruct o as [a|].
    + exists (if ac_label a =s "" then trim_space requested else ac_label a), (tail fl). split.
      * split; [by rewrite Et|by exists a|]. intros _ Hor. rewrite (bool_decide_eq_false_2 _ Hf) in Hor.
        destruct Hor as [|[|Hor]]; [done..|]. destruct Ho as [Ho _]. by apply Hor in Ho.
      * destruct fl as [|[] fl]; simpl; try done; rewrite Ea; by case_cond.
    + exists (trim_space requested), (tail fl). split; [by auto|].
      destruct fl as [|[] fl]; simpl; try done; by rewrite Ea.
Qed.

(** ** Enqueueing *)

Lemma wf_jobs_fresh w : wf_jobs w -> wf_jobs (set_fresh (w_fresh w + 1)%N w).
Proof.
  intros [Hr Hk]. split; [|done]. intros id j Hj. destruct (Hr _ _ Hj) as (? & ? & ?). split_and!; auto.
  simpl. lia.
Qed.

Section operator.
Context `{UuidText} `{SecretOps} `{ArchiveOps}.

(** A statement of a handler that enqueues one job, under a key of its own. *)
Definition queued (jt : string) (dev : uuid) (ps : list (string * json)) (mx : Z) (w : world) {E}
    (r : E + uuid) (w' : world) : Prop :=
  only_jobs w w' /\ wf_jobs w' /\
  match r with
  | inl _ => W_jobs w' = W_jobs w
  | inr id => W_jobs w !! id = None /\ exists key,
      W_jobs w' = <[id := new_job jt (Some dev) None (JObj ps) key mx None None None id (w_now w)]> (W_jobs w)
  end.

Lemma wp_queue_job jt dev ps mx msg w :
  wf_jobs w -> wp (queue_job jt dev ps mx msg) (queued jt dev ps mx w) w.
Proof using.
  intros Hw. unfold queue_job, fresh_uuid. apply wp_act_bind. simpl fst; simpl snd.
  pose proof (wf_jobs_fresh w Hw) as Hw1. set (w1 := set_fresh _ w) in *.
  assert (Hno : queued jt dev ps mx w (@inl response uuid (writeJSON InternalServerError (error_body msg))) w1).
  { split_and!; try done. destruct w as [[]]. done. }
  unfold need, must. split; [exact Hno|].
  unfold insert_job_strict. set (mk := new_job jt _ _ _ _ _ _ _ _).
  destruct (insert_job mk w1) as [er|[[j|] w2]] eqn:Ei; [exact Hno| |exact Hno].
  apply insert_job_post in Ei as (-> & Ho & Hw2 & _ & _ & _ & Hn & Ej);
    [|done|intros; apply new_job_wf|done|done].
  simpl. split; [|split; [done|]].
  - eapply only_jobs_trans; [|exact Ho]. split; [|done]. by destruct w as [[]].
  - split; [done|]. exists (uuid_text (w_fresh w)). exact Ej.
Qed.

Lemma wp_target_device id Q w :
  (forall w', w' = w -> Q (inl (writeJSON BadRequest (error_body "device not found"))) w') ->
  (forall d, W_devices w !! id = Some d -> Q (inr d) w) -> wp (target_device id) Q w.
Proof using.
  intros He Hd. unfold target_device. apply wp_try_bind; [by apply He|]. simpl.
  destruct (W_devices w !! id) as [d|] eqn:Ed; [by apply Hd|by apply He].
Qed.

(** ** Deploying *)

(** A statement whose failure ends the handler. *)
Lemma run_need {X A} fl c (f : world -> sqlerr + X * world) st msg (k : X -> prog world response A) w r w' :
  run fl (need c f st msg ≫= k) w = (r, w') ->
  ((exists resp, r = inl resp) /\ w' = w)
  \/ exists x w1, f w = inr (x, w1) /\ run (tail fl) (k x) w1 = (r, w').
Proof using.
  destruct fl as [|[] fl]; simpl; [|intros [= <- <-]; eauto|];
    (destruct (f w) as [e|[x w1]]; [intros [= <- <-]; eauto|eauto 6]).
Qed.

Lemma run_target_device {A} fl id (k : device -> prog world response A) w r w' :
  run fl (target_device id ≫= k) w = (r, w') ->
  ((exists resp, r = inl resp) /\ w' = w)
  \/ exists d, W_devices w !! id = Some d /\ run (tail fl) (k d) w = (r, w').
Proof using.
  destruct fl as [|[] fl]; simpl; [|intros [= <- <-]; eauto|];
    (destruct (W_devices w !! id) as [d|]; simpl; [eauto|intros [= <- <-]; eauto]).
Qed.

(** The row of the artifact, wherever it is, is approved; no other changes. *)
Definition approve (id : uuid) (m : gmap uuid artifact) : gmap uuid artifact :=
  update_where (fun a => bool_decide (ar_id a = id)) (set_ar_quarantine_state "approved") m.

(** A deployment that was answered with success; [answered] as in [choice]. *)
Definition deployed_as (o : origin) (req : adminDeployRequest) (answered : bool) (w w' : world) : Prop :=
  exists d l id key, W_devices w !! ad_DeviceID req = Some d /\ choice w answered (ad_AppleID req) l
    /\ W_artifacts w' = approve (ad_ArtifactID req) (W_artifacts w) /\ W_jobs w !! id = None
    /\ W_jobs w' = <[id := new_job JobTypeSign (Some (ad_DeviceID req)) None
         (JObj (deploy_params (ad_ArtifactID req) d l (selfSourceURL o))) key 5 None None None id (w_now w)]>
         (W_jobs w).

Lemma head_tail_tail {X} (l : list X) : head (tail (tail l)) = l !! 2%nat.
Proof using. by destruct l as [|? [|? [|? ?]]]. Qed.

(** The rest of the handler, once the account is known. *)
Lemma wp_deploy_enqueue o req d l (answered : bool) w w1 :
  wf_jobs w1 -> W_jobs w1 = W_jobs w -> w_now w1 = w_now w ->
  W_artifacts w1 = approve (ad_ArtifactID req) (W_artifacts w) ->
  W_devices w !! ad_DeviceID req = Some d -> choice w answered (ad_AppleID req) l ->
  wp (deploy_enqueue o req d l)
    (fun r w' => match r with
       | inl _ => W_jobs w' = W_jobs w
       | inr resp => rs_status resp = Created /\ deployed_as o req answered w w'
       end) w1.
Proof using.
  intros Hw Hj1 Hn1 Ha1 Hd Hl. unfold deploy_enqueue. apply wp_bind. eapply wp_mono; [|by apply wp_queue_job].
  intros [e|id] w2 (Ho & _ & Hq); [by rewrite Hq|]. destruct Hq as (Hn & key & Hj).
  assert (Hdone : forall w3, W_jobs w3 = W_jobs w2 -> W_artifacts w3 = W_artifacts w2 ->
    deployed_as o req answered w w3).
  { intros w3 Hj3 Ha3. exists d, l, id, key. rewrite <- Hj1, <- Hn1. split_and!; [done..| |exact Hn|by rewrite Hj3, Hj].
    rewrite Ha3. destruct Ho as (Ed & _). by rewrite Ed. }
  apply wp_Record_bind; [|intros f]; (split; [done|]); by apply Hdone.
Qed.

(** C28. A deployment that succeeds enqueues exactly one sign job, for the named
    device and artifact; the artifact's row, if there is one, is approved and no
    other artifact changes.  The Apple ID of the job is the one the request
    names.  For an automatic request it is the label of the best account on
    record, proven ones first, then the most free App ID slots, then the latest
    sign-in; the request's own text is passed on only when the account query
    (the third statement) fails or overflows, no account may sign, or the best
    one has an empty label.  An error enqueues nothing.  That the artifact
    exists is not checked ([deploys_what_is_not_there]). *)
Theorem deploy_spec o req fl w r w' :
  wf_jobs w -> run fl (handleAdminDeploy o (Some req)) w = (r, w') ->
  match r with
  | inl _ => W_jobs w' = W_jobs w
  | inr resp => rs_status resp = Created
      /\ deployed_as o req (negb (bool_decide (fl !! 2%nat = Some true))) w w'
  end.
Proof using.
  intros Hw. unfold handleAdminDeploy, decodeJSON. cbn [mbind prog_mbind prog_bind].
  case_cond; [by intros [= <- <-]|].
  intros [[[resp ->] ->]|(x & w1 & Hs & Hr)]%run_need; [done|]. injection Hs as _ <-.
  apply run_target_device in Hr as [[[resp ->] ->]|(d & Hd & Hr)]; [done|].
  set (w1 := set_db _ w) in *.
  destruct (run_pick_account (tail (tail fl)) (ad_AppleID req) (fun l => deploy_enqueue o req d l) w1)
    as (l & fl' & [Hl1 Hl2 Hl3] & He).
  rewrite He in Hr. rewrite <- head_tail_tail.
  by_wp Hr. apply (wp_deploy_enqueue o req d l); try done. by destruct Hw; split.
Qed.

(** ** Refreshing by hand *)

Lemma refresh_lineage_prev dep w row :
  refresh_lineage dep w = Some row -> is_Some (rr_prevSignedID row).
Proof using.
  unfold refresh_lineage. intros (d & _ & Hd)%bind_Some. apply bind_Some in Hd as (x & Hx & Hd).
  apply bind_Some in Hd as (dv & _ & Hd). apply bind_Some in Hd as (e & _ & [= <-]). simpl.
  apply head_Some_elem_of in Hx; apply list_elem_of_omap in Hx as (ir & _ & Hir). case_cond; [|done].
  apply fmap_Some in Hir as ([sa acc] & Hr & ->). unfold resolved in Hr.
  apply bind_Some in Hr as (sid & Hs & _). simpl. by rewrite Hs.
Qed.

Context `{!UuidTextLaws}.

(** What a refresh job made by hand says to [loadRefreshContext]. *)
Lemma manual_params_decode req row :
  is_Some (rr_prevSignedID row) ->
  exists p, decode_refreshParams (manual_params req row) = Some p
    /\ rp_DeploymentID p = Some (mr_DeploymentID req) /\ refresh_source p = rr_sourceID row
    /\ rp_AppleID p = ac_label (rr_account row).
Proof using All.
  intros [sid Hs]. unfold decode_refreshParams, manual_params, jget. rewrite Hs. simpl.
  rewrite !uuid_parse_text. simpl. eexists. split_and!; [done..| |done].
  unfold refresh_source. simpl. by case_cond.
Qed.

(** The job a manual refresh leaves: whatever becomes of it, the refresh signs
    the artifact recorded for the deployment, or a consented upgrade of it, for
    the account that is recorded too. *)
Definition follows_lineage (row : refresh_row) (j : job) : Prop :=
  forall w2 j2 rc, W_jobs w2 !! j_id j = Some j2 -> same_identity j j2 -> ready w2 (j_id j) rc ->
    rc_deviceID rc = rr_deviceID row
    /\ match rc_updateFrom rc with None => rc_sourceID rc = rr_sourceID row | Some o => o = rr_sourceID row end
    /\ (ac_label (rr_account row) <> "" -> rc_appleID rc = ac_label (rr_account row)).

Lemma manual_follows_lineage req row mx purpose j :
  is_Some (rr_prevSignedID row) ->
  refresh_as (rr_deviceID row) (Some (manual_params req row)) mx purpose j -> follows_lineage row j.
Proof using All.
  intros Hs (_ & Hdev & Hps & _) w2 j2 rc Hj2 (_ & _ & Hd2 & _ & Hp2 & _) Hr.
  destruct (rd_job _ _ _ Hr) as (j' & p & Hj' & _ & _ & Hd' & Hdec & _ & Hacc & Hsrc).
  rewrite Hj2 in Hj'. injection Hj' as <-. rewrite Hp2, Hps in Hdec. simpl in Hdec.
  destruct (manual_params_decode req row Hs) as (p' & Hp' & _ & Hsource & Hlabel).
  rewrite Hp' in Hdec. injection Hdec as <-. split; [congruence|]. split.
  - destruct (rc_updateFrom rc); [|congruence]. destruct Hsrc as [-> _]. exact Hsource.
  - intros Hne. destruct Hacc as [_ [Ha|(d & _ & He & _)]]; [congruence|]. rewrite Hlabel in He. done.
Qed.

Lemma wp_manual_refresh req w :
  wf_jobs w -> key_taken ("manual:" ++s uuid_text (w_fresh w)) w = false ->
  wp (manual_refresh req) (fun r w' => only_jobs w w' /\
    match r with
    | inl _ => W_jobs w' = W_jobs w
    | inr j => exists row, refresh_lineage (mr_DeploymentID req) w = Some row
        /\ W_jobs w !! j_id j = None /\ W_jobs w' = <[j_id j := j]> (W_jobs w) /\ j_state j = StatePending
        /\ refresh_as (rr_deviceID row) (Some (manual_params req row)) 15 "manual_refresh" j
    end) w.
Proof using.
  intros Hw Hk. unfold manual_refresh. apply wp_read; [split; [apply only_jobs_refl|done]|].
  destruct (refresh_lineage _ w) as [row|] eqn:Er; [|split; [apply only_jobs_refl|done]].
  unfold fresh_uuid. apply wp_act_bind. simpl fst; simpl snd. set (w1 := set_fresh _ w) in *.
  assert (H01 : only_jobs w w1) by (split; [by destruct w as [[]]|done]).
  apply wp_bind, wp_attempt. eapply wp_mono; [|by apply wp_CreateRefresh, wf_jobs_fresh].
  intros [e|j] w2 (Ho & Hw2 & Hf & Hj); pose proof (only_jobs_trans _ _ _ H01 Ho) as H02; [by split|].
  destruct Hj as (Hkey & Hl & [[Ht _]|(_ & _ & Hn & Hi & Hst & _ & Hr)]).
  { change (key_taken _ w1) with (key_taken ("manual:" ++s uuid_text (w_fresh w)) w) in Ht. congruence. }
  apply wp_Record_bind; [|intros f]; (split; [done|]); by exists row.
Qed.

(** C29. A refresh asked for by hand names only the deployment: the job it
    creates is for the deployment's device, and whenever that job is prepared
    for signing the artifact and the account are the recorded ones (or a
    consented upgrade of the artifact).  A deployment without such a record, or
    any failure, creates nothing. *)
Theorem manual_refresh_follows_lineage req fl w r w' :
  wf_jobs w -> key_taken ("manual:" ++s uuid_text (w_fresh w)) w = false ->
  run fl (manual_refresh req) w = (r, w') ->
  only_jobs w w' /\
  match r with
  | inl _ => W_jobs w' = W_jobs w
  | inr j => exists row, refresh_lineage (mr_DeploymentID req) w = Some row
      /\ W_jobs w !! j_id j = None /\ W_jobs w' = <[j_id j := j]> (W_jobs w)
      /\ j_job_type j = JobTypeRefresh /\ j_state j = StatePending /\ j_max_attempts j = 15
      /\ j_purpose j = Some "manual_refresh" /\ follows_lineage row j
  end.
Proof using All.
  intros Hw Hk Hrun. apply (wp_run_eq _ _ _ _ _ _ (wp_manual_refresh req w Hw Hk)) in Hrun as [Ho Hr].
  split; [done|]. destruct r as [|j]; [done|]. destruct Hr as (row & Hrow & Hn & Hi & Hs & Hr).
  exists row. split_and!; try done; [apply Hr..|].
  eapply manual_follows_lineage; [by eapply refresh_lineage_prev|exact Hr].
Qed.
End operator.

(** ** Credentials *)

(** What a file of accounts gives the signing worker. *)
Definition parsed_accounts (file : option json) : gmap string string :=
  match file with
  | Some j => match string_map j with Some l => overlay l ∅ | None => ∅ end
  | None => ∅
  end.

Definition usable (id p : string) : bool := negb (id =s "") && negb (p =s "").

Lemma add_accounts_lookup m file i :
  add_accounts m file !! i =
    match parsed_accounts file !! i with
    | Some p => if usable i p then Some p else m !! i
    | None => m !! i
    end.
Proof.
  unfold add_accounts, parsed_accounts. destruct file as [j|]; [|done].
  destruct (string_map j) as [l|]; [|done]. fold (overlay l ∅). generalize (overlay l ∅). clear l j.
  intros parsed. revert i.
  apply (map_fold_weak_ind (fun acc done_ => forall i, acc !! i =
    match done_ !! i with Some p => if usable i p then Some p else m !! i | None => m !! i end)).
  - intros i. by rewrite lookup_empty.
  - intros k p done_ acc Hk IH i. destruct (decide (k = i)) as [<-|Hne].
    + rewrite lookup_insert_eq. change (negb (k =s "") && negb (p =s "")) with (usable k p).
      destruct (usable k p); [by rewrite lookup_insert_eq|]. by rewrite IH, Hk.
    + rewrite (lookup_insert_ne done_) by done. rewrite <- IH. case_match; [by rewrite lookup_insert_ne|done].
Qed.

Lemma string_map_marshal m : string_map (marshal_accounts (Some m)) = Some (map_to_list m).
Proof.
  simpl. induction (map_to_list m) as [|[k v] l IH]; [done|]. rewrite fmap_cons. simpl. by rewrite IH.
Qed.

Lemma parsed_marshal m : parsed_accounts (Some (marshal_accounts (Some m))) = m.
Proof. unfold parsed_accounts. by rewrite string_map_marshal, overlay_map, map_union_empty. Qed.

(** A file that the program itself has written, or that is missing or no JSON. *)
Definition readable (file : option (option json)) : Prop :=
  match file with Some (Some j) => j <> JNull /\ is_Some (string_map j) | _ => True end.

Lemma unmarshal_parsed j :
  j <> JNull -> is_Some (string_map j) -> unmarshal_accounts j = (Some (parsed_accounts (Some j)), true).
Proof.
  intros Hn [l Hl]. unfold parsed_accounts. rewrite Hl. destruct j as [| | | | |ms]; try done. simpl in *.
  unfold overlay. clear Hn. revert l Hl. generalize (∅ : gmap string string).
  induction ms as [|[k v] ms IH]; intros m l Hl; simpl in *; [by injection Hl as <-|].
  apply bind_Some in Hl as ([k' v'] & Hk & Hl). apply bind_Some in Hl as (l' & Hl' & [= <-]). simpl.
  pose proof (IH (<[k := match v with JStr s => s | _ => "" end]> m) _ Hl') as IH'.
  destruct v; simplify_eq/=; congruence.
Qed.

Definition worker_file (h : host) (path : string) : option json := mjoin (h_json h !! path).

(** The state after saving a password, one path after the other. *)
Definition with_password (id pw path : string) (h : host) : host :=
  set_json (<[path := Some (marshal_accounts (Some (<[id := pw]> (parsed_accounts (worker_file h path)))))]>) h.

Lemma exec_store_password id pw path h :
  readable (h_json h !! path) ->
  exec (store_password id pw path) h = (inr tt, with_password id pw path h).
Proof.
  intros Hr. unfold exec, store_password, ReadJSON. rewrite run_bind. simpl.
  unfold with_password, worker_file. destruct (h_json h !! path) as [[j|]|]; [|done..].
  destruct Hr as [Hn Hs]. rewrite (unmarshal_parsed _ Hn Hs). done.
Qed.

Lemma for_cons {S E X} (x : X) l (body : X -> prog S E unit) :
  for_ (x :: l) body = (body x ≫= fun _ => for_ l body).
Proof. done. Qed.

(** What depends on files only outlives every program of the process state. *)
Lemma keeps_zoom_files {E A} (I : host -> Prop) (p : prog world E A) :
  (forall w h, I h -> I (set_world w h)) -> keeps I (zoom p).
Proof. intros HI h Hh. apply wp_zoom, wp_always. intros. by apply HI. Qed.

Lemma keeps_WriteText {E} (I : host -> Prop) path text :
  (forall h, I h -> I (set_text (<[path := text]>) h)) -> keeps I (@WriteText host E _ path text).
Proof. intros HI. unfold WriteText. repeat keeps_step. intros h x h' Hh [= <- <-]. by apply HI. Qed.

(** What saving leaves in the files the worker reads. *)
Definition saved (h : host) (id pw : string) (h' : host) : Prop :=
  h_json h' = h_json (with_password id pw "/run/sidey/accounts.json"
                (with_password id pw "/var/lib/sidey/signing-worker/accounts.json" h))
  /\ h_text h' !! "/var/lib/sidey/signing-worker/credentials" = Some (credsContent id pw).

Section saving.
Context `{UuidText} `{SecretOps} `{ArchiveOps}.

Lemma keeps_saved_code h id pw code : keeps (saved h id pw) (write_code code).
Proof using.
  unfold write_code. apply keeps_for. intros cp Hcp. apply keeps_WriteText. intros h' [Hj Ht].
  split; [done|]. simpl. rewrite lookup_insert_ne; [done|].
  unfold code_paths in Hcp. intros ->. set_solver.
Qed.

Lemma ewp_save_credentials req h :
  let id := trim_space (uc_AppleID req) in let pw := trim_space (uc_ApplePassword req) in
  id <> "" -> pw <> "" -> (forall p, p ∈ accounts_paths -> readable (h_json h !! p)) ->
  ewp (handleUpdateAppleCredentials (Some req)) (fun _ => saved h id pw) h.
Proof using.
  intros id pw Hid Hpw Hr. unfold handleUpdateAppleCredentials. apply ewp_bind.
  eapply ewp_exec; [reflexivity|]. cbv beta iota zeta. fold id pw.
  rewrite (bool_decide_eq_false_2 _ Hid), (bool_decide_eq_false_2 _ Hpw). cbn [orb].
  apply ewp_bind. unfold accounts_paths. rewrite !for_cons.
  apply ewp_bind. eapply ewp_exec; [apply exec_store_password, Hr; unfold accounts_paths; set_solver|].
  cbv beta iota. apply ewp_bind. eapply ewp_exec.
  { apply exec_store_password. unfold with_password at 1. simpl. rewrite lookup_insert_ne by done.
    apply Hr. unfold accounts_paths. set_solver. }
  cbv beta iota. eapply ewp_exec; [reflexivity|]. cbv beta iota.
  apply ewp_bind. eapply ewp_exec; [reflexivity|]. cbv beta iota.
  set (h2 := with_password _ _ _ (with_password _ _ _ _)).
  match goal with |- ewp _ _ ?s => assert (Hs : saved h id pw s) by (split; [done|]; simpl; by rewrite !lookup_insert_ne, lookup_insert_eq by done) end.
  apply wp_ewp. match goal with |- wp ?p _ ?s => assert (Hk : keeps (saved h id pw) p) end; [|by apply Hk].
  apply keeps_bind; [unfold when; case_cond; [apply keeps_saved_code|apply keeps_ret]|intros _].
  repeat (apply keeps_bind; [by apply keeps_zoom_files|intros _]). apply keeps_ret.
Qed.
End saving.

(** The credentials file, as the worker reads it. *)
Lemma read_credentials c id pw :
  trim_right is_space_byte id = id -> trim_right is_space_byte pw = pw -> id <> "" -> pw <> "" ->
  has_byte newline id = false -> has_byte newline pw = false -> appleID c = "" -> applePassword c = "" ->
  readCredsFile (Some (credsContent id pw)) c = with_account id pw c.
Proof.
  intros Hi Hp Hid Hpw Hni Hnp Ha Hb. unfold readCredsFile, parseCreds, credsContent.
  set (l1 := "SIDEY_APPLE_ID=" ++s id). set (l2 := "SIDEY_APPLE_MAIN_PASSWORD=" ++s pw).
  assert (E : split_byte newline ("SIDEY_APPLE_ID=" ++s id ++s nl ++s "SIDEY_APPLE_MAIN_PASSWORD=" ++s pw ++s nl)
    = [l1; l2; ""]).
  { unfold nl. change (String "010" "" ++s ?x) with (String newline x).
    rewrite <- str_app_assoc. fold l1. rewrite split_byte_app by (subst l1; by rewrite has_byte_app).
    f_equal. rewrite <- str_app_assoc. fold l2. change (String "010" "") with (String newline "").
    rewrite split_byte_app by (subst l2; by rewrite has_byte_app). done. }
  rewrite E. simpl fold_left.
  assert (T1 : trim_space l1 = l1).
  { change (trim_space l1) with (trim_right is_space_byte l1). subst l1.
    rewrite trim_right_app; by rewrite Hi. }
  assert (T2 : trim_space l2 = l2).
  { change (trim_space l2) with (trim_right is_space_byte l2). subst l2.
    rewrite trim_right_app; by rewrite Hp. }
  assert (P1 : parse_line c l1 = with_account id (applePassword c) c).
  { unfold parse_line. rewrite T1, Ha. subst l1. rewrite has_prefix_app, trim_prefix_app. done. }
  rewrite P1, Hb. unfold parse_line at 2. rewrite T2. subst l2. rewrite has_prefix_app, trim_prefix_app.
  done.
Qed.

(** The accounts files in the order the worker reads them; [x] is the one of
    its own state directory. *)
Definition worker_files (x : option json) (h : host) : list (option json) :=
  [x; worker_file h "/run/sidey/accounts.json";
   worker_file h "/var/lib/sidey/signing-worker/accounts.json"].

Lemma saved_files h id pw h' path :
  saved h id pw h' -> path ∈ accounts_paths ->
  parsed_accounts (worker_file h' path) = <[id := pw]> (parsed_accounts (worker_file h path)).
Proof.
  intros [Hj _] Hp. unfold worker_file. rewrite Hj. unfold with_password, accounts_paths in *. cbn [set_json h_json].
  apply elem_of_cons in Hp as [-> | ->%list_elem_of_singleton].
  - rewrite lookup_insert_ne, lookup_insert_eq by done. cbn [mjoin option_join]. apply parsed_marshal.
  - rewrite lookup_insert_eq. cbn [mjoin option_join]. rewrite parsed_marshal.
    f_equal. f_equal. unfold worker_file. cbn [set_json h_json]. by rewrite lookup_insert_ne.
Qed.

Section saving2.
Context `{UuidText} `{SecretOps} `{ArchiveOps}.

(** C31. Round trip of credentials: once they are saved, a job that names the
    account gets exactly its password in the signing worker, whatever the
    worker's own accounts file says; every other account resolves as before;
    and a worker without a default account takes this one from its credentials
    file, unless the texts contain a line break. *)
Theorem credentials_reach_worker req h :
  let id := trim_space (uc_AppleID req) in let pw := trim_space (uc_ApplePassword req) in
  id <> "" -> pw <> "" -> (forall p, p ∈ accounts_paths -> readable (h_json h !! p)) ->
  ewp (handleUpdateAppleCredentials (Some req)) (fun _ h' =>
    (forall x c, getCredentials c (worker_files x h') id = (id, pw))
    /\ (forall x c o, o <> "" -> o <> id ->
          getCredentials c (worker_files x h') o = getCredentials c (worker_files x h) o)
    /\ (has_byte newline id = false -> has_byte newline pw = false ->
        forall c, appleID c = "" -> applePassword c = "" ->
        readCredsFile (h_text h' !! "/var/lib/sidey/signing-worker/credentials") c = with_account id pw c)) h.
Proof using.
  intros id pw Hid Hpw Hr. eapply ewp_mono; [|by apply ewp_save_credentials]. intros r h'; cbv beta. fold id pw.
  pose proof (trim_right_space (uc_AppleID req) : _ id = id) as Hi.
  pose proof (trim_right_space (uc_ApplePassword req) : _ pw = pw) as Hp. clearbody id pw. intros Hs.
  assert (Hl : forall x o, read_accounts (worker_files x h') !! o =
    if decide (o = id) then Some pw else read_accounts (worker_files x h) !! o).
  { intros x o. unfold read_accounts, worker_files. simpl. rewrite !add_accounts_lookup.
    rewrite !(saved_files h id pw h') by (done || (unfold accounts_paths; set_solver)).
    case_decide as E; [rewrite E, lookup_insert_eq; unfold usable|by rewrite !lookup_insert_ne by done].
    by rewrite (bool_decide_eq_false_2 _ Hid), (bool_decide_eq_false_2 _ Hpw). }
  split_and!.
  - intros x c. unfold getCredentials. rewrite Hl, decide_True by done.
    by rewrite (bool_decide_eq_false_2 _ Hid).
  - intros x c o Ho Hne. unfold getCredentials. rewrite Hl, decide_False by done.
    by rewrite (bool_decide_eq_false_2 _ Ho).
  - intros Hn1 Hn2 c Ha Hb. destruct Hs as [_ ->]. apply read_credentials; try done.
Qed.
End saving2.
