(* ===== verification/AccountsWitness.v ===== *)
(** Requests on which the theorems of AccountsSpec.v apply, and runs that show
    where the account endpoints fall short. *)
From S2P Require Import Prelude GoStrings Effects GoTime Schema Samples AuditLog Jobs JobsInvariant JobsSpec JobsCreate JobsOutcome JobsWitness Scheduler SchedulerSpec SchedulerCycles SchedulerWitness Http Auth Agents AuthWitness Artifacts ArtifactsWitness Signing Refresh RefreshSpec Guard Worker WorkerSpec WorkerState Host Accounts AccountsSpec.

#[local] Existing Instance sample_uuid.
#[local] Existing Instance sample_uuid_laws.
#[local] Existing Instance sample_secrets.
#[local] Existing Instance sample_archives.

Definition here : origin := MkOrigin false "https" "sidey.local".

(** Two accounts: a proven one without free slots, and one still authenticating. *)
Definition two_accounts : world :=
  set_db (on_accounts (fun _ => {[60%N := account60;
    61%N := MkAccount 61 "new@example.org" None "authenticating" None 0 0 (Some 10) (Some 10)]}))
    (refresh_db "quarantined" None).

Definition deploy_request : adminDeployRequest := MkAdminDeploy 3 1 false "auto".

Lemma deploy_spec_witness :
  wf_jobs two_accounts /\ exists resp w',
    run [] (handleAdminDeploy here (Some deploy_request)) two_accounts = (inr resp, w')
    /\ deployed_as here deploy_request true two_accounts w'
    /\ jget_text "apple_id" (rs_body resp) = Some "apple@example.org".
Proof.
  assert (Hw : wf_jobs two_accounts) by (destruct (refresh_db_wf "quarantined" None); by split).
  assert (Hrun : exists resp w', run [] (handleAdminDeploy here (Some deploy_request)) two_accounts
      = (inr resp, w') /\ jget_text "apple_id" (rs_body resp) = Some "apple@example.org")
    by (eexists _, _; vm_compute; split; reflexivity).
  destruct Hrun as (resp & w' & Hrun & Hid). split; [exact Hw|]. exists resp, w'. split; [exact Hrun|].
  pose proof (deploy_spec here deploy_request [] _ _ _ Hw Hrun) as [_ Hd]. done.
Defined.

Definition manual20 : manualRefreshRequest := MkManualRefresh 20 "operator".

Lemma manual_refresh_follows_lineage_witness :
  exists j w' row, run [] (manual_refresh manual20) due_world = (inr j, w')
    /\ refresh_lineage 20 due_world = Some row /\ follows_lineage row j
    /\ ac_label (rr_account row) = "apple@example.org".
Proof.
  assert (Hw : wf_jobs due_world) by apply due_world_sound.
  assert (Hrun : exists j w', run [] (manual_refresh manual20) due_world = (inr j, w'))
    by (eexists _, _; vm_compute; reflexivity).
  destruct Hrun as (j & w' & Hrun).
  assert (Hk : key_taken ("manual:" ++s uuid_text (w_fresh due_world)) due_world = false) by (vm_compute; reflexivity).
  destruct (manual_refresh_follows_lineage manual20 [] _ _ _ Hw Hk Hrun)
    as (_ & row & Hrow & _ & _ & _ & _ & _ & _ & Hf).
  exists j, w', row. split_and!; [exact Hrun|exact Hrow|exact Hf|].
  vm_compute in Hrow. injection Hrow as <-. reflexivity.
Defined.

Definition fresh_host : host := MkHost empty_world ∅ ∅.
Definition new_credentials : updateAppleCredentialsRequest :=
  MkUpdateCredentials " me@example.org " "secret" "".
Definition saved_host : host := (exec (handleUpdateAppleCredentials (Some new_credentials)) fresh_host).2.

Definition no_account : config := load_config (fun _ => "") None None.

Lemma credentials_reach_worker_witness :
  getCredentials no_account (worker_files None saved_host) "me@example.org" = ("me@example.org", "secret")
  /\ appleID (readCredsFile (h_text saved_host !! "/var/lib/sidey/signing-worker/credentials") no_account)
     = "me@example.org".
Proof.
  assert (Hr : forall p, p ∈ accounts_paths -> readable (h_json fresh_host !! p))
    by (intros p _; exact I).
  assert (H1 : trim_space (uc_AppleID new_credentials) <> "") by (vm_compute; discriminate).
  assert (H2 : trim_space (uc_ApplePassword new_credentials) <> "") by (vm_compute; discriminate).
  pose proof (credentials_reach_worker new_credentials fresh_host H1 H2 Hr) as (Hg & _ & Hc).
  split; [apply (Hg None no_account)|]. unfold saved_host. rewrite Hc; reflexivity.
Defined.

(** ** Flaws *)

Definition list_request (appleID : string) : manageAppIDsRequest := MkManageAppIDs "list" appleID None.

(** The key of a listing names no account: the second account's request is
    answered with the job of the first. *)
Example appids_list_is_shared :
  let '(r1, w1) := exec (handleManageAppIDs (Some (list_request "a@example.org"))) empty_world in
  let '(r2, w2) := exec (handleManageAppIDs (Some (list_request "b@example.org"))) w1 in
  r1 = r2 /\ W_jobs w2 = W_jobs w1
  /\ omap (fun j => jget_text "apple_id" (j_parameters j)) (rows (W_jobs w2)) = ["a@example.org"].
Proof. vm_compute. done. Qed.

(** Deleting an account leaves the credentials file: it stays the worker's
    default. *)
Example deleted_account_stays_default :
  let '(r, h) := exec (handleDeleteAppleAccount (sample_text 100)) saved_host in
  W_accounts (h_world h) = ∅
  /\ getCredentials (readCredsFile (h_text h !! "/var/lib/sidey/signing-worker/credentials") no_account)
       (worker_files None h) "" = ("me@example.org", "secret").
Proof. vm_compute. done. Qed.

(** A deployment to a device that does not exist fails, and leaves the artifact
    approved. *)
Example failed_deploy_approves :
  let '(r, w) := exec (handleAdminDeploy here (Some (MkAdminDeploy 3 99 false ""))) two_accounts in
  r = inl (writeJSON BadRequest (error_body "device not found"))
  /\ ar_quarantine_state <$> W_artifacts two_accounts !! 3%N = Some "quarantined"
  /\ ar_quarantine_state <$> W_artifacts w !! 3%N = Some "approved".
Proof. vm_compute. done. Qed.

(** A deployment of an artifact that does not exist succeeds, and a sign job for
    it is enqueued. *)
Example deploys_what_is_not_there :
  let '(r, w) := exec (handleAdminDeploy here (Some (MkAdminDeploy 99 1 false ""))) two_accounts in
  (exists resp, r = inr resp /\ rs_status resp = Created)
  /\ W_artifacts two_accounts !! 99%N = None /\ W_artifacts w = W_artifacts two_accounts
  /\ (fun j => jget_text "artifact_id" (j_parameters j))
       <$> select (fun j => j_job_type j =s "sign") (rows (W_jobs w)) = [Some (uuid_text 99)].
Proof. vm_compute. split_and!; try reflexivity. eexists. split; reflexivity. Qed.

(** A download of LiveContainer approves bytes the operator had rejected. *)
Example livecontainer_reapproves :
  let bytes := "PKcom.kdt.livecontainer" in
  let w := set_db (on_artifacts (fun _ => {[3%N := set_ar_quarantine_state "rejected"
             (uploaded_artifact (sha256_hex bytes) "LC.ipa" "upload" livecontainer_metadata 3 0)]})) two_accounts in
  let '(r, w') := exec (handleInstallLiveContainer here (Some bytes) (Some (MkLiveContainerInstall 1 ""))) w in
  ar_quarantine_state <$> W_artifacts w' !! 3%N = Some "approved".
Proof. vm_compute. done. Qed.

(** A file of accounts that holds null makes the handler panic. *)
Example null_accounts_panic :
  (exec (handleUpdateAppleCredentials (Some new_credentials))
     (set_json (<["/run/sidey/accounts.json" := Some JNull]>) fresh_host)).1 = inl panicked.
Proof. vm_compute. done. Qed.

(** Without any account the word auto is passed on as an Apple ID, and the
    worker finds no such account although it has a default. *)
Example auto_without_account :
  let '(r, w) := exec (handleAdminDeploy here (Some deploy_request)) (refresh_db "approved" None) in
  let c := with_account "me@example.org" "secret" no_account in
  match r with
  | inr resp => jget_text "apple_id" (rs_body resp) = Some "auto"
                /\ getCredentials c [] "auto" = ("", "") /\ getCredentials c [] "" = ("me@example.org", "secret")
  | inl _ => False
  end.
Proof. vm_compute. done. Qed.
