(* ===== verification/Sources.v ===== *)
(** The list of app sources (internal/api/store.go, first part): the built-in
    sources, the operator's file of custom ones, the mirror of the discovered
    list, and the tombstones of mirrored sources the operator deleted. *)
From S2P Require Import Prelude GoStrings GoTime Effects Schema AuditLog Jobs Http Host.

Record StoreSource := MkSource {
  src_ID : string;
  src_Type : string;
  src_URL : string;
  src_Name : string;
  src_IsDefault : bool;
  src_ExpectedID : string;
  src_ManagedBy : string
}.

Record AppVersion := MkAppVersion {
  av_Version : string;
  av_Channel : string;
  av_BundleID : string;
  av_DownloadURL : string;
  av_Size : Z;
  av_UpdatedDate : string
}.

Record StoreApp := MkStoreApp {
  sp_ID : string;
  sp_Name : string;
  sp_Developer : string;
  sp_Description : string;
  sp_IconURL : string;
  sp_Source : string;
  sp_SourceType : string;
  sp_SourceID : string;
  sp_Versions : list AppVersion;
  sp_Primary : AppVersion     (** the top-level copies of the first version's fields *)
}.

#[global] Instance StoreSource_eq_dec : EqDecision StoreSource.
Proof. solve_decision. Defined.
#[global] Instance AppVersion_eq_dec : EqDecision AppVersion.
Proof. solve_decision. Defined.

Definition defaultSources : list StoreSource :=
  [MkSource "src-altstore-official" "altstore" "https://apps.altstore.io"
     "AltStore Official" true "" "";
   MkSource "src-accretion-core" "altstore" "https://getaccretion.github.io/curated.json"
     "Accretion Core" true "io.github.benwilllopez.accretion.curated" "";
   MkSource "src-spotcompiled" "altstore" "https://spotc-repo.yodaluca.dev/AltStore%20Repo.json"
     "SpotCompiled" true "" "";
   MkSource "src-apollo-reborn" "github" "Apollo-Reborn/Apollo-Reborn"
     "Apollo Reborn" true "" "";
   MkSource "src-sparkle-ig" "github" "efibalogh/sparkle-ig"
     "Sparkle for Instagram" true "" "";
   MkSource "src-apex" "github" "lowiqentity/APEX"
     "APEX" true "" "";
   MkSource "src-youmod" "github" "jaydenjcpy/YouMod"
     "YouMod" true "" "";
   MkSource "src-youproextra" "github" "mrdrvt99/YouProEXTRA"
     "YouProEXTRA (YouTube)" true "" "";
   MkSource "src-spotiflac" "github" "spotiflacapp/SpotiFLAC-Mobile"
     "SpotiFLAC Mobile" true "" "";
   MkSource "src-gen1recomp" "github" "bryanthaboi/gen1recomp"
     "Gen1Recomp" true "" "";
   MkSource "src-ppsspp" "github" "hrydgard/ppsspp"
     "PPSSPP Emulator" true "" "";
   MkSource "src-provenance" "github" "Provenance-Emu/Provenance"
     "Provenance-Emu" true "" "";
   MkSource "src-reynard-browser" "github" "minh-ton/reynard-browser"
     "Reynard Browser" true "" "";
   MkSource "src-locus" "github" "ChrisMack32/Locus"
     "Locus" true "" "";
   MkSource "src-livecontainer" "github" "khanhduytran0/LiveContainer"
     "LiveContainer" true "" "";
   MkSource "src-utm" "github" "utmapp/UTM"
     "UTM Virtual Machines" true "" "";
   MkSource "src-sidestore" "github" "SideStore/SideStore"
     "SideStore" true "" ""].
(** ** State *)

(** The host, and the process-wide cache of the catalog. *)
Record store_state := MkStore {
  ss_host : host;
  ss_apps : list StoreApp;
  ss_updatedAt : instant
}.

#[global] Instance host_of_store : Lens host store_state.
Proof.
  refine {| lget := ss_host; lset := fun h s => MkStore h (ss_apps s) (ss_updatedAt s) |};
    [done|by intros []|done].
Defined.

#[global] Instance world_of_store : Lens world store_state.
Proof.
  refine {| lget := fun s => h_world (ss_host s);
            lset := fun w s => MkStore (set_world w (ss_host s)) (ss_apps s) (ss_updatedAt s) |};
    [done|by intros [[]]|done].
Defined.

Definition set_cache (apps : list StoreApp) (t : instant) (s : store_state) : store_state :=
  MkStore (ss_host s) apps t.

(** [globalStoreCache.apps = nil]; the time stays. *)
Definition drop_cache (s : store_state) : store_state := set_cache [] (ss_updatedAt s) s.

(** ** Encoding *)

(** [json.Unmarshal] into the fields of an existing value: an absent or null
    member keeps the field; one of another type keeps it too and is an error.
    The flag is [err == nil]. *)
Definition into_string (k : string) (j : json) (old : string) : string * bool :=
  match jget k j with
  | None | Some JNull => (old, true)
  | Some (JStr s) => (s, true)
  | Some _ => (old, false)
  end.

Definition into_bool (k : string) (j : json) (old : bool) : bool * bool :=
  match jget k j with
  | None | Some JNull => (old, true)
  | Some (JBool b) => (b, true)
  | Some _ => (old, false)
  end.

Definition unmarshal_source (old : StoreSource) (j : json) : StoreSource * bool :=
  match j with
  | JObj _ =>
      let i := into_string "id" j (src_ID old) in
      let t := into_string "type" j (src_Type old) in
      let u := into_string "url" j (src_URL old) in
      let n := into_string "name" j (src_Name old) in
      let d := into_bool "is_default" j (src_IsDefault old) in
      let e := into_string "expected_id" j (src_ExpectedID old) in
      let b := into_string "managed_by" j (src_ManagedBy old) in
      (MkSource i.1 t.1 u.1 n.1 d.1 e.1 b.1, i.2 && t.2 && u.2 && n.2 && d.2 && e.2 && b.2)
  | JNull => (old, true)
  | _ => (old, false)
  end.

Definition zero_source : StoreSource := MkSource "" "" "" "" false "" "".

(** Into an existing slice: elements are decoded over those already there, null
    makes it nil, a value that is no array leaves it. *)
Definition unmarshal_sources (old : list StoreSource) (j : json) : list StoreSource * bool :=
  match j with
  | JArr l =>
      let r := imap (fun i x => unmarshal_source (default zero_source (old !! i)) x) l in
      (r.*1, forallb snd r)
  | JNull => ([], true)
  | _ => (old, false)
  end.

Definition omitempty (k v : string) : list (string * json) :=
  if v =s "" then [] else [(k, JStr v)].

Definition source_json (x : StoreSource) : json :=
  JObj ([("id", JStr (src_ID x)); ("type", JStr (src_Type x)); ("url", JStr (src_URL x));
         ("name", JStr (src_Name x)); ("is_default", JBool (src_IsDefault x))]
        ++ omitempty "expected_id" (src_ExpectedID x) ++ omitempty "managed_by" (src_ManagedBy x)).

(** An empty slice is nil wherever the program saves one. *)
Definition marshal_sources (l : list StoreSource) : json :=
  match l with [] => JNull | _ => JArr (source_json <$> l) end.

(** ** Files *)

Definition sources_path : string := "/var/lib/sidey/store_sources.json".
Definition sources_path_run : string := "/run/sidey/store_sources.json".

Definition discoveredRemovedPaths : list string :=
  ["/var/lib/sidey/store_sources_removed.json"; "/run/sidey/store_sources_removed.json"].

(** A custom source that repeats neither the URL nor the id of a built-in one. *)
Definition not_default (c : StoreSource) : bool :=
  negb (existsb (fun d => (src_URL d =s src_URL c) || (src_ID d =s src_ID c)) defaultSources).

Section sources.
Context {E : Type}.

Definition loadStoreSources : prog store_state E (list StoreSource) :=
  a ← ReadJSON sources_path;
  data ← match a with Some d => Ret (Some d) | None => ReadJSON sources_path_run end;
  Ret (defaultSources ++
       match data with
       | Some (Some j) => let '(custom, good) := unmarshal_sources [] j in
                          if good then select not_default custom else []
       | _ => []
       end).

Definition saveCustomSources (custom : list StoreSource) : prog store_state E unit :=
  for_ [sources_path; sources_path_run] (fun p => WriteJSON p (marshal_sources custom)).

(** A list of strings; [None] on any error. *)
Definition unmarshal_strings (j : json) : option (list string) :=
  match j with
  | JNull => Some []
  | JArr l => mapM (fun x => match x with JStr s => Some s | JNull => Some "" | _ => None end) l
  | _ => None
  end.

Definition loadDiscoveredRemoved : prog store_state E (gset string) :=
  fold_ (fun removed p =>
    data ← ReadJSON p;
    Ret match data with
        | Some (Some j) => match unmarshal_strings j with
                           | Some urls => removed ∪ list_to_set urls | None => removed end
        | _ => removed
        end) ∅ discoveredRemovedPaths.

(** [sort.Strings] *)
Definition str_le (a b : string) : bool := negb (str_gt a b).

Definition saveDiscoveredRemoved (removed : gset string) : prog store_state E unit :=
  for_ discoveredRemovedPaths (fun p => WriteJSON p (JArr (JStr <$> sort_by str_le (elements removed)))).

(** [for .. { if err == nil && json.Unmarshal(..) == nil { return custom } }] *)
Fixpoint first_decodable (paths : list string) : prog store_state E (list StoreSource) :=
  match paths with
  | [] => Ret []
  | p :: paths' =>
      data ← ReadJSON p;
      match data with
      | Some (Some j) => let '(custom, good) := unmarshal_sources [] j in
                         if good then Ret custom else first_decodable paths'
      | _ => first_decodable paths'
      end
  end.

Definition loadCustomSourcesFile : prog store_state E (list StoreSource) :=
  first_decodable [sources_path; sources_path_run].

(** The deletion's own reader: the first file that decodes to a list that is
    not empty; what a failed decoding left is kept. *)
Fixpoint first_nonempty (custom : list StoreSource) (paths : list string)
    : prog store_state E (list StoreSource) :=
  match paths with
  | [] => Ret custom
  | p :: paths' =>
      data ← ReadJSON p;
      match data with
      | Some (Some j) => let '(custom', good) := unmarshal_sources custom j in
                         if good && (0 <? length custom')%nat then Ret custom'
                         else first_nonempty custom' paths'
      | _ => first_nonempty custom paths'
      end
  end.

(** ** The discovered list *)

Definition discoveredManagedBy : string := "accretion-discovered".

(** [io.LimitReader] *)
Definition limit_reader (n : Z) (s : string) : string :=
  if Z.of_nat (String.length s) <=? n then s else str_take (Z.to_nat n) s.

(** The URL of a line, if it has one the mirror accepts. *)
Definition discovered_url (line : string) : option string :=
  match fields line with
  | [] => None
  | f :: _ =>
      let u := match index_byte "#" f with Some i => str_take i f | None => f end in
      let u := trim_space (replace_byte " " "%20" u) in
      if (u =s "") || has_prefix "#" u then None
      else if negb (has_prefix "https://" (to_lower u)) then None
      else Some u
  end.

Definition url_host (u : string) : string :=
  let host := trim_prefix "https://" u in
  match index_byte "/" host with Some i => str_take i host | None => host end.
End sources.

(** Package crypto/sha1. *)
Class Sha1Ops := { sha1_hex : string -> string }.

Section endpoints.
Context `{UuidText} `{Sha1Ops}.

Definition discovered_source (u : string) : StoreSource :=
  MkSource ("src-discovered-" ++s str_take 8 (sha1_hex u)) "altstore" u (url_host u) false ""
    discoveredManagedBy.

(** One line of the list: the custom sources, the URLs known, the number added. *)
Definition sync_line (removed : gset string) (acc : list StoreSource * gset string * Z) (line : string)
    : list StoreSource * gset string * Z :=
  let '(custom, known, added) := acc in
  match discovered_url line with
  | None => acc
  | Some u =>
      if bool_decide (u ∈ known) || bool_decide (u ∈ removed) then acc
      else (custom ++ [discovered_source u], {[u]} ∪ known, added + 1)
  end.

Definition sync_lines (removed : gset string) (custom : list StoreSource) (body : string)
    : list StoreSource * gset string * Z :=
  fold_left (sync_line removed) (split_byte "010" (limit_reader (Z.shiftl 1 20) body))
    (custom, list_to_set (src_URL <$> defaultSources) ∪ list_to_set (src_URL <$> custom), 0).

(** [answer] is the body of the list, [None] when the request fails, is not
    answered with 200, or cannot be read. *)
Definition SyncDiscoveredSources (answer : option string) : prog store_state string Z :=
  match answer with
  | None => Throw "discovered list unavailable"
  | Some body =>
      removed ← loadDiscoveredRemoved;
      custom ← loadCustomSourcesFile;
      let '(custom', _, added) := sync_lines removed custom body in
      if added =? 0 then Ret 0 else
      _ ← saveCustomSources custom';
      _ ← put_ drop_cache;
      _ ← zoom (S := world) (Record_ "system" "store.discovered_synced" [WithData (JObj [("added", JNum added)])]);
      Ret added
  end.

(** ** Endpoints *)

Definition handleListStoreSources : prog store_state response response :=
  sources ← loadStoreSources;
  Ret (writeJSON StatusOK (JObj [("sources", JArr (source_json <$> sources))])).

Record addSourceRequest := MkAddSource { as_Type : string; as_URL : string; as_Name : string }.

(** The type a request ends up with. *)
Definition source_type (type url : string) : string :=
  if type =s "" then
    if contains url "github.com" || (negb (has_prefix "http" url) && contains url "/")
    then "github" else "altstore"
  else type.

Definition github_repo (url : string) : string :=
  trim_suffix "/" (trim_prefix "http://github.com/" (trim_prefix "https://github.com/" url)).

(** The new source, or the message of the refusal. *)
Definition new_source (req : addSourceRequest) (id : string) : string + StoreSource :=
  let type := to_lower (trim_space (as_Type req)) in
  let url := trim_space (as_URL req) in
  let name := trim_space (as_Name req) in
  if url =s "" then inl "url is required" else
  let type := source_type type url in
  if type =s "github" then
    let repo := github_repo url in
    inr (MkSource id type repo (if name =s "" then repo else name) false "" "")
  else if negb (has_prefix "https://" (to_lower url)) then inl "altstore source url must be https"
  else
    let u := replace_byte " " "%20" url in
    inr (MkSource id type u (if name =s "" then u else name) false "" "").

Definition handleAddStoreSource (body : option addSourceRequest) : prog store_state response response :=
  req ← zoom (S := world) (decodeJSON body);
  match new_source req "" with
  | inl message => Throw (writeJSON BadRequest (error_body message))
  | inr _ =>
      k ← zoom (S := world) fresh_uuid;
      let id := "src-" ++s str_take 8 (uuid_text k) in
      match new_source req id with
      | inl message => Throw (writeJSON BadRequest (error_body message))
      | inr src =>
          data ← ReadJSON sources_path;
          let custom := match data with Some (Some j) => (unmarshal_sources [] j).1 | _ => [] end in
          _ ← saveCustomSources (custom ++ [src]);
          _ ← put_ drop_cache;
          _ ← zoom (S := world) (Record_ "admin" "store_source.added"
                [WithData (JObj [("source_id", JStr id); ("type", JStr (src_Type src)); ("url", JStr (src_URL src))])]);
          Ret (writeJSON Created (source_json src))
      end
  end.

(** Deleting a mirrored source buries its URL; each is a load and a save. *)
Definition bury (src : StoreSource) : prog store_state response unit :=
  when (src_ManagedBy src =s discoveredManagedBy) (
    removed ← loadDiscoveredRemoved;
    saveDiscoveredRemoved ({[src_URL src]} ∪ removed)).

Definition handleDeleteStoreSource (path_id : string) : prog store_state response response :=
  if path_id =s "" then Throw (writeJSON BadRequest (error_body "source id is required")) else
  custom ← first_nonempty [] [sources_path; sources_path_run];
  let gone src := src_ID src =s path_id in
  _ ← for_ (select gone custom) bury;
  _ ← saveCustomSources (select (fun src => negb (gone src)) custom);
  _ ← put_ drop_cache;
  Ret (writeJSON StatusOK (JObj [("status", JStr "deleted"); ("id", JStr path_id)])).
End endpoints.
