(* ===== verification/SourcesSpec.v ===== *)
(** What the list of sources guarantees: the mirror only adds, each source once,
    and never one the operator deleted. *)
From S2P Require Import Prelude GoStrings GoTime Effects Schema AuditLog Jobs Http Host Sources.

(** ** Encoding *)

Lemma unmarshal_marshal_source old x :
  src_ExpectedID old = "" -> src_ManagedBy old = "" -> unmarshal_source old (source_json x) = (x, true).
Proof.
  intros He Hm. destruct x as [i t u n d e b]. unfold unmarshal_source, source_json, omitempty.
  cbn [src_ID src_Type src_URL src_Name src_IsDefault src_ExpectedID src_ManagedBy].
  destruct (e =s "") eqn:Ee, (b =s "") eqn:Eb; bools; subst; unfold into_string, into_bool, jget; simpl;
    by rewrite ?He, ?Hm.
Qed.

(** What is saved is read back. *)
Lemma unmarshal_marshal l : unmarshal_sources [] (marshal_sources l) = (l, true).
Proof.
  destruct l as [|x l]; [done|]. cbn [marshal_sources unmarshal_sources].
  set (r := imap _ _). assert (Hr : r = (fun x => (x, true)) <$> (x :: l)).
  { subst r. rewrite imap_fmap. apply list_eq. intros i.
    rewrite list_lookup_imap, list_lookup_fmap. destruct ((x :: l) !! i); [|done].
    cbn [fmap option_fmap option_map compose]. by rewrite unmarshal_marshal_source. }
  rewrite Hr, <- list_fmap_compose. f_equal; [apply list_fmap_id|].
  clear. by induction (x :: l).
Qed.

Definition parse_file (f : option (option json)) : option (list StoreSource) :=
  match f with
  | Some (Some j) => let '(l, good) := unmarshal_sources [] j in if good then Some l else None
  | _ => None
  end.

(** The custom sources and the tombstones, as the program reads them. *)
Definition custom_of (s : store_state) : list StoreSource :=
  match parse_file (h_json (ss_host s) !! sources_path) with
  | Some l => l
  | None => default [] (parse_file (h_json (ss_host s) !! sources_path_run))
  end.

Definition strings_of (f : option (option json)) : gset string :=
  match f with
  | Some (Some j) => match unmarshal_strings j with Some urls => list_to_set urls | None => ∅ end
  | _ => ∅
  end.

Definition removed_of (s : store_state) : gset string :=
  strings_of (h_json (ss_host s) !! "/var/lib/sidey/store_sources_removed.json")
  ∪ strings_of (h_json (ss_host s) !! "/run/sidey/store_sources_removed.json").

Lemma exec_loadCustom {E} s : exec (@loadCustomSourcesFile E) s = (inr (custom_of s), s).
Proof.
  unfold exec, loadCustomSourcesFile, first_decodable, ReadJSON, custom_of. rewrite run_bind. simpl.
  destruct (h_json (ss_host s) !! sources_path) as [[j|]|]; simpl.
  1: destruct (unmarshal_sources [] j) as [l []]; [done|].
  all: cbn [run reads]; unfold reads, parse_file;
    destruct (h_json (ss_host s) !! sources_path_run) as [[j'|]|]; [|done..];
    by destruct (unmarshal_sources [] j') as [l' []].
Qed.

Lemma exec_loadRemoved {E} s : exec (@loadDiscoveredRemoved E) s = (inr (removed_of s), s).
Proof.
  assert (Hu : forall (x : gset string) f, match f with
      | Some (Some j) => match unmarshal_strings j with Some urls => x ∪ list_to_set urls | None => x end
      | _ => x end = x ∪ strings_of f).
  { intros x [[j|]|]; unfold strings_of; [destruct (unmarshal_strings j); [done|]|..];
      by rewrite (right_id_L ∅ (∪)). }
  unfold exec, loadDiscoveredRemoved, ReadJSON, removed_of. simpl.
  by rewrite !Hu, (left_id_L ∅ (∪)).
Qed.

(** The state after saving. *)
Definition with_sources (l : list StoreSource) (s : store_state) : store_state :=
  lset (set_json (fun m => <[sources_path_run := Some (marshal_sources l)]>
                           (<[sources_path := Some (marshal_sources l)]> m)) (ss_host s)) s.

Definition with_removed (u : gset string) (s : store_state) : store_state :=
  let j := Some (JArr (JStr <$> sort_by str_le (elements u))) in
  lset (set_json (fun m => <["/run/sidey/store_sources_removed.json" := j]>
                           (<["/var/lib/sidey/store_sources_removed.json" := j]> m)) (ss_host s)) s.

Lemma exec_save {E} l s : exec (@saveCustomSources E l) s = (inr tt, with_sources l s).
Proof. done. Qed.

Lemma exec_saveRemoved {E} u s : exec (@saveDiscoveredRemoved E u) s = (inr tt, with_removed u s).
Proof. done. Qed.

Lemma custom_with_sources l s : custom_of (with_sources l s) = l.
Proof.
  unfold custom_of, with_sources. simpl. rewrite lookup_insert_ne, lookup_insert_eq by done.
  unfold parse_file. by rewrite unmarshal_marshal.
Qed.

Lemma removed_with_sources l s : removed_of (with_sources l s) = removed_of s.
Proof. unfold removed_of, with_sources. simpl. by rewrite !lookup_insert_ne by done. Qed.

(** Both copies of the list of custom sources hold [l], as the program writes it. *)
Definition saved (l : list StoreSource) (s : store_state) : Prop :=
  h_json (ss_host s) !! sources_path = Some (Some (marshal_sources l))
  /\ h_json (ss_host s) !! sources_path_run = Some (Some (marshal_sources l)).

Lemma saved_custom l s : saved l s -> custom_of s = l.
Proof. intros [H1 _]. unfold custom_of, parse_file. by rewrite H1, unmarshal_marshal. Qed.

Lemma saved_with_sources l s : saved l (with_sources l s).
Proof. split; simpl; [by rewrite lookup_insert_ne, lookup_insert_eq|by rewrite lookup_insert_eq]. Qed.

Lemma custom_with_removed u s : custom_of (with_removed u s) = custom_of s.
Proof. unfold custom_of, with_removed. simpl. by rewrite !lookup_insert_ne by done. Qed.

Lemma unmarshal_strs l : unmarshal_strings (JArr (JStr <$> l)) = Some l.
Proof. simpl. induction l as [|x l IH]; [done|]. rewrite fmap_cons. simpl. by rewrite IH. Qed.

Lemma removed_with_removed u s : removed_of (with_removed u s) = u.
Proof.
  unfold removed_of, with_removed. simpl. rewrite lookup_insert_ne, !lookup_insert_eq by done.
  unfold strings_of. rewrite unmarshal_strs. apply set_eq. intros x.
  rewrite elem_of_union, elem_of_list_to_set, elem_of_sort_by, elem_of_elements. tauto.
Qed.

(** ** The mirror *)

Section mirror.
Context `{UuidText} `{Sha1Ops}.

(** A URL the list names. *)
Definition listed (body u : string) : Prop :=
  exists line, line ∈ split_byte "010" (limit_reader (Z.shiftl 1 20) body) /\ discovered_url line = Some u.

(** What the fold over the lines has done: [new] are the URLs it took. *)
Definition synced (removed known0 : gset string) (custom : list StoreSource) (lines : list string)
    (acc : list StoreSource * gset string * Z) : Prop :=
  exists new, acc = (custom ++ (discovered_source <$> new), known0 ∪ list_to_set new, Z.of_nat (length new))
    /\ NoDup new /\ (forall u, u ∈ new <->
         (exists line, line ∈ lines /\ discovered_url line = Some u) /\ (u ∉ known0) /\ (u ∉ removed)).

Lemma sync_line_step removed known0 custom lines acc line :
  synced removed known0 custom lines acc ->
  synced removed known0 custom (lines ++ [line]) (sync_line removed acc line).
Proof using.
  intros (new & -> & Hnd & Hnew). unfold sync_line.
  assert (Hlast : forall u, (exists l, l ∈ lines ++ [line] /\ discovered_url l = Some u) <->
    (exists l, l ∈ lines /\ discovered_url l = Some u) \/ discovered_url line = Some u).
  { intros u. setoid_rewrite elem_of_app. setoid_rewrite list_elem_of_singleton. naive_solver. }
  destruct (discovered_url line) as [u|] eqn:Eu.
  - case_cond.
    + exists new. split_and!; [done..|]. intros v. rewrite Hlast, Hnew.
      assert (discovered_url line = Some v -> ((v ∉ known0) /\ (v ∉ removed)) -> v ∈ new).
      { rewrite Eu. intros [= <-] [Hk Hr]. apply orb_true_iff in Heqb as [Hb|Hb]; bools; [|done]. set_solver. }
      naive_solver.
    + exists (new ++ [u]). apply orb_false_iff in Heqb as [Hk Hr]. bools. split_and!.
      * rewrite fmap_app, app_assoc, length_app, list_to_set_app_L. simpl. f_equal; [f_equal; set_solver|lia].
      * apply NoDup_app. split_and!; [done| |apply NoDup_singleton]. set_solver.
      * intros v. rewrite Hlast, elem_of_app, list_elem_of_singleton, Hnew.
        apply not_elem_of_union in Hk as [Hk _]. naive_solver.
  - exists new. split_and!; [done..|]. intros v. rewrite Hlast, Hnew. naive_solver.
Qed.

Lemma sync_lines_spec removed custom body :
  synced removed (list_to_set (src_URL <$> defaultSources) ∪ list_to_set (src_URL <$> custom)) custom
    (split_byte "010" (limit_reader (Z.shiftl 1 20) body)) (sync_lines removed custom body).
Proof using.
  unfold sync_lines. generalize (split_byte "010" (limit_reader (Z.shiftl 1 20) body)) as lines.
  intros lines. generalize (list_to_set (src_URL <$> defaultSources) ∪ list_to_set (src_URL <$> custom) : gset string) as known0.
  intros known0.
  assert (Hgen : forall done_ acc, synced removed known0 custom done_ acc ->
    synced removed known0 custom (done_ ++ lines) (fold_left (sync_line removed) lines acc)).
  { induction lines as [|l lines IH]; intros done_ acc Hs; simpl; [by rewrite app_nil_r|].
    rewrite cons_middle, app_assoc. by apply IH, sync_line_step. }
  apply (Hgen []). exists []. split_and!; [|apply NoDup_nil_2|set_solver].
  simpl. by rewrite app_nil_r, (right_id_L ∅ (∪)).
Qed.

(** What a sync adds to the custom sources. *)
Definition added_by (s : store_state) (body : string) (new : list string) : Prop :=
  NoDup new /\ forall u, u ∈ new <->
    listed body u /\ (u ∉ (src_URL <$> defaultSources)) /\ (u ∉ (src_URL <$> custom_of s)) /\ (u ∉ removed_of s).

Lemma ewp_sync body s :
  ewp (SyncDiscoveredSources (Some body)) (fun r s' => exists new,
    r = inr (Z.of_nat (length new)) /\ added_by s body new
    /\ custom_of s' = custom_of s ++ (discovered_source <$> new) /\ removed_of s' = removed_of s
    /\ (saved (custom_of s') s' \/ (new = [] /\ s' = s))) s.
Proof using.
  unfold SyncDiscoveredSources. apply ewp_bind. eapply ewp_exec; [apply exec_loadRemoved|]. cbv beta iota.
  apply ewp_bind. eapply ewp_exec; [apply exec_loadCustom|]. cbv beta iota.
  destruct (sync_lines_spec (removed_of s) (custom_of s) body) as (new & -> & Hnd & Hnew).
  assert (Hadd : added_by s body new).
  { split; [done|]. intros u. rewrite Hnew. unfold listed. rewrite not_elem_of_union, !elem_of_list_to_set. tauto. }
  case_cond; bools.
  - destruct new; [|simpl in *; lia]. exists []. split_and!; [done..| |done|by right]. by rewrite app_nil_r.
  - apply ewp_bind. eapply ewp_exec; [apply exec_save|]. cbv beta iota.
    set (l := _ ++ _). pose proof (custom_with_sources l s) as Hc. pose proof (removed_with_sources l s).
    exists new. split_and!; [done..|left]. pose proof (saved_with_sources l s) as Hs.
    change (custom_of _) with (custom_of (with_sources l s)). by rewrite Hc.
Qed.

(** The mirror only adds: after a sync the custom sources are those there
    were, untouched, followed by one managed source for each URL of the list
    that is no built-in or custom source yet and was not deleted; the tombstones
    stay, and the number reported is the number added. *)
Theorem sync_only_adds body s :
  ewp (SyncDiscoveredSources (Some body)) (fun r s' => exists new,
    r = inr (Z.of_nat (length new)) /\ added_by s body new
    /\ custom_of s' = custom_of s ++ (discovered_source <$> new) /\ removed_of s' = removed_of s) s.
Proof using. eapply ewp_mono; [|apply ewp_sync]. intros r s' (new & ? & ? & ? & ? & _). by exists new. Qed.

(** ** Deletion *)

(** The two files agree, or the first is gone; none holds something else. *)
Definition settled (s : store_state) : Prop :=
  (h_json (ss_host s) !! sources_path = None
   \/ h_json (ss_host s) !! sources_path = h_json (ss_host s) !! sources_path_run)
  /\ (parse_file (h_json (ss_host s) !! sources_path_run) = None ->
      h_json (ss_host s) !! sources_path_run = None).

Lemma exec_first_nonempty {E} s :
  settled s ->
  exec (@first_nonempty E [] [sources_path; sources_path_run]) s = (inr (custom_of s), s).
Proof using.
  intros [H1 H2]. unfold exec, first_nonempty, ReadJSON. rewrite run_bind. simpl.
  assert (Hrun : forall f : option (option json), (parse_file f = None -> f = None) ->
    match f with
    | Some (Some j) => exists l, unmarshal_sources [] j = (l, true) /\ parse_file f = Some l
    | Some None => False
    | None => True
    end).
  { intros [[j|]|]; simpl; [|intros Hf; by specialize (Hf eq_refl)|done].
    destruct (unmarshal_sources [] j) as [l []]; [by exists l|]. intros Hf. by specialize (Hf eq_refl). }
  specialize (Hrun _ H2). unfold custom_of.
  destruct (h_json (ss_host s) !! sources_path_run) as [[j|]|] eqn:E2; [|done|].
  - destruct Hrun as (l & Hu & Hp). rewrite Hp. simpl in Hp.
    destruct H1 as [-> | ->]; simpl; unfold reads; rewrite ?E2, Hu; destruct l; simpl; unfold reads;
      rewrite ?E2, ?Hu; done.
  - destruct H1 as [-> | ->]; simpl; unfold reads; by rewrite E2.
Qed.

(** What a deletion buries. *)
Definition buried (l : list StoreSource) : gset string :=
  list_to_set (src_URL <$> select (fun x => src_ManagedBy x =s discoveredManagedBy) l).

(** Burying leaves the sources alone. *)
Definition buries (u : gset string) (s : store_state) {E} (r : E + unit) (s' : store_state) : Prop :=
  r = inr tt /\ custom_of s' = custom_of s /\ removed_of s' = u ∪ removed_of s.

Lemma ewp_bury_one x s : ewp (bury x) (buries (buried [x]) s) s.
Proof using.
  unfold bury, when, buried, select. cbn [List.filter].
  destruct (src_ManagedBy x =s discoveredManagedBy).
  - apply ewp_bind. eapply ewp_exec; [apply exec_loadRemoved|]. cbv beta iota.
    eapply ewp_exec; [apply exec_saveRemoved|]. split_and!; [done|apply custom_with_removed|].
    rewrite removed_with_removed. simpl. by rewrite (right_id_L ∅ (∪)).
  - split_and!; [done..|]. simpl. by rewrite (left_id_L ∅ (∪)).
Qed.

Lemma ewp_bury l s : ewp (for_ l bury) (buries (buried l) s) s.
Proof using.
  revert s. induction l as [|x l IH]; intros s.
  - split_and!; [done..|]. unfold buried. simpl. by rewrite (left_id_L ∅ (∪)).
  - simpl for_. apply ewp_bind. eapply ewp_mono; [|apply ewp_bury_one].
    intros r s1 (-> & Hc & Hr). eapply ewp_mono; [|apply IH].
    intros r s2 (-> & Hc2 & Hr2). split_and!; [done|congruence|].
    rewrite Hr2, Hr. unfold buried, select. cbn [List.filter].
    destruct (src_ManagedBy x =s discoveredManagedBy); cbn [fmap list_fmap list_to_set];
      rewrite ?(right_id_L ∅ (∪)), ?(left_id_L ∅ (∪)), ?(assoc_L (∪)); [|done].
    by rewrite (comm_L (∪) (list_to_set _) {[_]}).
Qed.

(** The list a deletion works on; the list of the sources, when the files are
    settled. *)
Definition deletion_list (s : store_state) : list StoreSource :=
  match (exec (@first_nonempty response [] [sources_path; sources_path_run]) s).1 with
  | inr l => l | inl _ => [] end.

Lemma exec_deletion_list s :
  exec (@first_nonempty response [] [sources_path; sources_path_run]) s = (inr (deletion_list s), s).
Proof using.
  assert (Hok : exists l, exec (@first_nonempty response [] [sources_path; sources_path_run]) s = (inr l, s)).
  { enough (He : ewp (@first_nonempty response [] [sources_path; sources_path_run])
      (fun r s' => s' = s /\ exists l, r = inr l) s).
    { unfold ewp in He. destruct (exec _ s). destruct He as [He [l Hl]]. simpl in *. subst. by exists l. }
    generalize (@nil StoreSource) as custom. generalize [sources_path; sources_path_run] as ps.
    induction ps as [|p ps IH]; intros custom; [by repeat econstructor|].
    apply ewp_bind. eapply ewp_exec; [reflexivity|]. cbv beta iota.
    destruct (h_json _ !! p) as [[j|]|]; try apply IH.
    destruct (unmarshal_sources custom j) as [l good]. case_cond; [by repeat econstructor|apply IH]. }
  destruct Hok as [l Hl]. unfold deletion_list. by rewrite Hl.
Qed.

Lemma settled_deletion_list s : settled s -> deletion_list s = custom_of s.
Proof using. intros Hs. unfold deletion_list. by rewrite exec_first_nonempty. Qed.

Lemma saved_settled l s : saved l s -> settled s.
Proof using.
  intros [H1 H2]. split; [right; congruence|]. rewrite H2. unfold parse_file. by rewrite unmarshal_marshal.
Qed.

Lemma ewp_delete id s :
  id <> "" ->
  ewp (handleDeleteStoreSource id) (fun _ s' =>
    saved (select (fun x => negb (src_ID x =s id)) (deletion_list s)) s'
    /\ removed_of s' = buried (select (fun x => src_ID x =s id) (deletion_list s)) ∪ removed_of s) s.
Proof using.
  intros Hid. unfold handleDeleteStoreSource. rewrite (bool_decide_eq_false_2 _ Hid).
  apply ewp_bind. eapply ewp_exec; [apply exec_deletion_list|]. cbv beta iota zeta.
  apply ewp_bind. eapply ewp_mono; [|apply ewp_bury]. intros r s1 (-> & _ & Hr).
  apply ewp_bind. eapply ewp_exec; [apply exec_save|]. cbv beta iota.
  set (l := select _ (deletion_list s)). split; [exact (saved_with_sources l s1)|].
  etrans; [exact (removed_with_sources l s1)|exact Hr].
Qed.

Lemma ewp_add l body s :
  saved l s ->
  ewp (handleAddStoreSource body) (fun _ s' => removed_of s' = removed_of s /\
    (saved l s' \/ exists req k src, body = Some req /\ new_source req k = inr src /\ saved (l ++ [src]) s')) s.
Proof using.
  intros Hl. unfold handleAddStoreSource. destruct body as [req|]; [|by split; [|left]].
  cbn [mbind prog_mbind prog_bind decodeJSON zoom].
  destruct (new_source req "") as [m|x]; [by split; [|left]|].
  apply ewp_bind. eapply ewp_exec; [reflexivity|]. cbv beta iota zeta.
  set (s1 := lset _ s).
  destruct (new_source req _) as [m|src] eqn:En; [by split; [|left]|].
  apply ewp_bind. eapply ewp_exec; [reflexivity|]. cbv beta iota.
  change (h_json (lget s1)) with (h_json (ss_host s)). destruct Hl as [Hl _].
  rewrite Hl. cbv beta iota. rewrite unmarshal_marshal. cbn [fst].
  apply ewp_bind. eapply ewp_exec; [apply exec_save|]. cbv beta iota. split.
  - exact (removed_with_sources (l ++ [src]) s1).
  - right. exists req. eexists. exists src. split_and!; [done|exact En|]. exact (saved_with_sources (l ++ [src]) s1).
Qed.

(** The calls that change the list of sources. *)
Inductive source_call :=
| CallSync (answer : option string)
| CallAdd (body : option addSourceRequest)
| CallDelete (path_id : string).

Definition do_call (c : source_call) : prog store_state response unit :=
  match c with
  | CallSync answer => _ ← attempt (SyncDiscoveredSources answer); Ret tt
  | CallAdd body => _ ← attempt (E := response) (handleAddStoreSource body); Ret tt
  | CallDelete path_id => _ ← attempt (E := response) (handleDeleteStoreSource path_id); Ret tt
  end.

(** A source an operator has added by one of the calls. *)
Definition added_by_hand (calls : list source_call) (y : StoreSource) : Prop :=
  exists req k, CallAdd (Some req) ∈ calls /\ new_source req k = inr y.

(** What a deletion that left [base] and buried [urls] has settled for good. *)
Definition stays_deleted (calls : list source_call) (base : list StoreSource) (urls : gset string)
    (s : store_state) : Prop :=
  exists l, saved l s /\ urls ⊆ removed_of s
  /\ (forall y, y ∈ l -> src_URL y ∈ urls -> y ∈ base \/ added_by_hand calls y)
  /\ (forall x, x ∈ base -> CallDelete (src_ID x) ∉ calls -> x ∈ l).

Lemma stays_deleted_call calls base urls c s :
  c ∈ calls -> stays_deleted calls base urls s ->
  ewp (do_call c) (fun r s' => r = inr tt /\ stays_deleted calls base urls s') s.
Proof using.
  intros Hc (l & Hl & Hu & Hy & Hx). destruct c as [[body|]|body|id]; apply ewp_bind, ewp_attempt.
  - eapply ewp_mono; [|apply ewp_sync]. intros r s' (new & _ & [_ Hnew] & Hc' & Hr & Hs').
    eapply ewp_exec; [reflexivity|]. split; [done|]. rewrite (saved_custom _ _ Hl) in Hc'.
    exists (l ++ (discovered_source <$> new)). rewrite Hr. split_and!; [|done| |].
    + destruct Hs' as [Hs'|[-> ->]]; [by rewrite <- Hc'|]. by rewrite app_nil_r.
    + intros y [Hin|Hin]%elem_of_app Hyu; [by apply Hy|]. exfalso.
      apply list_elem_of_fmap in Hin as (u & -> & Hin). apply Hnew in Hin as (_ & _ & _ & Hin).
      apply Hin, Hu, Hyu.
    + intros x Hxb Hxc. apply elem_of_app. left. by apply Hx.
  - split; [done|]. by exists l.
  - eapply ewp_mono; [|by apply (ewp_add l)]. intros r s' [Hr Hs']. eapply ewp_exec; [reflexivity|]. split; [done|].
    destruct Hs' as [Hs'|(req & k & src & -> & Hn & Hs')].
    + exists l. by rewrite Hr.
    + exists (l ++ [src]). rewrite Hr. split_and!; [done..| |].
      * intros y [Hin| ->%list_elem_of_singleton]%elem_of_app Hyu; [by apply Hy|]. right. by exists req, k.
      * intros x Hxb Hxc. apply elem_of_app. left. by apply Hx.
  - destruct (decide (id = "")) as [->|Hid]; [split; [done|]; by exists l|].
    eapply ewp_mono; [|by apply ewp_delete]. intros r s' [Hs' Hr]. eapply ewp_exec; [reflexivity|]. split; [done|].
    rewrite (settled_deletion_list s (saved_settled l s Hl)), (saved_custom l s Hl) in Hs', Hr.
    eexists. split_and!; [exact Hs'|rewrite Hr; by apply union_subseteq_r'| |].
    + intros y [Hin _]%elem_of_select. by apply Hy.
    + intros x Hxb Hxc. apply elem_of_select. split; [by apply Hx|].
      apply negb_true_iff, bool_decide_eq_false. congruence.
Qed.

(** C32. What the operator deleted stays deleted, through any number of later
    calls, as long as the files can be read and written.  After deleting a source
    and then any sequence of syncs (of whatever lists), additions and deletions,
    a source that has the URL of a mirrored one that was deleted either was in
    the list before, under another id, or was added by hand since; so no sync
    brings it back.  A source with another id is still there, unless it was
    deleted itself.  The list is the one the deletion reads, which is the list of
    custom sources when the two copies agree ([settled_deletion_list]). *)
Theorem deleted_feed_stays_deleted id calls s :
  id <> "" ->
  ewp (_ ← attempt (handleDeleteStoreSource id); for_ calls do_call)
    (fun r s' => r = inr tt
      /\ (forall x, x ∈ deletion_list s -> src_ID x = id -> src_ManagedBy x = discoveredManagedBy ->
          forall y, y ∈ custom_of s' -> src_URL y = src_URL x ->
          (y ∈ deletion_list s /\ src_ID y <> id) \/ added_by_hand calls y)
      /\ (forall x, x ∈ deletion_list s -> src_ID x <> id -> CallDelete (src_ID x) ∉ calls ->
          x ∈ custom_of s')) s.
Proof using.
  intros Hid. apply ewp_bind, ewp_attempt. eapply ewp_mono; [|by apply ewp_delete]. intros r0 s1 [Hs1 Hr1].
  set (base := select (fun x => negb (src_ID x =s id)) (deletion_list s)) in *.
  set (urls := buried _) in Hr1.
  assert (Hbase : forall y, y ∈ base <-> y ∈ deletion_list s /\ src_ID y <> id).
  { intros y. unfold base. rewrite elem_of_select, negb_true_iff, bool_decide_eq_false. tauto. }
  apply (ewp_for _ (fun rest s' => (forall c, c ∈ rest -> c ∈ calls) /\ stays_deleted calls base urls s')).
  - split; [done|]. exists base. split_and!; [done|rewrite Hr1; apply union_subseteq_l|by left|done].
  - intros s' [_ (l & Hl & _ & Hy & Hx)]. rewrite (saved_custom _ _ Hl). split_and!; [done| |].
    + intros x Hxl Hxi Hxm y Hyl Hyu. rewrite <- Hbase. apply Hy; [done|]. rewrite Hyu.
      unfold urls, buried. apply elem_of_list_to_set, list_elem_of_fmap. exists x. split; [done|].
      rewrite !elem_of_select. by bools.
    + intros x Hxl Hxi Hxc. apply Hx; [by apply Hbase|done].
  - intros c rest s' [Hsub Hst]. eapply ewp_mono; [|apply (stays_deleted_call calls base urls c); [|done]].
    + intros r s2 [-> Hst2]. split; [|done]. intros c' Hc'. apply Hsub. set_solver.
    + apply Hsub. set_solver.
Qed.
End mirror.
