(* ===== verification/Catalog.v ===== *)
(** The catalog (internal/api/store.go, second part): AltStore feeds and GitHub
    releases read into unified apps, the cached aggregation over all sources,
    and the listings kept for update detection.

    Upstream servers are outside the program: [upstream] gives their answers.
    [sort.Slice] promises a sorted permutation and no more, so it is an interface
    ([SortSlice]) with these laws. *)
From S2P Require Import Prelude GoStrings GoTime Effects Schema AuditLog Versions Jobs Http Artifacts Host Sources.

(** ** Sorting *)

Class SortSlice := { sort_slice {A} (less : A -> A -> bool) (l : list A) : list A }.

(** [less] is a strict weak order. *)
Definition weak_order {A} (less : A -> A -> bool) : Prop :=
  (forall a b, less a b = true -> less b a = false)
  /\ (forall a b c, less b a = false -> less c b = false -> less c a = false).

Class SortSliceLaws `{SortSlice} := {
  sort_slice_perm {A} (less : A -> A -> bool) (l : list A) : sort_slice less l ≡ₚ l;
  sort_slice_sorted {A} (less : A -> A -> bool) (l : list A) :
    weak_order less -> StronglySorted (fun a b => less b a = false) (sort_slice less l);
}.

(** The order of an app's versions: stable ones first, then by date, the latest
    first. *)
Definition version_less (a b : AppVersion) : bool :=
  if (av_Channel a =s "stable") && negb (av_Channel b =s "stable") then true
  else if (av_Channel b =s "stable") && negb (av_Channel a =s "stable") then false
  else str_gt (av_UpdatedDate a) (av_UpdatedDate b).

(** ** Channels and keys *)

Definition normalizeBaseKey (bundleID name : string) : string :=
  let lowID := trim_suffix "-beta" (trim_suffix ".nightly" (trim_suffix ".preview"
                 (trim_suffix ".beta" (to_lower bundleID)))) in
  if lowID =s "" then to_lower (trim_space name) else lowID.

Definition detectChannel (bundleID version name desc : string) : string :=
  let combined := to_lower (bundleID ++s " " ++s version ++s " " ++s name ++s " " ++s desc) in
  if contains combined "nightly" then "nightly"
  else if contains combined "alpha" then "alpha"
  else if contains combined "beta" || contains combined " rc" || contains combined "-rc"
          || contains version "b" then "beta"
  else "stable".

Definition is_https (url : string) : bool := has_prefix "https://" (to_lower url).

(** ** AltStore feeds *)

Record feed_version := MkFeedVersion {
  fv_Version : string;
  fv_Date : string;
  fv_LocalizedDescription : string;
  fv_DownloadURL : string;
  fv_Size : Z
}.

Record feed_app := MkFeedApp {
  fa_Name : string;
  fa_BundleIdentifier : string;
  fa_DeveloperName : string;
  fa_Version : string;
  fa_VersionDate : string;
  fa_LocalizedDescription : string;
  fa_IconURL : string;
  fa_DownloadURL : string;
  fa_Size : Z;
  fa_Versions : list feed_version
}.

Record feed := MkFeed { fd_Identifier : string; fd_Name : string; fd_Apps : list feed_app }.

(** A 64-bit integer member, zero when absent; a list member, nil when absent. *)
Definition int64_member (k : string) (j : json) : option Z := default 0 <$> int_member k j.

Definition list_member {A} (f : json -> option A) (k : string) (j : json) : option (list A) :=
  match jget k j with
  | None | Some JNull => Some []
  | Some (JArr l) => mapM f l
  | Some _ => None
  end.

Definition decode_feed_version (j : json) : option feed_version :=
  _ ← is_struct j; v ← str_member "version" j; d ← str_member "date" j;
  t ← str_member "localizedDescription" j; u ← str_member "downloadURL" j; z ← int64_member "size" j;
  _ ← str_member "minOSVersion" j;
  Some (MkFeedVersion v d t u z).

Definition decode_feed_app (j : json) : option feed_app :=
  _ ← is_struct j; n ← str_member "name" j; b ← str_member "bundleIdentifier" j;
  d ← str_member "developerName" j; v ← str_member "version" j; e ← str_member "versionDate" j;
  t ← str_member "localizedDescription" j; i ← str_member "iconURL" j; u ← str_member "downloadURL" j;
  z ← int64_member "size" j; l ← list_member decode_feed_version "versions" j;
  Some (MkFeedApp n b d v e t i u z l).

Definition decode_feed (j : json) : option feed :=
  _ ← is_struct j; i ← str_member "identifier" j; n ← str_member "name" j;
  a ← list_member decode_feed_app "apps" j; Some (MkFeed i n a).

(** The versions of an app: its history, or the legacy top-level fields. *)
Definition feed_entries (a : feed_app) : list feed_version :=
  match select (fun v => negb (fv_DownloadURL v =s "")) (fa_Versions a) with
  | [] => if fa_DownloadURL a =s "" then []
          else [MkFeedVersion (fa_Version a) (fa_VersionDate a) (fa_LocalizedDescription a)
                  (fa_DownloadURL a) (fa_Size a)]
  | l => l
  end.

Definition entry_version (a : feed_app) (e : feed_version) : AppVersion :=
  MkAppVersion (fv_Version e)
    (detectChannel (fa_BundleIdentifier a) (fv_Version e) (fa_Name a) (fv_LocalizedDescription e))
    (fa_BundleIdentifier a) (fv_DownloadURL e) (fv_Size e) (fv_Date e).

Definition no_version : AppVersion := MkAppVersion "" "" "" "" 0 "".

Definition first_app (title key : string) (a : feed_app) (v : AppVersion) : StoreApp :=
  MkStoreApp ("alt-" ++s key) (trim_suffix " Beta" (trim_suffix " (Beta)" (fa_Name a)))
    (fa_DeveloperName a) (fa_LocalizedDescription a) (fa_IconURL a) title "altstore" "" [v] no_version.

(** Another version of an app already seen; a stable one renames it. *)
Definition add_version (a : feed_app) (v : AppVersion) (p : StoreApp) : StoreApp :=
  let stable := av_Channel v =s "stable" in
  MkStoreApp (sp_ID p) (if stable then fa_Name a else sp_Name p) (sp_Developer p)
    (if stable && negb (fa_LocalizedDescription a =s "") then fa_LocalizedDescription a else sp_Description p)
    (if stable && negb (fa_IconURL a =s "") then fa_IconURL a else sp_IconURL p)
    (sp_Source p) (sp_SourceType p) (sp_SourceID p) (sp_Versions p ++ [v]) (sp_Primary p).

(** The map of apps with the order of their first appearance. *)
Fixpoint merge_version (title key : string) (a : feed_app) (v : AppVersion) (m : list (string * StoreApp))
    : list (string * StoreApp) :=
  match m with
  | [] => [(key, first_app title key a v)]
  | (k, p) :: m' => if k =s key then (k, add_version a v p) :: m' else (k, p) :: merge_version title key a v m'
  end.

Definition merge_entry (title : string) (a : feed_app) (m : list (string * StoreApp)) (e : feed_version)
    : list (string * StoreApp) :=
  if negb (is_https (fv_DownloadURL e)) then m
  else merge_version title (normalizeBaseKey (fa_BundleIdentifier a) (fa_Name a)) a (entry_version a e) m.

Definition merge_app (title : string) (m : list (string * StoreApp)) (a : feed_app)
    : list (string * StoreApp) :=
  fold_left (merge_entry title a) (feed_entries a) m.

(** ** GitHub releases *)

Record gh_asset := MkAsset { ga_Name : string; ga_Size : Z; ga_URL : string }.

Record gh_release := MkRelease {
  gr_TagName : string;
  gr_Body : string;
  gr_Prerelease : bool;
  gr_PublishedAt : string;
  gr_Assets : list gh_asset
}.

Definition bool_member (k : string) (j : json) : option bool :=
  match jget k j with
  | None | Some JNull => Some false
  | Some (JBool b) => Some b
  | Some _ => None
  end.

Definition decode_asset (j : json) : option gh_asset :=
  _ ← is_struct j; n ← str_member "name" j; z ← int64_member "size" j;
  u ← str_member "browser_download_url" j; Some (MkAsset n z u).

Definition decode_release (j : json) : option gh_release :=
  _ ← is_struct j; t ← str_member "tag_name" j; _ ← str_member "name" j; b ← str_member "body" j;
  p ← bool_member "prerelease" j; d ← str_member "published_at" j; a ← list_member decode_asset "assets" j;
  Some (MkRelease t b p d a).

Definition decode_releases (j : json) : option (list gh_release) :=
  match j with JNull => Some [] | JArr l => mapM decode_release l | _ => None end.

Definition release_channel (r : gh_release) : string :=
  let tag := to_lower (gr_TagName r) in
  if contains tag "nightly" then "nightly"
  else if contains tag "alpha" then "alpha"
  else if gr_Prerelease r || contains tag "beta" then "beta"
  else "stable".

Definition asset_label (appName tag asset : string) : string :=
  let clean := trim_suffix ".ipa" asset in
  if negb (equal_fold clean appName) && negb (contains tag clean)
  then tag ++s " (" ++s clean ++s ")" else tag.

Definition asset_version (repo appName : string) (r : gh_release) (a : gh_asset) : AppVersion :=
  MkAppVersion (asset_label appName (gr_TagName r) (ga_Name a)) (release_channel r)
    ("com.github." ++s replace_byte "/" "." repo) (ga_URL a) (ga_Size a) (gr_PublishedAt r).

Definition ipa_assets (r : gh_release) : list gh_asset :=
  select (fun a => has_suffix ".ipa" (to_lower (ga_Name a))) (gr_Assets r).

(** The first body, among the releases with an IPA, that is not empty. *)
Definition gh_description (l : list gh_release) : string :=
  default "" (head (select (fun b => negb (b =s ""))
    (gr_Body <$> select (fun r => negb (length (ipa_assets r) =? 0)%nat) l))).

Section catalog.
Context `{SortSlice}.

(** Sort the versions; the first one fills the top-level fields. *)
Definition finish_app (p : StoreApp) : StoreApp :=
  let l := sort_slice version_less (sp_Versions p) in
  MkStoreApp (sp_ID p) (sp_Name p) (sp_Developer p) (sp_Description p) (sp_IconURL p) (sp_Source p)
    (sp_SourceType p) (sp_SourceID p) l (match l with v :: _ => v | [] => sp_Primary p end).

(** The answers of upstream servers by URL: [None] when the request fails or is
    not answered with 200, [Some None] when the body is no JSON. *)
Record upstream := MkUpstream {
  up_get : string -> option (option json);
  up_arrival : list (list StoreApp) -> list (list StoreApp)   (** the order in which fetches end *)
}.

Definition feed_url (src : StoreSource) : string :=
  let url := replace_byte " " "%20" (src_URL src) in
  if negb (has_suffix ".json" url) && negb (contains url "apps.json")
  then trim_suffix "/" url ++s "/apps.json" else url.

Definition apps_of_feed (src : StoreSource) (d : feed) : list StoreApp :=
  if negb (src_ExpectedID src =s "") && negb (fd_Identifier d =s "")
     && negb (fd_Identifier d =s src_ExpectedID src) then []
  else
    let title := if fd_Name d =s "" then src_Name src else fd_Name d in
    (fun kp => finish_app kp.2) <$> fold_left (merge_app title) (fd_Apps d) [].

Definition fetchAltStoreApps (up : upstream) (src : StoreSource) : list StoreApp :=
  let url := feed_url src in
  let body := match up_get up url with
              | Some b => Some b
              | None => if url =s src_URL src then None else up_get up (src_URL src)
              end in
  match body with
  | Some (Some j) => match decode_feed j with Some d => apps_of_feed src d | None => [] end
  | _ => []
  end.

Definition gh_app_name (src : StoreSource) : string :=
  if src_Name src =s "" then default "" (last (split_byte "/" (src_URL src))) else src_Name src.

Definition gh_owner (repo : string) : string := default "" (head (split_byte "/" repo)).

Definition gh_versions (src : StoreSource) (l : list gh_release) : list AppVersion :=
  r ← l; asset_version (src_URL src) (gh_app_name src) r <$> ipa_assets r.

Definition fetchGitHubApps (up : upstream) (src : StoreSource) : list StoreApp :=
  let repo := src_URL src in
  match up_get up ("https://api.github.com/repos/" ++s repo ++s "/releases") with
  | Some (Some j) =>
      match decode_releases j with
      | Some l =>
          match take 6 (sort_slice version_less (gh_versions src l)) with
          | [] => []
          | primary :: rest =>
              [MkStoreApp ("gh-" ++s replace_byte "/" "-" repo) (gh_app_name src) (gh_owner repo)
                 (gh_description l) ("https://github.com/" ++s gh_owner repo ++s ".png")
                 ("GitHub: " ++s repo) "github" "" (primary :: rest) primary]
          end
      | None => []
      end
  | _ => []
  end.

(** ** Aggregation *)

Definition set_source (id : string) (p : StoreApp) : StoreApp :=
  MkStoreApp (sp_ID p) (sp_Name p) (sp_Developer p) (sp_Description p) (sp_IconURL p) (sp_Source p)
    (sp_SourceType p) id (sp_Versions p) (sp_Primary p).

(** One goroutine of the aggregation. *)
Definition fetch_source (up : upstream) (src : StoreSource) : list StoreApp :=
  set_source (src_ID src) <$>
    (if src_Type src =s "github" then fetchGitHubApps up src else fetchAltStoreApps up src).

Definition all_apps (up : upstream) (sources : list StoreSource) : list StoreApp :=
  concat (up_arrival up (fetch_source up <$> sources)).

Definition listing_key (a : StoreApp) : string * string := (sp_SourceID a, av_BundleID (sp_Primary a)).

Definition listing_of (a : StoreApp) (now : instant) : listing :=
  let v := sp_Primary a in
  MkListing (sp_SourceID a) (av_BundleID v) (sp_Name a) (av_Version v) (av_DownloadURL v) (av_Size v)
    (av_UpdatedDate v) now.

(** [INSERT INTO app_source_listings .. ON CONFLICT DO UPDATE]. *)
Definition upsert_listing (a : StoreApp) (w : world) : sqlerr + unit * world :=
  let l := listing_of a (w_now w) in
  if pg_text (li_source_id l) && pg_text (li_bundle_id l) && pg_text (li_name l)
     && pg_text (li_latest_version l) && pg_text (li_latest_download_url l) && pg_text (li_latest_updated_at l)
  then inr (tt, set_db (on_listings (<[listing_key a := l]>)) w)
  else inl SyntaxError.

(** An app whose listing is kept. *)
Definition snapshotted (a : StoreApp) : bool :=
  (sp_SourceType a =s "altstore")
  && negb ((av_BundleID (sp_Primary a) =s "") || (av_DownloadURL (sp_Primary a) =s "")).

(** A failed snapshot is logged only. *)
Definition snapshotListings {E} (apps : list StoreApp) : prog world E unit :=
  for_ (select snapshotted apps) (fun a => _ ← try_ Pool (upsert_listing a); Ret tt).

Definition cache_life : duration := 10 * Minute.

Definition cached (s : store_state) : option (list StoreApp) :=
  if (0 <? length (ss_apps s))%nat && (w_now (h_world (ss_host s)) - ss_updatedAt s <? cache_life)
  then Some (ss_apps s) else None.

Definition getStoreApps {E} (up : upstream) : prog store_state E (list StoreApp) :=
  c ← get_ cached;
  match c with
  | Some apps => Ret apps
  | None =>
      sources ← loadStoreSources;
      let apps := all_apps up sources in
      _ ← put_ (fun s => set_cache apps (w_now (h_world (ss_host s))) s);
      _ ← zoom (S := world) (snapshotListings apps);
      Ret apps
  end.

Definition SnapshotSources {E} (up : upstream) : prog store_state E Z :=
  apps ← getStoreApps up; Ret (Z.of_nat (length apps)).

Definition version_json (v : AppVersion) : json :=
  JObj [("version", JStr (av_Version v)); ("channel", JStr (av_Channel v));
        ("bundle_id", JStr (av_BundleID v)); ("download_url", JStr (av_DownloadURL v));
        ("size", JNum (av_Size v)); ("updated_date", JStr (av_UpdatedDate v))].

Definition app_json (p : StoreApp) : json :=
  let v := sp_Primary p in
  JObj [("id", JStr (sp_ID p)); ("name", JStr (sp_Name p)); ("developer", JStr (sp_Developer p));
        ("description", JStr (sp_Description p)); ("icon_url", JStr (sp_IconURL p));
        ("source", JStr (sp_Source p)); ("source_type", JStr (sp_SourceType p));
        ("source_id", JStr (sp_SourceID p)); ("versions", JArr (version_json <$> sp_Versions p));
        ("bundle_id", JStr (av_BundleID v)); ("version", JStr (av_Version v));
        ("channel", JStr (av_Channel v)); ("download_url", JStr (av_DownloadURL v));
        ("size", JNum (av_Size v)); ("updated_date", JStr (av_UpdatedDate v))].

(** A nil slice is written as null. *)
Definition handleListStoreApps (up : upstream) : prog store_state response response :=
  apps ← getStoreApps up;
  Ret (writeJSON StatusOK (JObj [("apps", match apps with [] => JNull | _ => JArr (app_json <$> apps) end)])).
End catalog.
