(* ===== verification/CatalogSpec.v ===== *)
(** What the catalog guarantees: how a feed's versions are grouped into apps,
    what every listed app looks like, and what the kept listings say. *)
From S2P Require Import Prelude GoStrings GoTime Effects Schema AuditLog Versions Jobs Http Artifacts Host Sources SourcesSpec Catalog.

(** ** Grouping *)

(** Reference definition: the keys in the order of their first appearance, each
    with the values it appears with. *)
Definition nub (l : list string) : list string := reverse (remove_dups (reverse l)).

Definition values {V} (k : string) (l : list (string * V)) : list V :=
  snd <$> select (fun kv => kv.1 =s k) l.

Definition groups {V} (l : list (string * V)) : list (string * list V) :=
  (fun k => (k, values k l)) <$> nub l.*1.

(** The same, one value at a time. *)
Fixpoint group_add {V} (k : string) (v : V) (g : list (string * list V)) : list (string * list V) :=
  match g with
  | [] => [(k, [v])]
  | (k', l) :: g' => if k' =s k then (k', l ++ [v]) :: g' else (k', l) :: group_add k v g'
  end.

Lemma nub_snoc l k : nub (l ++ [k]) = if decide (k ∈ l) then nub l else nub l ++ [k].
Proof.
  unfold nub. rewrite reverse_app. simpl.
  destruct (decide_rel elem_of k (reverse l)) as [Hk|Hk]; rewrite elem_of_reverse in Hk.
  - by rewrite decide_True.
  - rewrite decide_False by done. by rewrite reverse_cons.
Qed.

Lemma elem_of_nub k l : k ∈ nub l <-> k ∈ l.
Proof. unfold nub. by rewrite elem_of_reverse, elem_of_remove_dups, elem_of_reverse. Qed.

Lemma NoDup_nub l : NoDup (nub l).
Proof. unfold nub. rewrite reverse_Permutation. apply NoDup_remove_dups. Qed.

Lemma values_snoc {V} k k' (v : V) l :
  values k (l ++ [(k', v)]) = values k l ++ (if k' =s k then [v] else []).
Proof.
  unfold values, select. rewrite List.filter_app, fmap_app. simpl. by case_cond.
Qed.

Lemma values_None {V} k (l : list (string * V)) : k ∉ l.*1 -> values k l = [].
Proof.
  intros Hk. unfold values. rewrite (proj2 (select_nil _ _)); [done|]. intros [k' v] Hin. simpl. apply bool_decide_eq_false_2.
  intros ->. apply Hk. apply list_elem_of_fmap. by exists (k, v).
Qed.

Lemma group_add_absent {V} k (v : V) g : k ∉ g.*1 -> group_add k v g = g ++ [(k, [v])].
Proof.
  induction g as [|[k' l] g IH]; simpl; intros Hk; [done|]. apply not_elem_of_cons in Hk as [Hne Hk].
  rewrite bool_decide_eq_false_2 by done. by rewrite IH.
Qed.

Lemma group_add_present {V} k (v : V) (f : string -> list V) ks :
  NoDup ks -> k ∈ ks ->
  group_add k v ((fun x => (x, f x)) <$> ks) = (fun x => (x, f x ++ (if k =s x then [v] else []))) <$> ks.
Proof.
  induction 1 as [|x ks Hx Hnd IH]; intros Hin; [by apply not_elem_of_nil in Hin|].
  rewrite !fmap_cons. cbn [group_add]. destruct (decide (x = k)) as [->|Hne].
  - rewrite !bool_decide_eq_true_2 by done. f_equal. apply list_fmap_ext. intros i y Hy.
    apply list_elem_of_lookup_2 in Hy. rewrite bool_decide_eq_false_2 by (intros ->; done). by rewrite app_nil_r.
  - rewrite !bool_decide_eq_false_2 by done. rewrite app_nil_r. f_equal. apply IH. set_solver.
Qed.

(** Adding values one at a time gives the reference grouping. *)
Lemma groups_snoc {V} k (v : V) l : groups (l ++ [(k, v)]) = group_add k v (groups l).
Proof.
  unfold groups. rewrite fmap_app. simpl. rewrite nub_snoc.
  assert (Hf : forall ks : list string, (fun x => (x, values x (l ++ [(k, v)]))) <$> ks
    = (fun x => (x, values x l ++ (if k =s x then [v] else []))) <$> ks).
  { intros ks. apply list_fmap_ext. intros i x _. by rewrite values_snoc. }
  rewrite Hf. destruct (decide (k ∈ l.*1)) as [Hk|Hk].
  - by rewrite group_add_present by (apply NoDup_nub || by apply elem_of_nub).
  - rewrite fmap_app, group_add_absent.
    + simpl. f_equal; [|by rewrite values_None, bool_decide_eq_true_2 by done].
      apply list_fmap_ext. intros i x Hx. apply list_elem_of_lookup_2, (proj1 (elem_of_nub _ _)) in Hx.
      rewrite bool_decide_eq_false_2 by (intros ->; done). by rewrite app_nil_r.
    + rewrite <- list_fmap_compose. unfold compose. simpl. by rewrite list_fmap_id, elem_of_nub.
Qed.

(** The entries of a feed that can be downloaded, with the key of their app. *)
Definition entries_of (a : feed_app) : list (string * AppVersion) :=
  (fun e => (normalizeBaseKey (fa_BundleIdentifier a) (fa_Name a), entry_version a e))
    <$> select (fun e => is_https (fv_DownloadURL e)) (feed_entries a).

Definition feed_entries_of (l : list feed_app) : list (string * AppVersion) := l ≫= entries_of.

Definition view (m : list (string * StoreApp)) : list (string * list AppVersion) :=
  (fun kp => (kp.1, sp_Versions kp.2)) <$> m.

Lemma view_merge_version title key a v m :
  view (merge_version title key a v m) = group_add key v (view m).
Proof.
  unfold view. induction m as [|[k p] m IH]; simpl; [done|]. case_cond; [done|].
  rewrite fmap_cons. simpl. by rewrite IH.
Qed.

Lemma view_merge_app title l m a :
  view m = groups l -> view (merge_app title m a) = groups (l ++ entries_of a).
Proof.
  unfold merge_app, entries_of. revert l m.
  induction (feed_entries a) as [|e es IH]; intros l m Hm; simpl; [by rewrite app_nil_r|].
  unfold merge_entry at 2. destruct (is_https (fv_DownloadURL e)); simpl; [|by apply IH].
  rewrite cons_middle, app_assoc. apply IH. by rewrite view_merge_version, Hm, groups_snoc.
Qed.

Lemma view_merge_apps title apps :
  view (fold_left (merge_app title) apps []) = groups (feed_entries_of apps).
Proof.
  assert (Hgen : forall l m, view m = groups l ->
    view (fold_left (merge_app title) apps m) = groups (l ++ feed_entries_of apps)).
  { induction apps as [|a apps IH]; intros l m Hm; [by rewrite app_nil_r|].
    unfold feed_entries_of. rewrite bind_cons, app_assoc. apply IH. by apply view_merge_app. }
  by apply (Hgen []).
Qed.

(** ** The order of versions *)

Lemma str_gt_asym a b : str_gt a b = true -> str_gt b a = false.
Proof. unfold str_gt. rewrite (str_compare_antisym a b). by destruct (str_compare a b). Qed.

Lemma str_gt_false a b : str_gt a b = false <-> str_compare b a <> Lt.
Proof. unfold str_gt. rewrite (str_compare_antisym b a). destruct (str_compare b a); naive_solver. Qed.

Lemma str_gt_weak a b c : str_gt b a = false -> str_gt c b = false -> str_gt c a = false.
Proof.
  rewrite !str_gt_false. intros H1 H2 H3. destruct (str_compare a b) eqn:Eab; [|done|].
  - apply str_compare_eq in Eab as ->. done.
  - apply H2. eapply str_compare_lt_trans; [|exact H3]. by rewrite (str_compare_antisym a b), Eab.
Qed.

Lemma version_less_weak : weak_order version_less.
Proof.
  split.
  - intros a b. unfold version_less.
    destruct (av_Channel a =s "stable"), (av_Channel b =s "stable"); simpl; try done; apply str_gt_asym.
  - intros a b c. unfold version_less.
    destruct (av_Channel a =s "stable"), (av_Channel b =s "stable"), (av_Channel c =s "stable");
      simpl; try done; apply str_gt_weak.
Qed.

(** ** What is listed *)

(** Stable versions come first, and within each kind the later date. *)
Definition version_order (a b : AppVersion) : Prop :=
  (av_Channel b = "stable" -> av_Channel a = "stable")
  /\ (((av_Channel a = "stable" /\ av_Channel b = "stable") \/ (av_Channel a <> "stable" /\ av_Channel b <> "stable")) ->
      str_gt (av_UpdatedDate b) (av_UpdatedDate a) = false).

Lemma version_less_order a b : version_less b a = false -> version_order a b.
Proof.
  unfold version_less, version_order.
  destruct (av_Channel a =s "stable") eqn:Ea, (av_Channel b =s "stable") eqn:Eb; simpl; bools; naive_solver.
Qed.

(** What every app of the catalog looks like. *)
Record well_formed (src : StoreSource) (p : StoreApp) : Prop := {
  wf_source : sp_SourceID p = src_ID src;
  wf_primary : exists rest, sp_Versions p = sp_Primary p :: rest;
  wf_sorted : StronglySorted version_order (sp_Versions p);
  wf_type : (src_Type src = "github" /\ sp_SourceType p = "github" /\ (length (sp_Versions p) <= 6)%nat)
            \/ (src_Type src <> "github" /\ sp_SourceType p = "altstore"
                /\ forall v, v ∈ sp_Versions p -> is_https (av_DownloadURL v) = true);
}.

Section listed.
Context `{SortSliceLaws}.

Lemma sorted_versions l : StronglySorted version_order (sort_slice version_less l).
Proof using All.
  pose proof (sort_slice_sorted version_less l version_less_weak) as Hs.
  induction Hs as [|x l' _ IH Hall]; constructor; [done|].
  eapply Forall_impl; [exact Hall|]. intros y. apply version_less_order.
Qed.

Lemma sorted_take n l : StronglySorted version_order l -> StronglySorted version_order (take n l).
Proof using.
  intros Hs. revert n. induction Hs as [|x l _ IH Hall]; intros [|n]; simpl; constructor; [done|].
  by apply Forall_take.
Qed.

(** What merging keeps of the apps: their key and their kind. *)
Definition keyed (kp : string * StoreApp) : Prop :=
  sp_ID kp.2 = "alt-" ++s kp.1 /\ sp_SourceType kp.2 = "altstore".

Lemma merge_version_keyed title key a v m :
  Forall keyed m -> Forall keyed (merge_version title key a v m).
Proof using.
  induction 1 as [|[k p] m Hk Hm IH]; simpl; [by repeat constructor|].
  case_cond; constructor; try done.
Qed.

Lemma merge_apps_keyed title apps m :
  Forall keyed m -> Forall keyed (fold_left (merge_app title) apps m).
Proof using.
  revert m. induction apps as [|a apps IH]; intros m Hm; [done|]. simpl. apply IH.
  unfold merge_app. revert m Hm. induction (feed_entries a) as [|e es IHe]; intros m Hm; [done|].
  simpl. apply IHe. unfold merge_entry. case_cond; [done|]. by apply merge_version_keyed.
Qed.

(** A feed that calls itself something else than the source expects. *)
Definition impostor (src : StoreSource) (d : feed) : Prop :=
  src_ExpectedID src <> "" /\ fd_Identifier d <> "" /\ fd_Identifier d <> src_ExpectedID src.

Lemma apps_of_feed_merged src d :
  ~ impostor src d -> exists title,
  apps_of_feed src d = (fun kp => finish_app kp.2) <$> fold_left (merge_app title) (fd_Apps d) [].
Proof using.
  intros Hi. unfold apps_of_feed. destruct (_ && _) eqn:E; [|by eexists].
  destruct Hi. unfold impostor. bools; naive_solver.
Qed.

Lemma apps_of_feed_groups src d :
  ~ impostor src d ->
  (fun p => (sp_ID p, sp_Versions p)) <$> apps_of_feed src d
  = (fun g => ("alt-" ++s g.1, sort_slice version_less g.2)) <$> groups (feed_entries_of (fd_Apps d)).
Proof using.
  intros (title & ->)%apps_of_feed_merged. rewrite <- (view_merge_apps title).
  pose proof (merge_apps_keyed title (fd_Apps d) [] (Forall_nil_2 _)) as Hk.
  unfold view. rewrite <- !list_fmap_compose. apply list_fmap_ext. intros i [k p] Hl. simpl.
  rewrite Forall_forall in Hk. destruct (Hk (k, p) (list_elem_of_lookup_2 _ _ _ Hl)) as [Hid _].
  simpl in Hid. by rewrite Hid.
Qed.

(** C33. A feed is read as its reference grouping says: one app per normalized
    bundle identifier, in the order of first appearance, with all the versions
    of that identifier that can be downloaded over https, stable ones first; a
    feed that does not carry the pinned identifier contributes nothing. *)
Theorem feed_grouping src d :
  (impostor src d -> apps_of_feed src d = [])
  /\ (~ impostor src d ->
      (fun p => (sp_ID p, sp_Versions p)) <$> apps_of_feed src d
      = (fun g => ("alt-" ++s g.1, sort_slice version_less g.2)) <$> groups (feed_entries_of (fd_Apps d))).
Proof using.
  split; [|apply apps_of_feed_groups]. intros (H1 & H2 & H3). unfold apps_of_feed.
  by rewrite (bool_decide_eq_false_2 _ H1), (bool_decide_eq_false_2 _ H2), (bool_decide_eq_false_2 _ H3).
Qed.

(** ** Every listed app *)

Lemma groups_elem {V} k (l : list V) (es : list (string * V)) :
  (k, l) ∈ groups es -> l = values k es /\ l <> [].
Proof using.
  unfold groups. intros (k' & [= <- ->] & Hk)%list_elem_of_fmap. split; [done|].
  apply elem_of_nub, list_elem_of_fmap in Hk as ([k' v] & -> & Hin). simpl. unfold values. intros Hn%fmap_nil_inv.
  rewrite select_nil in Hn. specialize (Hn _ Hin). simpl in Hn. by bools.
Qed.

Lemma feed_entries_https apps k v : (k, v) ∈ feed_entries_of apps -> is_https (av_DownloadURL v) = true.
Proof using.
  unfold feed_entries_of, entries_of. intros (a & Hin & _)%list_elem_of_bind.
  apply list_elem_of_fmap in Hin as (e & [= -> ->] & He). by apply elem_of_select in He as [_ He].
Qed.

Lemma values_elem {V} k v (es : list (string * V)) : v ∈ values k es -> (k, v) ∈ es.
Proof using.
  unfold values. intros ([k' v'] & -> & Hin)%list_elem_of_fmap. apply elem_of_select in Hin as [Hin Hk].
  simpl in Hk. bools. by subst.
Qed.

Lemma finish_app_versions p :
  sp_Versions p <> [] -> exists rest, sp_Versions (finish_app p) = sp_Primary (finish_app p) :: rest.
Proof using All.
  intros Hne. unfold finish_app. simpl.
  destruct (sort_slice version_less (sp_Versions p)) as [|v rest] eqn:Es; [|by exists rest].
  pose proof (sort_slice_perm version_less (sp_Versions p)) as Hp. rewrite Es in Hp.
  by apply Permutation_nil_l in Hp.
Qed.

Lemma altstore_app src d p :
  p ∈ apps_of_feed src d ->
  (exists rest, sp_Versions p = sp_Primary p :: rest) /\ StronglySorted version_order (sp_Versions p)
  /\ sp_SourceType p = "altstore" /\ forall v, v ∈ sp_Versions p -> is_https (av_DownloadURL v) = true.
Proof using All.
  intros Hp. unfold apps_of_feed in Hp. destruct (_ && _); [by apply not_elem_of_nil in Hp|].
  set (title := if fd_Name d =s "" then src_Name src else fd_Name d) in Hp.
  pose proof (view_merge_apps title (fd_Apps d)) as Hv.
  pose proof (merge_apps_keyed title (fd_Apps d) [] (Forall_nil_2 _)) as Hk. rewrite Forall_forall in Hk.
  apply list_elem_of_fmap in Hp as ([k q] & -> & Hq). simpl.
  assert (Hg : (k, sp_Versions q) ∈ groups (feed_entries_of (fd_Apps d))).
  { rewrite <- Hv. apply list_elem_of_fmap. by exists (k, q). }
  apply groups_elem in Hg as [Hval Hne]. destruct (Hk _ Hq) as [_ Ht]. split_and!.
  - by apply finish_app_versions.
  - apply sorted_versions.
  - done.
  - intros v. simpl. rewrite (sort_slice_perm version_less (sp_Versions q)), Hval.
    intros Hv'%values_elem. by eapply feed_entries_https.
Qed.

(** C34. Every app of the catalog is well formed: it has a version, the
    top-level fields are those of the first one, stable versions come first and
    then the latest; an app of a feed has https downloads only, an app of GitHub
    releases at most six versions. *)
Theorem catalog_well_formed up src p : p ∈ fetch_source up src -> well_formed src p.
Proof using All.
  unfold fetch_source. intros (q & -> & Hq)%list_elem_of_fmap. destruct (src_Type src =s "github") eqn:Et; bools.
  - unfold fetchGitHubApps in Hq.
    destruct (up_get _ _) as [[j|]|]; [|by apply not_elem_of_nil in Hq..].
    destruct (decode_releases j) as [l|]; [|by apply not_elem_of_nil in Hq].
    pose proof (sorted_take 6 _ (sorted_versions (gh_versions src l))) as Hs.
    pose proof (firstn_le_length 6 (sort_slice version_less (gh_versions src l))) as Hl.
    destruct (take 6 _) as [|v rest]; [by apply not_elem_of_nil in Hq|].
    apply list_elem_of_singleton in Hq as ->. split; simpl in *; [done|by exists rest|done|]. by left.
  - assert (Ha : exists d, q ∈ apps_of_feed src d).
    { unfold fetchAltStoreApps in Hq. repeat case_match; first [by apply not_elem_of_nil in Hq|by eexists]. }
    destruct Ha as [d Hd]. destruct (altstore_app _ _ _ Hd) as (H1 & H2 & H3 & H4).
    split; simpl; [done..|]. by right.
Qed.
End listed.
