(* ===== verification/Updates.v ===== *)
(** Update detection (internal/api/store.go, third part): deployed versions and
    watched bundles against the listings the catalog left in the database. *)
From S2P Require Import Prelude GoStrings GoTime Effects Schema AuditLog Versions Jobs Http Artifacts Host Sources Catalog.

(** ** Queries *)

Record deployed_version := MkDeployed {
  de_deploymentID : uuid;
  de_deviceID : uuid;
  de_deviceName : string;
  de_bundleID : string;
  de_version : string
}.

Definition deployed_row (w : world) (dep : deployment) (ir : installation) : option deployed_version :=
  if bool_decide (ir_deployment_id ir = dp_id dep) then
    d ← W_devices w !! dp_device_id dep; sid ← ir_signed_artifact_id ir; sa ← W_signed w !! sid;
    a ← W_artifacts w !! sa_source_artifact_id sa; b ← ar_bundle_identifier a;
    if b =s "" then None
    else Some (MkDeployed (dp_id dep) (dp_device_id dep) (default "" (dv_device_name d)) b
                 (default "" (ar_version a)))
  else None.

Definition deployed_versions (w : world) : list deployed_version :=
  dep ← rows (W_deployments w); omap (deployed_row w dep) (rows (W_installations w)).

Definition listings (w : world) : list listing := (map_to_list (W_listings w)).*2.

Definition listings_among (bundles : list string) (w : world) : list listing :=
  select (fun l => in_strs (li_bundle_id l) bundles) (listings w).

Definition subscriptions (w : world) : list subscription := (map_to_list (W_subscriptions w)).*2.

(** ** The best listing of a bundle *)

(** A row replaces the best so far when it is newer. *)
Definition newer_listing (cur : option listing) (l : listing) : option listing :=
  match cur with
  | Some c => if 0 <? compareVersions (li_latest_version l) (li_latest_version c) then Some l else cur
  | None => Some l
  end.

Definition best_listings (ls : list listing) : gmap string listing :=
  fold_left (fun m l =>
    match newer_listing (m !! li_bundle_id l) l with
    | Some b => <[li_bundle_id l := b]> m
    | None => m
    end) ls ∅.

(** ** The report *)

Inductive update :=
| Deployed (d : deployed_version) (l : listing)
| Subscribed (s : subscription) (l : listing).

Definition deployment_update (best : gmap string listing) (d : deployed_version) : option update :=
  match best !! de_bundleID d with
  | Some l => if compareVersions (li_latest_version l) (de_version d) <=? 0 then None else Some (Deployed d l)
  | None => None
  end.

(** The subscription's listing: from the rows at hand, else by a query of its
    own. *)
Definition subscribed_listing {E} (best : gmap string listing) (bundle : string)
    : prog store_state E (option listing) :=
  match best !! bundle with
  | Some l => Ret (Some l)
  | None =>
      r ← zoom (S := world) (try_ Pool (reads (listings_among [bundle])));
      Ret match r with inr ls => fold_left newer_listing ls None | inl _ => None end
  end.

Definition subscription_update (s : subscription) (o : option listing) : option update :=
  match o with
  | Some l =>
      if negb (su_seen_version s =s "")
         && (compareVersions (li_latest_version l) (su_seen_version s) <=? 0) then None
      else if li_latest_download_url l =s "" then None
      else Some (Subscribed s l)
  | None => None
  end.

Definition add_subscription_update {E} (best : gmap string listing) (acc : list update) (s : subscription)
    : prog store_state E (list update) :=
  o ← subscribed_listing best (su_bundle_id s);
  Ret match subscription_update s o with Some u => acc ++ [u] | None => acc end.

(** The updates, with the sources their names come from. *)
Definition list_updates : prog store_state response (list update * list StoreSource) :=
  deps ← zoom (S := world) (need Pool (reads deployed_versions) InternalServerError
                              "deployed versions lookup failed");
  match deps with
  | [] => Ret ([], [])
  | _ =>
      rows ← zoom (S := world) (need Pool (reads (listings_among (de_bundleID <$> deps))) InternalServerError
                                  "snapshot lookup failed");
      let best := best_listings rows in
      sources ← loadStoreSources;
      subs ← zoom (S := world) (try_ Pool (reads subscriptions));
      us ← fold_ (add_subscription_update best) (omap (deployment_update best) deps)
             (match subs with inr l => l | inl _ => [] end);
      Ret (us, sources)
  end.

(** The last source with the id names it. *)
Definition source_name (sources : list StoreSource) (id : string) : string :=
  default "" (src_Name <$> last (select (fun x => src_ID x =s id) sources)).

Section updates.
Context `{UuidText}.

Definition listing_json (sources : list StoreSource) (l : listing) : list (string * json) :=
  [("latest_version", JStr (li_latest_version l));
   ("latest_download_url", JStr (li_latest_download_url l)); ("latest_size", JNum (li_latest_size l));
   ("latest_updated_at", JStr (li_latest_updated_at l)); ("source_id", JStr (li_source_id l));
   ("source_name", JStr (source_name sources (li_source_id l))); ("app_name", JStr (li_name l))].

Definition update_json (sources : list StoreSource) (u : update) : json :=
  match u with
  | Deployed d l =>
      JObj ([("kind", JStr "deployment"); ("deployment_id", JStr (uuid_text (de_deploymentID d)));
             ("device_id", JStr (uuid_text (de_deviceID d))); ("device_name", JStr (de_deviceName d));
             ("bundle_id", JStr (de_bundleID d)); ("current_version", JStr (de_version d))]
            ++ listing_json sources l)
  | Subscribed s l =>
      JObj ([("kind", JStr "subscription"); ("bundle_id", JStr (su_bundle_id s));
             ("current_version", JStr (su_seen_version s))] ++ listing_json sources l)
  end.

Definition handleListUpdates : prog store_state response response :=
  r ← list_updates;
  Ret (writeJSON StatusOK (JObj [("updates", JArr (update_json r.2 <$> r.1))])).

(** ** Subscriptions *)

Definition handleListSubscriptions : handler :=
  l ← need Pool (reads (fun w => sort_by (fun a b => su_created_at a <=? su_created_at b) (subscriptions w)))
        InternalServerError "subscriptions lookup failed";
  ok StatusOK (JObj [("subscriptions", JArr ((fun s =>
    JObj [("bundle_id", JStr (su_bundle_id s)); ("name", JStr (su_name s));
          ("seen_version", JStr (su_seen_version s));
          ("created_at", JStr (format_rfc3339 (su_created_at s)))]) <$> l))]).

Record addSubscriptionRequest := MkAddSubscription { sb_BundleID : string; sb_Name : string }.

(** [ORDER BY seen_at DESC LIMIT 1] *)
Definition latest_listing (bundle : string) (w : world) : option listing :=
  first_by (fun a b => li_seen_at b <=? li_seen_at a) (listings_among [bundle] w).

Definition upsert_subscription (bundle name seen : string) (w : world) : sqlerr + unit * world :=
  if pg_text bundle && pg_text name then
    let s := match W_subscriptions w !! bundle with
             | Some s => set_su_name name s
             | None => MkSubscription bundle name seen (w_now w)
             end in
    inr (tt, set_db (on_subscriptions (<[bundle := s]>)) w)
  else inl SyntaxError.

Definition handleAddSubscription (body : option addSubscriptionRequest) : handler :=
  req ← decodeJSON body;
  let bundle := trim_space (sb_BundleID req) in
  if bundle =s "" then fail BadRequest "bundle_id is required" else
  o ← try_ Pool (reads (latest_listing bundle));
  let found := match o with inr (Some l) => (li_latest_version l, li_name l) | _ => ("", "") end in
  let name := if sb_Name req =s "" then found.2 else sb_Name req in
  _ ← need Pool (upsert_subscription bundle name found.1) InternalServerError "subscription save failed";
  _ ← Record_ "admin" "store_subscription.added"
        [WithData (JObj [("bundle_id", JStr bundle); ("seen_version", JStr found.1)])];
  ok Created (JObj [("bundle_id", JStr bundle); ("name", JStr name); ("seen_version", JStr found.1)]).

Definition handleDeleteSubscription (path_bundle : string) : handler :=
  if path_bundle =s "" then fail BadRequest "bundle id is required" else
  _ ← need Pool (writes (set_db (on_subscriptions (delete path_bundle)))) InternalServerError
        "subscription delete failed";
  ok StatusOK (JObj [("status", JStr "deleted"); ("bundle_id", JStr path_bundle)]).
End updates.
