(* ===== verification/UpdatesSpec.v ===== *)
(** What update detection guarantees: it reports newer versions only, and every
    deployment whose listings have one. *)
From S2P Require Import Prelude GoStrings GoTime Effects Schema AuditLog Versions Jobs Http Artifacts Host Sources SourcesSpec Catalog Updates.

(** ** The best listing *)

(** The best of the rows seen: one of them, and none is newer as far as versions
    are numbers. *)
Definition best_among (ls : list listing) (o : option listing) : Prop :=
  match o with
  | Some b => b ∈ ls /\ ((forall l, l ∈ ls -> numeric_version (li_latest_version l)) ->
      forall l, l ∈ ls -> compareVersions (li_latest_version l) (li_latest_version b) <= 0)
  | None => ls = []
  end.

Lemma compareVersions_refl_le v : compareVersions v v <= 0.
Proof. pose proof (compareVersions_antisym_aux v v). lia. Qed.

Lemma newer_listing_best ls o l : best_among ls o -> best_among (ls ++ [l]) (newer_listing o l).
Proof.
  destruct o as [b|]; simpl.
  - intros [Hb Hmax]. destruct (0 <? _) eqn:Ec; bools; simpl; (split; [set_solver|]); intros Hn x Hx.
    + apply elem_of_app in Hx as [Hx| ->%list_elem_of_singleton]; [|apply compareVersions_refl_le].
      assert (compareVersions (li_latest_version x) (li_latest_version b) <= 0)
        by (apply Hmax; [intros; apply Hn; set_solver|done]).
      assert (compareVersions (li_latest_version b) (li_latest_version l) <= 0)
        by (rewrite compareVersions_antisym_aux; lia).
      eapply compareVersions_numeric_le_trans; [..|done|done]; apply Hn; set_solver.
    + apply elem_of_app in Hx as [Hx| ->%list_elem_of_singleton]; [|done].
      apply Hmax; [intros; apply Hn; set_solver|done].
  - intros ->. simpl. split; [set_solver|]. intros _ x ->%list_elem_of_singleton. apply compareVersions_refl_le.
Qed.

Lemma fold_newer_best ls : best_among ls (fold_left newer_listing ls None).
Proof.
  assert (Hgen : forall l0 o, best_among l0 o -> best_among (l0 ++ ls) (fold_left newer_listing ls o)).
  { induction ls as [|l ls IH]; intros l0 o Ho; simpl; [by rewrite app_nil_r|].
    rewrite cons_middle, app_assoc. by apply IH, newer_listing_best. }
  by apply (Hgen [] None).
Qed.

Definition of_bundle (bundle : string) (ls : list listing) : list listing :=
  select (fun l => li_bundle_id l =s bundle) ls.

Lemma best_listings_best ls bundle : best_among (of_bundle bundle ls) (best_listings ls !! bundle).
Proof.
  unfold best_listings.
  assert (Hgen : forall l0 (m : gmap string listing), best_among (of_bundle bundle l0) (m !! bundle) ->
    best_among (of_bundle bundle (l0 ++ ls)) (fold_left (fun m l =>
      match newer_listing (m !! li_bundle_id l) l with
      | Some b => <[li_bundle_id l := b]> m | None => m end) ls m !! bundle)).
  { induction ls as [|l ls IH]; intros l0 m Hm; simpl; [by rewrite app_nil_r|].
    rewrite cons_middle, app_assoc. apply IH. unfold of_bundle, select in *. rewrite List.filter_app. simpl.
    destruct (li_bundle_id l =s bundle) eqn:E; bools.
    - subst bundle. pose proof (newer_listing_best _ _ l Hm) as Hb.
      destruct (newer_listing (m !! li_bundle_id l) l) as [b|] eqn:En; [by rewrite lookup_insert_eq|].
      exfalso. unfold newer_listing in En. repeat case_match; done.
    - rewrite app_nil_r. destruct (newer_listing _ l); [by rewrite lookup_insert_ne|done]. }
  apply (Hgen [] ∅). by rewrite lookup_empty.
Qed.

(** ** The report *)

(** Programs that only look. *)
Lemma wp_zoom_need {S T E A} `{Lens S T} (g : S -> A) c (e : sqlerr -> E) t :
  wp (zoom (must c (reads g) e)) (fun r t' => t' = t /\ match r with inl _ => True | inr a => a = g (lget t) end) t.
Proof. apply wp_zoom. simpl. by rewrite lset_lget. Qed.

Lemma wp_zoom_try {S T E A} `{Lens S T} (g : S -> A) c t :
  wp (zoom (E := E) (try_ c (reads g))) (fun r t' => t' = t /\ (r = inr (inl Fault) \/ r = inr (inr (g (lget t))))) t.
Proof. apply wp_zoom. simpl. rewrite lset_lget. auto. Qed.

Lemma wp_ReadJSON {S E} `{Lens host S} path s :
  wp (@ReadJSON S E _ path) (fun r s' => s' = s /\ exists o, r = inr o) s.
Proof. unfold ReadJSON. apply wp_try_bind; simpl; eauto. Qed.

Lemma wp_loadStoreSources {E} s :
  wp (@loadStoreSources E) (fun r s' => s' = s /\ exists l, r = inr l) s.
Proof.
  unfold loadStoreSources. apply wp_bind. eapply wp_mono; [|apply wp_ReadJSON]. intros r s' (-> & a & ->).
  apply wp_bind. destruct a as [d|]; [simpl; eauto|].
  eapply wp_mono; [|apply wp_ReadJSON]. intros r s' (-> & a & ->). simpl. eauto.
Qed.

Definition world_of (s : store_state) : world := h_world (ss_host s).

Definition listing_row (s : store_state) (bundle : string) (l : listing) : Prop :=
  l ∈ listings (world_of s) /\ li_bundle_id l = bundle.

(** What an update in the report says is so. *)
Definition sound_update (s : store_state) (u : update) : Prop :=
  match u with
  | Deployed d l => d ∈ deployed_versions (world_of s) /\ listing_row s (de_bundleID d) l
      /\ 0 < compareVersions (li_latest_version l) (de_version d)
  | Subscribed sub l => sub ∈ subscriptions (world_of s) /\ listing_row s (su_bundle_id sub) l
      /\ li_latest_download_url l <> ""
      /\ (su_seen_version sub <> "" -> 0 < compareVersions (li_latest_version l) (su_seen_version sub))
  end.

Lemma best_listing_row s bundles bundle l :
  best_listings (listings_among bundles (world_of s)) !! bundle = Some l -> listing_row s bundle l.
Proof.
  intros Hl. pose proof (best_listings_best (listings_among bundles (world_of s)) bundle) as Hb.
  rewrite Hl in Hb. destruct Hb as [Hb _]. unfold of_bundle, listings_among in Hb.
  rewrite !elem_of_select in Hb. destruct Hb as [[Hb _] He]. by bools.
Qed.

Lemma subscription_update_sound s sub o u :
  sub ∈ subscriptions (world_of s) -> (forall l, o = Some l -> listing_row s (su_bundle_id sub) l) ->
  subscription_update sub o = Some u -> sound_update s u.
Proof.
  intros Hs Ho. unfold subscription_update. destruct o as [l|]; [|done].
  destruct (_ && _) eqn:E1; [done|]. destruct (li_latest_download_url l =s "") eqn:E2; [done|]. intros [= <-]. bools.
  destruct (Ho l eq_refl) as [Hl Hb]. split_and!; try done. intros Hne. by destruct E1.
Qed.

Lemma wp_subscribed_listing {E} bundles bundle s :
  wp (@subscribed_listing E (best_listings (listings_among bundles (world_of s))) bundle)
    (fun r s' => s' = s /\ exists o, r = inr o /\ forall l, o = Some l -> listing_row s bundle l) s.
Proof.
  unfold subscribed_listing. destruct (best_listings _ !! bundle) as [l|] eqn:El.
  - split; [done|]. eexists. split; [done|]. intros l' [= <-]. by eapply best_listing_row.
  - apply wp_bind. eapply wp_mono; [|apply wp_zoom_try]. intros r s' (-> & [-> | ->]); (split; [done|]);
      eexists; (split; [done|]); [done|]. intros l Hl.
    pose proof (fold_newer_best (listings_among [bundle] (world_of s))) as Hb.
    change (lget s) with (world_of s) in Hl. rewrite Hl in Hb. destruct Hb as [Hb _].
    unfold listings_among in Hb. rewrite elem_of_select, in_strs_true, list_elem_of_singleton in Hb.
    destruct Hb. by split.
Qed.

(** The deployment part of the report. *)
Definition deployment_updates (w : world) : list update :=
  omap (deployment_update (best_listings (listings_among (de_bundleID <$> deployed_versions w) w)))
    (deployed_versions w).

Lemma wp_list_updates s :
  wp list_updates (fun r s' => s' = s /\ match r with
    | inl _ => True
    | inr (us, _) => (forall u, u ∈ deployment_updates (world_of s) -> u ∈ us)
        /\ forall u, u ∈ us -> u ∈ deployment_updates (world_of s) \/ sound_update s u
    end) s.
Proof.
  unfold list_updates, need. apply wp_bind. eapply wp_mono; [|apply wp_zoom_need].
  intros [e|deps] s' (-> & Hd); [done|]. subst deps. change (lget s) with (world_of s).
  unfold deployment_updates. destruct (deployed_versions (world_of s)) as [|d0 deps0] eqn:Ed.
  { split; [done|]. split; [|set_solver]. simpl. intros u Hu. by apply not_elem_of_nil in Hu. }
  rewrite <- Ed. clear Ed d0 deps0. set (deps := deployed_versions (world_of s)).
  apply wp_bind. eapply wp_mono; [|apply wp_zoom_need]. intros [e|rows] s' (-> & Hr); [done|]. subst rows.
  change (lget s) with (world_of s). set (best := best_listings _).
  apply wp_bind. eapply wp_mono; [|apply wp_loadStoreSources]. intros r s' (-> & srcs & ->).
  apply wp_bind. eapply wp_mono; [|apply wp_zoom_try]. intros r s' (-> & Hsubs).
  assert (Hl : exists l, r = inr l /\ forall x, x ∈ match l with inr l => l | inl _ => [] end -> x ∈ subscriptions (world_of s))
    by (destruct Hsubs as [-> | ->]; eexists; (split; [done|]); set_solver).
  destruct Hl as (l & -> & Hl). set (dus := omap _ deps). apply wp_bind.
  apply (wp_fold _ (fun rest us s' => s' = s /\ (forall x, x ∈ rest -> x ∈ subscriptions (world_of s))
    /\ (forall u, u ∈ dus -> u ∈ us) /\ forall u, u ∈ us -> u ∈ dus \/ sound_update s u)).
  - split_and!; auto.
  - intros us s' (-> & _ & H1 & H2). done.
  - intros x rest us s' (-> & Hx & H1 & H2). unfold add_subscription_update. apply wp_bind.
    eapply wp_mono; [|apply wp_subscribed_listing]. intros r s' (-> & o & -> & Ho).
    split; [done|]. split; [intros; apply Hx; by right|].
    destruct (subscription_update x o) as [u|] eqn:Eu; [|done].
    assert (sound_update s u) by (eapply subscription_update_sound; [apply Hx; by left|exact Ho|exact Eu]).
    split; intros v; rewrite elem_of_app, ?list_elem_of_singleton; naive_solver.
Qed.

Lemma deployment_updates_sound s u : u ∈ deployment_updates (world_of s) -> sound_update s u.
Proof.
  unfold deployment_updates. intros (d & Hd & Hu)%list_elem_of_omap. unfold deployment_update in Hu.
  destruct (best_listings _ !! de_bundleID d) as [l|] eqn:El; [|done].
  destruct (_ <=? 0) eqn:Ec; [done|]. bools. injection Hu as <-.
  split_and!; [done|by eapply best_listing_row|lia].
Qed.

(** Updates: everything reported is so (a listing of the same bundle that is
    strictly newer than what is deployed, or than what the subscription has
    seen); and a deployment whose bundle has a newer listing is reported with
    one that no other listing exceeds, as far as versions are numbers.  Nothing
    is changed. *)
Theorem updates_are_newer fl s us srcs s' :
  run fl list_updates s = (inr (us, srcs), s') ->
  s' = s /\ (forall u, u ∈ us -> sound_update s u)
  /\ (forall d l, d ∈ deployed_versions (world_of s) -> listing_row s (de_bundleID d) l ->
      0 < compareVersions (li_latest_version l) (de_version d) -> numeric_version (de_version d) ->
      (forall x, listing_row s (de_bundleID d) x -> numeric_version (li_latest_version x)) ->
      exists b, Deployed d b ∈ us
        /\ forall x, listing_row s (de_bundleID d) x -> compareVersions (li_latest_version x) (li_latest_version b) <= 0).
Proof.
  intros Hrun. apply (wp_run_eq _ _ _ _ _ _ (wp_list_updates s)) in Hrun as (-> & Hin & Hout). split; [done|].
  split; [intros u [Hu|Hu]%Hout; [by apply deployment_updates_sound|done]|].
  intros d l Hd Hl Hc Hnd Hnum.
  set (rows := listings_among (de_bundleID <$> deployed_versions (world_of s)) (world_of s)).
  assert (Hrow : forall x, x ∈ of_bundle (de_bundleID d) rows <-> listing_row s (de_bundleID d) x).
  { intros x. unfold of_bundle, rows, listings_among, listing_row. rewrite !elem_of_select, in_strs_true.
    bools. split; [naive_solver|]. intros [Hx Hb]. split_and!; [done| |done]. rewrite Hb.
    apply list_elem_of_fmap. by exists d. }
  pose proof (best_listings_best rows (de_bundleID d)) as Hb.
  destruct (best_listings rows !! de_bundleID d) as [b|] eqn:Eb; simpl in Hb.
  - destruct Hb as [Hb Hmax].
    assert (Hmax' : forall x, listing_row s (de_bundleID d) x -> compareVersions (li_latest_version x) (li_latest_version b) <= 0).
    { intros x Hx. apply Hmax; [|by apply Hrow]. intros y Hy. by apply Hnum, Hrow. }
    exists b. split; [|done]. apply Hin. unfold deployment_updates. fold rows.
    apply list_elem_of_omap. exists d. split; [done|]. unfold deployment_update. rewrite Eb.
    case_cond; [|done]. bools. exfalso.
    assert (compareVersions (li_latest_version l) (de_version d) <= 0); [|lia].
    eapply compareVersions_numeric_le_trans; [| | |by apply Hmax'|done]; try done; apply Hnum; [done|].
    by apply Hrow.
  - apply Hrow in Hl. rewrite Hb in Hl. by apply not_elem_of_nil in Hl.
Qed.
