(* ===== verification/StoreInstall.v ===== *)
(** Importing from the catalog and publishing the own library
    (internal/api/store.go, last part): the download of a store link into
    quarantine with the job that installs it when it is approved, and the
    repository document other stores read. *)
From S2P Require Import Prelude GoStrings GoTime Effects Schema AuditLog Versions Jobs Scheduler Http Auth Agents Artifacts Signing Host Accounts Sources Catalog.

Definition UnprocessableEntity : Z := 422.

Record storeInstallRequest := MkStoreInstall {
  si_Name : string;
  si_DownloadURL : string;
  si_DeviceID : uuid;
  si_Mode : string;
  si_AppleID : string
}.

(** LiveContainer itself is always signed natively. *)
Definition install_mode (req : storeInstallRequest) (meta : Metadata) : string :=
  if contains (to_lower (si_Name req)) "livecontainer"
     || contains (to_lower (si_DownloadURL req)) "livecontainer"
     || (md_BundleIdentifier meta =s livecontainer_bundle) then "native"
  else if si_Mode req =s "" then "livecontainer" else si_Mode req.

(** The account query of a store install: no preference for proven accounts. *)
Definition store_preferred (a b : account) : bool :=
  (slots b <? slots a) || ((slots a =? slots b) && later_auth a b).

Definition store_auto_account (w : world) : sqlerr + option account * world :=
  let l := select may_sign (rows (W_accounts w)) in
  if existsb slots_overflow l then inl SyntaxError else inr (first_by store_preferred l, w).

Definition store_account (requested : string) : prog world response string :=
  let appleID := trim_space requested in
  if (appleID =s "") || (appleID =s "auto") then
    r ← try_ Pool store_auto_account;
    match r with
    | inr (Some a) => if ac_label a =s "" then Ret appleID else Ret (ac_label a)
    | _ => Ret appleID
    end
  else Ret appleID.

(** The texts of the device, empty when it is not found. *)
Definition device_texts (id : uuid) : prog world response device :=
  o ← try_ Pool (reads (fun w => W_devices w !! id));
  Ret match o with
      | inr (Some d) => d
      | _ => MkDevice id "" "" None None None None "" None None
      end.

(** An imported version becomes the seen one of a subscription. *)
Definition seen_version (bundle version : string) (w : world) : sqlerr + unit * world :=
  if pg_text bundle && pg_text version
  then inr (tt, set_db (on_subscriptions (alter (set_su_seen_version version) bundle)) w)
  else inl SyntaxError.

Definition mark_seen (meta : Metadata) : prog world response unit :=
  if (md_BundleIdentifier meta =s "") || (md_Version meta =s "") then Ret tt
  else _ ← try_ Pool (seen_version (md_BundleIdentifier meta) (md_Version meta)); Ret tt.

Section install.
Context `{UuidText} `{SecretOps} `{ArchiveOps}.

Definition store_filename (name : string) : string :=
  if has_suffix ".ipa" name then name else name ++s ".ipa".

(** Steps 2 to 4: inspect, publish, record. *)
Definition import_artifact (req : storeInstallRequest) (sha bytes : string)
    : prog world response (artifact * Metadata) :=
  i ← try_ Fs (reads (fun _ => Inspect bytes));
  match i with
  | inr (inr meta) =>
      _ ← Publish sha (internal "publishing artifact failed");
      a ← need Pool (upsert_artifact (imported_artifact sha (store_filename (si_Name req)) "store" "quarantined" meta)
                       (set_ar_filename (store_filename (si_Name req))))
            InternalServerError "artifact database upsert failed";
      Ret (a, meta)
  | inr (inl e) => fail UnprocessableEntity ("downloaded file failed IPA inspection: " ++s ErrMalformed e)
  | inl _ => fail UnprocessableEntity ("downloaded file failed IPA inspection: " ++s ErrMalformed NotZip)
  end.

Definition install_response (req : storeInstallRequest) (mode : string) (a : artifact)
    (more : list (string * json)) : response :=
  writeJSON Created (JObj ([("status", JStr "ok"); ("mode", JStr mode);
    ("artifact_id", JStr (uuid_text (ar_id a))); ("device_id", JStr (uuid_text (si_DeviceID req)))] ++ more)).

(** Step 5: the job. *)
Definition route_install (o : origin) (req : storeInstallRequest) (mode : string) (a : artifact) : handler :=
  d ← device_texts (si_DeviceID req);
  if mode =s "livecontainer" then
    id ← queue_job "livecontainer_push" (si_DeviceID req) (push_params (ar_id a) d livecontainer_bundle) 3
           "enqueuing LiveContainer push job failed";
    Ret (install_response req "livecontainer" a
      [("job_id", JStr (uuid_text id));
       ("message", JStr ("Downloaded " ++s si_Name req ++s " and queued for wireless LiveContainer install"))])
  else
    appleID ← store_account (si_AppleID req);
    id ← queue_job JobTypeSign (si_DeviceID req)
           (deploy_params (ar_id a) d appleID (selfSourceURL o)) 5 "enqueuing sign job failed";
    Ret (install_response req "native" a
      [("apple_id", JStr appleID); ("sign_job_id", JStr (uuid_text id));
       ("message", JStr ("Downloaded " ++s si_Name req ++s " and queued for Apple signing & native install"))]).

(** [download] is the body of the answer, [None] when the request fails or is
    not answered with 200; [bad_url] that no request can be made of the URL. *)
Definition handleStoreInstall (s : Server) (o : origin) (bad_url : bool) (download : option string)
    (body : option storeInstallRequest) : handler :=
  req ← decodeJSON body;
  if (si_DownloadURL req =s "") || bool_decide (si_DeviceID req = uuid_nil)
  then fail BadRequest "download_url and device_id are required" else
  if negb (is_https (si_DownloadURL req)) then fail BadRequest "download_url must be https" else
  if bad_url then fail BadRequest "invalid download url" else
  match download with
  | None => fail BadGateway "failed to download IPA from source"
  | Some stream =>
      let bytes := limit_reader (maxArtifactBytes s + 1) stream in
      sha ← SaveToTemp bytes (internal "storing download failed");
      st ← try_ Fs (reads (fun _ => Z.of_nat (String.length bytes)));
      if match st with inr n => maxArtifactBytes s <? n | inl _ => true end
      then fail RequestEntityTooLarge "downloaded file exceeds size limit" else
      x ← import_artifact req sha bytes;
      let '(a, meta) := x in
      _ ← mark_seen meta;
      let mode := install_mode req meta in
      if negb (ar_quarantine_state a =s "approved") then
        Ret (install_response req mode a
          [("quarantine_state", JStr (ar_quarantine_state a));
           ("message", JStr ("Downloaded " ++s si_Name req
              ++s " into quarantine; approve it in the dashboard to install"))])
      else route_install o req mode a
  end.

(** ** The repository document *)

Definition base_url (o : origin) : string := proto_of o ++s "://" ++s og_Host o.

Definition absolute (base url : string) : string := if has_prefix "/" url then base ++s url else url.

Record alt_version := MkAltVersion {
  lv_Version : string;
  lv_Date : string;
  lv_DownloadURL : string;
  lv_Size : Z;
  lv_LocalizedDescription : string
}.

Record alt_app := MkAltApp {
  la_Name : string;
  la_BundleIdentifier : string;
  la_DeveloperName : string;
  la_Version : string;
  la_VersionDate : string;
  la_Description : string;            (** both descriptions *)
  la_DownloadURL : string;
  la_IconURL : string;
  la_Size : Z;
  la_Versions : list alt_version
}.

(** An app of the catalog. *)
Definition catalog_entry (base : string) (p : StoreApp) : alt_app :=
  let v := sp_Primary p in
  MkAltApp (sp_Name p)
    (if av_BundleID v =s "" then "com.sidey.store." ++s to_lower (replace_byte " " "" (sp_Name p)) else av_BundleID v)
    (sp_Developer p) (av_Version v) (av_UpdatedDate v) (sp_Description p)
    (absolute base (av_DownloadURL v)) (absolute base (sp_IconURL p)) (av_Size v)
    ((fun x => MkAltVersion (av_Version x) (av_UpdatedDate x) (absolute base (av_DownloadURL x)) (av_Size x)
                 (sp_Name p ++s " " ++s av_Version x ++s " (" ++s av_Channel x ++s ")")) <$> sp_Versions p).

(** The approved originals with a bundle identifier, the latest import first. *)
Definition own_row (a : artifact) : option (string * artifact) :=
  if ar_quarantine_state a =s "approved" then
    b ← ar_bundle_identifier a; if b =s "" then None else Some (b, a)
  else None.

Definition own_rows (w : world) : list (string * artifact) :=
  omap own_row (sort_by (fun a b => ar_imported_at b <=? ar_imported_at a) (rows (W_artifacts w))).

(** The map by bundle with the order of first appearance. *)
Fixpoint own_add (bundle : string) (a : artifact) (m : list (string * list artifact))
    : list (string * list artifact) :=
  match m with
  | [] => [(bundle, [a])]
  | (b, l) :: m' => if b =s bundle then (b, l ++ [a]) :: m' else (b, l) :: own_add bundle a m'
  end.

Definition own_library (w : world) : list (string * list artifact) :=
  fold_left (fun m ba => own_add ba.1 ba.2 m) (own_rows w) [].

Definition own_version_of (a : artifact) : string := default "" (ar_version a).

Definition own_newer (a b : artifact) : bool := 0 <? compareVersions (own_version_of a) (own_version_of b).

Definition install_url (base : string) (a : artifact) : string :=
  base ++s "/api/v1/store/artifacts/" ++s uuid_text (ar_id a) ++s "/install.ipa".

Context `{SortSlice}.

Definition own_entry (base : string) (g : string * list artifact) : list alt_app :=
  let l := sort_slice own_newer g.2 in
  match l with
  | [] => []
  | first :: _ =>
      let stem := trim_suffix ".ipa" (ar_filename first) in
      let name := if stem =s "" then g.1 else stem in
      [MkAltApp name g.1 "Sidey" (own_version_of first) (format_rfc3339 (ar_imported_at first))
         "Approved IPA from the Sidey library." (install_url base first) "" 0
         ((fun a => MkAltVersion (own_version_of a) (format_rfc3339 (ar_imported_at a)) (install_url base a) 0
                      (name ++s " " ++s own_version_of a ++s " (Sidey library)")) <$> l)]
  end.

Definition alt_version_json (v : alt_version) : json :=
  JObj ([("version", JStr (lv_Version v)); ("date", JStr (lv_Date v)); ("downloadURL", JStr (lv_DownloadURL v));
         ("size", JNum (lv_Size v))] ++ omitempty "localizedDescription" (lv_LocalizedDescription v)).

Definition alt_app_json (a : alt_app) : json :=
  JObj ([("name", JStr (la_Name a)); ("bundleIdentifier", JStr (la_BundleIdentifier a));
         ("developerName", JStr (la_DeveloperName a)); ("version", JStr (la_Version a));
         ("versionDate", JStr (la_VersionDate a))] ++ omitempty "versionDescription" (la_Description a)
        ++ [("downloadURL", JStr (la_DownloadURL a)); ("localizedDescription", JStr (la_Description a));
            ("iconURL", JStr (la_IconURL a)); ("tintColor", JStr "388BFD"); ("size", JNum (la_Size a))]
        ++ match la_Versions a with [] => [] | _ => [("versions", JArr (alt_version_json <$> la_Versions a))] end
        ++ [("appPermissions", JObj [("entitlements", JArr []); ("privacy", JObj [])])]).

Definition source_document (base : string) (apps : list alt_app) : json :=
  JObj [("name", JStr "Sidey App Store"); ("identifier", JStr "com.sidey.store");
        ("subtitle", JStr "Self-Hosted Sideloading Catalog");
        ("description", JStr "Your self-hosted Sidey App Store repository with community apps, games, media, and tools.");
        ("iconURL", JStr (base ++s "/icons/icon-192.png")); ("website", JStr base);
        ("apps", match apps with [] => JNull | _ => JArr (alt_app_json <$> apps) end)].

(** The apps of the document, kept beside it. *)
Definition source_apps (o : origin) (up : upstream) : prog store_state response (list alt_app) :=
  apps ← getStoreApps up;
  own ← zoom (S := world) (try_ Pool (reads own_library));
  Ret ((catalog_entry (base_url o) <$> apps)
       ++ (match own with inr l => l | inl _ => [] end ≫= own_entry (base_url o))).

Definition handleStoreSourceJSON (o : origin) (up : upstream) : prog store_state response response :=
  apps ← source_apps o up;
  Ret (writeJSON StatusOK (source_document (base_url o) apps)).
End install.
