(* ===== verification/StoreInstallSpec.v ===== *)
(** What importing from the catalog guarantees: downloaded bytes wait in
    quarantine, a job is queued only for bytes the operator had approved before;
    and the repository document offers exactly the approved originals. *)
From S2P Require Import Prelude GoStrings GoTime Effects Schema AuditLog Versions Jobs JobsInvariant JobsSpec JobsCreate Scheduler Http Auth Agents Artifacts Retention ArtifactsSpec Signing Host Accounts AccountsSpec Sources Catalog CatalogSpec Updates UpdatesSpec StoreInstall.

(** The key of an artifact is its identifier, and used identifiers are not
    given out again. *)
Definition arts_wf (w : world) : Prop :=
  forall i a, W_artifacts w !! i = Some a -> ar_id a = i /\ (i < w_fresh w)%N.

(** No row of the table disappears or changes its bytes or its state; a new one
    is in quarantine. *)
Definition only_quarantines (w w' : world) : Prop :=
  (forall i a, W_artifacts w !! i = Some a -> exists a', W_artifacts w' !! i = Some a'
     /\ ar_sha256 a' = ar_sha256 a /\ ar_quarantine_state a' = ar_quarantine_state a)
  /\ (forall i a', W_artifacts w' !! i = Some a' -> W_artifacts w !! i = None ->
      ar_quarantine_state a' = "quarantined").

Lemma only_quarantines_same w w' : W_artifacts w' = W_artifacts w -> only_quarantines w w'.
Proof. intros E. split; intros i a; rewrite E; naive_solver. Qed.

Lemma only_quarantines_post w w1 w2 :
  only_quarantines w w1 -> W_artifacts w2 = W_artifacts w1 -> only_quarantines w w2.
Proof. intros [H1 H2] E. split; intros i a; rewrite E; [apply H1|apply H2]. Qed.

(** Up to and including the import nothing is enqueued. *)
Record importing (w w' : world) : Prop := {
  im_jobs : W_jobs w' = W_jobs w;
  im_fresh : (w_fresh w <= w_fresh w')%N;
  im_artifacts : only_quarantines w w';
}.

Lemma importing_same w w' :
  W_jobs w' = W_jobs w -> W_artifacts w' = W_artifacts w -> w_fresh w' = w_fresh w -> importing w w'.
Proof. intros Ej Ea Ef. split; [done|lia|by apply only_quarantines_same]. Qed.

Lemma importing_jobs w w' : importing w w' -> wf_jobs w -> wf_jobs w'.
Proof.
  intros [Ej Ef _] [Hr Hk]. split; rewrite Ej; [|done]. intros id j Hj.
  destruct (Hr _ _ Hj) as (? & ? & ?). split_and!; auto. lia.
Qed.

(** The row of the imported bytes: it was approved before if it is now. *)
Record imported (w : world) (sha : string) (a : artifact) (w' : world) : Prop := {
  id_importing : importing w w';
  id_row : W_artifacts w' !! ar_id a = Some a;
  id_sha : ar_sha256 a = sha;
  id_blob : sha ∈ w_blobs w';
  id_approved : ar_quarantine_state a = "approved" ->
    exists x, W_artifacts w !! ar_id a = Some x /\ ar_sha256 x = sha /\ ar_quarantine_state x = "approved";
}.

(** An upsert of the row of [sha] that touches neither bytes nor state. *)
Lemma upsert_imported sha mk upd w w1 a w' :
  arts_wf w -> published w sha w1 ->
  (forall id now, ar_id (mk id now) = id /\ ar_sha256 (mk id now) = sha
     /\ ar_quarantine_state (mk id now) = "quarantined") ->
  (forall x, ar_id (upd x) = ar_id x /\ ar_sha256 (upd x) = ar_sha256 x
     /\ ar_quarantine_state (upd x) = ar_quarantine_state x) ->
  upsert_artifact mk upd w1 = inr (a, w') -> imported w sha a w'.
Proof.
  intros Hwf (Hd & Hb & Hf) Hmk Hupd. unfold upsert_artifact.
  destruct (Hmk (w_fresh w1) (w_now w1)) as (Hi & Hs & Hq).
  assert (Hin : sha ∈ w_blobs w1) by (rewrite Hb; set_solver).
  assert (Ea : W_artifacts w1 = W_artifacts w) by by rewrite Hd.
  destruct (insert_artifact mk w1) as [er|[id w2]] eqn:Ei.
  - destruct er; try done. rewrite Hs. destruct (artifact_by_sha sha w1) as [x|] eqn:Ex; [|done].
    apply find_row_Some in Ex as (i & Hx & He). bools. rewrite Ea in Hx. pose proof (Hwf _ _ Hx) as [<- _].
    destruct (Hupd x) as (U1 & U2 & U3). intros [= <- <-].
    split; simpl; rewrite ?U1, ?U2, ?U3, ?Hd, ?lookup_insert_eq; try done; [|by exists x].
    split; simpl; rewrite ?Hd, ?Hf; [done|lia|].
    split; intros j y; simpl; rewrite Hd, lookup_insert; case_decide; naive_solver.
  - intros [= <- <-]. unfold insert_artifact in Ei. case_cond; [done|].
    destruct (exists_row _ _) eqn:Ex; [done|]. injection Ei as <- <-.
    assert (Hn : W_artifacts w !! w_fresh w1 = None).
    { destruct (W_artifacts w !! w_fresh w1) as [y|] eqn:Ey; [|done]. apply Hwf in Ey. lia. }
    split; simpl; rewrite ?Hi, ?Hq, ?Hd, ?lookup_insert_eq; try done.
    split; simpl; rewrite ?Hd, ?Hf; [done|lia|]. rewrite Hf in Hn.
    split; intros j y; simpl; rewrite Hd, ?Hi, ?Hf, lookup_insert; case_decide; naive_solver.
Qed.

Section import.
Context `{UuidText} `{SecretOps} `{ArchiveOps}.

Lemma wp_import_artifact req sha bytes w :
  arts_wf w ->
  wp (import_artifact req sha bytes) (fun r w' =>
    match r with inl _ => importing w w' | inr (a, _) => imported w sha a w' end) w.
Proof using.
  intros Hwf. unfold import_artifact. pose proof (importing_same w w eq_refl eq_refl eq_refl) as Hsame.
  apply wp_try_bind; [done|]. cbn [reads]. destruct (Inspect bytes) as [e|meta]; [done|].
  apply wp_bind. eapply wp_mono; [|apply wp_Publish]. intros [e|b] w1; [by intros ->|]. intros Hp.
  assert (Hpub : importing w w1) by (destruct Hp as (Hd & _ & Hf); apply importing_same; by rewrite ?Hd).
  apply wp_must_bind; [done|]. destruct (upsert_artifact _ _ w1) as [er|[a w2]] eqn:Eu; [done|].
  eapply upsert_imported; [done|exact Hp| | |exact Eu]; done.
Qed.

Lemma mark_seen_same meta w : wp (mark_seen meta) (fun r w' =>
  (exists x, r = inr x) /\ W_jobs w' = W_jobs w /\ W_artifacts w' = W_artifacts w /\ w_fresh w' = w_fresh w
  /\ w_blobs w' = w_blobs w) w.
Proof using.
  unfold mark_seen. case_cond; [simpl; eauto 10|]. apply wp_try_bind; [simpl; eauto 10|].
  unfold seen_version. case_cond; simpl; eauto 10.
Qed.

Lemma imported_later w sha a w1 w2 :
  imported w sha a w1 -> W_jobs w2 = W_jobs w1 -> W_artifacts w2 = W_artifacts w1 -> w_fresh w2 = w_fresh w1 ->
  w_blobs w2 = w_blobs w1 -> imported w sha a w2.
Proof using.
  intros [[Ej Ef Ha] Hr Hs Hb Hp] E1 E2 E3 E4. split; rewrite ?E1, ?E2, ?E3, ?E4; try done.
  split; [by rewrite E1|lia|]. by eapply only_quarantines_post.
Qed.

(** The job of an install. *)
Definition install_queued (w : world) (req : storeInstallRequest) (a : artifact) (w' : world) : Prop :=
  exists id j, W_jobs w !! id = None /\ W_jobs w' = <[id := j]> (W_jobs w)
    /\ j_state j = StatePending /\ j_device_id j = Some (si_DeviceID req)
    /\ (j_job_type j = JobTypeSign \/ j_job_type j = "livecontainer_push")
    /\ jget_text "artifact_id" (j_parameters j) = Some (uuid_text (ar_id a)).

Lemma queued_install jt req a ps mx msg w :
  wf_jobs w -> jt = JobTypeSign \/ jt = "livecontainer_push" ->
  jget_text "artifact_id" (JObj ps) = Some (uuid_text (ar_id a)) ->
  wp (queue_job jt (si_DeviceID req) ps mx msg) (fun r w' => only_jobs w w' /\
    match r with inl _ => W_jobs w' = W_jobs w | inr _ => install_queued w req a w' end) w.
Proof using.
  intros Hw Hjt Hps. eapply wp_mono; [|by apply wp_queue_job]. intros [e|id] w' (Ho & _ & Hq); [done|].
  split; [done|]. destruct Hq as (Hn & key & Hj). exists id. eexists. by split_and!; [|exact Hj|..].
Qed.

Lemma wp_store_account requested w : wp (store_account requested) (fun r w' => w' = w /\ exists l, r = inr l) w.
Proof using.
  unfold store_account. case_cond; [|simpl; eauto]. apply wp_try_bind; [simpl; eauto|].
  unfold store_auto_account. case_cond; [simpl; eauto|].
  destruct (first_by _ _) as [x|]; [case_cond|]; simpl; eauto.
Qed.

Lemma wp_device_texts id w : wp (device_texts id) (fun r w' => w' = w /\ exists d, r = inr d) w.
Proof using. unfold device_texts. apply wp_try_bind; simpl; eauto. Qed.

Lemma wp_route_install o req mode a w :
  wf_jobs w -> wp (route_install o req mode a) (fun r w' => only_jobs w w' /\
    match r with inl _ => W_jobs w' = W_jobs w | inr _ => install_queued w req a w' end) w.
Proof using.
  intros Hw. unfold route_install.
  apply wp_bind. eapply wp_mono; [|apply wp_device_texts]. intros r w' (-> & d & ->). case_cond.
  - apply wp_bind. eapply wp_mono; [|apply (queued_install _ _ a); [done|by right|done]]. by intros [].
  - apply wp_bind. eapply wp_mono; [|apply wp_store_account]. intros r w' (-> & l & ->).
    apply wp_bind. eapply wp_mono; [|apply (queued_install _ _ a); [done|by left|done]]. by intros [].
Qed.

(** C27. Imports wait in quarantine: whatever fails, no artifact changes its
    bytes or its state, and every new one is quarantined; a job is enqueued only
    for downloaded bytes that were approved before the request, and then exactly
    one, for that artifact on the device asked for; an answer without error
    means the bytes are recorded and in the store. *)
Theorem store_install_quarantines s o bad_url download req fl w r w' :
  wf_jobs w -> arts_wf w ->
  run fl (handleStoreInstall s o bad_url download (Some req)) w = (r, w') ->
  only_quarantines w w' /\
  match r with
  | inl _ => W_jobs w' = W_jobs w
  | inr _ => exists stream a, download = Some stream /\ is_https (si_DownloadURL req) = true
      /\ W_artifacts w' !! ar_id a = Some a
      /\ ar_sha256 a = sha256_hex (limit_reader (maxArtifactBytes s + 1) stream) /\ ar_sha256 a ∈ w_blobs w'
      /\ (W_jobs w' = W_jobs w
          \/ install_queued w req a w' /\ exists x, W_artifacts w !! ar_id a = Some x
               /\ ar_sha256 x = ar_sha256 a /\ ar_quarantine_state x = "approved")
  end.
Proof using.
  intros Hw Hwf Hrun. by_wp Hrun. unfold handleStoreInstall, decodeJSON. cbn [mbind prog_mbind prog_bind].
  pose proof (only_quarantines_same w w eq_refl) as Hsame.
  case_cond; [done|]. case_cond; [done|]. case_cond; [done|]. destruct download as [stream|]; [|done].
  set (bytes := limit_reader _ stream). apply wp_bind. unfold SaveToTemp. apply wp_reads_bind; [done|]. cbn [wp].
  apply wp_try_bind; [done|]. cbn [reads]. case_cond; [done|].
  apply wp_bind. eapply wp_mono; [|by apply wp_import_artifact]. intros [e|[a meta]] w1 Hi; [by destruct Hi|].
  apply wp_bind. eapply wp_mono; [|apply mark_seen_same]. intros r w2 ((x & ->) & E1 & E2 & E3 & E4).
  pose proof (imported_later _ _ _ _ _ Hi E1 E2 E3 E4) as [Him Hr Hs Hb Hp]. clear Hi.
  assert (Hdone : forall w3, W_artifacts w3 = W_artifacts w2 -> w_blobs w3 = w_blobs w2 ->
    W_jobs w3 = W_jobs w \/ install_queued w req a w3 /\ ar_quarantine_state a = "approved" ->
    only_quarantines w w3 /\ exists stream0 a0, Some stream = Some stream0 /\ is_https (si_DownloadURL req) = true
      /\ W_artifacts w3 !! ar_id a0 = Some a0
      /\ ar_sha256 a0 = sha256_hex (limit_reader (maxArtifactBytes s + 1) stream0) /\ ar_sha256 a0 ∈ w_blobs w3
      /\ (W_jobs w3 = W_jobs w \/ install_queued w req a0 w3 /\ exists y, W_artifacts w !! ar_id a0 = Some y
               /\ ar_sha256 y = ar_sha256 a0 /\ ar_quarantine_state y = "approved")).
  { intros w3 A3 B3 J3. split; [eapply only_quarantines_post; [apply Him|done]|]. exists stream, a.
    rewrite A3, B3, Hs. split_and!; try done; [by apply negb_false_iff|]. naive_solver. }
  case_cond; [apply Hdone; auto; left; apply Him|]. bools.
  eapply wp_mono; [|by apply wp_route_install, (importing_jobs w)].
  intros [e|resp] w3 (Ho & Hq).
  - split; [|by rewrite Hq; apply Him]. eapply only_quarantines_post; [apply Him|]. destruct Ho as (-> & _). done.
  - apply Hdone; [by destruct Ho as (-> & _)|apply Ho|]. right. split; [|done].
    destruct Hq as (id & j & Hn & Hj & ?). exists id, j. destruct Him as [<- _ _]. done.
Qed.
End import.

(** ** The repository document *)

Lemma own_add_group b a m : own_add b a m = group_add b a m.
Proof. induction m as [|[k l] m IH]; [done|]. simpl. by rewrite IH. Qed.

Lemma own_library_groups w : own_library w = groups (own_rows w).
Proof.
  unfold own_library. induction (own_rows w) as [|[b a] l IH] using rev_ind; [done|].
  rewrite fold_left_app. simpl. by rewrite IH, own_add_group, groups_snoc.
Qed.

(** An artifact the document offers. *)
Definition offered (w : world) (b : string) (a : artifact) : Prop :=
  (exists i, W_artifacts w !! i = Some a) /\ ar_quarantine_state a = "approved"
  /\ ar_bundle_identifier a = Some b /\ b <> "".

Lemma own_rows_elem w b a : (b, a) ∈ own_rows w <-> offered w b a.
Proof.
  unfold own_rows, offered, own_row. rewrite list_elem_of_omap. setoid_rewrite elem_of_sort_by.
  setoid_rewrite elem_of_rows. split.
  - intros (x & Hx & E). case_cond; [|done]. bools. apply bind_Some in E as (b' & Hb & E).
    case_cond; [done|]. bools. by injection E as -> ->.
  - intros (Hi & Hs & Hb & Hne). exists a. split; [done|].
    rewrite Hs, Hb, bool_decide_eq_true_2 by done. simpl. by rewrite (bool_decide_eq_false_2 _ Hne).
Qed.

Section document.
Context `{UuidText} `{!UuidTextLaws} `{SecretOps} `{ArchiveOps} `{SortSliceLaws}.

(** The apps offer exactly the approved originals: an app for each bundle, a
    version for each artifact of it, under its install link. *)
Record offers (base : string) (w : world) (apps : list alt_app) : Prop := {
  of_bundles : NoDup (la_BundleIdentifier <$> apps);
  of_sound app v : app ∈ apps -> v ∈ la_Versions app ->
    exists a, offered w (la_BundleIdentifier app) a
      /\ lv_DownloadURL v = install_url base a /\ lv_Version v = own_version_of a;
  of_complete b a : offered w b a ->
    exists app v, app ∈ apps /\ la_BundleIdentifier app = b /\ v ∈ la_Versions app
      /\ lv_DownloadURL v = install_url base a;
}.

(** The entry of a group. *)
Lemma own_entry_some base b l :
  l <> [] -> exists app, own_entry base (b, l) = [app] /\ la_BundleIdentifier app = b
    /\ forall v, v ∈ la_Versions app <-> exists a, a ∈ l /\ v =
         MkAltVersion (own_version_of a) (format_rfc3339 (ar_imported_at a)) (install_url base a) 0
           (la_Name app ++s " " ++s own_version_of a ++s " (Sidey library)").
Proof using All.
  intros Hne. unfold own_entry. simpl. pose proof (sort_slice_perm own_newer l) as Hp.
  destruct (sort_slice own_newer l) as [|x rest] eqn:Es; [by apply Permutation_nil_l in Hp|].
  eexists. split_and!; [done..|]. intros v. cbn [la_Versions la_Name]. rewrite list_elem_of_fmap.
  setoid_rewrite Hp. naive_solver.
Qed.

Lemma own_entries_bundles base rows_ :
  (la_BundleIdentifier <$> (groups rows_ ≫= own_entry base)) = nub rows_.*1.
Proof using All.
  assert (Hall : forall g, g ∈ groups rows_ -> exists app, own_entry base g = [app] /\ la_BundleIdentifier app = g.1).
  { intros [b l] [_ Hne]%groups_elem. destruct (own_entry_some base b l Hne) as (app & Ha & Hb & _). by exists app. }
  assert (Hk : (groups rows_).*1 = nub rows_.*1).
  { unfold groups. rewrite <- list_fmap_compose. apply list_fmap_id. }
  rewrite <- Hk. clear Hk. induction (groups rows_) as [|g gs IH]; [done|]. cbn [mbind list_bind].
  destruct (Hall g (list_elem_of_here _ _)) as (app & -> & Hb).
  specialize (IH (fun x Hx => Hall x (list_elem_of_further _ _ _ Hx))).
  rewrite fmap_app. simpl in *. by rewrite Hb, IH.
Qed.

Lemma own_library_offers base w : offers base w (own_library w ≫= own_entry base).
Proof using All.
  rewrite own_library_groups. split.
  - rewrite own_entries_bundles. apply NoDup_nub.
  - intros app v (g & Happ & Hg)%list_elem_of_bind Hv. destruct g as [b l].
    apply groups_elem in Hg as [-> Hne]. destruct (own_entry_some base b _ Hne) as (app' & E & Hb & Hvs).
    rewrite E, list_elem_of_singleton in Happ. subst app'. apply Hvs in Hv as (a & Ha%values_elem & ->).
    exists a. rewrite Hb. by split; [apply own_rows_elem|].
  - intros b a Ha%own_rows_elem. set (l := values b (own_rows w)).
    assert (Hal : a ∈ l).
    { unfold l, values. apply list_elem_of_fmap. exists (b, a). split; [done|]. apply elem_of_select. by bools. }
    destruct (own_entry_some base b l) as (app & E & Hb & Hvs); [by destruct l; [apply not_elem_of_nil in Hal|]|].
    eexists app, _. split_and!; [|done|apply Hvs; by exists a|done]. apply list_elem_of_bind. exists (b, l).
    rewrite E, list_elem_of_singleton. split; [done|]. unfold groups. apply list_elem_of_fmap. exists b.
    split; [done|]. apply elem_of_nub, list_elem_of_fmap. by exists (b, a).
Qed.

(** Reading the catalog leaves artifacts and blobs alone. *)
Definition same_files (s s' : store_state) : Prop :=
  W_artifacts (world_of s') = W_artifacts (world_of s) /\ w_blobs (world_of s') = w_blobs (world_of s).

Lemma wp_snapshot {E} apps w : wp (@snapshotListings E apps) (fun r w' =>
  r = inr tt /\ W_artifacts w' = W_artifacts w /\ w_blobs w' = w_blobs w) w.
Proof using.
  apply (wp_for _ _ (fun w' => W_artifacts w' = W_artifacts w /\ w_blobs w' = w_blobs w)); [done..|].
  intros a w' _ Hw. apply wp_try_bind; [done|]. unfold upsert_listing. by case_cond.
Qed.

Lemma wp_getStoreApps {E} up s :
  wp (getStoreApps (E := E) up) (fun r s' => same_files s s' /\ exists l, r = inr l) s.
Proof using.
  unfold getStoreApps. apply wp_get_bind. destruct (cached s) as [l|]; [split; [done|]; by exists l|].
  apply wp_bind. eapply wp_mono; [|apply wp_loadStoreSources]. intros r s' (-> & srcs & ->).
  unfold put_. apply wp_act_bind. apply wp_bind, wp_zoom. eapply wp_mono; [|apply wp_snapshot].
  intros r w (-> & Ha & Hb). split; [|by eexists]. by split.
Qed.

Lemma own_library_same w w' : W_artifacts w' = W_artifacts w -> own_library w' = own_library w.
Proof using. intros E. unfold own_library, own_rows. by rewrite E. Qed.

(** The link of an approved artifact. *)
Lemma ewp_store_serves b a w w' :
  offered w b a -> arts_wf w -> backed w -> W_artifacts w' = W_artifacts w -> w_blobs w' = w_blobs w ->
  ewp (handleStoreArtifactInstall (uuid_text (ar_id a)))
    (fun r _ => exists f, r = inr f /\ sv_sha256 f = ar_sha256 a) w'.
Proof using All.
  intros ([i Hi] & Hs & _) Hwf [Hbk _] Ea Eb. pose proof (Hwf _ _ Hi) as [<- _].
  unfold handleStoreArtifactInstall. rewrite uuid_parse_text. apply ewp_bind. eapply ewp_exec; [reflexivity|].
  cbv beta iota. unfold approved_file. rewrite Ea, Hi. cbn [mbind option_bind]. rewrite Hs.
  rewrite bool_decide_eq_true_2 by done. unfold serve. apply ewp_bind. eapply ewp_exec; [reflexivity|].
  cbn [sv_sha256]. rewrite Eb, bool_decide_eq_true_2 by by eapply Hbk. cbn [negb].
  apply ewp_bind. eapply ewp_exec; [reflexivity|]. cbv beta iota. unfold ewp. simpl. by eexists.
Qed.

(** The repository document: besides the catalog it offers own apps only
    for artifacts that are approved at that moment, whatever fails; without a
    fault every approved artifact with a bundle identifier is offered, one app
    per bundle, and the link of an artifact on record serves its bytes. *)
Theorem source_offers_approved o up s :
  (forall fl r s', run fl (source_apps o up) s = (r, s') ->
     exists cat own, r = inr (cat ++ own) /\
     (own = [] \/ offers (base_url o) (world_of s) own))
  /\ ewp (source_apps o up) (fun r s' => exists cat own, r = inr (cat ++ own)
       /\ offers (base_url o) (world_of s) own
       /\ forall b a, offered (world_of s) b a -> arts_wf (world_of s) -> backed (world_of s) ->
            ewp (handleStoreArtifactInstall (uuid_text (ar_id a)))
              (fun r _ => exists f, r = inr f /\ sv_sha256 f = ar_sha256 a) (world_of s')) s.
Proof using All.
  pose proof (fun s' => own_library_offers (base_url o) (world_of s')) as Hoff.
  assert (Hent : forall s', same_files s s' ->
    offers (base_url o) (world_of s) (own_library (world_of s') ≫= own_entry (base_url o))).
  { intros s' [Ea _]. rewrite (own_library_same (world_of s)) by done. apply Hoff. }
  split.
  - intros fl r s' Hrun. by_wp Hrun. unfold source_apps. apply wp_bind. eapply wp_mono; [|apply wp_getStoreApps].
    intros r s' (Hs & l & ->). apply wp_bind. eapply wp_mono; [|apply wp_zoom_try].
    intros r s2 (-> & [-> | ->]); simpl; do 2 eexists; (split; [done|]); [by left|]. right. by apply Hent.
  - unfold source_apps. apply ewp_bind. eapply ewp_mono; [|apply wp_ewp, wp_getStoreApps].
    intros r s' (Hs & l & ->). apply ewp_bind, ewp_zoom. eapply ewp_exec; [reflexivity|]. cbv beta iota.
    eapply ewp_exec; [reflexivity|]. do 2 eexists. split; [done|]. split; [by apply Hent|].
    intros b a Ha Hwf Hb. destruct Hs as [Ea Eb]. by eapply ewp_store_serves.
Qed.
End document.
