(* ===== verification/StoreWitness.v ===== *)
(** Concrete catalogs, lists and imports on which the theorems about the store
    apply, and runs that show where it falls short. *)
From S2P Require Import Prelude GoStrings Effects Versions GoTime Schema Samples AuditLog Jobs JobsInvariant JobsSpec JobsWitness Scheduler SchedulerWitness Http Auth Agents AuthWitness Artifacts Retention ArtifactsSpec ArtifactsWitness Signing Refresh RefreshSpec Host Accounts AccountsSpec AccountsWitness Sources SourcesSpec Catalog CatalogSpec Updates UpdatesSpec StoreInstall StoreInstallSpec.

#[local] Existing Instance sample_uuid.
#[local] Existing Instance sample_uuid_laws.
#[local] Existing Instance sample_secrets.
#[local] Existing Instance sample_archives.

(** ** Instances *)

#[local] Instance sample_sha1 : Sha1Ops := { sha1_hex := fun u => trim_prefix "https://" u }.

(** An insertion sort is a [sort.Slice]. *)
#[local] Instance sample_sort : SortSlice := {
  sort_slice := fun A less => sort_by (fun a b => negb (less b a))
}.

#[local] Instance sample_sort_laws : SortSliceLaws.
Proof.
  split; intros A less l; simpl; [apply sort_by_Permutation|]. intros [Hasym Htr].
  assert (Hs : StronglySorted (fun a b => negb (less b a) = true) (sort_by (fun a b => negb (less b a)) l)).
  { apply sort_by_sorted.
    - intros a b. rewrite !negb_true_iff. destruct (less b a) eqn:E; [|by left]. right. by apply Hasym.
    - intros a b c. rewrite !negb_true_iff. apply Htr. }
  induction Hs as [|x l' _ IH Hall]; constructor; [done|].
  eapply Forall_impl; [exact Hall|]. intros y. by rewrite negb_true_iff.
Defined.

(** ** The mirror *)

Definition empty_store : store_state := MkStore (MkHost empty_world ∅ ∅) [] 0.

Definition two_feeds : string := "https://a.example/ feed" ++s nl ++s "# note" ++s nl ++s "https://b.example/#x" ++s nl.

Definition mirrored : store_state := (exec (SyncDiscoveredSources (Some two_feeds)) empty_store).2.

Example mirror_run :
  src_URL <$> custom_of mirrored = ["https://a.example/"; "https://b.example/"]
  /\ discovered_url "http://c.example" = None
  /\ (exec (SyncDiscoveredSources (Some two_feeds)) mirrored).1 = inr 0.
Proof. vm_compute. done. Qed.

Definition feed_a : string := "src-discovered-a.exampl".

(** The operator deletes the first feed; it is synced, a source is added by hand,
    another feed deleted, and it is synced twice more. *)
Definition later_calls : list source_call :=
  [CallSync (Some two_feeds); CallAdd (Some (MkAddSource "" "https://c.example/apps.json" "C"));
   CallDelete "src-discovered-b.exampl"; CallSync None; CallSync (Some two_feeds)].

Lemma deleted_feed_stays_deleted_witness :
  (exists x, x ∈ deletion_list mirrored /\ src_ID x = feed_a /\ src_ManagedBy x = discoveredManagedBy)
  /\ ewp (_ ← attempt (handleDeleteStoreSource feed_a); for_ later_calls do_call)
    (fun _ s' => forall y, y ∈ custom_of s' -> src_URL y <> "https://a.example/") mirrored.
Proof.
  assert (Hx : discovered_source "https://a.example/" ∈ deletion_list mirrored).
  { apply list_elem_of_lookup. exists 0%nat. vm_compute. reflexivity. }
  split; [exists (discovered_source "https://a.example/"); split_and!; [exact Hx|vm_compute; reflexivity..]|].
  assert (Hid : feed_a <> "") by discriminate.
  eapply ewp_mono; [|exact (deleted_feed_stays_deleted feed_a later_calls mirrored Hid)].
  intros r s' (_ & H1 & _) y Hy Hu. destruct (H1 _ Hx eq_refl eq_refl y Hy Hu) as [[Hc Hne]|(req & k & Hin & Hn)].
  - apply Hne. clear -Hc Hu. revert Hu.
    apply (Forall_forall (fun y => src_URL y = _ -> src_ID y = feed_a) (deletion_list mirrored)); [|exact Hc].
    repeat (constructor; [vm_compute; congruence|]). constructor.
  - unfold later_calls in Hin. rewrite !elem_of_cons, elem_of_nil in Hin.
    destruct Hin as [Hin|[Hin|[Hin|[Hin|[Hin|[]]]]]]; try discriminate Hin.
    injection Hin as ->. vm_compute in Hn. injection Hn as <-. discriminate Hu.
Defined.

(** What the calls leave. *)
Example later_calls_run :
  let s := (exec (_ ← attempt (E' := response) (handleDeleteStoreSource feed_a); for_ later_calls do_call) mirrored).2 in
  src_URL <$> custom_of s = ["https://c.example/apps.json"].
Proof. vm_compute. reflexivity. Qed.

(** ** The catalog *)

Definition src_a : StoreSource := MkSource "src-a" "altstore" "https://a.example/apps.json" "A" false "com.a.source" "".

Definition version_of (v date url : string) : json :=
  JObj [("version", JStr v); ("date", JStr date); ("downloadURL", JStr url); ("size", JNum 5)].

Definition app_of (bundle : string) (vs : list json) : json :=
  JObj [("name", JStr "App"); ("bundleIdentifier", JStr bundle); ("versions", JArr vs)].

(** A stable channel, its beta under another identifier, and a download that is
    not https. *)
Definition feed_json (id : string) : json :=
  JObj [("name", JStr "Feed"); ("identifier", JStr id); ("apps", JArr
    [app_of "com.a" [version_of "1.9" "2024-01-01" "https://a.example/1.9.ipa";
                     version_of "2.0" "2024-02-01" "http://a.example/2.0.ipa"];
     app_of "com.a.beta" [version_of "2.1" "2024-03-01" "https://a.example/2.1.ipa"];
     app_of "com.a" [version_of "1.10" "2024-02-02" "https://a.example/1.10.ipa"]])].

Definition answers (id : string) : upstream :=
  MkUpstream (fun u => if u =s "https://a.example/apps.json" then Some (Some (feed_json id)) else None)
    (fun l => l).

Definition seen_of (p : StoreApp) : string * list string * string :=
  (sp_ID p, av_Version <$> sp_Versions p, av_Version (sp_Primary p)).

Example catalog_run :
  seen_of <$> fetch_source (answers "com.a.source") src_a = [("alt-com.a", ["1.10"; "1.9"; "2.1"], "1.10")]
  /\ fetch_source (answers "com.b.source") src_a = [].
Proof. vm_compute. done. Qed.

Lemma feed_grouping_witness :
  exists d, decode_feed (feed_json "com.a.source") = Some d /\ ~ impostor src_a d
    /\ (sp_ID <$> apps_of_feed src_a d) = (fun g => "alt-" ++s g.1) <$> groups (feed_entries_of (fd_Apps d)).
Proof.
  assert (Hd : exists d, decode_feed (feed_json "com.a.source") = Some d /\ fd_Identifier d = "com.a.source")
    by (eexists; vm_compute; split; reflexivity).
  destruct Hd as (d & Hd & Hi). exists d. split; [exact Hd|].
  assert (Hn : ~ impostor src_a d) by (intros (_ & _ & Hne); apply Hne; exact Hi). split; [exact Hn|].
  pose proof (f_equal (fmap fst) (proj2 (feed_grouping src_a d) Hn)) as He.
  rewrite <- !list_fmap_compose in He. exact He.
Defined.

Lemma catalog_well_formed_witness :
  exists p, p ∈ fetch_source (answers "com.a.source") src_a /\ well_formed src_a p.
Proof.
  assert (Hp : exists p, p ∈ fetch_source (answers "com.a.source") src_a).
  { destruct (fetch_source (answers "com.a.source") src_a) as [|p l] eqn:E; [vm_compute in E; discriminate|].
    exists p. left. }
  destruct Hp as [p Hp]. exists p. split; [exact Hp|].
  exact (catalog_well_formed (answers "com.a.source") src_a p Hp).
Defined.

(** ** Updates *)

Definition listing_a (source version : string) (seen : instant) : listing :=
  MkListing source "com.app" "App" version ("https://" ++s source) 5 "" seen.

(** Version 1.9 is deployed; two sources list the bundle, the older version was
    seen last; a second bundle is watched but not deployed. *)
Definition listed_world : world :=
  set_db (on_artifacts (fun _ => {[40%N := RefreshSpec.ipa 40 "1.9" "approved"]}))
    (set_db (on_listings (fun _ =>
      {[("a", "com.app") := listing_a "a" "1.10" 10; ("b", "com.app") := listing_a "b" "1.2" 20]}))
      (set_db (on_devices (fun _ => {[1%N := MkDevice 1 "udid-1" "" None None None None "" None None]})) due_world)).

Definition store_of (w : world) : store_state := MkStore (MkHost w ∅ ∅) [] 0.

Lemma updates_are_newer_witness :
  exists us srcs, run [] list_updates (store_of listed_world) = (inr (us, srcs), store_of listed_world)
    /\ exists d b, Deployed d b ∈ us /\ li_latest_version b = "1.10" /\ de_version d = "1.9".
Proof.
  assert (Hrun : exists us srcs, run [] list_updates (store_of listed_world)
      = (inr (us, srcs), store_of listed_world)) by (eexists _, _; vm_compute; reflexivity).
  destruct Hrun as (us & srcs & Hrun). exists us, srcs. split; [exact Hrun|].
  destruct (updates_are_newer [] _ us srcs _ Hrun) as (_ & Hsound & H).
  assert (Hl : listing_row (store_of listed_world) "com.app" (listing_a "a" "1.10" 10)).
  { split; [|reflexivity]. apply list_elem_of_lookup. exists 0%nat. vm_compute. reflexivity. }
  assert (El : listings listed_world = [listing_a "a" "1.10" 10; listing_a "b" "1.2" 20]) by (vm_compute; reflexivity).
  assert (Hall : forall x, listing_row (store_of listed_world) "com.app" x ->
    x = listing_a "a" "1.10" 10 \/ x = listing_a "b" "1.2" 20).
  { intros x [Hx _]. change (world_of (store_of listed_world)) with listed_world in Hx. rewrite El in Hx.
    apply elem_of_cons in Hx as [?|Hx%list_elem_of_singleton]; auto. }
  assert (Hnum : numeric_version "1.9" /\ numeric_version "1.10" /\ numeric_version "1.2")
    by (split_and!; repeat constructor).
  assert (Hd : exists d, d ∈ deployed_versions listed_world /\ de_version d = "1.9" /\ de_bundleID d = "com.app").
  { eexists. split; [apply list_elem_of_lookup; exists 0%nat; vm_compute; reflexivity|]. split; reflexivity. }
  destruct Hd as (d & Hd & Hv & Hb). rewrite <- Hb in Hl, Hall.
  destruct (H d _ Hd Hl) as (b & Hin & Hmax); rewrite ?Hv; [vm_compute; reflexivity|apply Hnum| |].
  { intros x [-> | ->]%Hall; apply Hnum. }
  exists d, b. split_and!; [exact Hin| |exact Hv].
  destruct (Hsound _ Hin) as (_ & Hr & _). apply Hall in Hr as [-> | ->]; [reflexivity|].
  specialize (Hmax _ Hl). vm_compute in Hmax. by destruct Hmax.
Defined.

(** ** Imports *)

Definition install_req : storeInstallRequest :=
  MkStoreInstall "A" "https://a.example/A.ipa" 1 "native" "me@example.org".

(** The bytes are on record under identifier 3, in the given state. *)
Definition import_world (state : string) : world :=
  set_db (on_devices (fun _ => {[1%N := MkDevice 1 "udid-1" "" None None None None "" None None]}))
    (blob_world [set_ar_quarantine_state state original] [] {[sha1]}).

Lemma import_world_ok state : wf_jobs (import_world state) /\ arts_wf (import_world state).
Proof.
  split; [split; intros *; simpl; by rewrite lookup_empty|].
  intros i a Hi.
  change ((list_to_map [(3%N, set_ar_quarantine_state state original)] : gmap uuid artifact) !! i = Some a) in Hi.
  apply elem_of_list_to_map_2, list_elem_of_singleton in Hi. injection Hi as -> ->. split; [done|]. simpl. lia.
Qed.

Lemma store_install_quarantines_witness :
  exists resp w', run [] (handleStoreInstall server1 here false (Some ArtifactsWitness.ipa) (Some install_req))
      (import_world "approved") = (inr resp, w')
    /\ W_jobs w' <> W_jobs (import_world "approved")
    /\ exists a, ar_sha256 a = sha1 /\ install_queued (import_world "approved") install_req a w'.
Proof.
  destruct (import_world_ok "approved") as [Hj Ha].
  assert (Hrun : exists resp w', run [] (handleStoreInstall server1 here false (Some ArtifactsWitness.ipa) (Some install_req))
      (import_world "approved") = (inr resp, w') /\ length (rows (W_jobs w')) = 1%nat)
    by (eexists _, _; vm_compute; split; reflexivity).
  destruct Hrun as (resp & w' & Hrun & Hlen). exists resp, w'. split; [exact Hrun|].
  destruct (store_install_quarantines server1 here false (Some ArtifactsWitness.ipa) install_req [] _ _ _ Hj Ha Hrun)
    as (_ & stream & a & [= <-] & _ & _ & Hs & _ & Hq).
  assert (Hne : W_jobs w' <> W_jobs (import_world "approved"))
    by (intros E; rewrite E in Hlen; vm_compute in Hlen; discriminate).
  split; [exact Hne|]. destruct Hq as [Hq|[Hq _]]; [by destruct Hne|].
  exists a. split; [rewrite Hs; vm_compute; reflexivity|exact Hq].
Defined.

(** Without approval the same request queues nothing. *)
Example import_waits :
  let '(r, w') := exec (handleStoreInstall server1 here false (Some ArtifactsWitness.ipa) (Some install_req))
      (import_world "quarantined") in
  match r with inr resp => jget_text "quarantine_state" (rs_body resp) = Some "quarantined" | inl _ => False end
  /\ rows (W_jobs w') = [].
Proof. vm_compute. done. Qed.

Definition document_of (w : world) : string + list (string * list string) :=
  match (exec (source_apps here (MkUpstream (fun _ => None) (fun l => l))) (store_of w)).1 with
  | inr apps => inr ((fun a => (la_BundleIdentifier a, lv_DownloadURL <$> la_Versions a)) <$> apps)
  | inl _ => inl "error"
  end.

Example document_run :
  document_of (import_world "approved")
    = inr [("com.a", ["https://sidey.local/api/v1/store/artifacts/uuid-0b-1h/install.ipa"])]
  /\ document_of (import_world "rejected") = inr [].
Proof. vm_compute. done. Qed.

Lemma source_offers_approved_witness :
  let w := import_world "approved" in
  exists own w', (exec (source_apps here (MkUpstream (fun _ => None) (fun l => l))) (store_of w)).1 = inr own
    /\ exec (handleStoreArtifactInstall (uuid_text 3%N)) w = (inr (MkServed sha1 "A.ipa"), w').
Proof.
  intros w. destruct (import_world_ok "approved") as [_ Ha].
  assert (Hb : backed w).
  { split; intros i a; [|intros h; intros Hs; vm_compute in Hs; discriminate].
    intros Hi. pose proof (Ha _ _ Hi) as [<- _].
    change ((list_to_map [(3%N, set_ar_quarantine_state "approved" original)] : gmap uuid artifact) !! ar_id a = Some a) in Hi.
    apply elem_of_list_to_map_2, list_elem_of_singleton in Hi. injection Hi as _ ->.
    change (sha1 ∈ ({[sha1]} : gset string)). set_solver. }
  assert (Ho : offered w "com.a" (set_ar_quarantine_state "approved" original)).
  { split; [exists 3%N; vm_compute; reflexivity|]. split_and!; [reflexivity..|discriminate]. }
  destruct (source_offers_approved here (MkUpstream (fun _ => None) (fun l => l)) (store_of w)) as [_ H].
  unfold ewp in H.
  destruct (exec (source_apps here _) (store_of w)) as [r s'] eqn:E.
  destruct H as (cat & own & -> & _ & Hserve). exists (cat ++ own).
  specialize (Hserve _ _ Ho Ha Hb). unfold ewp in Hserve.
  eexists. split; [reflexivity|]. vm_compute. reflexivity.
Defined.

(** ** Flaws *)

(** Adding a source reads only the copy that does not survive a restart: the
    sources kept in the other copy are overwritten. *)
Example add_source_drops_persisted :
  let after := (exec (handleAddStoreSource (Some (MkAddSource "" "https://c.example/apps.json" "C"))) mirrored).2 in
  let restarted := MkStore (set_json (delete sources_path) (ss_host mirrored)) [] 0 in
  let after' := (exec (handleAddStoreSource (Some (MkAddSource "" "https://c.example/apps.json" "C"))) restarted).2 in
  custom_of restarted = custom_of mirrored
  /\ length (custom_of after) = 3%nat /\ src_URL <$> custom_of after' = ["https://c.example/apps.json"].
Proof. vm_compute. done. Qed.

(** When the list of sources cannot be read, the sync takes it for empty and
    overwrites it with the mirrored ones. *)
Example sync_after_failed_read :
  let s := (exec (handleAddStoreSource (Some (MkAddSource "" "https://c.example/apps.json" "C"))) empty_store).2 in
  let '(r, s') := run [false; false; true; true] (SyncDiscoveredSources (Some two_feeds)) s in
  src_URL <$> custom_of s = ["https://c.example/apps.json"] /\ r = inr 2
  /\ src_URL <$> custom_of s' = ["https://a.example/"; "https://b.example/"].
Proof. vm_compute. done. Qed.

Definition watching : world :=
  set_db (on_subscriptions (fun _ => {["com.app" := MkSubscription "com.app" "App" "1.0" 0]})) listed_world.

Definition reported (w : world) : option nat :=
  match (exec list_updates (store_of w)).1 with inr (us, _) => Some (length us) | inl _ => None end.

(** Without a deployment no subscription is reported. *)
Example subscriptions_need_a_deployment :
  reported watching = Some 2%nat
  /\ reported (set_db (on_deployments (fun _ => ∅)) watching) = Some 0%nat.
Proof. vm_compute. done. Qed.

(** The version recorded at subscription is the one seen last, not the best:
    the newer one, known at that time, is reported as an update at once. *)
Example subscription_records_latest_seen :
  let '(r, w') := exec (handleAddSubscription (Some (MkAddSubscription "com.app" ""))) listed_world in
  su_seen_version <$> W_subscriptions w' !! "com.app" = Some "1.2"
  /\ reported listed_world = Some 1%nat /\ reported w' = Some 2%nat.
Proof. vm_compute. done. Qed.

(** A store install prefers free slots over proven accounts, unlike every other
    automatic choice. *)
Definition busy_accounts : world :=
  set_db (on_accounts (fun _ => {[60%N := MkAccount 60 "proven@example.org" None "authenticated" None 9 0 (Some 10) (Some 1);
    61%N := MkAccount 61 "new@example.org" None "authenticating" None 0 0 (Some 10) (Some 10)]})) empty_world.

Example store_prefers_free_slots :
  (exec (store_account "auto") busy_accounts).1 = inr "new@example.org"
  /\ (exec (pick_account "auto") busy_accounts).1 = inr "proven@example.org".
Proof. vm_compute. done. Qed.
