(* ===== verification/Discovery.v ===== *)
(** Companion discovery and one-tap enrolment (internal/api/discovery.go): the
    networks that may enrol, the rate limit per address, the token a companion
    gets.

    The limiter is process memory beside the database; the row of
    [server_identity] is written by a migration only and is a parameter. *)
From S2P Require Import Prelude GoStrings GoTime Effects Schema AuditLog Jobs Http Auth Host Net.

(** ** Networks *)

Definition defaultEnrollCIDRs : list string :=
  ["127.0.0.0/8"; "10.0.0.0/8"; "172.16.0.0/12"; "192.168.0.0/16"; "100.64.0.0/10"; "::1/128"; "fe80::/10"].

(** [None] is an error. *)
Definition parseEnrollCIDRs (csv : string) : option (list ipnet) :=
  let csv := if trim_space csv =s "" then join "," defaultEnrollCIDRs else csv in
  out ← mapM ParseCIDR (select (fun p => negb (p =s "")) (trim_space <$> split_byte "," csv));
  match out with [] => None | _ => Some out end.

(** The list of a new server, and its override: an invalid one is refused and
    the previous one kept. *)
Definition initial_cidrs : list ipnet := default [] (parseEnrollCIDRs "").

Definition SetEnrollCIDRs (csv : string) (cidrs : list ipnet) : bool * list ipnet :=
  match parseEnrollCIDRs csv with Some l => (true, l) | None => (false, cidrs) end.

Definition is_bracket (c : ascii) : bool := Ascii.eqb c "[" || Ascii.eqb c "]".

(** [None] is nil. *)
Definition clientIP (remote_addr : string) : option Z :=
  let host := default remote_addr (split_host remote_addr) in
  let host := trim_right is_bracket (trim_left is_bracket host) in
  ParseIP (match index_byte "%" host with Some i => str_take i host | None => host end).

Definition eligible (cidrs : list ipnet) (ip : option Z) : bool :=
  match ip with Some x => existsb (fun n => Contains n x) cidrs | None => false end.

(** ** The rate limit *)

Record ipLimiter := MkLimiter { lm_max : Z; lm_window : duration; lm_hits : gmap string (list instant) }.

Definition newIPLimiter (max : Z) (window : duration) : ipLimiter := MkLimiter max window ∅.

Definition hits_of (ip : string) (l : ipLimiter) : list instant := default [] (lm_hits l !! ip).

Definition set_hits (h : gmap string (list instant)) (l : ipLimiter) : ipLimiter :=
  MkLimiter (lm_max l) (lm_window l) h.

(** The attempts that count: those after the cutoff. *)
Definition recent (now : instant) (l : ipLimiter) (ts : list instant) : list instant :=
  select (fun t => now - lm_window l <? t) ts.

Definition evict (h : gmap string (list instant)) : gmap string (list instant) :=
  if (4096 <? size h)%nat then filter (fun kv => kv.2 <> []) h else h.

Definition allow (now : instant) (ip : string) (l : ipLimiter) : bool * ipLimiter :=
  let kept := recent now l (hits_of ip l) in
  if lm_max l <=? Z.of_nat (length kept) then (false, set_hits (<[ip := kept]> (lm_hits l)) l)
  else (true, set_hits (evict (<[ip := kept ++ [now]]> (lm_hits l))) l).

Definition enroll_limiter : ipLimiter := newIPLimiter 10 Minute.

(** ** Endpoints *)

Record gate := MkGate { gt_world : world; gt_limit : ipLimiter }.

#[global] Instance world_of_gate : Lens world gate.
Proof. refine {| lget := gt_world; lset := fun w g => MkGate w (gt_limit g) |}; [done|by intros []|done]. Defined.

Record enrollRequest := MkEnroll {
  er_DeviceName : string;
  er_Platform : string;
  er_AppVersion : string
}.

Definition InternalError (message : string) : response := writeJSON InternalServerError (error_body message).

Section endpoints.
Context `{UuidText} `{SecretOps}.
Context (identity : list (uuid * string)).

(** [SELECT .. LIMIT 1]: no row is an error. *)
Definition serverIdentityRow {E} : prog world E (option (uuid * string)) :=
  r ← try_ Pool (reads (fun _ => head identity));
  Ret match r with inr (Some x) => Some x | _ => None end.

Definition handleServerIdentity : handler :=
  o ← serverIdentityRow;
  match o with
  | Some (id, name) =>
      ok StatusOK (JObj [("id", JStr (uuid_text id)); ("name", JStr name); ("version", JNum 1)])
  | None => fail InternalServerError "identity unavailable"
  end.

(** What follows the gate. *)
Definition enroll (body : option enrollRequest) : handler :=
  req ← decodeJSON body;
  let name := trim_space (er_DeviceName req) in
  let platform := trim_space (er_Platform req) in
  if (name =s "") || (128 <? String.length name)%nat
  then fail BadRequest "device_name is required (max 128 chars)" else
  if platform =s "" then fail BadRequest "platform is required" else
  t ← mintDeviceTokenRow name ["control"] None None (InternalError "enrollment failed");
  let '(id, secret, created) := t : uuid * string * string in
  o ← serverIdentityRow;
  _ ← Record_ "enroll" "device_token.enrolled"
        [WithData (JObj [("token_id", JStr (uuid_text id)); ("name", JStr name); ("platform", JStr platform);
                         ("app_version", JStr (trim_space (er_AppVersion req)))])];
  let '(srvID, srvName) := default (uuid_nil, "") o in
  ok Created (JObj [("token", JStr secret); ("device_id", JNull); ("created_at", JStr created);
    ("server_id", JStr (uuid_text srvID)); ("server_name", JStr srvName);
    ("note", JStr "token is shown once; the companion stores it in the iOS Keychain")]).

Definition pass_limit (ip : Z) (g : gate) : bool * gate :=
  let '(b, l) := allow (w_now (gt_world g)) (ip_string ip) (gt_limit g) in (b, MkGate (gt_world g) l).

Definition handleEnrollDevice (cidrs : list ipnet) (remote_addr : string) (body : option enrollRequest)
    : prog gate response response :=
  match clientIP remote_addr with
  | Some ip =>
      if eligible cidrs (Some ip) then
        passed ← Act (pass_limit ip) Ret;
        if negb passed then Throw (writeJSON TooManyRequests (error_body "too many enrollment attempts; try again later"))
        else zoom (enroll body)
      else Throw (writeJSON Forbidden (error_body "automatic enrollment is not allowed from this network"))
  | None => Throw (writeJSON Forbidden (error_body "automatic enrollment is not allowed from this network"))
  end.
End endpoints.
