(* ===== verification/DiscoverySpec.v ===== *)
(** What discovery guarantees: who may enrol by default, how often, and what the
    token that is handed out opens; at the end, concrete callers, and what reading
    the limiter against its comment shows. *)
From S2P Require Import Prelude GoStrings Effects GoTime Schema Samples AuditLog Jobs Http Auth AuthWitness Net Host Discovery.

(** ** Prefixes *)

Lemma land_mask x k :
  0 <= k <= 128 -> 0 <= x < 2 ^ 128 -> Z.land x (mask (128 - k)) = Z.shiftl (Z.shiftr x k) k.
Proof.
  intros Hk Hx. unfold mask. replace (128 - (128 - k)) with k by lia. apply Z.bits_inj'. intros i Hi.
  rewrite Z.land_spec, !Z.shiftl_spec by lia. destruct (Z.lt_ge_cases i k) as [Hik|Hik].
  - rewrite !(Z.testbit_neg_r _ (i - k)) by lia. by rewrite andb_false_r.
  - rewrite Z.shiftr_spec by lia. replace (i - k + k) with i by lia.
    destruct (Z.lt_ge_cases i 128).
    + rewrite Z.ones_spec_low by lia. by rewrite andb_true_r.
    + rewrite Z.ones_spec_high by lia. rewrite andb_false_r. symmetry.
      rewrite <- (Z.mod_small x (2 ^ 128)) by done. apply Z.mod_pow2_bits_high. lia.
Qed.

(** Membership compares the leading bits. *)
Lemma Contains_prefix p k x :
  0 <= k <= 128 -> 0 <= p < 2 ^ (128 - k) -> 0 <= x < 2 ^ 128 ->
  Contains (MkIPNet (Z.shiftl p k) (128 - k)) x
  = Bool.eqb (is4 (Z.shiftl p k)) (is4 x) && (p =? x / 2 ^ k).
Proof.
  intros Hk Hp Hx. unfold Contains. cbn [nn_ip nn_ones]. f_equal.
  assert (0 <= Z.shiftl p k < 2 ^ 128).
  { rewrite Z.shiftl_mul_pow2 by lia. replace 128 with ((128 - k) + k) by lia.
    rewrite Z.pow_add_r by lia. pose proof (Z.pow_pos_nonneg 2 k). nia. }
  rewrite !land_mask, Z.shiftr_shiftl_l, Z.sub_diag, Z.shiftl_0_r by lia.
  rewrite <- (Z.shiftr_div_pow2 x k) by lia. rewrite !Z.shiftl_mul_pow2 by lia.
  pose proof (Z.pow_pos_nonneg 2 k).
  destruct (Z.eqb_spec p (Z.shiftr x k)) as [->|Hne]; [apply Z.eqb_refl|].
  apply Z.eqb_neq. nia.
Qed.

(** ** The default networks *)

Definition between (lo hi x : Z) : bool := (lo <=? x) && (x <? hi).

(** Loopback, the private ranges of RFC 1918 and 100.64.0.0/10; for IPv6
    loopback and link-local. *)
Definition private (x : Z) : bool :=
  if is4 x then
    let v := x mod 2 ^ 32 in
    between (127 * 2 ^ 24) (128 * 2 ^ 24) v || between (10 * 2 ^ 24) (11 * 2 ^ 24) v
    || between (172 * 2 ^ 24 + 16 * 2 ^ 16) (172 * 2 ^ 24 + 32 * 2 ^ 16) v
    || between (192 * 2 ^ 24 + 168 * 2 ^ 16) (192 * 2 ^ 24 + 169 * 2 ^ 16) v
    || between (100 * 2 ^ 24 + 64 * 2 ^ 16) (100 * 2 ^ 24 + 128 * 2 ^ 16) v
  else (x =? 1) || between (65152 * 2 ^ 112) (65216 * 2 ^ 112) x.

Lemma div_between p k x : 0 <= k -> (p =? x / 2 ^ k) = between (p * 2 ^ k) ((p + 1) * 2 ^ k) x.
Proof.
  intros Hk. unfold between. pose proof (Z.pow_pos_nonneg 2 k).
  destruct (Z.eqb_spec p (x / 2 ^ k)) as [->|Hne].
  - pose proof (Z.mul_div_le x (2 ^ k)). pose proof (Z.mul_succ_div_gt x (2 ^ k)).
    symmetry. apply andb_true_iff. rewrite Z.leb_le, Z.ltb_lt. nia.
  - symmetry. apply andb_false_iff. rewrite Z.leb_gt, Z.ltb_ge.
    destruct (Z.lt_ge_cases x (p * 2 ^ k)); [by left|right].
    destruct (Z.le_gt_cases ((p + 1) * 2 ^ k) x); [done|]. exfalso. apply Hne.
    apply (Z.div_unique x (2 ^ k) p (x - p * 2 ^ k)); nia.
Qed.

(** The prefix of a network of four bytes. *)
Lemma prefix_v4 p k x :
  0 <= k -> is4 x = true ->
  (p =? x / 2 ^ k) = between (p * 2 ^ k - mapped_base) ((p + 1) * 2 ^ k - mapped_base) (x mod 2 ^ 32).
Proof.
  intros Hk Hx. rewrite div_between by done. unfold is4 in Hx. apply Z.eqb_eq in Hx.
  rewrite Z.shiftr_div_pow2 in Hx by lia. pose proof (Z.div_mod x (2 ^ 32)) as Hd. rewrite Hx in Hd.
  change mapped_base with (65535 * 2 ^ 32). unfold between. f_equal.
  - destruct (Z.leb_spec (p * 2 ^ k) x), (Z.leb_spec (p * 2 ^ k - 65535 * 2 ^ 32) (x mod 2 ^ 32)); done || lia.
  - destruct (Z.ltb_spec x ((p + 1) * 2 ^ k)), (Z.ltb_spec (x mod 2 ^ 32) ((p + 1) * 2 ^ k - 65535 * 2 ^ 32)); done || lia.
Qed.

Lemma initial_cidrs_eq : initial_cidrs =
  (fun pk => MkIPNet (Z.shiftl pk.1 pk.2) (128 - pk.2)) <$>
    [(16777087, 24); (16776970, 24); (268434113, 20); (4294951080, 16); (67108241, 22); (1, 0); (1018, 118)].
Proof. vm_compute. reflexivity. Qed.

(** Who may enrol by default: exactly the addresses of the loopback network,
    of the private ranges of RFC 1918 and of 100.64.0.0/10, and in IPv6 loopback
    and the link-local addresses; no public address is ever eligible. *)
Theorem default_networks_private x :
  0 <= x < 2 ^ 128 -> eligible initial_cidrs (Some x) = private x.
Proof.
  intros Hx. unfold eligible. rewrite initial_cidrs_eq. cbn [fmap list_fmap existsb fst snd].
  rewrite !Contains_prefix by lia. rewrite orb_false_r. unfold private.
  repeat match goal with |- context [is4 (Z.shiftl ?p ?k)] =>
    let b := eval vm_compute in (is4 (Z.shiftl p k)) in change (is4 (Z.shiftl p k)) with b end.
  destruct (is4 x) eqn:E; cbn [Bool.eqb andb orb].
  - rewrite !prefix_v4 by (done || lia). rewrite !orb_false_r, !orb_assoc. reflexivity.
  - rewrite (div_between 1018 118) by lia. rewrite Z.pow_0_r, Z.div_1_r, (Z.eqb_sym 1 x). reflexivity.
Qed.

(** ** The rate limit *)

(** The attempts of [ip] that pass, over a history of attempts of all
    addresses. *)
Fixpoint granted (ip : string) (reqs : list (instant * string)) (l : ipLimiter) : list instant :=
  match reqs with
  | [] => []
  | (t, k) :: reqs' =>
      let '(b, l') := allow t k l in
      (if b && (k =s ip) then [t] else []) ++ granted ip reqs' l'
  end.

(** The limiter after the history. *)
Definition after (reqs : list (instant * string)) (l : ipLimiter) : ipLimiter :=
  fold_left (fun l r => (allow r.1 r.2 l).2) reqs l.

Definition in_window (w : duration) (s t : instant) : bool := (s - w <? t) && (t <=? s).

Lemma hits_evict ip h l : hits_of ip (set_hits (evict h) l) = hits_of ip (set_hits h l).
Proof.
  unfold hits_of, evict. simpl. case_cond; [|done].
  destruct (h !! ip) as [[|x v]|] eqn:E; simpl.
  - destruct (filter _ h !! ip) as [v|] eqn:Ef; [|done]. apply map_lookup_filter_Some in Ef as [Ef _]. simpl. congruence.
  - by rewrite (map_lookup_filter_Some_2 _ h ip (x :: v)).
  - by rewrite (proj2 (map_lookup_filter_None _ h ip)) by auto.
Qed.

Lemma allow_hits t k l b l' ip :
  allow t k l = (b, l') ->
  lm_max l' = lm_max l /\ lm_window l' = lm_window l /\
  b = (Z.of_nat (length (recent t l (hits_of k l))) <? lm_max l) /\
  hits_of ip l' = if k =s ip then recent t l (hits_of k l) ++ (if b then [t] else []) else hits_of ip l.
Proof.
  unfold allow. intros Ha. destruct (_ <=? _) eqn:E; injection Ha as <- <-; (split_and!; [done..|lia|]);
    rewrite ?hits_evict; unfold hits_of; simpl; rewrite lookup_insert; case_decide as Hd;
    rewrite ?(bool_decide_eq_true_2 _ Hd), ?(bool_decide_eq_false_2 _ Hd), ?app_nil_r; done.
Qed.

(** What holds of the attempts of [ip] that passed so far ([g]), the last
    attempt of anyone being at [now]: none of the windows is too full, and the
    limiter remembers all that can still matter. *)
Record within (ip : string) (l : ipLimiter) (g : list instant) (now : instant) : Prop := {
  wn_past t : t ∈ g -> t <= now;
  wn_full s : Z.of_nat (length (select (in_window (lm_window l) s) g)) <= lm_max l;
  wn_hits : exists c, c <= now - lm_window l /\ hits_of ip l = select (fun t => c <? t) g;
}.

Lemma select_le {A} (p q : A -> bool) (l : list A) :
  (forall x, x ∈ l -> p x = true -> q x = true) -> (length (select p l) <= length (select q l))%nat.
Proof.
  induction l as [|x l IH]; intros H; [done|]. simpl.
  assert (length (select p l) <= length (select q l))%nat by (apply IH; intros; apply H; [by right|done]).
  specialize (H x (list_elem_of_here _ _)). destruct (p x); [rewrite H by done|destruct (q x)]; simpl; lia.
Qed.

(** A time before the history, which is no later than what follows it. *)
Lemma history_start (ts : list Z) t :
  StronglySorted Z.le (ts ++ [t]) ->
  exists now, StronglySorted Z.le (now :: ts) /\ forall u, u ∈ now :: ts -> u <= t.
Proof.
  intros [Hx [Hs _]]%StronglySorted_app.
  assert (Ht : forall u, u ∈ ts -> u <= t) by (intros u Hu; apply Hx; [done|by left]).
  destruct ts as [|x ts].
  - exists t. split; [repeat constructor|]. intros u [-> | Hu]%elem_of_cons; [done|by apply not_elem_of_nil in Hu].
  - exists x. split.
    + constructor; [done|]. constructor; [done|]. by apply StronglySorted_inv in Hs as [_ ?].
    + intros u [-> | Hu]%elem_of_cons; [apply Ht; by left|by apply Ht].
Qed.
Lemma within_step ip l g now t k b l' :
  0 < lm_window l -> within ip l g now -> now <= t -> allow t k l = (b, l') ->
  within ip l' (g ++ if b && (k =s ip) then [t] else []) t.
Proof.
  intros Hwin [Hp Hf (c & Hc & Hh)] Ht Ha. destruct (allow_hits t k l b l' ip Ha) as (Em & Ew & Eb & Eh).
  destruct (k =s ip) eqn:Ek; cycle 1.
  { rewrite andb_false_r, app_nil_r. split; rewrite ?Em, ?Ew; [intros u Hu; specialize (Hp u Hu); lia|done|].
    exists c. split; [lia|congruence]. }
  bools. subst k. rewrite andb_true_r.
  assert (Hrec : recent t l (hits_of ip l) = select (fun u => t - lm_window l <? u) g).
  { rewrite Hh. unfold recent. rewrite select_select. apply select_ext_in. intros u _.
    destruct (Z.ltb_spec (t - lm_window l) u), (Z.ltb_spec c u); try done; lia. }
  rewrite Hrec in *. split; rewrite ?Em, ?Ew.
  - intros u. rewrite elem_of_app. intros [Hu|Hu]; [specialize (Hp u Hu); lia|].
    destruct b; [apply list_elem_of_singleton in Hu; lia|by apply not_elem_of_nil in Hu].
  - intros s. rewrite select_app, length_app. specialize (Hf s). destruct b; [|simpl; lia].
    simpl select. destruct (in_window (lm_window l) s t) eqn:Ei; [|simpl; lia]. simpl length.
    assert (length (select (in_window (lm_window l) s) g) <= length (select (fun u => (t - lm_window l <? u)%Z) g))%nat.
    { apply select_le. unfold in_window in *. intros u _. lia. }
    lia.
  - exists (t - lm_window l). split; [lia|]. rewrite Eh, select_app. f_equal.
    destruct b; [|done]. simpl. destruct (Z.ltb_spec (t - lm_window l) t); [done|lia].
Qed.

Lemma granted_within ip reqs l g now :
  0 < lm_window l -> within ip l g now -> StronglySorted Z.le (now :: reqs.*1) ->
  (exists n, n ∈ now :: reqs.*1 /\ within ip (after reqs l) (g ++ granted ip reqs l) n)
  /\ lm_max (after reqs l) = lm_max l /\ lm_window (after reqs l) = lm_window l.
Proof.
  intros Hw. revert l g now Hw. induction reqs as [|[t k] reqs IH]; intros l g now Hw Hin Hs.
  { rewrite app_nil_r. split; [|done]. exists now. split; [left|done]. }
  cbn [granted after fold_left fst snd fmap list_fmap]. destruct (allow t k l) as [b l'] eqn:Ea.
  destruct (allow_hits t k l b l' ip Ea) as (Em & Ew & _). cbn [snd]. fold (after reqs l').
  apply StronglySorted_inv in Hs as [Hs Hall]. cbn [fmap list_fmap fst] in Hs, Hall. apply Forall_cons in Hall as [Hle _].
  rewrite app_assoc, <- Em, <- Ew.
  destruct (IH l' (g ++ if b && (k =s ip) then [t] else []) t) as ((n & Hn & Hwn) & E1 & E2);
    [by rewrite Ew|by eapply within_step|exact Hs|].
  split; [|by split]. exists n. split; [by right|exact Hwn].
Qed.

(** The rate limit: over any history of attempts in the order of the clock,
    an address passes at most [max] times in any window, whatever the other
    addresses do and whatever is evicted; and the next attempt passes exactly
    when the window that ends with it is not full. *)
Theorem enrolment_rate_bounded max window reqs ip t :
  0 <= max -> 0 < window -> StronglySorted Z.le (reqs.*1 ++ [t]) ->
  let l := newIPLimiter max window in
  (forall s, Z.of_nat (length (select (in_window window s) (granted ip reqs l))) <= max)
  /\ (allow t ip (after reqs l)).1
     = (Z.of_nat (length (select (in_window window t) (granted ip reqs l))) <? max).
Proof.
  intros Hm Hw Hs l.
  destruct (history_start _ _ Hs) as (now & Hs' & Hlast).
  destruct (granted_within ip reqs l [] now) as ((n & Hn%Hlast & [Hp Hf (c & Hc & Hh)]) & Em & Ew); [done| |done|].
  { split; [intros u Hu; by apply not_elem_of_nil in Hu|done|]. exists (now - window). by split. }
  cbn [app] in *. rewrite Em, Ew in *. split; [exact Hf|].
  destruct (allow t ip (after reqs l)) as [b l'] eqn:Ea.
  destruct (allow_hits _ _ _ _ _ ip Ea) as (_ & _ & -> & _). cbn [fst]. rewrite Em, Hh. unfold recent. rewrite Ew, select_select.
  do 2 f_equal. apply f_equal. apply select_ext_in. intros u Hu. specialize (Hp u Hu). unfold in_window.
  cbn [lm_window newIPLimiter l] in *.
  destruct (Z.ltb_spec (t - window) u), (Z.ltb_spec c u), (Z.leb_spec u t); try done; lia.
Qed.

(** ** Enrolment *)

Section enrolment.
Context `{UuidText} `{SecretOps} `{HSL : !SecretLaws}.
Context (identity : list (uuid * string)).

(** The token an enrolment hands out: one new row, with the control scope, for
    no particular device, that neither expires nor is revoked. *)
Definition handed_out (name secret : string) (w w' : world) : Prop :=
  exists t, W_device_tokens w !! dt_id t = None /\ W_device_tokens w' = <[dt_id t := t]> (W_device_tokens w)
    /\ dt_name t = name /\ dt_key_id t = KeyID secret /\ VerifySecret secret (dt_token_hash t) = true
    /\ dt_scopes t = ["control"] /\ dt_device_id t = None /\ dt_expires_at t = None /\ dt_revoked_at t = None
    /\ (forall i x, W_device_tokens w !! i = Some x -> dt_key_id x <> KeyID secret)
    /\ w_db w' = on_device_tokens (fun _ => W_device_tokens w') (w_db w).

Definition tokens_fresh (w : world) : Prop :=
  forall i t, W_device_tokens w !! i = Some t -> (i < w_fresh w)%N.

Lemma wp_mint name e w :
  tokens_fresh w ->
  wp (mintDeviceTokenRow name ["control"] None None e) (fun r w' =>
    match r with
    | inl _ => w_db w' = w_db w
    | inr (_, secret, _) => handed_out name secret w w' /\ w_pool_audit w' = w_pool_audit w
    end) w.
Proof using HSL.
  intros Hf. unfold mintDeviceTokenRow, GenerateSecret, HashSecret.
  apply wp_bind, wp_must_bind; [done|]. cbn [wp]. apply wp_bind, wp_must_bind; [done|]. cbn [wp].
  apply wp_must_bind; [done|].
  set (w2 := set_fresh _ (set_fresh _ w)). case_cond; [done|]. case_cond; [done|].
  destruct (exists_row _ _) eqn:Ex; [done|]. cbn [wp]. split; [|done].
  exists (MkDeviceToken (w_fresh w2) name (KeyID (random_secret (w_fresh w)))
    (bcrypt_hash (w_fresh w + 1)%N (random_secret (w_fresh w))) ["control"] None None None None (w_now w)).
  split_and!; try done.
  - cbn [dt_id]. destruct (W_device_tokens w !! w_fresh w2) as [t|] eqn:Et; [|done]. apply Hf in Et. simpl in Et. lia.
  - apply bcrypt_accepts.
  - intros i x Hx. pose proof (exists_row_false _ _ _ _ Ex Hx) as Hk. by bools.
Qed.

(** The response names the token. *)
Lemma wp_enroll body w :
  tokens_fresh w ->
  wp (enroll identity body) (fun r w' =>
    match r with
    | inl _ => w_db w' = w_db w
    | inr resp => exists req secret, body = Some req /\ rs_status resp = Created
        /\ jget_text "token" (rs_body resp) = Some secret
        /\ handed_out (trim_space (er_DeviceName req)) secret w w'
    end) w.
Proof using HSL.
  intros Hf. unfold enroll. destruct body as [req|]; [|done]. cbn [decodeJSON mbind prog_mbind prog_bind].
  case_cond; [done|]. case_cond; [done|].
  apply wp_bind. eapply wp_mono; [|by apply wp_mint]. intros [e|[[id secret] created]] w1; [done|]. intros [Hout _].
  apply wp_bind. unfold serverIdentityRow. apply wp_try_bind.
  all: cbn [reads wp]; apply wp_Record_bind; [|intros f]; destruct (default _ _) as [srvID srvName];
    exists req, secret; by split_and!.
Qed.

(** With the token in a request. *)
Definition with_token (secret : string) : request := MkRequest ("Bearer " ++s secret) None.

Lemma bearer_with_token secret : bearerToken (with_token secret) = Some secret.
Proof using.
  unfold bearerToken, with_token. cbn [rq_authorization]. rewrite str_length_app.
  destruct (Nat.ltb_spec (String.length "Bearer " + String.length secret) 7) as [Hl|_]; [simpl in Hl; lia|].
  by simpl.
Qed.

Lemma token_by_key_handed name secret w w' :
  handed_out name secret w w' -> exists t, token_by_key (KeyID secret) w' = Some t
    /\ VerifySecret secret (dt_token_hash t) = true /\ dt_scopes t = ["control"]
    /\ dt_expires_at t = None /\ dt_revoked_at t = None.
Proof using.
  intros (t & Hn & Ht & _ & Hk & Hv & Hs & _ & He & Hr & Hno & _). unfold token_by_key.
  destruct (find_row (fun x => dt_key_id x =s KeyID secret) (W_device_tokens w')) as [x|] eqn:Ef.
  - apply find_row_Some in Ef as (i & Hi & Hx). bools. rewrite Ht, lookup_insert in Hi. case_decide; [|by apply Hno in Hi].
    injection Hi as <-. by exists t.
  - rewrite find_row_None in Ef. specialize (Ef (dt_id t) t). rewrite Ht, lookup_insert_eq in Ef.
    specialize (Ef eq_refl). by bools.
Qed.

(** The routes the token opens run their handler, with the time of use noted. *)
Lemma token_opens s scope (next : handler) name secret w w' :
  handed_out name secret w w' -> scope = "read" \/ scope = "control" -> adminKey s <> secret ->
  exists w2, exec (adminOrToken s scope (with_token secret) next) w' = exec next w2
    /\ w_db w2 = on_device_tokens (fun _ => W_device_tokens w2) (w_db w').
Proof using.
  intros Hout Hsc Hne. destruct (token_by_key_handed _ _ _ _ Hout) as (t & Hf & Hv & Hs & He & Hr).
  unfold adminOrToken, checkAdmin, ConstantTimeEqual. rewrite bearer_with_token. cbn [rq_cookie with_token orb].
  rewrite (bool_decide_eq_false_2 (secret = adminKey s)) by congruence. cbn [orb]. rewrite andb_false_r.
  unfold exec. rewrite run_bind. unfold checkDeviceToken. cbn [mbind prog_mbind prog_bind try_ run].
  cbn [reads get_ mbind prog_mbind prog_bind run]. rewrite Hf.
  assert (token_usable (w_now w') secret scope t = true) as ->.
  { unfold token_usable, tokenHasScope. rewrite Hr, He, Hv, Hs. by destruct Hsc as [-> | ->]. }
  cbn [tail run writes]. eexists. split; [reflexivity|]. simpl. by destruct (w_db w').
Qed.

(** C37. One-tap enrolment: a caller whose address is not in the networks, or who
    has used up the rate, changes nothing but the limiter; one who passes gets a
    token that is new, for the control scope, bound to no device and without
    expiry, and nothing else changes in the tables; with it the routes of the
    control and read scopes run their handler.  An error leaves the tables as
    they were. *)
Theorem enrolment_opens_control cidrs remote body fl g r g' :
  tokens_fresh (gt_world g) ->
  run fl (handleEnrollDevice identity cidrs remote body) g = (r, g') ->
  match r with
  | inl _ => w_db (gt_world g') = w_db (gt_world g)
  | inr resp => exists ip req secret, clientIP remote = Some ip /\ eligible cidrs (Some ip) = true
      /\ (allow (w_now (gt_world g)) (ip_string ip) (gt_limit g)).1 = true
      /\ body = Some req /\ jget_text "token" (rs_body resp) = Some secret
      /\ handed_out (trim_space (er_DeviceName req)) secret (gt_world g) (gt_world g')
      /\ forall s scope (next : handler), scope = "read" \/ scope = "control" -> adminKey s <> secret ->
           exists w2, exec (adminOrToken s scope (with_token secret) next) (gt_world g') = exec next w2
             /\ w_db w2 = on_device_tokens (fun _ => W_device_tokens w2) (w_db (gt_world g'))
  end.
Proof using HSL.
  intros Hf Hrun. by_wp Hrun. unfold handleEnrollDevice.
  destruct (clientIP remote) as [ip|] eqn:Eip; [|done]. destruct (eligible cidrs (Some ip)) eqn:Eel; [|done].
  apply wp_act_bind. unfold pass_limit. destruct (allow _ _ _) as [b l] eqn:Ea. cbn [fst snd].
  destruct b; [|done]. cbn [negb]. apply wp_zoom. cbn [lget lset world_of_gate gt_world gt_limit].
  eapply wp_mono; [|by apply wp_enroll]. intros [e|resp] w1; [done|].
  intros (req & secret & -> & _ & Hs & Hout). exists ip, req, secret. split_and!; try done; [by rewrite Ea|].
  intros s scope next Hsc Hne. by eapply token_opens.
Qed.
End enrolment.

(** * Concrete callers *)

#[local] Existing Instance sample_uuid.
#[local] Existing Instance sample_secrets.
#[local] Existing Instance sample_secret_laws.

Example sources :
  eligible initial_cidrs (clientIP "192.168.1.5:8080") = true
  /\ eligible initial_cidrs (clientIP "[fe80::1%eth0]:80") = true
  /\ eligible initial_cidrs (clientIP "[::ffff:10.1.2.3]:80") = true
  /\ eligible initial_cidrs (clientIP "8.8.8.8:53") = false /\ eligible initial_cidrs (clientIP "not-an-ip:1") = false
  /\ clientIP "10.0.0.9" = ParseIP "10.0.0.9" /\ parseEnrollCIDRs "192.168.1.1" = None
  /\ (SetEnrollCIDRs "nope" initial_cidrs).2 = initial_cidrs.
Proof. vm_compute. done. Qed.

Lemma default_networks_private_witness :
  exists x, ParseIP "100.127.255.255" = Some x /\ eligible initial_cidrs (Some x) = true.
Proof.
  eexists. split; [vm_compute; reflexivity|]. rewrite default_networks_private; [vm_compute; reflexivity|lia].
Defined.

Definition attempts : list (instant * string) :=
  (fun n => (Z.of_nat n * Second, "10.0.0.1")) <$> seq 0 12.

Lemma enrolment_rate_bounded_witness :
  length (granted "10.0.0.1" attempts enroll_limiter) = 10%nat
  /\ (allow (61 * Second) "10.0.0.1" (after attempts enroll_limiter)).1 = true
  /\ (allow (59 * Second) "10.0.0.1" (after attempts enroll_limiter)).1 = false.
Proof.
  unfold enroll_limiter. split; [vm_compute; reflexivity|].
  assert (Hs : forall t, 12 * Second <= t -> StronglySorted Z.le (attempts.*1 ++ [t])).
  { intros t Ht. apply StronglySorted_app_2; [|repeat constructor; vm_compute; discriminate|repeat constructor].
    intros x y Hx ->%list_elem_of_singleton. etrans; [|exact Ht].
    assert (Hall : forallb (fun x => x <=? 12 * Second) attempts.*1 = true) by (vm_compute; reflexivity).
    rewrite forallb_forall in Hall. apply Z.leb_le, Hall. by apply list_elem_of_In. }
  split.
  - destruct (enrolment_rate_bounded 10 Minute attempts "10.0.0.1" (61 * Second) ltac:(lia) eq_refl
      (Hs (61 * Second) ltac:(vm_compute; discriminate))) as [_ ->]. vm_compute. reflexivity.
  - destruct (enrolment_rate_bounded 10 Minute attempts "10.0.0.1" (59 * Second) ltac:(lia) eq_refl
      (Hs (59 * Second) ltac:(vm_compute; discriminate))) as [_ ->]. vm_compute. reflexivity.
Defined.

Definition server_id : list (uuid * string) := [(7%N, "Sidey")].
Definition closed_gate : gate := MkGate empty_world enroll_limiter.
Definition phone : enrollRequest := MkEnroll " Phone " "ios" "1.0".

Lemma enrolment_opens_control_witness :
  exists resp g' secret, run [] (handleEnrollDevice server_id initial_cidrs "192.168.1.5:8080" (Some phone)) closed_gate
      = (inr resp, g')
    /\ handed_out "Phone" secret empty_world (gt_world g')
    /\ exists w2, exec (adminOrToken server1 "control" (with_token secret) (ok StatusOK JNull)) (gt_world g')
         = (inr (writeJSON StatusOK JNull), w2).
Proof.
  assert (Hrun : exists resp g', run [] (handleEnrollDevice server_id initial_cidrs "192.168.1.5:8080" (Some phone)) closed_gate
      = (inr resp, g') /\ jget_text "token" (rs_body resp) = Some (random_secret 100%N))
    by (eexists _, _; vm_compute; split; reflexivity).
  destruct Hrun as (resp & g' & Hrun & Htok).
  assert (Hf : tokens_fresh (gt_world closed_gate)) by (intros i t; simpl; by rewrite lookup_empty).
  destruct (enrolment_opens_control server_id initial_cidrs _ _ [] _ _ _ Hf Hrun)
    as (ip & req & secret & _ & _ & _ & [= <-] & Hs & Hout & Hopen).
  exists resp, g', secret. split; [exact Hrun|]. split; [exact Hout|].
  rewrite Htok in Hs. injection Hs as <-.
  destruct (Hopen server1 "control" (ok StatusOK JNull)) as (w2 & He & _); [by right|vm_compute; discriminate|].
  exists w2. exact He.
Defined.

(** Entries are evicted only when they are empty, which no address's entry ever
    is: the memory of the limiter only grows. *)
Lemma limiter_never_forgets now ip l b l' :
  0 < lm_max l -> (forall k ts, lm_hits l !! k = Some ts -> ts <> []) -> allow now ip l = (b, l') ->
  (forall k ts, lm_hits l' !! k = Some ts -> ts <> []) /\ dom (lm_hits l') = {[ip]} ∪ dom (lm_hits l).
Proof.
  intros Hm Hne. unfold allow. destruct (lm_max l <=? _) eqn:E; intros [= <- <-]; cbn [set_hits lm_hits].
  - split; [|apply dom_insert_L]. intros k ts. rewrite lookup_insert. case_decide; [|apply Hne].
    intros [= <-] Hn. rewrite Hn in E. apply Z.leb_le in E. simpl in E. lia.
  - set (h := <[ip := _]> (lm_hits l)).
    assert (Hh : forall k ts, h !! k = Some ts -> ts <> []).
    { intros k ts. unfold h. rewrite lookup_insert. case_decide; [|apply Hne]. intros [= <-] Hn. by apply app_nil in Hn as [_ Hn]. }
    assert (evict h = h) as ->; [|split; [exact Hh|apply dom_insert_L]].
    unfold evict. case_cond; [|done]. apply map_filter_id. intros k ts Hk. by eapply Hh.
Qed.
