(* ===== verification/Certificates.v ===== *)
(** Signing certificates (internal/api/certificates.go, internal/api/certstore.go
    and the last endpoint of internal/api/accounts.go): revocation, the export of
    a certificate by the signing worker with the loop that waits for it, its
    download and its transfer to LiveContainer. *)
From S2P Require Import Prelude GoStrings GoTime Effects Schema AuditLog Jobs Scheduler Http Auth Artifacts Signing Host Accounts Base64.

(** ** Revocation *)

Definition revoked_row (reason : string) (now : instant) (c : certificate) : certificate :=
  set_ce_revoked_reason (Some reason) (set_ce_revoked_at (Some now) (set_ce_revoked true c)).

Definition revoke_stmt (id : uuid) (reason : string) (w : world) : sqlerr + Z * world :=
  if pg_text reason then
    let p c := bool_decide (ce_id c = id) in
    inr (count_where p (W_certificates w),
         set_db (on_certificates (update_where p (revoked_row reason (w_now w)))) w)
  else inl SyntaxError.

Section certificates.
Context `{UuidText} `{SecretOps} `{ArchiveOps}.

(** The transaction. *)
Definition revoke_body (id : uuid) (reason : string) : handler :=
  n ← need Tx (revoke_stmt id reason) InternalServerError "revoke failed";
  if negb (n =? 1) then fail NotFound "certificate not found" else
  _ ← RecordTx "admin" "certificate.revoked"
        [WithData (JObj [("certificate_id", JStr (uuid_text id)); ("reason", JStr reason)])]
        (internal "audit write failed");
  ok StatusOK (JObj [("id", JStr (uuid_text id)); ("revoked", JBool true); ("revoked_reason", JStr reason);
                     ("next_sign_renews", JBool true)]).

(** [body] is [None] when the request has none; the reason then is empty. *)
Definition handleRevokeCertificate (path_id : string) (body : option (option string)) : handler :=
  match uuid_parse path_id with
  | None => fail BadRequest "invalid certificate id"
  | Some id =>
      reason ← match body with None => Ret "" | Some b => decodeJSON b end;
      txn rollback (internal "transaction failed") (internal "transaction failed") (revoke_body id reason)
  end.

(** ** Waiting for an export *)

(** What a wait ends with besides the archive: the deadline of two minutes, or
    an error with its message, without the text of the error it wraps. *)
Inductive export_error := Deadline | Failed (message : string).

Record exportJobSnapshot := MkSnapshot {
  es_ID : uuid;
  es_State : string;
  es_Result : option json;
  es_ErrCat : string;
  es_ErrDet : string
}.

Definition derefString (p : option string) : string := default "" p.

Definition snapshot_of (j : job) : exportJobSnapshot :=
  MkSnapshot (j_id j) (j_state j) (j_result j) (derefString (j_error_category j)) (derefString (j_error_details j)).

Record exportP12Result := MkP12Result {
  pr_P12Base64 : string;
  pr_CertSerial : string;
  pr_MachineID : string
}.

Definition decode_p12 (j : json) : option exportP12Result :=
  _ ← is_struct j; b ← str_member "p12_base64" j; _ ← str_member "p12_sha256" j; c ← str_member "cert_serial" j;
  _ ← str_member "team_id" j; _ ← str_member "machine_name" j; m ← str_member "machine_id" j;
  Some (MkP12Result b c m).

(** The archive, the serial and the password: of a completed job whose result
    can be read. *)
Definition archive_of (s : exportJobSnapshot) : option (string * string * string) :=
  if es_State s =s StateCompleted then
    j ← es_Result s; res ← decode_p12 j;
    if pr_P12Base64 res =s "" then None
    else p12 ← b64_decode (pr_P12Base64 res); Some (p12, pr_CertSerial res, pr_MachineID res)
  else None.

Definition export_key (appleID : string) : string := "export_p12:" ++s appleID.

(** The label as [%q] prints it is a JSON string unless it has a byte that Go
    escapes in a way JSON does not know. *)
Definition quotable_byte (c : ascii) : bool :=
  let n := byte_n c in
  ((32 <=? n) && negb (n =? 127) || (n =? 8) || (n =? 9) || (n =? 10) || (n =? 12) || (n =? 13))%N.

Fixpoint quotable (s : string) : bool :=
  match s with EmptyString => true | String c r => quotable_byte c && quotable r end.

Definition export_params (appleID : string) : json :=
  JObj [("apple_id", JStr appleID); ("machine_name", JStr "isideload-minimal")].

(** [create()]: the job of the key, new or not.  Parameters that are no JSON are
    refused by the database. *)
Definition create_export (appleID : string) : prog world export_error exportJobSnapshot :=
  if quotable appleID then
    r ← attempt (Create "admin" (MkCreateRequest JobTypeExportP12 None None (Some (export_params appleID))
                   (export_key appleID) None None None));
    match r with
    | inr j => Ret (snapshot_of j)
    | inl _ => Throw (Failed "enqueuing certificate export failed")
    end
  else must Pool (fun _ => inl SyntaxError) (fun _ => Failed "enqueuing certificate export failed").

Definition exportJobSnapshot_by (id : uuid) : prog world export_error exportJobSnapshot :=
  o ← must Pool (reads (fun w => W_jobs w !! id)) (fun _ => Failed "loading export job failed");
  match o with
  | Some j => Ret (snapshot_of j)
  | None => Throw (Failed "loading export job failed")
  end.

(** [DELETE FROM jobs WHERE idempotency_key = $1], its error ignored. *)
Definition purge_export (key : string) : prog world export_error unit :=
  _ ← try_ Pool (delete_jobs (fun j => j_idempotency_key j =s key)); Ret tt.

Definition failed_or_dead (s : exportJobSnapshot) : bool :=
  (es_State s =s StateFailed) || (es_State s =s StateDead).

Definition export_failure (s : exportJobSnapshot) : export_error :=
  Failed ("certificate export failed: " ++s if es_ErrDet s =s "" then es_ErrCat s else es_ErrDet s).

(** One turn of the loop; [wait] is its rest. *)
Definition export_turn (appleID : string)
    (wait : bool -> exportJobSnapshot -> prog world export_error (string * string * string))
    (retried : bool) (s : exportJobSnapshot) : prog world export_error (string * string * string) :=
  match archive_of s with
  | Some x => Ret x
  | None =>
      if failed_or_dead s then
        if retried then Throw (export_failure s)
        else
          _ ← purge_export (export_key appleID);
          s' ← create_export appleID;
          match archive_of s' with
          | Some x => Ret x
          | None => if failed_or_dead s' then Throw (export_failure s') else wait true s'
          end
      else wait retried s
  end.

(** The loop.  [polls] is what the other actors do in each of the waits of two
    seconds; when none is left the deadline has passed. *)
Fixpoint poll_export (appleID : string) (polls : list (world -> world))
    : bool -> exportJobSnapshot -> prog world export_error (string * string * string) :=
  export_turn appleID (fun retried s =>
    match polls with
    | [] => Throw Deadline
    | env :: polls' =>
        _ ← put_ env;
        s' ← exportJobSnapshot_by (es_ID s);
        poll_export appleID polls' retried s'
    end).

Definition awaitExportP12 (polls : list (world -> world)) (appleID : string)
    : prog world export_error (string * string * string) :=
  s ← create_export appleID; poll_export appleID polls false s.

(** ** Endpoints *)

Definition Accepted : Z := 202.

Definition export_answer (deadline : response) (e : export_error) : response :=
  match e with
  | Deadline => deadline
  | Failed message => writeJSON BadGateway (error_body message)
  end.

(** The file that is served, with the password in a header. *)
Record p12_file := MkP12File { pf_bytes : string; pf_filename : string; pf_password : option string }.

Definition p12_filename (serial : string) : string := "ALTCertificate-" ++s serial ++s ".p12".

Definition account_label (id : uuid) : prog world response string :=
  o ← need Pool (reads (fun w => W_accounts w !! id)) InternalServerError "loading account failed";
  match o with
  | Some a => Ret (ac_label a)
  | None => fail NotFound "apple account not found"
  end.

Definition handleAppleCertificateDownload (polls : list (world -> world)) (path_id : string)
    : prog world response p12_file :=
  match uuid_parse path_id with
  | None => fail BadRequest "invalid account id"
  | Some id =>
      label ← account_label id;
      r ← attempt (awaitExportP12 polls label);
      match r with
      | inl e => Throw (export_answer (writeJSON Accepted (JObj [("status", JStr "pending");
          ("message", JStr "Certificate export is being generated by the signing worker; retry the download in a few seconds.")])) e)
      | inr (p12, serial, machineID) =>
          _ ← Record_ "admin" "certificate.exported"
                [WithData (JObj [("account_id", JStr (uuid_text id)); ("cert_serial", JStr serial)])];
          Ret (MkP12File p12 (p12_filename serial) (if machineID =s "" then None else Some machineID))
      end
  end.

Record liveContainerP12PushRequest := MkP12Push {
  pp_AppleAccountID : uuid;
  pp_DeviceID : uuid;
  pp_BundleID : string
}.

Definition p12_params (d : device) (bundleID serial p12 : string) : list (string * json) :=
  [("kind", JStr "p12"); ("filename", JStr (p12_filename serial)); ("p12_base64", JStr (b64_encode p12))]
  ++ device_params d ++ [("target", JStr "livecontainer"); ("bundle_id", JStr bundleID)].

Definition handleLiveContainerP12Push (polls : list (world -> world))
    (body : option liveContainerP12PushRequest) : handler :=
  req ← decodeJSON body;
  if bool_decide (pp_AppleAccountID req = uuid_nil) || bool_decide (pp_DeviceID req = uuid_nil)
  then fail BadRequest "apple_account_id and device_id are required" else
  label ← account_label (pp_AppleAccountID req);
  d ← target_device (pp_DeviceID req);
  r ← attempt (awaitExportP12 polls label);
  match r with
  | inl e => Throw (export_answer (writeJSON BadGateway (error_body "context deadline exceeded")) e)
  | inr (p12, serial, machineID) =>
      id ← queue_job "livecontainer_push" (pp_DeviceID req)
             (p12_params d (default_bundle (pp_BundleID req)) serial p12) 3
             "enqueuing LiveContainer p12 push job failed";
      _ ← Record_ "admin" "livecontainer.p12_push_queued"
            [WithData (JObj [("apple_account_id", JStr (uuid_text (pp_AppleAccountID req)));
                             ("device_id", JStr (uuid_text (pp_DeviceID req))); ("job_id", JStr (uuid_text id))])];
      ok Created (JObj [("status", JStr "ok"); ("job_id", JStr (uuid_text id)); ("filename", JStr (p12_filename serial));
                        ("password", JStr machineID); ("serial", JStr serial);
                        ("message", JStr "Certificate p12 queued for wireless transfer to LiveContainer")])
  end.
End certificates.
