(* ===== verification/CertificatesSpec.v ===== *)
(** What the certificate endpoints guarantee: a revocation and its audit event
    go together; the archive that is served or pushed is the one the signing
    worker exported for that account.  At the end, exports, a revocation and a
    transfer, and runs that show where the certificate endpoints fall short. *)
From S2P Require Import Prelude GoStrings Effects GoTime Schema Samples AuditLog Jobs JobsInvariant JobsSpec JobsCreate JobsWitness Scheduler SchedulerSpec SchedulerWitness Http Auth AuthWitness Artifacts ArtifactsWitness Signing SigningSpec Base64 Guard Worker WorkerWitness Host Accounts AccountsSpec Certificates.

(** ** Revocation *)

Definition certs_keyed (w : world) : Prop := forall i c, W_certificates w !! i = Some c -> ce_id c = i.

Section revocation.
Context `{UuidText} `{SecretOps} `{ArchiveOps}.

(** The revocation of one certificate and the event that tells of it. *)
Definition revoked_with_event (id : uuid) (reason : string) (w w' : world) : Prop :=
  exists c e, W_certificates w !! id = Some c
    /\ w_db w' = on_audit (cons e) (on_certificates (<[id := revoked_row reason (w_now w) c]>) (w_db w))
    /\ ev_action e = "certificate.revoked".

Lemma revoke_stmt_one id reason w n w' :
  certs_keyed w -> revoke_stmt id reason w = inr (n, w') -> n = 1 ->
  exists c, W_certificates w !! id = Some c
    /\ w_db w' = on_certificates (<[id := revoked_row reason (w_now w) c]>) (w_db w) /\ w_now w' = w_now w.
Proof using.
  intros Hk. unfold revoke_stmt. case_cond; [|done]. intros [= <- <-] Hn.
  destruct (W_certificates w !! id) as [c|] eqn:Ec.
  - exists c. split; [done|]. split; [|done]. simpl. unfold on_certificates.
    rewrite (update_where_unique _ _ (W_certificates w) id c); [done..|by bools; apply Hk|].
    intros j y Hj Hy. bools. rewrite <- (Hk _ _ Hj). done.
  - exfalso. assert (count_where (fun c => bool_decide (ce_id c = id)) (W_certificates w) = 0); [|lia].
    apply count_where_zero. intros i c Hc. apply bool_decide_eq_false_2. intros <-. rewrite (Hk _ _ Hc) in Ec. congruence.
Qed.

Lemma wp_revoke_body id reason w :
  certs_keyed w ->
  wp (revoke_body id reason) (fun r w' => match r with inl _ => True | inr _ => revoked_with_event id reason w w' end) w.
Proof using.
  intros Hk. unfold revoke_body, need. apply wp_must_bind; [done|].
  destruct (revoke_stmt id reason w) as [e|[n w1]] eqn:Es; [done|]. case_cond; [done|]. bools.
  destruct (revoke_stmt_one _ _ _ _ _ Hk Es) as (c & Hc & Hd & Hn); [lia|].
  unfold RecordTx. apply wp_must_bind; [done|]. cbn [writes wp ok].
  exists c. eexists. split; [done|]. split; [simpl; rewrite Hd, Hn; reflexivity|done].
Qed.

(** Revocation: it succeeds exactly for one recorded certificate, which is
    then revoked with time and reason, together with its audit event; whatever
    fails, neither is recorded without the other. *)
Theorem revocation_is_audited path_id body fl w r w' :
  certs_keyed w -> run fl (handleRevokeCertificate path_id body) w = (r, w') ->
  match r with
  | inl _ => w_db w' = w_db w
  | inr _ => exists id reason, uuid_parse path_id = Some id /\ (body = None /\ reason = "" \/ body = Some (Some reason))
      /\ revoked_with_event id reason w w'
  end.
Proof using.
  intros Hk Hrun. by_wp Hrun. unfold handleRevokeCertificate.
  destruct (uuid_parse path_id) as [id|] eqn:Ep; [|done].
  destruct body as [[reason|]|]; [| |set (reason := "")]; cbn [decodeJSON mbind prog_mbind prog_bind fail]; [|reflexivity|].
  all: apply wp_txn; [done|]; eapply wp_mono; [|by apply wp_revoke_body]; intros [e|resp] w1 Hr; [done|];
    (split; [|done]); exists id, reason; naive_solver.
Qed.
End revocation.

(** ** Exports *)

(** What the other actors do between two looks at the job: they keep the table
    well formed, and no job changes its key. *)
Record lawful (env : world -> world) : Prop := {
  lw_wf w : wf_jobs w -> wf_jobs (env w);
  lw_key w i j j' : wf_jobs w -> W_jobs w !! i = Some j -> W_jobs (env w) !! i = Some j' ->
    j_idempotency_key j' = j_idempotency_key j;
}.

Lemma rtc_row_key fc j j' : rtc (row_step fc) j j' -> j_idempotency_key j' = j_idempotency_key j.
Proof. induction 1 as [|j1 j2 j3 [Hs _] _ IH]; [done|]. rewrite IH. unfold same_identity in Hs. naive_solver. Qed.

(** Any calls of the queue's service, failing or not, are lawful. *)
Lemma lawful_history `{UuidText} s cs : lawful (history s cs).
Proof.
  assert (Hg : forall w, wf_jobs w -> good true w (history s cs w))
    by (intros w Hw; apply good_history; [done|by apply good_refl]).
  split.
  - intros w Hw. apply (Hg w Hw).
  - intros w i j j' Hw Hj Hj'. destruct (Hg w Hw) as [_ [He _]].
    destruct (He _ _ Hj) as (x & Hx & Hr%rtc_row_key). congruence.
Qed.

Section exports.
Context `{UuidText} `{SecretOps} `{ArchiveOps}.

(** The snapshot is of a job of the account's key, as it is now. *)
Definition tracks (label : string) (s : exportJobSnapshot) (w : world) : Prop :=
  exists j, W_jobs w !! j_id j = Some j /\ j_idempotency_key j = export_key label /\ s = snapshot_of j.

(** The archive is what a completed export of the account has on record. *)
Definition exported (label : string) (x : string * string * string) (w : world) : Prop :=
  exists j, W_jobs w !! j_id j = Some j /\ j_idempotency_key j = export_key label
    /\ j_state j = StateCompleted /\ archive_of (snapshot_of j) = Some x.

Lemma tracks_exported label s x w : tracks label s w -> archive_of s = Some x -> exported label x w.
Proof using.
  intros (j & Hj & Hk & ->) Hx. exists j. split_and!; try done.
  unfold archive_of in Hx. case_cond; [|done]. by bools.
Qed.

Definition well_tracked (label : string) (r : export_error + exportJobSnapshot) (w : world) : Prop :=
  wf_jobs w /\ match r with inr s => tracks label s w | inl _ => True end.

Lemma wp_create_export label w : wf_jobs w -> wp (create_export label) (well_tracked label) w.
Proof using.
  intros Hw. unfold create_export, well_tracked. case_cond; [|simpl; auto].
  apply wp_bind, wp_attempt. eapply wp_mono; [|by apply wp_Create].
  intros [e|j] w' (_ & Hw' & _ & Hj); simpl; [done|]. split; [done|].
  destruct Hj as (Hk & Hl & _). exists j. by split_and!.
Qed.

Lemma wp_purge key w : wf_jobs w -> wp (purge_export key) (fun r w' => wf_jobs w' /\ exists u, r = inr u) w.
Proof using.
  intros Hw. apply wp_try_bind; [by split; [|eexists]|].
  destruct (delete_jobs _ w) as [e|[[] w']] eqn:Ed; (split; [|by eexists]); [done|]. by eapply delete_jobs_wf.
Qed.

Lemma wp_snapshot_by label s w :
  wf_jobs w -> (forall j, W_jobs w !! es_ID s = Some j -> j_idempotency_key j = export_key label) ->
  wp (exportJobSnapshot_by (es_ID s)) (well_tracked label) w.
Proof using.
  intros Hw Hk. unfold exportJobSnapshot_by, well_tracked. apply wp_must_bind; [done|]. cbn [reads].
  destruct (W_jobs w !! es_ID s) as [j|] eqn:Ej; [|done]. split; [done|].
  exists j. destruct (wf_row _ Hw _ _ Ej) as (-> & _). by split_and!; [|apply Hk|].
Qed.

Definition delivered (label : string) (r : export_error + (string * string * string)) (w : world) : Prop :=
  wf_jobs w /\ match r with inr x => exported label x w | inl _ => True end.

Lemma wp_turn label wait retried s w :
  (forall retried s w, wf_jobs w -> tracks label s w -> wp (wait retried s) (delivered label) w) ->
  wf_jobs w -> tracks label s w -> wp (export_turn label wait retried s) (delivered label) w.
Proof using.
  intros Hwait Hw Ht. unfold export_turn. destruct (archive_of s) as [x|] eqn:Ea.
  { split; [done|]. by eapply tracks_exported. }
  case_cond; [|by apply Hwait]. destruct retried; [by split|].
  apply wp_bind. eapply wp_mono; [|by apply wp_purge]. intros r w1 (Hw1 & u & ->).
  apply wp_bind. eapply wp_mono; [|by apply wp_create_export]. intros [e|s'] w2 [Hw2 Ht2]; [by split|].
  destruct (archive_of s') as [x|] eqn:Ea'; [split; [done|]; by eapply tracks_exported|].
  case_cond; [by split|by apply Hwait].
Qed.

Lemma wp_poll label polls retried s w :
  Forall lawful polls -> wf_jobs w -> tracks label s w ->
  wp (poll_export label polls retried s) (delivered label) w.
Proof using.
  intros Hp. revert retried s w. induction Hp as [|env polls Henv _ IH]; intros retried s w Hw Ht; cbn [poll_export].
  - apply wp_turn; [|done..]. clear. intros retried s w Hw _. by split.
  - apply wp_turn; [|done..]. clear retried s w Hw Ht. intros retried s w Hw (j & Hj & Hk & ->).
    unfold put_. apply wp_act_bind. cbn [fst snd]. apply wp_bind.
    eapply wp_mono; [|apply (wp_snapshot_by label); [by apply Henv|]].
    + intros [e|s'] w' [Hw' Ht']; [by split|by apply IH].
    + intros j' Hj'. rewrite <- Hk. by eapply Henv.
Qed.

Lemma wp_await label polls w :
  Forall lawful polls -> wf_jobs w -> wp (awaitExportP12 polls label) (delivered label) w.
Proof using.
  intros Hp Hw. unfold awaitExportP12. apply wp_bind. eapply wp_mono; [|by apply wp_create_export].
  intros [e|s] w' [Hw' Ht]; [by split|]. by apply wp_poll.
Qed.

(** A job that is on record is found again by the key it holds. *)
Lemma exec_create_export label j w :
  wf_jobs w -> W_jobs w !! j_id j = Some j -> j_idempotency_key j = export_key label -> quotable label = true ->
  exec (create_export label) w = (inr (snapshot_of j), w).
Proof using.
  intros Hw Hj Hk Hq. unfold create_export. rewrite Hq.
  assert (Ht : key_taken (export_key label) w = true) by (apply exists_row_true; exists (j_id j), j; split; [done|by bools]).
  destruct (key_taken_true _ _ Hw Ht) as (j' & Hf & Hk' & Hj').
  assert (j' = j) as ->.
  { assert (j_id j' = j_id j) as Hid by (eapply wf_keys; eauto; congruence). rewrite Hid in Hj'. congruence. }
  assert (Hne : (export_key label =s "") = false) by done. clear Hk'. revert Hf Ht Hne.
  generalize (export_key label) as key. intros key Hf Ht Hne.
  unfold exec. rewrite run_bind. unfold Create. cbn.
  assert ((JobTypeExportP12 =s "") = false) as -> by done. rewrite Hne. unfold insert_job. cbn.
  rewrite Ht. cbn. by rewrite Hf.
Qed.

(** The waits in which the job is neither done nor given up end with one in
    which it has delivered. *)
Inductive cooked (id : uuid) (x : string * string * string) : list (world -> world) -> world -> world -> Prop :=
  | cooked_now polls w j :
      W_jobs w !! id = Some j -> archive_of (snapshot_of j) = Some x -> cooked id x polls w w
  | cooked_later env polls w w' j :
      W_jobs w !! id = Some j -> archive_of (snapshot_of j) = None -> failed_or_dead (snapshot_of j) = false ->
      wf_jobs (env w) -> cooked id x polls (env w) w' -> cooked id x (env :: polls) w w'.

Lemma exec_poll label id x polls w w' :
  cooked id x polls w w' -> forall retried j, wf_jobs w -> W_jobs w !! id = Some j ->
  exec (poll_export label polls retried (snapshot_of j)) w = (inr x, w').
Proof using.
  induction 1 as [polls w j Hj Ha|env polls w w' j Hj Ha Hf Hwf Hc IH]; intros retried j' Hw Hj'; simplify_eq.
  - destruct polls; cbn [poll_export]; unfold export_turn; by rewrite Ha.
  - cbn [poll_export]. unfold export_turn. rewrite Ha, Hf. unfold put_, exec. cbn.
    destruct (wf_row _ Hw _ _ Hj) as (Hid & _). rewrite Hid.
    assert (exists j', W_jobs (env w) !! id = Some j') as (j' & Hj2) by (inversion Hc; eauto).
    rewrite Hj2. cbn. by apply IH.
Qed.

(** ** The endpoints *)

(** The file with the archive and its password. *)
Definition file_of (x : string * string * string) : p12_file :=
  MkP12File x.1.1 (p12_filename x.1.2) (if x.2 =s "" then None else Some x.2).

Lemma wp_account_label id Q w :
  (forall resp, Q (inl resp) w) -> (forall a, W_accounts w !! id = Some a -> Q (inr (ac_label a)) w) ->
  wp (account_label id) Q w.
Proof using.
  intros He Ha. unfold account_label, need. apply wp_must_bind; [apply He|]. cbn [reads].
  destruct (W_accounts w !! id) as [a|] eqn:Ea; [by apply Ha|apply He].
Qed.

(** C39. What a certificate download serves is the archive of a completed export
    of that very account, under a name and with the password of the same
    export. *)
Theorem download_serves_the_export polls path_id fl w file w' :
  wf_jobs w -> Forall lawful polls ->
  run fl (handleAppleCertificateDownload polls path_id) w = (inr file, w') ->
  exists id a x, uuid_parse path_id = Some id /\ W_accounts w !! id = Some a
    /\ exported (ac_label a) x w' /\ file = file_of x.
Proof using.
  intros Hw Hp Hr. by_wp Hr. unfold handleAppleCertificateDownload.
  destruct (uuid_parse path_id) as [id|] eqn:Ep; [|done].
  apply wp_bind, wp_account_label; [done|]. intros a Ha.
  apply wp_bind, wp_attempt. eapply wp_mono; [|by apply wp_await].
  intros [e|[[p12 serial] mid]] w1 [_ Hx]; [done|].
  apply wp_Record_bind; [|intros f]; exists id, a, (p12, serial, mid); by split_and!.
Qed.

(** An export on record that the signing worker completes while the
    download waits is delivered by that download: without faults the request
    ends with the archive, however many looks at the job it takes. *)
Theorem download_delivers polls path_id id a j x w w' :
  uuid_parse path_id = Some id -> W_accounts w !! id = Some a -> quotable (ac_label a) = true ->
  wf_jobs w -> W_jobs w !! j_id j = Some j -> j_idempotency_key j = export_key (ac_label a) ->
  cooked (j_id j) x polls w w' ->
  (exec (handleAppleCertificateDownload polls path_id) w).1 = inr (file_of x).
Proof using.
  intros Hid Ha Hq Hw Hj Hk Hc.
  change (ewp (handleAppleCertificateDownload polls path_id) (fun r _ => r = inr (file_of x)) w).
  unfold handleAppleCertificateDownload. rewrite Hid.
  apply ewp_bind. eapply (ewp_exec _ _ _ (inr (ac_label a)) w).
  { unfold exec, account_label. cbn. by rewrite Ha. }
  apply ewp_bind, ewp_attempt. unfold awaitExportP12.
  apply ewp_bind. eapply ewp_exec; [by apply exec_create_export|]. cbv beta iota.
  eapply ewp_exec; [by eapply exec_poll|]. destruct x as [[p12 serial] mid]. done.
Qed.

(** A transfer to LiveContainer that is accepted queues one job, for the
    device asked for, whose file reads back as the archive of a completed export
    of the account asked for; the answer names the export's serial and password. *)
Theorem push_carries_the_export polls req fl w resp w' :
  wf_jobs w -> Forall lawful polls ->
  run fl (handleLiveContainerP12Push polls (Some req)) w = (inr resp, w') ->
  exists a d x w1 id key, W_accounts w !! pp_AppleAccountID req = Some a
    /\ W_devices w !! pp_DeviceID req = Some d /\ exported (ac_label a) x w1
    /\ W_jobs w1 !! id = None
    /\ W_jobs w' = <[id := new_job "livecontainer_push" (Some (pp_DeviceID req)) None
         (JObj (p12_params d (default_bundle (pp_BundleID req)) x.1.2 x.1.1)) key 3 None None None id (w_now w1)]>
         (W_jobs w1)
    /\ (b ← jget_text "p12_base64" (JObj (p12_params d (default_bundle (pp_BundleID req)) x.1.2 x.1.1)); b64_decode b)
       = Some x.1.1
    /\ jget_text "password" (rs_body resp) = Some x.2.
Proof using.
  intros Hw Hp Hr. by_wp Hr. unfold handleLiveContainerP12Push.
  cbn [decodeJSON mbind prog_mbind prog_bind]. case_cond; [done|].
  apply wp_bind, wp_account_label; [done|]. intros a Ha.
  apply wp_bind, wp_target_device; [by intros w1 ->|]. intros d Hd.
  apply wp_bind, wp_attempt. eapply wp_mono; [|by apply wp_await].
  intros [e|[[p12 serial] mid]] w1 [Hw1 Hx]; [done|].
  apply wp_bind. eapply wp_mono; [|by apply wp_queue_job]. intros [e|id] w2 (_ & _ & Hq); [done|].
  destruct Hq as (Hn & key & Hj).
  apply wp_Record_bind; [|intros f]; exists a, d, (p12, serial, mid), w1, id, key;
    (split_and!; [done..|exact Hj|apply b64_roundtrip|done]).
Qed.
End exports.

(** ** The archive *)

Lemma decode_p12_result ex r :
  decode_p12 (p12_result ex r)
  = Some (MkP12Result (b64_encode (ex_p12 ex)) (rest_str "cert_serial" r) (rest_str "machine_id" r)).
Proof. done. Qed.

(** Export round trip: what the signing worker reports of an export is read
    back as the file it exported, with its serial and its password. *)
Theorem export_roundtrip ex r j :
  ex_p12 ex <> "" -> j_state j = StateCompleted -> j_result j = Some (p12_result ex r) ->
  archive_of (snapshot_of j) = Some (ex_p12 ex, rest_str "cert_serial" r, rest_str "machine_id" r).
Proof.
  intros Hne Hs Hr. unfold archive_of. cbn [es_State es_Result snapshot_of]. rewrite Hr, Hs.
  rewrite bool_decide_eq_true_2 by done. cbn [mbind option_bind].
  rewrite decode_p12_result. cbn [mbind option_bind pr_P12Base64 pr_CertSerial pr_MachineID].
  case_cond; bools; [|by rewrite b64_roundtrip].
  match goal with He : b64_encode _ = "" |- _ => revert He end. intros He. pose proof (b64_roundtrip (ex_p12 ex)) as Hrt. rewrite He in Hrt. cbn in Hrt. congruence.
Qed.

(** * Concrete certificates *)

#[local] Existing Instance sample_uuid.
#[local] Existing Instance sample_secrets.
#[local] Existing Instance sample_archives.

(** ** Exports *)

Definition label60 : string := "apple@example.org".

Definition export_job : job :=
  claim_row 7 (5 * Minute) Hour
    (new_job JobTypeExportP12 None None (export_params label60) (export_key label60) 5 None None None 50 0).

(** The export of account 60 is with the worker. *)
Definition export_world : world :=
  set_db (on_accounts (fun _ => {[60%N := account60]})) (world_with export_job).

Lemma export_world_wf : wf_jobs export_world.
Proof. destruct (world_with_wf export_job) as [Hr Hk]; [|done|by split]. apply claim_row_wf, new_job_wf. Qed.

Definition helper_report : helperResult :=
  MkHelperResult "ok" "" "" (JObj [("cert_serial", JStr "C1"); ("machine_id", JStr "pw")]).

Definition worker_out : externals := outside [] helper_ok.

(** The worker's calls: it starts, and it completes with the helper's report. *)
Definition report (state : string) (result : option json) (at_ : instant) : world -> world :=
  history svc [MkCall (QUpdate 7 50 (MkUpdateRequest state None None None result)) at_ []].

Definition starts : world -> world := report StateInProgress None Hour.
Definition finishes : world -> world := report StateCompleted (Some (p12_result worker_out helper_report)) Hour.

Definition the_archive : string * string * string := ("cDEy", "C1", "pw").

Lemma polls_lawful : Forall lawful [starts; id; finishes].
Proof. repeat apply Forall_cons_2; [apply lawful_history|exact (lawful_history svc [])|apply lawful_history|apply Forall_nil_2]. Qed.

Lemma starts_wf w : wf_jobs w -> wf_jobs (starts w).
Proof. intros Hw. by apply (lawful_history svc). Qed.

Lemma the_export_cooks :
  exists w', cooked 50 the_archive [starts; id; finishes] export_world w' /\ wf_jobs w'.
Proof.
  pose proof export_world_wf as Hw. pose proof (starts_wf _ Hw) as Hw1.
  assert (Hw2 : wf_jobs (finishes (starts export_world))) by (by apply (lawful_history svc)).
  eexists. split; [|exact Hw2].
  eapply cooked_later; [vm_compute; reflexivity..|exact Hw1|].
  eapply cooked_later; [vm_compute; reflexivity..|exact Hw1|].
  eapply cooked_later; [vm_compute; reflexivity..|exact Hw2|].
  eapply cooked_now; vm_compute; reflexivity.
Qed.

Lemma download_delivers_witness :
  (exec (handleAppleCertificateDownload [starts; id; finishes] (sample_text 60)) export_world).1
  = inr (MkP12File "cDEy" "ALTCertificate-C1.p12" (Some "pw")).
Proof.
  destruct the_export_cooks as (w' & Hc & _).
  exact (download_delivers [starts; id; finishes] (sample_text 60) 60 account60 export_job the_archive
    export_world w' eq_refl eq_refl eq_refl export_world_wf eq_refl eq_refl Hc).
Defined.

Lemma download_serves_the_export_witness :
  exists file w', run [] (handleAppleCertificateDownload [starts; id; finishes] (sample_text 60)) export_world
      = (inr file, w')
    /\ exists x, exported label60 x w' /\ file = file_of x.
Proof.
  assert (Hrun : exists file w', run [] (handleAppleCertificateDownload [starts; id; finishes] (sample_text 60))
      export_world = (inr file, w')) by (eexists _, _; vm_compute; reflexivity).
  destruct Hrun as (file & w' & Hrun). exists file, w'. split; [exact Hrun|].
  destruct (download_serves_the_export [starts; id; finishes] (sample_text 60) [] _ _ _ export_world_wf polls_lawful Hrun)
    as (i & a & x & Hi & Ha & Hx & Hf).
  vm_compute in Hi. injection Hi as <-. vm_compute in Ha. injection Ha as <-. exists x. by split.
Defined.

Definition push : liveContainerP12PushRequest := MkP12Push 60 1 "".

Lemma push_carries_the_export_witness :
  exists resp w', run [] (handleLiveContainerP12Push [starts; id; finishes] (Some push)) export_world = (inr resp, w')
    /\ exists x w1, exported label60 x w1 /\ jget_text "password" (rs_body resp) = Some x.2.
Proof.
  assert (Hrun : exists resp w', run [] (handleLiveContainerP12Push [starts; id; finishes] (Some push))
      export_world = (inr resp, w')) by (eexists _, _; vm_compute; reflexivity).
  destruct Hrun as (resp & w' & Hrun). exists resp, w'. split; [exact Hrun|].
  destruct (push_carries_the_export [starts; id; finishes] push [] _ _ _ export_world_wf polls_lawful Hrun)
    as (a & d & x & w1 & i & key & Ha & _ & Hx & _ & _ & _ & Hpw).
  vm_compute in Ha. injection Ha as <-. exists x, w1. by split.
Defined.

Lemma export_roundtrip_witness :
  exists j, W_jobs (finishes (starts export_world)) !! 50%N = Some j /\ archive_of (snapshot_of j) = Some the_archive.
Proof.
  eexists. split; [vm_compute; reflexivity|].
  rewrite (export_roundtrip worker_out helper_report); [reflexivity|vm_compute; discriminate|reflexivity..].
Defined.

(** ** Revocation *)

Definition certificate80 : certificate := MkCert 80 (Some "C1") 60 "signing-worker" false None None.

Definition cert_world : world := set_db (on_certificates (fun _ => {[80%N := certificate80]})) (sign_world (Some "iPhoneOS")).

Definition leaked : option (option string) := Some (Some "leaked").

Lemma revocation_is_audited_witness :
  exists resp w', run [] (handleRevokeCertificate (sample_text 80) leaked) cert_world = (inr resp, w')
    /\ revoked_with_event 80 "leaked" cert_world w'.
Proof.
  assert (Hk : certs_keyed cert_world) by (intros i c Hc; cbn in Hc; apply lookup_singleton_Some in Hc as [<- <-]; reflexivity).
  assert (Hrun : exists resp w', run [] (handleRevokeCertificate (sample_text 80) leaked) cert_world = (inr resp, w'))
    by (eexists _, _; vm_compute; reflexivity).
  destruct Hrun as (resp & w' & Hrun). exists resp, w'. split; [exact Hrun|].
  destruct (revocation_is_audited (sample_text 80) leaked [] _ _ _ Hk Hrun) as (i & reason & Hi & Hb & Hr).
  vm_compute in Hi. injection Hi as <-. destruct Hb as [[Hb _]|Hb]; [done|].
  injection Hb as <-. exact Hr.
Defined.

(** ** Flaws *)

(** The next signed upload that reports the certificate takes the revocation
    back, and keeps its time and reason. *)
Example upload_takes_revocation_back :
  let w1 := (exec (handleRevokeCertificate (sample_text 80) leaked) cert_world).2 in
  let w2 := (exec (handleUploadSignedArtifact 7 (Form form_value (Some signed_ipa))) w1).2 in
  ce_revoked <$> W_certificates w1 !! 80%N = Some true
  /\ (fun c => (ce_revoked c, ce_revoked_reason c)) <$> W_certificates w2 !! 80%N = Some (false, Some "leaked").
Proof. vm_compute. done. Qed.

(** A completed export without an archive keeps its key: no later download of
    the account ever gets one. *)
Example unusable_export_is_final :
  let w := report StateCompleted (Some (JObj [("p12_base64", JStr "")])) Hour (starts export_world) in
  let '(r1, w1) := exec (handleAppleCertificateDownload [id; id; id] (sample_text 60)) w in
  let '(r2, w2) := exec (handleAppleCertificateDownload [id; id; id] (sample_text 60)) w1 in
  match r1, r2 with
  | inl e1, inl e2 => rs_status e1 = Accepted /\ rs_status e2 = Accepted /\ W_jobs w2 = W_jobs w
  | _, _ => False
  end.
Proof. vm_compute. split_and!; reflexivity. Qed.

(** The archive of a revoked certificate is still served. *)
Example revoked_export_is_served :
  let w := set_db (on_certificates (fun _ => {[80%N := certificate80]})) (finishes (starts export_world)) in
  let w1 := (exec (handleRevokeCertificate (sample_text 80) leaked) w).2 in
  ce_revoked <$> W_certificates w1 !! 80%N = Some true
  /\ (exec (handleAppleCertificateDownload [] (sample_text 60)) w1).1
     = inr (MkP12File "cDEy" "ALTCertificate-C1.p12" (Some "pw")).
Proof. vm_compute. split_and!; reflexivity. Qed.
