(* ===== verification/DevicesAdmin.v ===== *)
(** Devices registered and removed by an operator (internal/api/devices_admin.go):
    the upsert by UDID, and the deletion with what the keys of the other tables
    make of it. *)
From S2P Require Import Prelude GoStrings GoTime Effects Schema AuditLog Jobs Http Agents.

Record adminCreateDeviceRequest := MkCreateDevice {
  cd_Udid : string;
  cd_Platform : string;
  cd_DeviceName : string;
  cd_Model : string;
  cd_OsVersion : string;
  cd_PairingStatus : string
}.

Definition text_or (s fallback : string) : string := if s =s "" then fallback else s.

(** The request as it is stored: trimmed, lower case where that is meant, with
    defaults. *)
Definition normalised (r : adminCreateDeviceRequest) : adminCreateDeviceRequest :=
  MkCreateDevice (trim_space (cd_Udid r)) (text_or (to_lower (trim_space (cd_Platform r))) "ios")
    (trim_space (cd_DeviceName r)) (trim_space (cd_Model r)) (trim_space (cd_OsVersion r))
    (text_or (to_lower (trim_space (cd_PairingStatus r))) "paired").

Definition create_texts (r : adminCreateDeviceRequest) : list string :=
  [cd_Udid r; cd_Platform r; cd_DeviceName r; cd_Model r; cd_OsVersion r; cd_PairingStatus r].

(** [CASE WHEN EXCLUDED.x <> '' THEN EXCLUDED.x ELSE devices.x END] *)
Definition keep_text (new : string) (old : option string) : option string :=
  if new =s "" then old else Some new.

Definition updated_device (r : adminCreateDeviceRequest) (now : instant) (d : device) : device :=
  MkDevice (dv_id d) (dv_udid d) (cd_Platform r) (keep_text (cd_DeviceName r) (dv_device_name d))
    (keep_text (cd_Model r) (dv_model d)) (keep_text (cd_OsVersion r) (dv_os_version d))
    (dv_agent_id d) (cd_PairingStatus r) (dv_developer_mode_enabled d) (Some now).

Definition inserted_device (r : adminCreateDeviceRequest) (now : instant) (id : uuid) : device :=
  MkDevice id (cd_Udid r) (cd_Platform r) (Some (cd_DeviceName r)) (Some (cd_Model r)) (Some (cd_OsVersion r))
    None (cd_PairingStatus r) None (Some now).

Definition upsert_device (r : adminCreateDeviceRequest) (w : world) : sqlerr + uuid * world :=
  if forallb pg_text (create_texts r) then
    match device_by_udid (cd_Udid r) w with
    | Some d => inr (dv_id d, set_db (on_devices (<[dv_id d := updated_device r (w_now w) d]>)) w)
    | None => let d := inserted_device r (w_now w) (w_fresh w) in
              inr (dv_id d, set_fresh (w_fresh w + 1)%N (set_db (on_devices (<[dv_id d := d]>)) w))
    end
  else inl SyntaxError.

Section devices.
Context `{UuidText}.

Definition handleAdminCreateDevice (body : option adminCreateDeviceRequest) : handler :=
  req ← decodeJSON body;
  let req := normalised req in
  if cd_Udid req =s "" then fail BadRequest "udid is required" else
  id ← need Pool (upsert_device req) InternalServerError "saving device failed";
  _ ← Record_ "admin" "device.created"
        [WithData (JObj [("device_id", JStr (uuid_text id)); ("udid", JStr (cd_Udid req));
                         ("platform", JStr (cd_Platform req)); ("name", JStr (cd_DeviceName req))])];
  ok Created (JObj [("id", JStr (uuid_text id)); ("udid", JStr (cd_Udid req));
    ("device_name", JStr (cd_DeviceName req)); ("platform", JStr (cd_Platform req));
    ("model", JStr (cd_Model req)); ("os_version", JStr (cd_OsVersion req));
    ("pairing_status", JStr (cd_PairingStatus req))]).

(** ** Deletion *)

(** Jobs and signed artifacts hold a device back. *)
Definition device_held (id : uuid) (w : world) : bool :=
  exists_row (fun j => bool_decide (j_device_id j = Some id)) (W_jobs w)
  || exists_row (fun sa => bool_decide (sa_device_id sa = id)) (W_signed w).

Definition on_device (id : uuid) (dep : deployment) : bool := bool_decide (dp_device_id dep = id).

(** An installation record of one of the device's deployments. *)
Definition installed_on (id : uuid) (w : world) (ir : installation) : bool :=
  match W_deployments w !! ir_deployment_id ir with Some dep => on_device id dep | None => false end.

Definition unbound_token (t : device_token) : device_token :=
  MkDeviceToken (dt_id t) (dt_name t) (dt_key_id t) (dt_token_hash t) (dt_scopes t) None
    (dt_expires_at t) (dt_revoked_at t) (dt_last_used_at t) (dt_created_at t).

(** The device's deployments go with it, their installation records with them;
    its tokens lose their device. *)
Definition remove_device (id : uuid) (w : world) : world :=
  set_db (fun d =>
    on_devices (delete id) (on_deployments (delete_where (on_device id))
      (on_installations (delete_where (installed_on id w))
        (on_device_tokens (update_where (fun t => bool_decide (dt_device_id t = Some id)) unbound_token) d)))) w.

(** [DELETE FROM devices WHERE id = $1]: the rows affected. *)
Definition delete_device (id : uuid) (w : world) : sqlerr + Z * world :=
  match W_devices w !! id with
  | None => inr (0, w)
  | Some _ => if device_held id w then inl FkViolation else inr (1, remove_device id w)
  end.

Definition handleAdminDeleteDevice (path_id : string) : handler :=
  match uuid_parse path_id with
  | None => fail BadRequest "invalid device id"
  | Some id =>
      n ← need Pool (delete_device id) InternalServerError "device delete failed";
      if n =? 0 then fail NotFound "device not found" else
      _ ← Record_ "admin" "device.deleted" [WithData (JObj [("device_id", JStr (uuid_text id))])];
      ok StatusOK (JObj [("status", JStr "deleted"); ("id", JStr (uuid_text id))])
  end.
End devices.
