(* ===== verification/DevicesAdminSpec.v ===== *)
(** What the device endpoints of the operator guarantee: a UDID names one device,
    whose owner a registration never changes; a deletion leaves no row behind
    that names the device.  At the end, registrations and deletions on which the
    theorems apply. *)
From S2P Require Import Prelude GoStrings Effects GoTime Schema Samples AuditLog Jobs JobsSpec JobsWitness Http Agents DevicesAdmin.

(** No two devices share a UDID, and every identifier is one that was handed out. *)
Record registry (w : world) : Prop := {
  rg_wf : devices_wf w;
  rg_udid i1 i2 d1 d2 : W_devices w !! i1 = Some d1 -> W_devices w !! i2 = Some d2 ->
    dv_udid d1 = dv_udid d2 -> i1 = i2;
  rg_fresh i d : W_devices w !! i = Some d -> (i < w_fresh w)%N;
}.

(** Every device a row names exists, and every deployment an installation names. *)
Record linked (w : world) : Prop := {
  lk_jobs i j d : W_jobs w !! i = Some j -> j_device_id j = Some d -> is_Some (W_devices w !! d);
  lk_signed i sa : W_signed w !! i = Some sa -> is_Some (W_devices w !! sa_device_id sa);
  lk_deployments i dep : W_deployments w !! i = Some dep -> is_Some (W_devices w !! dp_device_id dep);
  lk_installations i ir : W_installations w !! i = Some ir -> is_Some (W_deployments w !! ir_deployment_id ir);
  lk_tokens i t d : W_device_tokens w !! i = Some t -> dt_device_id t = Some d -> is_Some (W_devices w !! d);
}.

Lemma device_by_udid_spec udid w :
  match device_by_udid udid w with
  | Some d => dv_udid d = udid /\ exists i, W_devices w !! i = Some d
  | None => forall i d, W_devices w !! i = Some d -> dv_udid d <> udid
  end.
Proof.
  unfold device_by_udid. destruct (find_row _ _) as [d|] eqn:Ef.
  - apply find_row_Some in Ef as (i & Hi & Hu). bools. eauto.
  - rewrite find_row_None in Ef. intros i d Hd He. specialize (Ef _ _ Hd). bools. congruence.
Qed.

(** A device is put under its identifier. *)
Lemma registry_put w w' d :
  registry w -> W_devices w' = <[dv_id d := d]> (W_devices w) -> (w_fresh w <= w_fresh w')%N ->
  (dv_id d < w_fresh w')%N ->
  (forall i x, W_devices w !! i = Some x -> dv_udid x = dv_udid d -> i = dv_id d) -> registry w'.
Proof.
  intros [Hwf Hu Hf] Hd Hle Hlt Huniq. split.
  - intros i x. rewrite Hd. intros [[<- <-]|[_ Hx]]%lookup_insert_Some; [done|]. by apply Hwf.
  - intros i1 i2 x1 x2. rewrite Hd.
    intros [[<- <-]|[_ Hx]]%lookup_insert_Some [[<- <-]|[_ Hy]]%lookup_insert_Some He; [done| | |by eapply Hu].
    + symmetry. by eapply Huniq.
    + by eapply Huniq.
  - intros i x. rewrite Hd. intros [[<- <-]|[_ Hx]]%lookup_insert_Some; [done|]. specialize (Hf _ _ Hx). lia.
Qed.

(** The row of the UDID after a registration: a new one without an owner, or the
    old one with its identifier, its owner and what the request leaves empty. *)
Definition registered (r : adminCreateDeviceRequest) (w w' : world) : Prop :=
  exists d, W_devices w' = <[dv_id d := d]> (W_devices w) /\ dv_udid d = cd_Udid r
    /\ match device_by_udid (cd_Udid r) w with
       | Some old => d = updated_device r (w_now w) old
       | None => W_devices w !! dv_id d = None /\ dv_agent_id d = None
       end.

Lemma upsert_device_spec r w id w' :
  registry w -> upsert_device r w = inr (id, w') ->
  registry w' /\ registered r w w' /\ w_db w' = on_devices (fun _ => W_devices w') (w_db w).
Proof.
  intros Hw. unfold upsert_device. case_cond; [|done]. pose proof (device_by_udid_spec (cd_Udid r) w) as Hu.
  unfold registered. destruct (device_by_udid _ w) as [d|] eqn:Ed; intros [= <- <-].
  - destruct Hu as (Hu & i & Hi). pose proof (rg_wf _ Hw _ _ Hi) as Hid.
    split_and!; [|exists (updated_device r (w_now w) d); by split_and!|done].
    eapply (registry_put w _ (updated_device r (w_now w) d)); try done.
    + simpl. rewrite Hid. by eapply rg_fresh.
    + intros i' x Hx Hxu. simpl in *. rewrite Hid. by eapply rg_udid.
  - split_and!; [|exists (inserted_device r (w_now w) (w_fresh w)); split_and!; try done|done].
    + eapply (registry_put w _ (inserted_device r (w_now w) (w_fresh w))); try done; simpl; [lia..|].
      intros i x Hx He. by destruct (Hu _ _ Hx).
    + simpl. destruct (W_devices w !! _) as [y|] eqn:Ey; [|done]. apply (rg_fresh _ Hw) in Ey. lia.
Qed.

Section endpoints.
Context `{UuidText}.

(** Registering a device: the row of its UDID is updated, or a new one added,
    and nothing else changes; identifier, owner and what the request leaves
    empty are kept, and UDIDs stay unique.  An error changes nothing. *)
Theorem registration_keeps_the_owner body fl w r w' :
  registry w -> run fl (handleAdminCreateDevice body) w = (r, w') ->
  match r with
  | inl _ => w_db w' = w_db w
  | inr _ => exists req, body = Some req /\ registry w' /\ registered (normalised req) w w'
      /\ w_db w' = on_devices (fun _ => W_devices w') (w_db w)
  end.
Proof using.
  intros Hw Hr. by_wp Hr. unfold handleAdminCreateDevice.
  destruct body as [req|]; [|done]. cbn [decodeJSON mbind prog_mbind prog_bind]. case_cond; [done|].
  unfold need. apply wp_must_bind; [done|].
  destruct (upsert_device (normalised req) w) as [e|[id w1]] eqn:Eu; [done|].
  destruct (upsert_device_spec _ _ _ _ Hw Eu) as (Hg & Hreg & Hdb).
  apply wp_Record_bind; [|intros f]; (exists req; split_and!; [done| |exact Hreg|exact Hdb]); destruct Hg; by split.
Qed.

(** ** Deletion *)

Lemma remove_device_linked id w :
  linked w -> device_held id w = false -> linked (remove_device id w).
Proof using.
  intros [H1 H2 H3 H4 H5] [Hj Hs]%orb_false_iff. split; simpl.
  - intros i j d Hl Hd. rewrite lookup_delete_ne; [by eapply H1|].
    intros ->. pose proof (exists_row_false _ _ _ _ Hj Hl) as Hx. by bools.
  - intros i sa Hl. rewrite lookup_delete_ne; [by eapply H2|].
    intros He. pose proof (exists_row_false _ _ _ _ Hs Hl) as Hx. by bools.
  - intros i dep [Hl Hp]%lookup_delete_where_Some. unfold on_device in Hp. bools.
    rewrite lookup_delete_ne; [by eapply H3|done].
  - intros i ir [Hl Hp]%lookup_delete_where_Some. destruct (H4 _ _ Hl) as [dep Hdep]. exists dep.
    apply lookup_delete_where_Some. split; [done|]. unfold installed_on in Hp. by rewrite Hdep in Hp.
  - intros i t d. rewrite lookup_update_where. destruct (W_device_tokens w !! i) as [t0|] eqn:Et; [|done].
    simpl. case_cond; bools; intros [= <-] Hd; [done|]. rewrite lookup_delete_ne; [by eapply H5|congruence].
Qed.

(** Deleting a device: it succeeds only when the device is there and no
    job and no signed artifact names it; then it is gone, with its deployments
    and their installation records, and no row that is left names it or them.
    Whatever the outcome, every reference still leads to a row. *)
Theorem deletion_leaves_no_reference path_id fl w r w' :
  linked w -> run fl (handleAdminDeleteDevice path_id) w = (r, w') ->
  linked w' /\
  match r with
  | inl _ => w_db w' = w_db w
  | inr _ => exists id, uuid_parse path_id = Some id /\ is_Some (W_devices w !! id) /\ device_held id w = false
      /\ w_db w' = w_db (remove_device id w) /\ W_devices w' !! id = None
  end.
Proof using.
  intros Hw Hr. by_wp Hr. unfold handleAdminDeleteDevice.
  destruct (uuid_parse path_id) as [id|] eqn:Ep; [|done].
  unfold need. apply wp_must_bind; [done|]. unfold delete_device.
  destruct (W_devices w !! id) as [d|] eqn:Ed; [|done].
  destruct (device_held id w) eqn:Eh; [done|]. case_cond; [lia|].
  assert (Hl : linked (remove_device id w)) by (by apply remove_device_linked).
  assert (Hg : W_devices (remove_device id w) !! id = None) by apply lookup_delete_eq.
  apply wp_Record_bind; [|intros f]; (split; [destruct Hl; by split|]); exists id; by split_and!; [|eauto|..].
Qed.

(** Without faults the converse holds. *)
Lemma deletion_succeeds path_id id w :
  uuid_parse path_id = Some id -> is_Some (W_devices w !! id) -> device_held id w = false ->
  exists resp, (exec (handleAdminDeleteDevice path_id) w).1 = inr resp.
Proof using.
  intros Hp [d Hd] Hh. unfold handleAdminDeleteDevice, exec. rewrite Hp. cbn. unfold delete_device.
  rewrite Hd, Hh. cbn. eauto.
Qed.
End endpoints.

(** * Concrete devices *)

#[local] Existing Instance sample_uuid.

(** One device, with an owner, a deployment and an installation record. *)
Definition one_device : world :=
  set_db (on_deployments (fun _ => {[20%N := MkDeployment 20 1 None None None None None None]}))
    (set_db (on_installations (fun _ => {[30%N := MkInstallation 30 20 None None None None]}))
      (set_db (on_devices (fun _ => {[1%N := device1]})) empty_world)).

Lemma one_device_registry : registry one_device.
Proof.
  unfold one_device. split; unfold devices_wf; simpl.
  - by intros i d [<- <-]%lookup_singleton_Some.
  - by intros i1 i2 d1 d2 [<- _]%lookup_singleton_Some [<- _]%lookup_singleton_Some.
  - by intros i d [<- _]%lookup_singleton_Some.
Qed.

Lemma one_device_linked : linked one_device.
Proof.
  unfold one_device. split; simpl; intros i x; rewrite ?lookup_empty; try done.
  - intros [<- <-]%lookup_singleton_Some. eexists. apply lookup_singleton_eq.
  - intros [<- <-]%lookup_singleton_Some. eexists. apply lookup_singleton_eq.
Qed.

Definition again : adminCreateDeviceRequest := MkCreateDevice " udid-1 " "" "" "Model" "" "".

Lemma registration_keeps_the_owner_witness :
  exists resp w', run [] (handleAdminCreateDevice (Some again)) one_device = (inr resp, w')
    /\ registered (normalised again) one_device w'
    /\ dv_agent_id <$> W_devices w' !! 1%N = Some (Some 7%N).
Proof.
  assert (Hrun : exists resp w', run [] (handleAdminCreateDevice (Some again)) one_device = (inr resp, w')
      /\ dv_agent_id <$> W_devices w' !! 1%N = Some (Some 7%N)) by (eexists _, _; vm_compute; split; reflexivity).
  destruct Hrun as (resp & w' & Hrun & Ho). exists resp, w'. split_and!; [exact Hrun| |exact Ho].
  destruct (registration_keeps_the_owner (Some again) [] _ _ _ one_device_registry Hrun) as (req & Hreq & _ & Hr & _).
  injection Hreq as <-. exact Hr.
Defined.

Lemma deletion_leaves_no_reference_witness :
  exists resp w', run [] (handleAdminDeleteDevice (sample_text 1)) one_device = (inr resp, w')
    /\ linked w' /\ W_devices w' !! 1%N = None /\ W_installations w' = ∅.
Proof.
  assert (Hrun : exists resp w', run [] (handleAdminDeleteDevice (sample_text 1)) one_device = (inr resp, w')
      /\ W_devices w' !! 1%N = None /\ W_installations w' = ∅)
    by (eexists _, _; vm_compute; split_and!; reflexivity).
  destruct Hrun as (resp & w' & Hrun & Hd & Hi). exists resp, w'. split; [exact Hrun|].
  destruct (deletion_leaves_no_reference (sample_text 1) [] _ _ _ one_device_linked Hrun) as [Hl _].
  split_and!; [exact Hl|exact Hd|exact Hi].
Defined.

(** A device that has ever had a job cannot be deleted: jobs are kept. *)
Example history_holds_a_device :
  (exec (handleAdminDeleteDevice (sample_text 1)) (world_with (new_job JobTypeInventory (Some 1%N) None JNull "inv" 5 None None None 50 0))).1
  = inl (writeJSON InternalServerError (error_body "device delete failed")).
Proof. vm_compute. reflexivity. Qed.
