(* ===== verification/ControlPlane.v ===== *)
(** The control plane process (cmd/control-plane/main.go): its configuration, and
    the five loops that run beside the request handlers on the same database,
    blob store and files. *)
From S2P Require Import Prelude GoStrings GoTime Versions Effects Schema AuditLog Jobs JobsSpec Scheduler Http Retention Signing Host Sources Catalog Net Discovery.

(** ** Configuration *)

(** [strconv.Atoi] *)
Definition Atoi (s : string) : option Z :=
  let '(neg, r) := split_sign s in
  if isVersionDigits r then
    let z := signed_value neg (leading_digits 0 r).1 in if int64_ok z then Some z else None
  else None.

Section configuration.
Context (env : string -> string).

(** [envStr], and [envOr] which is the same function. *)
Definition envStr (name fallback : string) : string := if env name =s "" then fallback else env name.

Definition envInt (name : string) (fallback : Z) : Z :=
  if env name =s "" then fallback else default fallback (Atoi (env name)).

(** A duration given in seconds; the multiplication wraps. *)
Definition envSeconds (name : string) (fallback : Z) : duration := wrap64 (envInt name fallback * Second).

Record settings := MkSettings {
  st_server : Server;
  st_refreshLead : duration;
  st_artifactDir : string;
  st_cidrs : list ipnet;
  st_schedInterval : duration;
  st_reapInterval : duration;
  st_sourceInterval : duration;
  st_discoveredInterval : duration;
  st_retention : duration;
  st_pruneInterval : duration;
  st_port : string;
  st_mdns : option (Z * bool);               (** port and whether it is enabled *)
  st_deviceSocket : string
}.

Definition refresh_lead : duration := wrap64 (wrap64 (envInt "REFRESH_LEAD_DAYS" 2 * 24) * Hour).

Definition retention_window : duration :=
  wrap64 (wrap64 (envInt "SIGNED_ARTIFACT_RETENTION_DAYS" 30 * 24) * Hour).

Definition enroll_cidrs : list ipnet :=
  let cidrs := env "SIDEY_ENROLL_CIDRS" in
  if cidrs =s "" then initial_cidrs else (SetEnrollCIDRs cidrs initial_cidrs).2.

(** The port that is announced, and whether it is; [None]: the port is no number. *)
Definition mdns_setting (port : string) : option (Z * bool) :=
  n ← Atoi port; Some (n, negb (envStr "SIDEY_MDNS_ENABLE" "1" =s "0")).

(** [None]: the process exits. *)
Definition read_settings : option settings :=
  if env "DATABASE_URL" =s "" then None else
  let lease := envSeconds "JOB_LEASE_SECONDS" 120 in
  let port := envStr "PORT" "8080" in
  Some (MkSettings
    (NewServerWithLimits (NewService lease [WithRefreshLead refresh_lead])
       (env "SIDEY_ADMIN_API_KEY") (envInt "SIDEY_MAX_ARTIFACT_BYTES" (Z.shiftl 4 30)))
    refresh_lead (envStr "ARTIFACT_DIR" "/var/lib/sidey/artifacts") enroll_cidrs
    (envSeconds "SCHEDULER_INTERVAL_SECONDS" 300) (envSeconds "REAP_INTERVAL_SECONDS" 15)
    (envSeconds "SOURCE_POLL_SECONDS" 43200) (envSeconds "DISCOVERED_SYNC_SECONDS" 604800)
    retention_window (envSeconds "PRUNE_INTERVAL_SECONDS" 86400)
    port (mdns_setting port)
    (envStr "SIDEY_DEVICE_SOCKET" "/run/sidey/device.sock")).
End configuration.

(** ** The loops *)

Inductive loop := Scheduling | Reaping | Watching | Mirroring | Pruning.

(** How long after the start the first pass is, and how long a loop sleeps
    after each. *)
Definition first_delay (st : settings) (l : loop) : duration :=
  match l with
  | Scheduling | Pruning => 0
  | Reaping => st_reapInterval st
  | Watching => 5 * Minute
  | Mirroring => 2 * Minute
  end.

Definition interval (st : settings) (l : loop) : duration :=
  match l with
  | Scheduling => st_schedInterval st
  | Reaping => st_reapInterval st
  | Watching => st_sourceInterval st
  | Mirroring => st_discoveredInterval st
  | Pruning => st_pruneInterval st
  end.

(** What the outside answers a pass: the feeds, and the list of the mirror. *)
Record answers := MkAnswers { os_feeds : upstream; os_list : option string }.

Section process.
Context `{UuidText} `{RefreshQueue} `{Sha1Ops} `{SortSlice}.

(** The program of a pass; its outcome is only logged. *)
Definition pass (st : settings) (out : answers) (l : loop) : prog store_state unit unit :=
  match l with
  | Scheduling => _ ← attempt (zoom (S := world) (Run (st_refreshLead st))); Ret tt
  | Reaping => _ ← attempt (zoom (S := world) (Reap (job_service (st_server st)))); Ret tt
  | Watching => _ ← SnapshotSources (os_feeds out); Ret tt
  | Mirroring => _ ← attempt (SyncDiscoveredSources (os_list out)); Ret tt
  | Pruning => _ ← attempt (zoom (S := world) (PruneSignedArtifacts (st_retention st))); Ret tt
  end.

(** What happens in the process: a pass of a loop, or a call of the queue by a
    handler, with the statements that fail. *)
Inductive happening :=
| Pass (l : loop) (time : instant) (out : answers) (faults : list bool)
| Called (c : call).

Definition happen (st : settings) (s : store_state) (h : happening) : store_state :=
  match h with
  | Pass l time out faults =>
      (run faults (pass st out l) (lset (S := world) (set_now time (lget s)) s)).2
  | Called c => lset (S := world) (call_run (job_service (st_server st)) c (lget s)) s
  end.

Definition lifetime (st : settings) (hs : list happening) (s : store_state) : store_state :=
  fold_left (happen st) hs s.
End process.
