(* ===== verification/ControlPlaneSpec.v ===== *)
(** What the control plane process guarantees as a whole: how its durations come
    out of the environment, and that none of its loops, in whatever order they
    and the calls of the handlers run and whatever fails, loses finished work.  At
    the end, concrete settings and events, and settings the code does not survive. *)
From S2P Require Import Prelude GoStrings Effects Versions GoTime Schema Samples AuditLog Jobs JobsInvariant JobsSpec JobsCreate JobsWitness Scheduler SchedulerSpec SchedulerWitness Http Artifacts Retention Signing Net Host Sources Catalog StoreWitness Discovery ControlPlane.

(** ** Configuration *)

Lemma Atoi_range s n : Atoi s = Some n -> - 2 ^ 63 <= n < 2 ^ 63.
Proof.
  unfold Atoi. destruct (split_sign s) as [neg r]. case_cond; [|done]. unfold int64_ok.
  case_cond; [|done]. intros [= <-]. lia.
Qed.

Lemma envInt_range env name fallback :
  - 2 ^ 63 <= fallback < 2 ^ 63 -> - 2 ^ 63 <= envInt env name fallback < 2 ^ 63.
Proof.
  intros Hf. unfold envInt. case_cond; [done|]. destruct (Atoi _) as [n|] eqn:E; [|done]. by apply Atoi_range in E.
Qed.

Lemma wrap64_exact z : wrap64 z = z <-> - 2 ^ 63 <= z < 2 ^ 63.
Proof. split; [intros <-; apply wrap64_range|apply wrap64_id]. Qed.

(** The width of a number of days, in hours and then in nanoseconds. *)
Lemma days_exact d :
  - 2 ^ 63 <= d < 2 ^ 63 ->
  wrap64 (wrap64 (d * 24) * Hour) = d * (24 * Hour) <-> -106751 <= d <= 106751.
Proof.
  intros Hd. change Hour with 3600000000000. split.
  - intros He. pose proof (wrap64_range (wrap64 (d * 24) * 3600000000000)) as Hr. rewrite He in Hr. lia.
  - intros Hr. rewrite (wrap64_id (d * 24)) by lia. rewrite wrap64_id by lia. lia.
Qed.

(** The retention window and the refresh lead are the number of days the
    operator sets exactly up to 106751 days; every larger number wraps around
    to a window of another length. *)
Theorem days_of_the_environment env st :
  read_settings env = Some st ->
  let r := envInt env "SIGNED_ARTIFACT_RETENTION_DAYS" 30 in
  let l := envInt env "REFRESH_LEAD_DAYS" 2 in
  (st_retention st = r * (24 * Hour) <-> -106751 <= r <= 106751)
  /\ (st_refreshLead st = l * (24 * Hour) <-> -106751 <= l <= 106751)
  /\ refreshLead (job_service (st_server st)) = st_refreshLead st.
Proof.
  unfold read_settings. case_cond; [done|]. intros [= <-]. cbn zeta.
  split_and!; [by apply days_exact, envInt_range|by apply days_exact, envInt_range|done].
Qed.

(** ** The loops *)

(** From [w] to [w']: the queue is well formed, and a job that was completed is
    still there, unchanged but for a parent that has gone. *)
Record retains (w w' : world) : Prop := {
  rt_wf : wf_jobs w';
  rt_done id j : W_jobs w !! id = Some j -> j_state j = StateCompleted ->
    exists j', W_jobs w' !! id = Some j' /\ same_but_parent j j';
}.

Lemma retains_refl w : wf_jobs w -> retains w w.
Proof. intros Hw. split; [done|]. eauto using same_but_parent_refl. Qed.

Lemma retains_trans w1 w2 w3 : retains w1 w2 -> retains w2 w3 -> retains w1 w3.
Proof.
  intros [_ H12] [Hw H23]. split; [done|]. intros id j Hj Hs. destruct (H12 _ _ Hj Hs) as (j2 & Hj2 & S12).
  assert (j_state j2 = StateCompleted) as Hs2 by (rewrite S12; by destruct j).
  destruct (H23 _ _ Hj2 Hs2) as (j3 & Hj3 & S23). eauto using same_but_parent_trans.
Qed.

(** The jobs and the clock of the identifiers. *)
Definition same_jobs (w w' : world) : Prop := W_jobs w' = W_jobs w /\ (w_fresh w <= w_fresh w')%N.

Lemma retains_same w w' : wf_jobs w -> same_jobs w w' -> retains w w'.
Proof.
  intros Hw [Hj Hf]. split; [|rewrite Hj; eauto using same_but_parent_refl].
  destruct Hw as [Hr Hk]. split; rewrite Hj; [|done]. intros id j Hl. destruct (Hr _ _ Hl) as (? & ? & ?).
  split_and!; [done..|lia].
Qed.

Lemma retains_sched w w' : sched_jobs w w' -> retains w w'.
Proof.
  intros [Hw Hk _ _ _]. split; [done|]. intros id j Hj Hs. destruct (Hk _ _ Hj) as [[Hd _]|?]; [|done].
  rewrite Hs in Hd. done.
Qed.

Lemma retains_good fc w w' : good fc w w' -> retains w w'.
Proof.
  intros [Hw [He _]]. split; [done|]. intros id j Hj Hs. destruct (He _ _ Hj) as (j' & Hj' & R).
  exists j'. split; [done|]. inversion R as [|? y ? Hstep]; subst; [apply same_but_parent_refl|].
  by apply completed_no_step in Hstep.
Qed.

Lemma keeps_zoom {S T E A} `{Lens S T} (I : S -> Prop) (p : prog S E A) :
  keeps I p -> keeps (fun t : T => I (lget t)) (zoom p).
Proof. intros Hp t Ht. apply wp_zoom. eapply wp_mono; [|by apply Hp]. intros r s. by rewrite lget_lset. Qed.

Lemma keeps_txn_with {S E A} (I : S -> Prop) rb (be : E) (ce : A -> E) (p : prog S E A) :
  (forall s0 s, I s0 -> I s -> I (rb s0 s)) -> keeps I p -> keeps I (txn_with rb be ce p).
Proof.
  intros Hrb Hp s Hs. apply wp_txn_with; [done|]. eapply wp_mono; [|by apply Hp].
  intros [e|a] s' Hs'; auto.
Qed.

Lemma same_jobs_rollback w0 w1 w2 : same_jobs w0 w1 -> same_jobs w0 w2 -> same_jobs w0 (rollback w1 w2).
Proof. intros [Hj Hf] [_ Hf']. split; [done|]. simpl. lia. Qed.

Lemma keeps_prune w0 retention : keeps (same_jobs w0) (PruneSignedArtifacts retention).
Proof.
  unfold PruneSignedArtifacts. case_cond; [apply keeps_ret|]. repeat keeps_step.
  - unfold prune_one. keeps_step. apply keeps_txn_with; [apply same_jobs_rollback|].
    unfold Exists, Remove. repeat keeps_step; by intros w1 y w2 Hw [= <- <-].
  - by apply keeps_Record.
Qed.

Lemma keeps_snapshot {E} w0 apps : keeps (same_jobs w0) (@snapshotListings E apps).
Proof.
  unfold snapshotListings. repeat keeps_step. unfold upsert_listing. intros w1 y w2 Hw He.
  repeat (case_match; simplify_eq); done.
Qed.

(** ** The files and the cache *)

(** An assertion about the tables, of the whole state. *)
Definition of_world (I : world -> Prop) (s : store_state) : Prop := I (lget s).

Lemma keeps_ReadJSON {E} I path : keeps (of_world I) (@ReadJSON store_state E _ path).
Proof. unfold ReadJSON. repeat keeps_step. Qed.

Lemma keeps_WriteJSON {E} I path j : keeps (of_world I) (@WriteJSON store_state E _ path j).
Proof. unfold WriteJSON. repeat keeps_step; by intros s x s' Hs [= <- <-]. Qed.

#[local] Hint Resolve keeps_ReadJSON keeps_WriteJSON : keeps.

Lemma keeps_sources {E} I : keeps (of_world I) (@loadStoreSources E).
Proof. unfold loadStoreSources. repeat first [apply keeps_ReadJSON | keeps_step]. Qed.

Lemma keeps_first_decodable {E} I ps : keeps (of_world I) (@first_decodable E ps).
Proof.
  induction ps as [|p ps IH]; cbn [first_decodable]; [apply keeps_ret|].
  keeps_step; [apply keeps_ReadJSON|]. destruct a as [[j|]|]; [|exact IH..].
  destruct (unmarshal_sources [] j) as [custom []]; [apply keeps_ret|exact IH].
Qed.

Section loops.
Context `{UuidText} `{HQL : RefreshQueueLaws} `{Sha1Ops} `{SortSlice}.

Lemma keeps_SnapshotSources {E} w0 up : keeps (of_world (same_jobs w0)) (@SnapshotSources _ E up).
Proof using.
  unfold SnapshotSources, getStoreApps. repeat first [apply keeps_sources | keeps_step]; [done|].
  apply (keeps_zoom (T := store_state)), keeps_snapshot.
Qed.

Lemma keeps_SyncDiscovered w0 answer : keeps (of_world (same_jobs w0)) (SyncDiscoveredSources answer).
Proof using.
  unfold SyncDiscoveredSources, loadDiscoveredRemoved, loadCustomSourcesFile, saveCustomSources.
  repeat first [apply keeps_ReadJSON | apply keeps_WriteJSON | apply keeps_first_decodable | keeps_step]; [done|].
  apply (keeps_zoom (T := store_state)), keeps_Record. done.
Qed.

(** What holds from the state before to the state after, of each program. *)
Lemma keeps_retains {E A} (R : world -> world -> Prop) w0 (p : prog store_state E A) :
  (forall w, wf_jobs w -> R w w) -> (forall w w', wf_jobs w -> R w w' -> retains w w') ->
  (forall w, keeps (of_world (R w)) p) -> keeps (of_world (retains w0)) p.
Proof using.
  intros Hrefl HR Hk s Hs. eapply wp_mono; [|apply (Hk (lget s)), Hrefl, (rt_wf _ _ Hs)].
  intros r s' Hr. eapply retains_trans; [exact Hs|]. by apply HR; [apply (rt_wf _ _ Hs)|].
Qed.

Lemma keeps_logged {S E A} (I : S -> Prop) (p : prog S E A) :
  keeps I p -> keeps I (_ ← attempt p; Ret (E := unit) tt).
Proof using. intros Hp. by repeat keeps_step. Qed.

Lemma keeps_pass st out l w0 : keeps (of_world (retains w0)) (pass st out l).
Proof using HQL.
  assert (Hsame : (forall w, keeps (of_world (same_jobs w)) (pass st out l)) ->
    keeps (of_world (retains w0)) (pass st out l))
    by (apply keeps_retains; [done|apply retains_same]).
  destruct l; cbn [pass] in *.
  - apply (keeps_retains sched_jobs); [apply sched_jobs_refl|by intros; apply retains_sched|].
    intros w. apply keeps_logged, (keeps_zoom (T := store_state)), keeps_tick.
  - apply (keeps_retains (good false)); [apply good_refl|by intros w w' _; apply retains_good|].
    intros w. apply keeps_logged, (keeps_zoom (T := store_state)), keeps_Reap.
  - apply Hsame. intros w. keeps_step; [apply keeps_SnapshotSources|apply keeps_ret].
  - apply Hsame. intros w. apply keeps_logged, keeps_SyncDiscovered.
  - apply Hsame. intros w. apply keeps_logged, (keeps_zoom (T := store_state)), keeps_prune.
Qed.

Lemma happen_retains st s h w0 : retains w0 (lget s) -> retains w0 (lget (happen st s h)).
Proof using HQL.
  intros Hs. destruct h as [l t out fl|c]; cbn [happen].
  - apply (keeps_run (of_world (retains w0)) _ fl _ (keeps_pass st out l w0)).
    unfold of_world. rewrite lget_lset. eapply retains_trans; [exact Hs|].
    apply retains_same; [apply (rt_wf _ _ Hs)|done].
  - rewrite lget_lset. eapply retains_trans; [exact Hs|].
    apply (retains_good true), good_call; [done|]. apply good_refl, (rt_wf _ _ Hs).
Qed.

(** The process as a whole: whatever the loops and the handlers' calls of the
    queue do, in any order, at any times and with any statement failing, the
    queue stays well formed, and a completed job is kept for good: none of them
    removes it or changes a column of it, but for the reference to a parent
    that has been removed. *)
Theorem completed_work_survives st hs s :
  wf_jobs (lget s) -> retains (lget s) (lget (lifetime st hs s)).
Proof using HQL.
  intros Hw. unfold lifetime. assert (Hs : retains (lget s) (lget s)) by (by apply retains_refl).
  revert Hs. generalize (lget (S := world) s) at 1 3 as w0. clear Hw. intros w0. revert s.
  induction hs as [|h hs IH]; intros s Hs; cbn [fold_left]; [done|]. apply IH. by apply happen_retains.
Qed.
End loops.

(** * Concrete settings and events *)

#[local] Existing Instance sample_uuid.
#[local] Existing Instance sample_uuid_laws.
#[local] Existing Instance sample_sha1.
#[local] Existing Instance sample_sort.

Fixpoint env_of (l : list (string * string)) (k : string) : string :=
  match l with
  | [] => ""
  | (k', v) :: l => if k =s k' then v else env_of l k
  end.

Example numbers :
  Atoi "30" = Some 30 /\ Atoi "-7" = Some (-7) /\ Atoi "" = None /\ Atoi "1_000" = None /\ Atoi " 3" = None
  /\ Atoi "9223372036854775808" = None /\ envInt (env_of [("N", "x")]) "N" 5 = 5.
Proof. vm_compute. split_and!; reflexivity. Qed.

(** ** Settings *)

Definition plain_env : string -> string := env_of [("DATABASE_URL", "postgres://sidey")].

(** The documented defaults. *)
Example default_settings :
  match read_settings plain_env with
  | Some st => st_refreshLead st = DefaultLead /\ lease (job_service (st_server st)) = 120 * Second
      /\ st_retention st = 30 * Day /\ maxArtifactBytes (st_server st) = defaultMaxArtifactBytes
      /\ interval st Mirroring = 7 * Day /\ st_mdns st = Some (8080, true)
  | None => False
  end.
Proof. vm_compute. split_and!; reflexivity. Qed.

(** The window an operator would set to keep signed archives for good. *)
Definition forever_env : string -> string :=
  env_of [("DATABASE_URL", "postgres://sidey"); ("SIGNED_ARTIFACT_RETENTION_DAYS", "200000")].

Lemma days_of_the_environment_witness :
  exists st, read_settings forever_env = Some st /\ st_retention st <> 200000 * Day /\ st_refreshLead st = 2 * Day.
Proof.
  assert (Hst : exists st, read_settings forever_env = Some st) by (eexists; vm_compute; reflexivity).
  destruct Hst as (st & Hst). exists st. split; [exact Hst|].
  destruct (days_of_the_environment forever_env st Hst) as (Hr & Hl & _).
  change (envInt forever_env "SIGNED_ARTIFACT_RETENTION_DAYS" 30) with 200000 in Hr.
  change (envInt forever_env "REFRESH_LEAD_DAYS" 2) with 2 in Hl.
  split; [intros He; apply (proj1 Hr) in He; lia|]. apply (proj2 Hl). lia.
Defined.

(** ** The process *)

Definition outage : answers := MkAnswers (MkUpstream (fun _ => None) (fun l => l)) None.

Definition state_of (w : world) : store_state := MkStore (MkHost w ∅ ∅) [] 0.

Definition a_claimed_job : job :=
  claim_row 7 (5 * Minute) Hour (new_job JobTypeInventory (Some 1%N) None JNull "inv" 5 None None None 50 0).

(** A job that its agent has completed. *)
Definition finished_world : world :=
  call_run svc (MkCall (QUpdate 7 50 (MkUpdateRequest StateCompleted None None None None)) Hour []) (world_with a_claimed_job).

Lemma finished_world_wf : wf_jobs finished_world.
Proof.
  assert (Hw : wf_jobs (world_with a_claimed_job)) by (apply world_with_wf; [apply claim_row_wf, new_job_wf|done]).
  unfold finished_world. set (c := MkCall _ _ _). by apply (good_call false svc c _ _ ltac:(done) (good_refl false _ Hw)).
Qed.

Definition a_day : list happening :=
  [Pass Scheduling (2 * Hour) outage [false; true]; Pass Pruning (2 * Hour) outage [];
   Called (MkCall (QUpdate 7 50 (MkUpdateRequest StateFailed None None None None)) (3 * Hour) []);
   Pass Reaping (4 * Hour) outage [true]; Pass Watching (4 * Hour) outage []; Pass Mirroring Day outage []].

Lemma completed_work_survives_witness :
  exists st j j', read_settings plain_env = Some st
    /\ W_jobs finished_world !! 50%N = Some j /\ j_state j = StateCompleted
    /\ W_jobs (lget (S := world) (lifetime st a_day (state_of finished_world))) !! 50%N = Some j' /\ same_but_parent j j'.
Proof.
  assert (Hst : exists st, read_settings plain_env = Some st) by (eexists; vm_compute; reflexivity).
  destruct Hst as (st & Hst).
  assert (Hj : exists j, W_jobs finished_world !! 50%N = Some j /\ j_state j = StateCompleted)
    by (eexists; vm_compute; split; reflexivity).
  destruct Hj as (j & Hj & Hs).
  destruct (completed_work_survives (HQL := jobs_refresh_queue_laws) st a_day (state_of finished_world) finished_world_wf) as [_ Hd].
  destruct (Hd 50%N j Hj Hs) as (j' & Hj' & Hp). exists st, j, j'. split_and!; [exact Hst|exact Hj|exact Hs|exact Hj'|exact Hp].
Defined.

(** ** Flaws *)

(** A signed archive whose profile is good for another year. *)
Definition valid_world : world :=
  set_now Day (set_db (on_signed_artifacts (fun _ => {[9%N := MkSigned 9 3 1 60 None None None (Some (365 * Day)) (Some "sha") None]}))
    empty_world).

Definition after_prune (env : string -> string) : option (list uuid) :=
  st ← read_settings env;
  Some (sa_id <$> rows (W_signed (lget (S := world) (lifetime st [Pass Pruning Day outage []] (state_of valid_world))))).

(** 200000 days wrap to a negative window: the first pass deletes the archives
    of profiles that are still valid.  A negative number of days does the same. *)
Example long_retention_deletes_valid :
  after_prune plain_env = Some [9%N] /\ after_prune forever_env = Some []
  /\ after_prune (env_of [("DATABASE_URL", "x"); ("SIGNED_ARTIFACT_RETENTION_DAYS", "-400")]) = Some [].
Proof. vm_compute. split_and!; reflexivity. Qed.
