(* ===== verification/Mdns.v ===== *)
(** The advertisement of the control plane on the local network
    (internal/api/discovery_mdns.go).  The multicast responder is outside: it is
    told what to announce and may refuse. *)
From S2P Require Import Prelude GoStrings GoTime Effects Schema Samples AuditLog Jobs Http Auth Agents Host Net Discovery.

(** [net.Interface]: the index and the flags. *)
Record interface := MkInterface { if_index : Z; if_flags : Z }.

Definition FlagUp : Z := Z.shiftl 1 0.
Definition FlagLoopback : Z := Z.shiftl 1 2.
Definition FlagMulticast : Z := Z.shiftl 1 4.

Definition discoveryServiceType : string := "_sidey._tcp".

Definition discoveryTXT (id name : string) : list string := ["id=" ++s id; "v=1"; "name=" ++s name].

(** The loop with its three [continue]s. *)
Fixpoint discoveryInterfaces (all : list interface) : list interface :=
  match all with
  | [] => []
  | i :: all' =>
      if Z.land (if_flags i) FlagUp =? 0 then discoveryInterfaces all'
      else if Z.land (if_flags i) FlagMulticast =? 0 then discoveryInterfaces all'
      else if negb (Z.land (if_flags i) FlagLoopback =? 0) then discoveryInterfaces all'
      else i :: discoveryInterfaces all'
  end.

(** What the responder is asked to announce. *)
Record announcement := MkAnnouncement {
  an_instance : string;
  an_service : string;
  an_domain : string;
  an_port : Z;
  an_txt : list string;
  an_interfaces : list interface
}.

(** The value of a key in a TXT record. *)
Definition txt_value (key : string) (txt : list string) : option string :=
  s ← List.find (has_prefix (key ++s "=")) txt; Some (trim_prefix (key ++s "=") s).

Section discovery.
Context `{UuidText} (identity : list (uuid * string)) (interfaces : option (list interface))
  (register : announcement -> bool).

Definition announcement_of (port : Z) (id : uuid) (name : string) (ifaces : list interface) : announcement :=
  MkAnnouncement (name ++s "-" ++s str_take 8 (uuid_text id)) discoveryServiceType "local." port
    (discoveryTXT (uuid_text id) name) ifaces.

(** What is announced until the process ends, if anything. *)
Definition RunDiscovery {E} (port : Z) (enable : bool) : prog world E (option announcement) :=
  if negb enable then Ret None
  else if (port <=? 0) || (65535 <? port) then Ret None
  else
    o ← serverIdentityRow identity;
    match (o : option (uuid * string)) with
    | None => Ret None
    | Some (id, name) =>
        match interfaces with
        | None => Ret None
        | Some all =>
            let ifaces := discoveryInterfaces all in
            if (length ifaces =? 0)%nat then Ret None else
            let a := announcement_of port id name ifaces in
            Ret (if register a then Some a else None)
        end
    end.

(** ** Specification *)

Definition announceable (i : interface) : Prop :=
  Z.testbit (if_flags i) 0 = true /\ Z.testbit (if_flags i) 4 = true /\ Z.testbit (if_flags i) 2 = false.

Lemma land_bit f n : 0 <= n -> (Z.land f (Z.shiftl 1 n) =? 0) = negb (Z.testbit f n).
Proof using.
  intros Hn. rewrite Z.shiftl_1_l. destruct (Z.testbit f n) eqn:Hb; simpl.
  - apply Z.eqb_neq. intros Hz. apply (f_equal (fun x => Z.testbit x n)) in Hz.
    rewrite Z.land_spec, Hb, Z.pow2_bits_true, Z.bits_0 in Hz by done. done.
  - apply Z.eqb_eq, Z.bits_inj'. intros m Hm. rewrite Z.land_spec, Z.bits_0, Z.pow2_bits_eqb by done.
    destruct (Z.eqb_spec n m) as [->|]; [by rewrite Hb|apply andb_false_r].
Qed.

Lemma elem_of_discoveryInterfaces i all :
  i ∈ discoveryInterfaces all <-> i ∈ all /\ announceable i.
Proof using.
  unfold announceable. induction all as [|x all IH]; cbn [discoveryInterfaces].
  { split; [by intros ?%not_elem_of_nil|by intros [?%not_elem_of_nil _]]. }
  unfold FlagUp, FlagMulticast, FlagLoopback. rewrite !land_bit, elem_of_cons by lia.
  destruct (Z.testbit (if_flags x) 0) eqn:E0, (Z.testbit (if_flags x) 4) eqn:E4,
    (Z.testbit (if_flags x) 2) eqn:E2; cbn [negb]; rewrite ?elem_of_cons, IH;
    (split; [naive_solver|]; intros [[->|?] (?&?&?)]; [congruence || tauto|tauto]).
Qed.

Lemma discoveryInterfaces_sublist all : discoveryInterfaces all `sublist_of` all.
Proof using.
  induction all as [|x all IH]; cbn [discoveryInterfaces]; [done|].
  repeat case_cond; first [by apply sublist_cons|by apply sublist_skip].
Qed.

Lemma txt_id id name : txt_value "id" (discoveryTXT id name) = Some id.
Proof using.
  unfold txt_value, discoveryTXT. change ("id" ++s "=") with "id=". cbn [List.find]. rewrite has_prefix_app.
  cbn [mbind option_bind]. by rewrite trim_prefix_app.
Qed.

(** What a companion finds is who answers: whatever fails, an advertisement
    is made only when it is enabled and for a port that exists, on interfaces
    that are up, can multicast and are not the loopback; its TXT record names the
    identity that [GET /api/v1/server-identity] of the same process answers
    with; and the database is left alone. *)
Theorem advertised_identity_is_served port enable fl w a w' :
  run (E := response) fl (RunDiscovery port enable) w = (inr (Some a), w') ->
  w' = w /\ enable = true /\ 1 <= port <= 65535 /\ an_port a = port
  /\ (exists all, interfaces = Some all /\ an_interfaces a `sublist_of` all)
  /\ an_interfaces a <> [] /\ Forall announceable (an_interfaces a)
  /\ exists id name, txt_value "id" (an_txt a) = Some (uuid_text id)
       /\ exec (handleServerIdentity identity) w
          = (inr (writeJSON StatusOK (JObj [("id", JStr (uuid_text id)); ("name", JStr name); ("version", JNum 1)])), w).
Proof using.
  intros Hrun. remember (Some a) as o eqn:Ho. revert a Ho. by_wp Hrun. unfold RunDiscovery.
  destruct enable; [|done]. cbn [negb]. case_cond; [done|]. bools. split; [done|]. simpl. destruct (head identity) as [[id name]|] eqn:Eh; [|done].
  destruct interfaces as [all|]; [|done]. destruct (length _ =? 0)%nat eqn:El; [done|].
  destruct (register _); [|done]. intros a [= <-]. apply Nat.eqb_neq in El.
  split_and!; try done; [lia|lia|exists all; split; [done|apply discoveryInterfaces_sublist]|intros Hn; apply El; simpl in Hn; by rewrite Hn| |].
  - apply Forall_forall. intros i Hi. by apply elem_of_discoveryInterfaces in Hi as [_ Hi].
  - exists id, name. split; [apply txt_id|]. unfold exec, handleServerIdentity, serverIdentityRow. simpl.
    by rewrite Eh.
Qed.
End discovery.

(** ** An advertisement *)

(** A loopback, an interface that is down and one that serves. *)
Definition some_interfaces : list interface := [MkInterface 1 53; MkInterface 2 16; MkInterface 3 51].

Lemma advertised_identity_is_served_witness :
  let '(r, _) := run (E := response) []
    (RunDiscovery (H := sample_uuid) [(7%N, "attic")] (Some some_interfaces) (fun _ => true) 8080 true) empty_world in
  exists a, r = inr (Some a) /\ an_instance a = "attic-uuid-0b-" /\ an_interfaces a = [MkInterface 3 51]
    /\ Forall announceable (an_interfaces a).
Proof.
  destruct (run _ _ _) as [r w'] eqn:Hrun. vm_compute in Hrun. injection Hrun as <- <-.
  eexists. split; [reflexivity|]. split; [reflexivity|]. split; [reflexivity|].
  refine (proj1 (proj2 (proj2 (proj2 (proj2 (proj2 (proj2 (advertised_identity_is_served (H := sample_uuid)
    [(7%N, "attic")] (Some some_interfaces) (fun _ => true) 8080 true [] empty_world _ empty_world _)))))))).
  vm_compute. reflexivity.
Defined.
