(* ===== verification/DeviceSocket.v ===== *)
(** The socket of the same-host device service (cmd/control-plane/main.go,
    listenDeviceSocket; internal/api/device.go, DeviceHandler).  Its endpoints
    take no credential: who may connect is decided by the modes of the socket
    file and of its directory, which this file follows. *)
From S2P Require Import Prelude GoStrings Effects Schema Jobs Http.

(** The endpoints; each goes through [deviceService]. *)
Definition DeviceHandler : list (string * string) :=
  [("GET", "/api/v1/device/health");
   ("GET", "/api/v1/device/me");
   ("POST", "/api/v1/device/me/heartbeat");
   ("POST", "/api/v1/device/me/devices");
   ("POST", "/api/v1/device/jobs/claim");
   ("POST", "/api/v1/device/jobs/{id}/status");
   ("GET", "/api/v1/device/jobs/{id}");
   ("POST", "/api/v1/device/refresh/{id}/sign");
   ("POST", "/api/v1/device/refresh/{id}/install");
   ("GET", "/api/v1/device/artifacts/{id}/download")].

(** The modes of the directory and of the socket file, where they exist, and
    whether a listener accepts. *)
Record socket_fs := MkSocketFs { sf_dir : option Z; sf_sock : option Z; sf_listening : bool }.

Definition set_dir (m : option Z) (s : socket_fs) : socket_fs := MkSocketFs m (sf_sock s) (sf_listening s).
Definition set_sock (m : option Z) (s : socket_fs) : socket_fs := MkSocketFs (sf_dir s) m (sf_listening s).
Definition set_listening (b : bool) (s : socket_fs) : socket_fs := MkSocketFs (sf_dir s) (sf_sock s) b.

(** 0770, 0660 and what [bind] asks for. *)
Definition dir_mode : Z := 504.
Definition sock_mode : Z := 432.
Definition bind_mode : Z := 511.

(** A new file gets the mode asked for less the mask. *)
Definition masked (umask mode : Z) : Z := Z.ldiff mode umask.

Section listen.
Context (umask : Z) (io_text : string).

Definition mkdir_all (s : socket_fs) : sqlerr + unit * socket_fs :=
  inr (tt, match sf_dir s with Some _ => s | None => set_dir (Some (masked umask dir_mode)) s end).

(** An address in use is refused. *)
Definition listen_unix (s : socket_fs) : sqlerr + unit * socket_fs :=
  match sf_sock s with
  | Some _ => inl Fault
  | None => inr (tt, set_listening true (set_sock (Some (masked umask bind_mode)) s))
  end.

(** The result tells whether there is a server. *)
Definition listenDeviceSocket (socketPath : string) : prog socket_fs string bool :=
  if socketPath =s "" then Ret false else
  _ ← must Fs mkdir_all (fun _ => "creating socket directory: " ++s io_text);
  _ ← try_ Fs (writes (set_dir (Some dir_mode)));
  _ ← try_ Fs (writes (set_sock None));
  _ ← must Fs listen_unix (fun _ => "listening on unix socket " ++s socketPath ++s ": " ++s io_text);
  _ ← try_ Fs (writes (set_sock (Some sock_mode)));
  Ret true.

(** ** Who may connect *)

(** By their relation to the owner and the group of the two files. *)
Inductive caller := Owner | Group | Others.

Definition shift_of (c : caller) : Z := match c with Owner => 6 | Group => 3 | Others => 0 end.

(** Connecting takes the search bit of the directory and the write bit of the
    socket. *)
Definition may_connect (c : caller) (s : socket_fs) : bool :=
  match sf_dir s, sf_sock s with
  | Some d, Some f => sf_listening s && Z.testbit d (shift_of c) && Z.testbit f (shift_of c + 1)
  | _, _ => false
  end.

Lemma masked_bit mode n : 0 <= n -> Z.testbit umask n = true -> Z.testbit (masked umask mode) n = false.
Proof using. intros Hn Hb. unfold masked. rewrite Z.ldiff_spec, Hb by done. apply andb_false_r. Qed.

Lemma wp_whatever {X E A} c (f : socket_fs -> sqlerr + X * socket_fs) (p : prog socket_fs E A) Q s :
  (forall x, wp p Q x) -> wp (try_ c f ≫= fun _ => p) Q s.
Proof using. intros Hp. split; [apply Hp|]. destruct (f s) as [|[]]; apply Hp. Qed.

Lemma no_write_bit m s : sf_sock s = Some m -> Z.testbit m 1 = false -> may_connect Others s = false.
Proof using.
  intros Hs Hm. unfold may_connect. rewrite Hs. destruct (sf_dir s); [|done].
  change (shift_of Others + 1) with 1. rewrite Hm. apply andb_false_r.
Qed.

(** What a listener that was started looks like. *)
Definition started (r : string + bool) (s : socket_fs) : Prop :=
  match r with
  | inl _ => True
  | inr b => b = true /\ sf_listening s = true /\ (Z.testbit umask 1 = true -> may_connect Others s = false)
  end.

Lemma wp_listen socketPath s : socketPath <> "" -> wp (listenDeviceSocket socketPath) started s.
Proof using.
  intros Hp. unfold listenDeviceSocket. rewrite bool_decide_eq_false_2 by done. split; [exact I|].
  unfold mkdir_all. cbn beta iota. apply wp_whatever. intros s1. apply wp_whatever. clear s s1. intros s.
  split; [exact I|]. unfold listen_unix. destruct (sf_sock s); [exact I|]. split; (split_and!; [done|done|]).
  - intros Hu. eapply no_write_bit; [reflexivity|]. exact (masked_bit bind_mode 1 ltac:(lia) Hu).
  - intros _. by eapply no_write_bit.
Qed.

(** C38. The socket keeps strangers out: under a mask that takes the write bit
    from others, whatever fails and however the files were left by an earlier
    run, a listener never admits a caller outside the owner and the group; and
    when nothing fails exactly the owner and the group are admitted, whatever
    the mask. *)
Theorem device_socket_admits socketPath fl s s' b :
  sf_listening s = false -> socketPath <> "" ->
  run fl (listenDeviceSocket socketPath) s = (inr b, s') ->
  b = true /\ sf_listening s' = true
  /\ (Z.testbit umask 1 = true -> may_connect Others s' = false)
  /\ (forall c, (exec (listenDeviceSocket socketPath) s).1 = inr true
        /\ may_connect c (exec (listenDeviceSocket socketPath) s).2
           = match c with Others => false | _ => true end).
Proof using.
  intros Hl Hp Hrun.
  destruct (wp_run_eq _ _ _ _ _ _ (wp_listen socketPath s Hp) Hrun) as (? & ? & ?).
  split_and!; [done|done|done|]. intros cl. unfold exec, listenDeviceSocket, mkdir_all.
  rewrite bool_decide_eq_false_2 by done. by destruct s as [[d|] k l], cl.
Qed.
End listen.

Lemma device_socket_admits_witness :
  exists s', run [] (listenDeviceSocket 18 "file exists" "/run/sidey/device.sock") (MkSocketFs None (Some 511) false)
             = (inr true, s')
    /\ may_connect Others s' = false
    /\ (exec (listenDeviceSocket 18 "file exists" "/run/sidey/device.sock") (MkSocketFs None (Some 511) false)).1 = inr true.
Proof.
  eexists. split; [reflexivity|].
  destruct (device_socket_admits 18 "file exists" "/run/sidey/device.sock" [] (MkSocketFs None (Some 511) false)
    _ true eq_refl ltac:(done) eq_refl) as (_ & _ & Ho & Hc).
  split; [by apply Ho|apply (Hc Others)].
Defined.
