(* ===== verification/Dashboard.v ===== *)
(** The tables of the dashboard (internal/api/dashboard.go): how a result set
    becomes a document, the lists of jobs and artifacts, and the refresh calendar.
    Lists.v has the other lists. *)
From S2P Require Import Prelude GoStrings GoTime Effects Schema AuditLog Jobs Http.

(** ** Values *)

(** A column value as the driver decodes it. *)
Inductive sqlval :=
| VNull | VUuid (u : uuid) | VText (s : string) | VInt (z : Z) | VBool (b : bool) | VTime (t : instant)
| VJson (j : json).

Definition opt_val {A} (f : A -> sqlval) (o : option A) : sqlval :=
  match o with Some a => f a | None => VNull end.

(** The nine digits of a fraction of a second, less the zeros at their end. *)
Fixpoint digits_of (n : nat) (z : Z) : string :=
  match n with O => "" | S n' => digits_of n' (z / 10) ++s itoa (z mod 10) end.

Fixpoint trim_fraction (s : string) : string :=
  match s with
  | EmptyString => ""
  | String c s' => let r := trim_fraction s' in if (r =s "") && Ascii.eqb c "0" then "" else String c r
  end.

(** [time.Time.MarshalJSON], the process running in UTC. *)
Definition time_json (t : instant) : json :=
  let frac := trim_fraction (digits_of 9 (t mod Second)) in
  let whole := format_rfc3339 t in
  JStr (if frac =s "" then whole
        else str_take (String.length whole - 1) whole ++s "." ++s frac ++s "Z").

Section dashboard.
Context `{UuidText}.

(** [jsonRow]'s value for a column. *)
Definition cell (v : sqlval) : json :=
  match v with
  | VNull => JNull
  | VUuid u => JStr (uuid_text u)
  | VText s => JStr s
  | VInt z => JNum z
  | VBool b => JBool b
  | VTime t => time_json t
  | VJson j => j
  end.

Definition table_json (columns : list string) (rows : list (list sqlval)) : json :=
  JObj [("columns", JArr (JStr <$> columns));
        ("rows", JArr ((fun r => JObj (zip columns (cell <$> r))) <$> rows))].

(** [None]: a value of the result set cannot be computed, which the driver
    reports while the rows are read. *)
Definition queryTable (columns : list string) (q : world -> option (list (list sqlval))) : handler :=
  _ ← need Pool (reads (fun _ => tt)) InternalServerError "query failed";
  o ← need Pool (reads q) InternalServerError "row iteration failed";
  match o with
  | None => fail InternalServerError "row iteration failed"
  | Some rows => ok StatusOK (table_json columns rows)
  end.

(** ** Jobs and artifacts *)

Definition job_columns : list string :=
  ["id"; "job_type"; "device_id"; "application_id"; "state"; "attempt"; "progress"; "parameters";
   "claimed_by"; "lease_expires_at"; "error_category"; "error_details"; "retry_at"; "result";
   "created_at"; "started_at"; "completed_at"].

Definition job_cells (j : job) : list sqlval :=
  [VUuid (j_id j); VText (j_job_type j); opt_val VUuid (j_device_id j);
   opt_val VUuid (j_application_id j); VText (j_state j); VInt (j_attempt j); VInt (j_progress j);
   VJson (j_parameters j); opt_val VUuid (j_claimed_by j); opt_val VTime (j_lease_expires_at j);
   opt_val VText (j_error_category j); opt_val VText (j_error_details j); opt_val VTime (j_retry_at j);
   opt_val VJson (j_result j); VTime (j_created_at j); opt_val VTime (j_started_at j);
   opt_val VTime (j_completed_at j)].

(** Newest first. *)
Definition newest_jobs (l : list job) : list job := sort_by (fun a b => j_created_at b <=? j_created_at a) l.

Definition handleListJobs : handler :=
  queryTable job_columns (fun w => Some (job_cells <$> take 200 (newest_jobs (rows (W_jobs w))))).

Definition handleListArtifacts : handler :=
  queryTable ["id"; "sha256"; "filename"; "version"; "build_number"; "bundle_identifier"; "platform";
              "min_os_version"; "source"; "quarantine_state"; "imported_at"]
    (fun w => Some ((fun a => [VUuid (ar_id a); VText (ar_sha256 a); VText (ar_filename a);
        opt_val VText (ar_version a); opt_val VText (ar_build_number a);
        opt_val VText (ar_bundle_identifier a); opt_val VText (ar_platform a);
        opt_val VText (ar_min_os_version a); opt_val VText (ar_source a);
        VText (ar_quarantine_state a); VTime (ar_imported_at a)])
      <$> take 200 (sort_by (fun a b => ar_imported_at b <=? ar_imported_at a) (rows (W_artifacts w))))).

(** ** The refresh calendar *)

(** The cast of a text to a uuid, which PostgreSQL does; [None] is its error. *)
Context (pg_uuid : string -> option uuid).

(** [parameters->>'artifact_id'] of a job.  Of an array or an object only the
    first character is kept, which is enough for the cast to fail. *)
Definition artifact_text (j : job) : option string :=
  match jget "artifact_id" (j_parameters j) with
  | None | Some JNull => None
  | Some (JStr s) => Some s
  | Some (JNum z) => Some (itoa z)
  | Some (JBool b) => Some (if b then "true" else "false")
  | Some (JArr _) => Some "["
  | Some (JObj _) => Some "{"
  end.

(** [NULLIF(t, '')::uuid]; the outer [None] is the error. *)
Definition cast_nullif (t : option string) : option (option uuid) :=
  match t with
  | None => Some None
  | Some s => if s =s "" then Some None else u ← pg_uuid s; Some (Some u)
  end.

(** A [LEFT JOIN]. *)
Definition left_join {A} (l : list A) : list (option A) := match l with [] => [None] | _ => Some <$> l end.

(** [ORDER BY created_at DESC LIMIT 1] of the jobs of a kind. *)
Definition last_job (p : job -> bool) (w : world) : option job :=
  head (newest_jobs (select p (rows (W_jobs w)))).

Definition completed_install_on (device : uuid) (j : job) : bool :=
  opt_is (j_device_id j) device && (j_job_type j =s JobTypeInstall) && (j_state j =s StateCompleted).

(** [COALESCE(sa.source_artifact_id::text, j.parameters->>'artifact_id')]; the
    join casts the parameter of every candidate. *)
Definition install_source (w : world) (j : job) : option (option string) :=
  u ← cast_nullif (artifact_text j);
  Some (match u ≫= fun i => W_signed w !! i with
        | Some sa => Some (uuid_text (sa_source_artifact_id sa))
        | None => artifact_text j
        end).

(** The lateral join [last_install]. *)
Definition last_install (w : world) (device : uuid) : option (option string) :=
  l ← mapM (install_source w) (newest_jobs (select (completed_install_on device) (rows (W_jobs w))));
  Some (match l with t :: _ => t | [] => None end).

(** The lateral join [app]. *)
Definition calendar_app (w : world) (source : option string) : option (list artifact) :=
  u ← cast_nullif source;
  let source_of := i ← u; sa ← W_signed w !! i; Some (sa_source_artifact_id sa) in
  Some (select (fun a => opt_is u (ar_id a) || opt_is source_of (ar_id a)) (rows (W_artifacts w))).

(** The lateral join [acc]: the labels a deployment is signed for. *)
Definition account_labels (w : world) (dep : uuid) : list string :=
  omap (fun ir => if bool_decide (ir_deployment_id ir = dep)
                  then sid ← ir_signed_artifact_id ir; sa ← W_signed w !! sid;
                       a ← W_accounts w !! sa_account_id sa; Some (ac_label a)
                  else None) (rows (W_installations w)).

Definition child_job (w : world) (parent : option job) (jt : string) : option job :=
  p ← parent; last_job (fun j => opt_is (j_parent_job_id j) (j_id p) && (j_job_type j =s jt)) w.

Definition refresh_columns : list string :=
  ["device_name"; "udid"; "agent_name"; "deployment_id"; "profile_expiry_at"; "next_refresh_due_at";
   "last_refresh_at"; "last_refresh_result"; "last_refresh_error"; "refresh_job_state"; "attempt";
   "error_category"; "job_error"; "job_updated_at"; "artifact_id"; "app_name"; "bundle_identifier";
   "sign_state"; "install_state"; "install_error_category"; "install_error"; "apple_id"].

(** The joined rows of a deployment: its installation record and device. *)
Definition placed (w : world) : list (deployment * installation * device) :=
  dep ← rows (W_deployments w);
  d ← rows (W_devices w);
  ir ← rows (W_installations w);
  if bool_decide (dv_id d = dp_device_id dep) && bool_decide (ir_deployment_id ir = dp_id dep)
  then [(dep, ir, d)] else [].

(** [COALESCE(.., '')] of a column of a joined row. *)
Definition text_or_empty {A} (f : A -> option string) (o : option A) : sqlval :=
  VText (default "" (o ≫= f)).

Definition calendar_row (w : world) (x : deployment * installation * device) (source : option string)
    (app : option artifact) (label : option string) : list sqlval :=
  let '(dep, ir, d) := x in
  let agent := a ← dv_agent_id d; W_agents w !! a in
  let j := last_job (fun j => opt_is (j_device_id j) (dp_device_id dep) && (j_job_type j =s JobTypeRefresh)) w in
  let sign_child := child_job w j JobTypeSign in
  let install_child := child_job w j JobTypeInstall in
  [opt_val VText (dv_device_name d); VText (dv_udid d); opt_val VText (ag_name <$> agent);
   VUuid (dp_id dep); opt_val VTime (ir_provisioning_expiry_at ir);
   opt_val VTime (dp_next_refresh_due_at dep); opt_val VTime (dp_last_refresh_at dep);
   opt_val VText (dp_last_refresh_result dep); opt_val VText (dp_last_refresh_error dep);
   opt_val VText (j_state <$> j); opt_val VInt (j_attempt <$> j);
   opt_val VText (j ≫= j_error_category); opt_val VText (j ≫= j_error_details);
   opt_val VTime (j_updated_at <$> j); VText (default "" source);
   text_or_empty (fun a => Some (ar_filename a)) app; text_or_empty ar_bundle_identifier app;
   text_or_empty (fun j => Some (j_state j)) sign_child;
   text_or_empty (fun j => Some (j_state j)) install_child;
   text_or_empty j_error_category install_child; text_or_empty j_error_details install_child;
   VText (default "" label)].

(** The rows of one deployment and record. *)
Definition calendar_rows_of (w : world) (x : deployment * installation * device)
    : option (list (option instant * list sqlval)) :=
  let '(dep, ir, _) := x in
  source ← last_install w (dp_device_id dep);
  apps ← calendar_app w source;
  let at_ := match ir_provisioning_expiry_at ir with Some t => Some t | None => dp_next_refresh_due_at dep end in
  Some (app ← left_join apps; label ← left_join (account_labels w (dp_id dep));
        [(at_, calendar_row w x source app label)]).

(** Nulls come last. *)
Definition time_le (a b : option instant) : bool :=
  match a, b with
  | Some x, Some y => x <=? y
  | None, Some _ => false
  | _, None => true
  end.

Definition calendar (w : world) : option (list (option instant * list sqlval)) :=
  l ← mapM (calendar_rows_of w) (placed w);
  Some (sort_by (fun a b => time_le a.1 b.1) (concat l)).

Definition handleListRefresh : handler :=
  queryTable refresh_columns (fun w => l ← calendar w; Some (l.*2)).
End dashboard.
