(* ===== verification/DashboardSpec.v ===== *)
(** What the refresh calendar shows: every deployment the scheduler finds due, in
    the order of the profiles' expiry, or nothing at all; and the calendar of a
    small fleet. *)
From S2P Require Import Prelude GoStrings Effects GoTime Schema Samples AuditLog Jobs JobsInvariant JobsCreate JobsWitness Scheduler SchedulerSpec SchedulerCycles SchedulerWitness Http Dashboard.

Section spec.
Context `{UuidText} `{RefreshQueue} (pg_uuid : string -> option uuid).

(** PostgreSQL reads back the texts of identifiers. *)
Context (pg_uuid_text : forall u, pg_uuid (uuid_text u) = Some u).

(** The parameter of every completed installation is a uuid, if there is one. *)
Definition castable (w : world) : Prop :=
  forall id j s, W_jobs w !! id = Some j -> j_job_type j = JobTypeInstall -> j_state j = StateCompleted ->
    artifact_text j = Some s -> s <> "" -> is_Some (pg_uuid s).

Lemma elem_of_placed w dep ir d :
  (dep, ir, d) ∈ placed w <->
  dep ∈ rows (W_deployments w) /\ ir ∈ rows (W_installations w) /\ d ∈ rows (W_devices w)
  /\ ir_deployment_id ir = dp_id dep /\ dv_id d = dp_device_id dep.
Proof using.
  unfold placed. rewrite list_elem_of_bind. split.
  - intros (dep' & Hin & Hdep). apply list_elem_of_bind in Hin as (d' & Hin & Hd).
    apply list_elem_of_bind in Hin as (ir' & Hin & Hir). case_cond; [|by apply not_elem_of_nil in Hin].
    apply list_elem_of_singleton in Hin. bools. naive_solver.
  - intros (Hdep & Hir & Hd & E1 & E2). exists dep. split; [|done].
    apply list_elem_of_bind. exists d. split; [|done]. apply list_elem_of_bind. exists ir. split; [|done].
    rewrite !bool_decide_eq_true_2 by done. apply list_elem_of_singleton. done.
Qed.

Lemma deployed_placed w x : x ∈ deployed w -> x ∈ placed w.
Proof using.
  destruct x as [[dep ir] d]. intros (? & ? & ? & ? & ? & _)%elem_of_deployed. by apply elem_of_placed.
Qed.

Lemma elem_of_left_join {A} (l : list A) o :
  o ∈ left_join l <-> match o with Some a => a ∈ l | None => l = [] end.
Proof using.
  unfold left_join. destruct l as [|x l].
  - rewrite list_elem_of_singleton. destruct o; [|done]. split; [done|by intros ?%not_elem_of_nil].
  - rewrite list_elem_of_fmap. destruct o as [a|]; [naive_solver|]. split; [|done]. by intros (? & ? & _).
Qed.

Lemma left_join_inhabited {A} (l : list A) : exists o, o ∈ left_join l.
Proof using. unfold left_join. destruct l as [|x l]; eexists; [by apply list_elem_of_here|simpl; by apply list_elem_of_here]. Qed.

(** ** The casts *)

Lemma install_source_some w j :
  castable w -> (exists id, W_jobs w !! id = Some j) -> j_job_type j = JobTypeInstall -> j_state j = StateCompleted ->
  exists t, install_source pg_uuid w j = Some t /\ (forall s, t = Some s -> s <> "" -> is_Some (pg_uuid s)).
Proof using pg_uuid_text.
  intros Hc [id Hj] Ht Hs. unfold install_source, cast_nullif. specialize (Hc id j).
  destruct (artifact_text j) as [s|] eqn:Ea; simpl; [|eexists; split; [done|naive_solver]].
  destruct (s =s "") eqn:Es; simpl; [bools; subst; eexists; split; [done|naive_solver]|]. bools.
  destruct (Hc s Hj Ht Hs eq_refl Es) as [u Hu]. rewrite Hu. simpl. eexists. split; [done|].
  destruct (W_signed w !! u) as [sa|]; intros t [= <-] _; eauto.
Qed.

Lemma elem_of_newest p w j : j ∈ newest_jobs (select p (rows (W_jobs w))) -> p j = true /\ exists id, W_jobs w !! id = Some j.
Proof using. unfold newest_jobs. rewrite elem_of_sort_by, elem_of_select, elem_of_rows. naive_solver. Qed.

Lemma last_install_some w dev :
  castable w ->
  exists t, last_install pg_uuid w dev = Some t /\ (forall s, t = Some s -> s <> "" -> is_Some (pg_uuid s)).
Proof using pg_uuid_text.
  intros Hc. unfold last_install. set (l := newest_jobs _).
  assert (Hl : forall j, j ∈ l -> exists t, install_source pg_uuid w j = Some t
    /\ (forall s, t = Some s -> s <> "" -> is_Some (pg_uuid s))).
  { intros j [Hp Hj]%elem_of_newest. unfold completed_install_on in Hp. bools. destruct_and!.
    by apply install_source_some. }
  clearbody l. destruct l as [|j l]; [by exists None|]. simpl.
  destruct (Hl j) as (t & Ht & Hok); [by apply list_elem_of_here|]. rewrite Ht. simpl.
  assert (is_Some (mapM (install_source pg_uuid w) l)) as [ts Hts].
  { apply mapM_is_Some_2, Forall_forall. intros x Hx. destruct (Hl x) as (tx & Hx' & _); [by apply list_elem_of_further|]. eauto. }
  rewrite Hts. simpl. eauto.
Qed.

Lemma app_of_some w source :
  (forall s, source = Some s -> s <> "" -> is_Some (pg_uuid s)) -> is_Some (calendar_app pg_uuid w source).
Proof using.
  intros Hs. unfold calendar_app, cast_nullif. destruct source as [s|]; simpl; [|eauto].
  destruct (s =s "") eqn:Es; simpl; [eauto|]. bools. destruct (Hs s eq_refl Es) as [u ->]. simpl. eauto.
Qed.

(** The rows of a placed deployment, one of them for each label. *)
Lemma calendar_rows_of_some w dep ir d :
  castable w ->
  exists rs, calendar_rows_of pg_uuid w (dep, ir, d) = Some rs /\
    forall label, label ∈ left_join (account_labels w (dp_id dep)) ->
    exists source app, (match ir_provisioning_expiry_at ir with Some t => Some t | None => dp_next_refresh_due_at dep end,
                        calendar_row w (dep, ir, d) source app label) ∈ rs.
Proof using pg_uuid_text.
  intros Hc. destruct (last_install_some w (dp_device_id dep) Hc) as (source & Hs & Hok).
  destruct (app_of_some w source Hok) as [apps Ha]. unfold calendar_rows_of. rewrite Hs. simpl. rewrite Ha. simpl.
  eexists. split; [done|]. intros label Hl. destruct (left_join_inhabited apps) as [app Happ].
  exists source, app. apply list_elem_of_bind. exists app. split; [|done]. apply list_elem_of_bind.
  exists label. split; [by apply list_elem_of_singleton|done].
Qed.

Lemma calendar_some w :
  castable w -> exists cal, calendar pg_uuid w = Some cal /\
    forall dep ir d label, (dep, ir, d) ∈ placed w -> label ∈ left_join (account_labels w (dp_id dep)) ->
    exists source app, (match ir_provisioning_expiry_at ir with Some t => Some t | None => dp_next_refresh_due_at dep end,
                        calendar_row w (dep, ir, d) source app label) ∈ cal.
Proof using pg_uuid_text.
  intros Hc. unfold calendar.
  assert (is_Some (mapM (calendar_rows_of pg_uuid w) (placed w))) as [l Hl].
  { apply mapM_is_Some_2, Forall_forall. intros [[dep ir] d] _.
    destruct (calendar_rows_of_some w dep ir d Hc) as (rs & Hrs & _). eauto. }
  rewrite Hl. simpl. eexists. split; [done|]. intros dep ir d label Hx Hlab.
  destruct (calendar_rows_of_some w dep ir d Hc) as (rs & Hrs & Hin).
  destruct (Hin label Hlab) as (source & app & Hrow). exists source, app. rewrite elem_of_sort_by.
  apply mapM_Some_1 in Hl. apply list_elem_of_lookup in Hx as [i Hi].
  destruct (Forall2_lookup_l _ _ _ _ _ Hl Hi) as (rs' & Hi' & Hrs'). rewrite Hrs in Hrs'. injection Hrs' as <-.
  apply list_elem_of_In, in_concat. exists rs. rewrite <- !list_elem_of_In.
  split; [by eapply list_elem_of_lookup_2|done].
Qed.

(** ** The calendar *)

Definition column (k : string) (row : list sqlval) : option sqlval :=
  snd <$> List.find (fun kv => kv.1 =s k) (zip refresh_columns row).

(** What a row says of a due deployment. *)
Definition shows (row : list sqlval) (d : dueDeployment) : Prop :=
  column "deployment_id" row = Some (VUuid (dd_ID d)) /\ column "udid" row = Some (VText (dd_Udid d))
  /\ column "profile_expiry_at" row = Some (VTime (dd_ExpiryAt d))
  /\ column "apple_id" row = Some (VText (dd_AppleID d)).

Lemma due_label w dep ir d x lead :
  (dep, ir, d) ∈ deployed w -> due_row lead w (dep, ir, d) = Some x ->
  Some (dd_AppleID x) ∈ left_join (account_labels w (dp_id dep)).
Proof using.
  intros (_ & Hir & _ & Hdep & _)%elem_of_deployed Hx. apply elem_of_left_join. unfold account_labels.
  apply list_elem_of_omap. exists ir. split; [done|]. rewrite bool_decide_eq_true_2 by done.
  unfold due_row, resolved in Hx. destruct (ir_provisioning_expiry_at ir); [|done]. simpl in Hx.
  destruct (ir_signed_artifact_id ir) as [sid|]; [|done]. simpl in *.
  destruct (W_signed w !! sid) as [sa|]; [|done]. simpl in *.
  destruct (W_accounts w !! sa_account_id sa); [|done]. simpl in *. case_cond; [|done]. by injection Hx as <-.
Qed.

Lemma time_le_total a b : time_le a b = true \/ time_le b a = true.
Proof using. destruct a as [x|], b as [y|]; simpl; rewrite ?Z.leb_le; auto; lia. Qed.
Lemma time_le_trans a b c : time_le a b = true -> time_le b c = true -> time_le a c = true.
Proof using. destruct a as [x|], b as [y|], c as [z|]; simpl; rewrite ?Z.leb_le; auto; try done; lia. Qed.

(** C30. The refresh calendar is complete: when the completed installations carry
    proper identifiers, the answer lists, in the order of the expiry, every
    deployment the scheduler would find due, with its device, the expiry of its
    profile and the account it is signed for; whatever fails, the tables are left
    alone. *)
Theorem refresh_calendar_complete w :
  castable w ->
  exists cal, calendar pg_uuid w = Some cal
    /\ exec (handleListRefresh pg_uuid) w = (inr (writeJSON StatusOK (table_json refresh_columns cal.*2)), w)
    /\ StronglySorted (fun a b => time_le a.1 b.1 = true) cal
    /\ (forall lead x, x ∈ due_rows lead w -> exists row, (Some (dd_ExpiryAt x), row) ∈ cal /\ shows row x)
    /\ forall fl, (run fl (handleListRefresh pg_uuid) w).2 = w.
Proof using pg_uuid_text.
  intros Hc. destruct (calendar_some w Hc) as (cal & Hcal & Hall). exists cal. split; [done|].
  split; [unfold exec, handleListRefresh, queryTable; simpl; by rewrite Hcal|]. split_and!.
  - unfold calendar in Hcal. destruct (mapM _ _) as [l|]; [|done]. injection Hcal as <-.
    apply sort_by_sorted; [intros a b; apply time_le_total|intros a b c; apply time_le_trans].
  - intros lead x ([[dep ir] d] & Hin & Hx)%elem_of_due_rows.
    destruct (Hall dep ir d _ (deployed_placed _ _ Hin) (due_label _ _ _ _ _ _ Hin Hx)) as (source & app & Hrow).
    unfold due_row in Hx. destruct (ir_provisioning_expiry_at ir) as [e|] eqn:Ee; [|done]. simpl in Hx.
    destruct (resolved ir w) as [sac|]; [|done]. simpl in Hx. case_cond; [|done]. injection Hx as <-.
    eexists. split; [exact Hrow|]. unfold shows, calendar_row. simpl. rewrite Ee. done.
  - intros fl. apply (wp_run _ (fun _ w' => w' = w)). unfold handleListRefresh, queryTable.
    split; [done|]. split; [done|]. simpl. by destruct (calendar pg_uuid w).
Qed.

(** One completed installation whose parameter is no identifier hides the whole
    calendar. *)
Theorem one_bad_install_hides_the_calendar w dep ir d id j s :
  (dep, ir, d) ∈ placed w -> W_jobs w !! id = Some j -> completed_install_on (dp_device_id dep) j = true ->
  artifact_text j = Some s -> s <> "" -> pg_uuid s = None ->
  exec (handleListRefresh pg_uuid) w
  = (inl (writeJSON InternalServerError (error_body "row iteration failed")), w).
Proof using.
  intros Hx Hj Hi Ha Hs Hp.
  enough (calendar pg_uuid w = None) as Hnone by (unfold exec, handleListRefresh, queryTable; simpl; by rewrite Hnone).
  unfold calendar. enough (mapM (calendar_rows_of pg_uuid w) (placed w) = None) as -> by done.
  apply eq_None_not_Some. intros Hl%mapM_is_Some_1. rewrite Forall_forall in Hl.
  destruct (Hl _ Hx) as [rs Hrs]. unfold calendar_rows_of, last_install in Hrs.
  enough (mapM (install_source pg_uuid w) (newest_jobs (select (completed_install_on (dp_device_id dep)) (rows (W_jobs w)))) = None)
    as Hm by (by rewrite Hm in Hrs).
  apply eq_None_not_Some. intros Hl'%mapM_is_Some_1. rewrite Forall_forall in Hl'.
  destruct (Hl' j) as [t Ht].
  - unfold newest_jobs. rewrite elem_of_sort_by, elem_of_select, elem_of_rows. eauto.
  - unfold install_source, cast_nullif in Ht. rewrite Ha, bool_decide_eq_false_2, Hp in Ht by done. done.
Qed.
End spec.

(** * A small fleet *)

#[local] Existing Instance sample_uuid.
#[local] Existing Instance sample_uuid_laws.

Example fractions_are_trimmed :
  time_json 1790000000123456000 = JStr "2026-09-21T14:13:20.123456Z"
  /\ time_json 1790000000000000000 = JStr "2026-09-21T14:13:20Z".
Proof. vm_compute. split; reflexivity. Qed.

Lemma sample_casts u : sample_parse (uuid_text u) = Some u.
Proof. exact (uuid_parse_text u). Qed.

Lemma due_world_castable : castable sample_parse due_world.
Proof. intros id j s Hj. simpl in Hj. by rewrite lookup_empty in Hj. Qed.

Lemma refresh_calendar_complete_witness :
  exists cal row, calendar sample_parse due_world = Some cal
    /\ exec (handleListRefresh sample_parse) due_world
       = (inr (writeJSON StatusOK (table_json refresh_columns cal.*2)), due_world)
    /\ (Some (dd_ExpiryAt due20), row) ∈ cal /\ shows row due20.
Proof.
  destruct (refresh_calendar_complete sample_parse sample_casts due_world due_world_castable)
    as (cal & Hc & He & _ & Hd & _).
  destruct (Hd DefaultLead due20) as (row & Hr & Hs); [vm_compute; by apply list_elem_of_here|].
  exists cal, row. split; [exact Hc|]. split; [exact He|]. split; [exact Hr|exact Hs].
Defined.

(** An installation that was recorded with a file name. *)
Definition odd_install : job :=
  updated_row svc (MkUpdateRequest StateCompleted None None None None) (2 * Hour)
    (claim_row 7 (5 * Minute) Hour
      (new_job "install" (Some 1%N) None (JObj [("artifact_id", JStr "game.ipa")]) "k" 5 None None None 50 0)).

Definition odd_world : world := set_db (on_jobs (fun _ => {[50%N := odd_install]})) due_world.

Lemma one_bad_install_hides_the_calendar_witness :
  (exec (handleListRefresh sample_parse) due_world).1 <> (exec (handleListRefresh sample_parse) odd_world).1
  /\ exec (handleListRefresh sample_parse) odd_world
     = (inl (writeJSON InternalServerError (error_body "row iteration failed")), odd_world).
Proof.
  split; [vm_compute; discriminate|].
  assert (exists dep ir d, (dep, ir, d) ∈ placed odd_world /\ dp_device_id dep = 1%N) as (dep & ir & d & Hx & Hd).
  { eexists _, _, _. split; [vm_compute; apply list_elem_of_here|reflexivity]. }
  apply (one_bad_install_hides_the_calendar sample_parse odd_world dep ir d 50%N odd_install "game.ipa" Hx);
    [apply lookup_singleton_eq|rewrite Hd; vm_compute; reflexivity|reflexivity|discriminate|vm_compute; reflexivity].
Defined.
