(* ===== verification/Lists.v ===== *)
(** The remaining tables of the dashboard (internal/api/dashboard.go, the lists of
    internal/api/signing.go and internal/api/certificates.go).

    They also show columns that no statement of the program writes after the row
    is there, and that no other code reads; [Unwritten] has their values by the
    row. *)
From S2P Require Import Prelude GoStrings GoTime Effects Schema AuditLog Jobs Http Dashboard.

Record application := MkApplication {
  ap_name : string;
  ap_publisher : option string;
  ap_description : option string;
  ap_icon_ref : option string;
  ap_default_update_policy : string;
  ap_trust_classification : string;
  ap_created_at : instant
}.

Class Unwritten := {
  ag_enrolled_at : uuid -> instant;
  ag_created_at : uuid -> instant;
  dv_last_inventory_scan_at : uuid -> option instant;
  dv_created_at : uuid -> instant;
  ac_team_type : uuid -> string;
  ac_locked : uuid -> bool;
  ac_failure_count : uuid -> Z;
  ac_created_at : uuid -> instant;
  ce_expiry_at : uuid -> option instant;
  ce_created_at : uuid -> instant;
  sa_signed_at : uuid -> instant;
  dp_channel_id : uuid -> uuid;
  dp_target : uuid -> string;
  dp_desired_version : uuid -> option string;
  dp_update_policy : uuid -> string;
  dp_current_state : uuid -> string;
  dp_updated_at : uuid -> instant;
  the_application : uuid -> application;
}.

(** [ORDER BY f] and [ORDER BY f DESC]. *)
Definition oldest_first {A} (f : A -> instant) (l : list A) : list A := sort_by (fun a b => f a <=? f b) l.
Definition newest_first {A} (f : A -> instant) (l : list A) : list A := sort_by (fun a b => f b <=? f a) l.

Section lists.
Context `{UuidText} `{Unwritten}.

(** ** Agents, devices, applications *)

Definition agent_columns : list string :=
  ["id"; "name"; "architecture"; "operating_system"; "software_version"; "tailnet_identity";
   "connection_state"; "last_heartbeat_at"; "capabilities"; "enrolled_at"].

Definition agent_cells (a : agent) : list sqlval :=
  [VUuid (ag_id a); VText (ag_name a); opt_val VText (ag_architecture a);
   opt_val VText (ag_operating_system a); opt_val VText (ag_software_version a);
   opt_val VText (ag_tailnet_identity a); VText (ag_connection_state a);
   opt_val VTime (ag_last_heartbeat_at a); VJson (ag_capabilities a); VTime (ag_enrolled_at (ag_id a))].

Definition handleListAgents : handler :=
  queryTable agent_columns (fun w =>
    Some (agent_cells <$> oldest_first (fun a => ag_created_at (ag_id a)) (rows (W_agents w)))).

Definition device_columns : list string :=
  ["id"; "udid"; "platform"; "device_name"; "model"; "os_version"; "agent_name"; "pairing_status";
   "developer_mode_enabled"; "last_connected_at"; "last_inventory_scan_at"].

Definition device_cells (w : world) (d : device) : list sqlval :=
  let a := i ← dv_agent_id d; W_agents w !! i in
  [VUuid (dv_id d); VText (dv_udid d); VText (dv_platform d); opt_val VText (dv_device_name d);
   opt_val VText (dv_model d); opt_val VText (dv_os_version d); opt_val VText (ag_name <$> a);
   VText (dv_pairing_status d); opt_val VBool (dv_developer_mode_enabled d);
   opt_val VTime (dv_last_connected_at d); opt_val VTime (dv_last_inventory_scan_at (dv_id d))].

Definition handleListDevices : handler :=
  queryTable device_columns (fun w =>
    Some (device_cells w <$> oldest_first (fun d => dv_created_at (dv_id d)) (rows (W_devices w)))).

Definition application_columns : list string :=
  ["id"; "name"; "publisher"; "description"; "icon_ref"; "default_update_policy"; "trust_classification";
   "created_at"].

Definition application_cells (x : uuid * application) : list sqlval :=
  [VUuid x.1; VText (ap_name x.2); opt_val VText (ap_publisher x.2); opt_val VText (ap_description x.2);
   opt_val VText (ap_icon_ref x.2); VText (ap_default_update_policy x.2);
   VText (ap_trust_classification x.2); VTime (ap_created_at x.2)].

Definition applications (w : world) : list (uuid * application) :=
  (fun x => (x.1, the_application x.1)) <$> map_to_list (t_applications (w_db w)).

Definition handleListApplications : handler :=
  queryTable application_columns (fun w =>
    Some (application_cells <$> oldest_first (fun x => ap_created_at x.2) (applications w))).

(** ** Deployments *)

Definition deployment_columns : list string :=
  ["id"; "device_id"; "channel_id"; "target"; "desired_version"; "update_policy"; "current_state";
   "rollback_artifact_id"; "updated_at"; "current_bundle"; "current_version"].

Definition deployment_cells (w : world) (dep : deployment) (ir : option installation) : list sqlval :=
  let sa := i ← ir; s ← ir_signed_artifact_id i; W_signed w !! s in
  let art := s ← sa; W_artifacts w !! sa_source_artifact_id s in
  let i := dp_id dep in
  [VUuid i; VUuid (dp_device_id dep); VUuid (dp_channel_id i); VText (dp_target i);
   opt_val VText (dp_desired_version i); VText (dp_update_policy i); VText (dp_current_state i);
   opt_val VUuid (dp_rollback_artifact_id dep); VTime (dp_updated_at i);
   text_or_empty ar_bundle_identifier art; text_or_empty ar_version art].

Definition deployment_rows (w : world) (dep : deployment) : list (list sqlval) :=
  deployment_cells w dep <$>
    left_join (select (fun ir => bool_decide (ir_deployment_id ir = dp_id dep)) (rows (W_installations w))).

Definition handleListDeployments : handler :=
  queryTable deployment_columns (fun w =>
    Some (take 200 (newest_first (fun dep => dp_updated_at (dp_id dep)) (rows (W_deployments w))
                      ≫= deployment_rows w))).

(** ** Signed artifacts, accounts, certificates *)

Definition signed_columns : list string :=
  ["id"; "signed_ipa_sha256"; "signed_bundle_identifier"; "profile_expiry_at"; "signed_at"; "filename";
   "version"; "source_bundle"; "device_name"; "udid"; "label"; "team_identifier"; "serial_number"].

(** The joined row: none when a table misses its partner. *)
Definition signed_cells (w : world) (sa : signed_artifact) : option (list sqlval) :=
  a ← W_artifacts w !! sa_source_artifact_id sa; d ← W_devices w !! sa_device_id sa;
  acc ← W_accounts w !! sa_account_id sa;
  let c := i ← sa_certificate_id sa; W_certificates w !! i in
  Some [VUuid (sa_id sa); opt_val VText (sa_signed_ipa_sha256 sa);
        opt_val VText (sa_signed_bundle_identifier sa); opt_val VTime (sa_profile_expiry_at sa);
        VTime (sa_signed_at (sa_id sa)); VText (ar_filename a); opt_val VText (ar_version a);
        opt_val VText (ar_bundle_identifier a); opt_val VText (dv_device_name d); VText (dv_udid d);
        VText (ac_label acc); opt_val VText (ac_team_identifier acc);
        opt_val VText (c ≫= ce_serial_number)].

Definition signed_list (w : world) : list (list sqlval) :=
  take 200 (omap (signed_cells w) (newest_first (fun sa => sa_signed_at (sa_id sa)) (rows (W_signed w)))).

Definition handleListSignedArtifacts : handler := queryTable signed_columns (fun w => Some (signed_list w)).

Definition account_columns : list string :=
  ["id"; "label"; "team_identifier"; "team_type"; "auth_state"; "last_auth_at"; "registered_app_id_count";
   "registered_device_count"; "app_id_max_quantity"; "app_id_available_quantity"; "locked";
   "failure_count"; "cert_count"].

(** [COUNT(c.id)] of the certificates that are not revoked. *)
Definition cert_count (w : world) (a : account) : Z :=
  count_where (fun c => bool_decide (ce_account_id c = ac_id a) && negb (ce_revoked c)) (W_certificates w).

Definition account_cells (w : world) (a : account) : list sqlval :=
  [VUuid (ac_id a); VText (ac_label a); opt_val VText (ac_team_identifier a);
   VText (ac_team_type (ac_id a)); VText (ac_auth_state a); opt_val VTime (ac_last_auth_at a);
   VInt (ac_registered_app_id_count a); VInt (ac_registered_device_count a);
   opt_val VInt (ac_app_id_max_quantity a); opt_val VInt (ac_app_id_available_quantity a);
   VBool (ac_locked (ac_id a)); VInt (ac_failure_count (ac_id a)); VInt (cert_count w a)].

Definition account_list (w : world) : list (list sqlval) :=
  account_cells w <$> oldest_first (fun a => ac_created_at (ac_id a)) (rows (W_accounts w)).

Definition handleListAccounts : handler := queryTable account_columns (fun w => Some (account_list w)).

Definition certificate_columns : list string :=
  ["id"; "serial_number"; "expiry_at"; "revoked"; "revoked_at"; "revoked_reason"; "key_ref"; "created_at";
   "label"; "team_identifier"].

Definition certificate_cells (w : world) (c : certificate) : option (list sqlval) :=
  a ← W_accounts w !! ce_account_id c;
  Some [VUuid (ce_id c); opt_val VText (ce_serial_number c); opt_val VTime (ce_expiry_at (ce_id c));
        VBool (ce_revoked c); opt_val VTime (ce_revoked_at c); opt_val VText (ce_revoked_reason c);
        VText (ce_key_ref c); VTime (ce_created_at (ce_id c)); VText (ac_label a);
        opt_val VText (ac_team_identifier a)].

Definition certificate_list (w : world) : list (list sqlval) :=
  omap (certificate_cells w) (newest_first (fun c => ce_created_at (ce_id c)) (rows (W_certificates w))).

Definition handleListCertificates : handler :=
  queryTable certificate_columns (fun w => Some (certificate_list w)).
End lists.
