(* ===== verification/Integrity.v ===== *)
(** What the database promises at any time: every row is under its key, every
    reference leads to a row, the unique columns are unique, the jobs are well
    formed ([intact]); and what it never forgets ([remembers]).  A statement is
    [lawful] when it keeps both; a program made of lawful statements keeps them
    whatever fails. *)
From S2P Require Import Prelude GoStrings GoTime Effects Schema AuditLog Jobs JobsInvariant JobsLives Http Auth Agents Host.

(** ** References *)

Create HintDb integrity discriminated.

Definition points {A} (r : option uuid) (t : gmap uuid A) : Prop := forall k, r = Some k -> is_Some (t !! k).

Definition agent_refs (_ : db) (a : Schema.agent) : Prop := in_strs (ag_role a) validAgentRoles = true.
Definition device_refs (d : db) (x : device) : Prop := points (dv_agent_id x) (t_agents d).
Definition account_refs (_ : db) (_ : account) : Prop := True.
Definition certificate_refs (d : db) (c : certificate) : Prop := points (Some (ce_account_id c)) (t_accounts d).
Definition artifact_refs (_ : db) (_ : artifact) : Prop := True.
Definition job_refs (d : db) (j : job) : Prop :=
  points (j_device_id j) (t_devices d) /\ points (j_application_id j) (t_applications d)
  /\ points (j_claimed_by j) (t_agents d) /\ points (j_parent_job_id j) (t_jobs d) /\ wf_job j.
Definition signed_refs (d : db) (s : signed_artifact) : Prop :=
  points (Some (sa_source_artifact_id s)) (t_artifacts d) /\ points (Some (sa_device_id s)) (t_devices d)
  /\ points (Some (sa_account_id s)) (t_accounts d) /\ points (sa_certificate_id s) (t_certificates d)
  /\ points (sa_job_id s) (t_jobs d).
Definition deployment_refs (d : db) (p : deployment) : Prop :=
  points (Some (dp_device_id p)) (t_devices d) /\ points (dp_rollback_artifact_id p) (t_artifacts d).
Definition installation_refs (d : db) (i : installation) : Prop :=
  points (Some (ir_deployment_id i)) (t_deployments d) /\ points (ir_signed_artifact_id i) (t_signed_artifacts d)
  /\ points (ir_install_job_id i) (t_jobs d).
Definition enrolment_refs (d : db) (t : enrolment_token) : Prop := points (et_used_by_agent t) (t_agents d).
Definition token_refs (d : db) (t : device_token) : Prop := points (dt_device_id t) (t_devices d).

(** ** Tables *)

(** Every row is under its key, its key was handed out, its references hold. *)
Definition table_ok {A} (key : A -> uuid) (refs : A -> Prop) (n : uuid) (t : gmap uuid A) : Prop :=
  forall i r, t !! i = Some r -> key r = i /\ (i < n)%N /\ refs r.

(** A column whose values that are not NULL are distinct. *)
Definition distinct {A K} (col : A -> option K) (t : gmap uuid A) : Prop :=
  forall i j r s k, t !! i = Some r -> t !! j = Some s -> col r = Some k -> col s = Some k -> i = j.

Definition idempotency (j : job) : option string := Some (j_idempotency_key j).
Definition udid (d : device) : option string := Some (dv_udid d).
Definition content (a : artifact) : option string := Some (ar_sha256 a).
Definition installed_for (i : installation) : option uuid := Some (ir_deployment_id i).
Definition token_key (t : device_token) : option string := Some (dt_key_id t).

(** The tables of [d], their references read in [d0]. *)
Record intact_by (d0 d : db) (n : uuid) : Prop := {
  in_jobs : table_ok j_id (job_refs d0) n (t_jobs d);
  in_agents : table_ok ag_id (agent_refs d0) n (t_agents d);
  in_devices : table_ok dv_id (device_refs d0) n (t_devices d);
  in_accounts : table_ok ac_id (account_refs d0) n (t_accounts d);
  in_certificates : table_ok ce_id (certificate_refs d0) n (t_certificates d);
  in_artifacts : table_ok ar_id (artifact_refs d0) n (t_artifacts d);
  in_signed : table_ok sa_id (signed_refs d0) n (t_signed_artifacts d);
  in_deployments : table_ok dp_id (deployment_refs d0) n (t_deployments d);
  in_installations : table_ok ir_id (installation_refs d0) n (t_installations d);
  in_enrolments : table_ok et_id (enrolment_refs d0) n (t_enrolment_tokens d);
  in_tokens : table_ok dt_id (token_refs d0) n (t_device_tokens d);
  un_jobs : distinct idempotency (t_jobs d);
  un_agents : distinct ag_api_key_id (t_agents d);
  un_devices : distinct udid (t_devices d);
  un_accounts : distinct ac_team_identifier (t_accounts d);
  un_certificates : distinct ce_serial_number (t_certificates d);
  un_artifacts : distinct content (t_artifacts d);
  un_installations : distinct installed_for (t_installations d);
  un_enrolments : distinct et_token_key (t_enrolment_tokens d);
  un_tokens : distinct token_key (t_device_tokens d);
}.

Definition intact (d : db) (n : uuid) : Prop := intact_by d d n.
Definition integral (w : world) : Prop := intact (w_db w) (w_fresh w).

(** In particular the queue is well formed. *)
Lemma integral_jobs w : integral w -> wf_jobs w.
Proof.
  intros Hw. split.
  - intros id j Hj. destruct (in_jobs _ _ _ Hw _ _ Hj) as (? & ? & _ & _ & _ & _ & ?). by split_and!.
  - intros i1 i2 j1 j2 H1 H2 Hk. eapply (un_jobs _ _ _ Hw); [done..|]. unfold idempotency. congruence.
Qed.

Lemma integral_numbered w : integral w -> numbered w.
Proof. intros Hw i j Hj. apply (in_jobs _ _ _ Hw _ _ Hj). Qed.

(** ** What is never forgotten *)

Definition same_agent (a a' : Schema.agent) : Prop :=
  ag_api_key_id a' = ag_api_key_id a /\ ag_api_key_hash a' = ag_api_key_hash a /\ ag_name a' = ag_name a.
Definition same_artifact (a a' : artifact) : Prop := ar_sha256 a' = ar_sha256 a.
Definition same_enrolment (t t' : enrolment_token) : Prop :=
  et_token_hash t' = et_token_hash t /\ et_role t' = et_role t /\ (is_Some (et_used_at t) -> t' = t).
Definition same_token (t t' : device_token) : Prop :=
  dt_key_id t' = dt_key_id t /\ dt_token_hash t' = dt_token_hash t /\ dt_scopes t' = dt_scopes t
  /\ dt_expires_at t' = dt_expires_at t /\ (is_Some (dt_revoked_at t) -> is_Some (dt_revoked_at t')).

(** Every row is still there, related to what it was. *)
Definition persists {A} (R : A -> A -> Prop) (t t' : gmap uuid A) : Prop :=
  forall i r, t !! i = Some r -> exists r', t' !! i = Some r' /\ R r r'.

Record remembers (w w' : world) : Prop := {
  rm_agents : persists same_agent (W_agents w) (W_agents w');
  rm_artifacts : persists same_artifact (W_artifacts w) (W_artifacts w');
  rm_enrolments : persists same_enrolment (W_enrolment_tokens w) (W_enrolment_tokens w');
  rm_tokens : persists same_token (W_device_tokens w) (W_device_tokens w');
  rm_audit : t_audit (w_db w) `suffix_of` t_audit (w_db w');
  rm_pool_audit : w_pool_audit w `suffix_of` w_pool_audit w';
  rm_jobs : lives w w';
}.

Lemma persists_refl {A} (R : A -> A -> Prop) (t : gmap uuid A) : Reflexive R -> persists R t t.
Proof. intros HR i r Hr. eauto. Qed.
Lemma persists_trans {A} (R : A -> A -> Prop) (t1 t2 t3 : gmap uuid A) :
  Transitive R -> persists R t1 t2 -> persists R t2 t3 -> persists R t1 t3.
Proof. intros HR H12 H23 i r (r2 & Hr2 & H2)%H12. destruct (H23 _ _ Hr2) as (r3 & ? & ?). eauto. Qed.

#[global] Instance same_agent_preorder : PreOrder same_agent.
Proof. split; [by intros ?|]. intros a b c (?&?&?) (?&?&?). split_and!; congruence. Qed.
#[global] Instance same_artifact_preorder : PreOrder same_artifact.
Proof. split; [by intros ?|]. unfold same_artifact. intros a b c. congruence. Qed.
#[global] Instance same_enrolment_preorder : PreOrder same_enrolment.
Proof.
  split; [by intros ?|]. intros a b c (?&?&Hb) (?&?&Hc). split_and!; [congruence..|].
  intros Hu. rewrite (Hb Hu) in *. auto.
Qed.
#[global] Instance same_token_preorder : PreOrder same_token.
Proof. split; [by intros ?|]. intros a b c (?&?&?&?&?) (?&?&?&?&?). split_and!; [congruence..|auto]. Qed.
#[global] Instance remembers_preorder : PreOrder remembers.
Proof.
  split.
  - intros w. split; try done; apply persists_refl, _.
  - intros w1 w2 w3 [] []. split; (eapply persists_trans || etrans); eauto with typeclass_instances.
Qed.

(** ** Maps *)

Definition dom_le {A} (t t' : gmap uuid A) : Prop := forall i, is_Some (t !! i) -> is_Some (t' !! i).

Lemma persists_dom {A} (R : A -> A -> Prop) t t' : persists R t t' -> dom_le t t'.
Proof. intros H i [r Hr]. destruct (H _ _ Hr) as (r' & ? & _). by eexists. Qed.

Lemma points_le {A} r (t t' : gmap uuid A) : dom_le t t' -> points r t -> points r t'.
Proof. intros Ht Hr k Hk. auto. Qed.
Lemma points_none {A} (t : gmap uuid A) : points None t.
Proof. by intros k. Qed.
Lemma points_fk {A} r (t : gmap uuid A) : fk_ok r t = true -> points r t.
Proof. by rewrite fk_ok_true. Qed.

Section maps.
Context {A : Type}.
Implicit Types (t : gmap uuid A) (r : A).

Lemma dom_le_refl t : dom_le t t.
Proof using. by intros i. Qed.
Lemma dom_le_insert t i r : dom_le t (<[i := r]> t).
Proof using. intros j Hj. rewrite lookup_insert. by case_decide. Qed.
Lemma dom_le_update p f t : dom_le t (update_where p f t).
Proof using. intros j [r Hr]. rewrite lookup_update_where, Hr. by eexists. Qed.

Lemma table_ok_fresh (key : A -> uuid) (refs : A -> Prop) n t i :
  table_ok key refs n t -> (n <= i)%N -> t !! i = None.
Proof using. intros Ht Hi. destruct (t !! i) eqn:E; [|done]. destruct (Ht _ _ E) as (_ & ? & _). lia. Qed.

Section row.
Context (key : A -> uuid) (refs : A -> Prop) (n n' : uuid) (Hn : (n <= n')%N).

Lemma table_ok_insert t i r :
  table_ok key refs n t -> key r = i -> (i < n')%N -> refs r -> table_ok key refs n' (<[i := r]> t).
Proof using Hn.
  intros Ht Hk Hi Hr j s. rewrite lookup_insert. case_decide; [intros [= <-]; subst; by split_and!|].
  intros (? & ? & ?)%Ht. split_and!; [done|lia|done].
Qed.
Lemma table_ok_set t i r0 r :
  table_ok key refs n t -> t !! i = Some r0 -> key r = key r0 -> refs r -> table_ok key refs n' (<[i := r]> t).
Proof using Hn. intros Ht Hi Hk Hr. destruct (Ht _ _ Hi) as (? & ? & _). apply table_ok_insert; [done|congruence|lia|done]. Qed.
Lemma table_ok_update p f t :
  table_ok key refs n t ->
  (forall i r, t !! i = Some r -> p r = true -> refs r -> key (f r) = key r /\ refs (f r)) ->
  table_ok key refs n' (update_where p f t).
Proof using Hn.
  intros Ht Hf i r. rewrite lookup_update_where. intros (r0 & Hr0 & ->)%fmap_Some.
  destruct (Ht _ _ Hr0) as (Hk & ? & ?). case_cond; [|split_and!; [done|lia|done]].
  destruct (Hf _ _ Hr0) as [? ?]; [done..|]. split_and!; [congruence|lia|done].
Qed.
Lemma table_ok_weaken t (refs' : A -> Prop) :
  table_ok key refs n t -> (forall i r, t !! i = Some r -> refs r -> refs' r) -> table_ok key refs' n' t.
Proof using Hn. intros Ht Hr i r Hi. destruct (Ht _ _ Hi) as (? & ? & ?). split_and!; [done|lia|eauto]. Qed.
End row.

Section column.
Context {K : Type} (col : A -> option K).

Lemma distinct_insert t i r :
  distinct col t -> (forall j s k, t !! j = Some s -> col s = Some k -> col r = Some k -> j = i) ->
  distinct col (<[i := r]> t).
Proof using.
  intros Ht Hr j1 j2 r1 r2 k. rewrite !lookup_insert. repeat case_decide; intros; simplify_eq; eauto; symmetry; eauto.
Qed.
Lemma distinct_set t i r0 r :
  distinct col t -> t !! i = Some r0 -> col r = col r0 -> distinct col (<[i := r]> t).
Proof using. intros Ht Hi Hc. apply distinct_insert; [done|]. intros j s k Hj Hs Hr. rewrite Hc in Hr. eauto. Qed.
Lemma distinct_update p f t :
  distinct col t -> (forall r, col (f r) = col r) -> distinct col (update_where p f t).
Proof using.
  intros Ht Hf i j r s k. rewrite !lookup_update_where. intros (r0 & Hr & ->)%fmap_Some (s0 & Hs & ->)%fmap_Some Hrk Hsk.
  eapply (Ht i j r0 s0 k); [done..| |]; repeat case_cond; rewrite ?Hf in *; done.
Qed.
Lemma distinct_sub t t' :
  distinct col t -> (forall i r', t' !! i = Some r' -> exists r, t !! i = Some r /\ col r' = col r) -> distinct col t'.
Proof using.
  intros Ht Hs i j r s k (r0 & Hr & Er)%Hs (s0 & Hs' & Es)%Hs Hrk Hsk. eapply (Ht i j r0 s0 k); congruence.
Qed.
End column.

Section kept.
Context (R : A -> A -> Prop) `{!Reflexive R}.

Lemma persists_new t i r : t !! i = None -> persists R t (<[i := r]> t).
Proof using All. intros Hi j s Hs. exists s. rewrite lookup_insert_ne by congruence. done. Qed.
Lemma persists_set t i r0 r : t !! i = Some r0 -> R r0 r -> persists R t (<[i := r]> t).
Proof using All.
  intros Hi Hr j s Hs. rewrite lookup_insert. case_decide; [subst|eauto]. exists r. split; [done|congruence].
Qed.
Lemma persists_update p f t : (forall r, p r = true -> R r (f r)) -> persists R t (update_where p f t).
Proof using All. intros Hf i r Hr. rewrite lookup_update_where, Hr. eexists. split; [done|]. case_cond; auto. Qed.
End kept.
End maps.

#[export] Hint Resolve dom_le_refl dom_le_insert dom_le_update points_none points_fk : integrity.

(** ** Writing a table *)

Record grows (d d' : db) : Prop := {
  gr_jobs : dom_le (t_jobs d) (t_jobs d');
  gr_applications : dom_le (t_applications d) (t_applications d');
  gr_agents : dom_le (t_agents d) (t_agents d');
  gr_devices : dom_le (t_devices d) (t_devices d');
  gr_accounts : dom_le (t_accounts d) (t_accounts d');
  gr_certificates : dom_le (t_certificates d) (t_certificates d');
  gr_artifacts : dom_le (t_artifacts d) (t_artifacts d');
  gr_signed : dom_le (t_signed_artifacts d) (t_signed_artifacts d');
  gr_deployments : dom_le (t_deployments d) (t_deployments d');
}.

(** References survive when no row goes. *)
Lemma intact_grows d d' n : grows d d' -> intact_by d d' n -> intact d' n.
Proof.
  intros [] []. split; try done; (eapply table_ok_weaken; [reflexivity|eassumption|]); intros i r _;
    unfold job_refs, agent_refs, device_refs, account_refs, certificate_refs, artifact_refs, signed_refs,
      deployment_refs, installation_refs, enrolment_refs, token_refs;
    intros; destruct_and?; split_and?; try done; by eapply points_le.
Qed.

Lemma table_ok_later {A} (key : A -> uuid) refs n n' (t : gmap uuid A) :
  (n <= n')%N -> table_ok key refs n t -> table_ok key refs n' t.
Proof. intros Hn Ht. by apply (table_ok_weaken key refs n n'). Qed.

(** What a statement may do. *)
Definition step_ok (w w' : world) : Prop := integral w' /\ remembers w w'.

(** The tables other than the written one. *)
Ltac write_one :=
  match goal with
  | H : integral _ |- _ => unfold integral, intact in H
  end;
  split;
  [ match goal with H : intact_by ?d _ _ |- _ => apply (intact_grows d) end; [split; simpl; first [assumption|eapply persists_dom; eassumption|apply dom_le_refl]|];
    match goal with H : intact_by _ _ _ |- _ => destruct H end;
    split; simpl; first [assumption|by eapply table_ok_later]
  | split; simpl; first [assumption|reflexivity|apply persists_refl, _|by apply lives_same] ].

Section writing.
Context (w : world) (Hw : integral w) (n : uuid) (Hn : (w_fresh w <= n)%N).

Lemma write_jobs g :
  dom_le (W_jobs w) (g (W_jobs w)) ->
  table_ok j_id (job_refs (w_db w)) n (g (W_jobs w)) ->
  distinct idempotency (g (W_jobs w)) ->
  lives w (set_fresh n (set_db (on_jobs g) w)) ->
  step_ok w (set_fresh n (set_db (on_jobs g) w)).
Proof using Hw Hn. intros. write_one. Qed.
Lemma write_agents g :
  persists same_agent (W_agents w) (g (W_agents w)) ->
  table_ok ag_id (agent_refs (w_db w)) n (g (W_agents w)) ->
  distinct ag_api_key_id (g (W_agents w)) ->
  step_ok w (set_fresh n (set_db (on_agents g) w)).
Proof using Hw Hn. intros. write_one. Qed.
Lemma write_devices g :
  dom_le (W_devices w) (g (W_devices w)) ->
  table_ok dv_id (device_refs (w_db w)) n (g (W_devices w)) ->
  distinct udid (g (W_devices w)) ->
  step_ok w (set_fresh n (set_db (on_devices g) w)).
Proof using Hw Hn. intros. write_one. Qed.
Lemma write_accounts g :
  dom_le (W_accounts w) (g (W_accounts w)) ->
  table_ok ac_id (account_refs (w_db w)) n (g (W_accounts w)) ->
  distinct ac_team_identifier (g (W_accounts w)) ->
  step_ok w (set_fresh n (set_db (on_accounts g) w)).
Proof using Hw Hn. intros. write_one. Qed.
Lemma write_certificates g :
  dom_le (W_certificates w) (g (W_certificates w)) ->
  table_ok ce_id (certificate_refs (w_db w)) n (g (W_certificates w)) ->
  distinct ce_serial_number (g (W_certificates w)) ->
  step_ok w (set_fresh n (set_db (on_certificates g) w)).
Proof using Hw Hn. intros. write_one. Qed.
Lemma write_artifacts g :
  persists same_artifact (W_artifacts w) (g (W_artifacts w)) ->
  table_ok ar_id (artifact_refs (w_db w)) n (g (W_artifacts w)) ->
  distinct content (g (W_artifacts w)) ->
  step_ok w (set_fresh n (set_db (on_artifacts g) w)).
Proof using Hw Hn. intros. write_one. Qed.
Lemma write_signed g :
  dom_le (W_signed w) (g (W_signed w)) ->
  table_ok sa_id (signed_refs (w_db w)) n (g (W_signed w)) ->
  step_ok w (set_fresh n (set_db (on_signed_artifacts g) w)).
Proof using Hw Hn. intros. write_one. Qed.
Lemma write_deployments g :
  dom_le (W_deployments w) (g (W_deployments w)) ->
  table_ok dp_id (deployment_refs (w_db w)) n (g (W_deployments w)) ->
  step_ok w (set_fresh n (set_db (on_deployments g) w)).
Proof using Hw Hn. intros. write_one. Qed.
Lemma write_installations g :
  table_ok ir_id (installation_refs (w_db w)) n (g (W_installations w)) ->
  distinct installed_for (g (W_installations w)) ->
  step_ok w (set_fresh n (set_db (on_installations g) w)).
Proof using Hw Hn. intros. write_one. Qed.
Lemma write_enrolments g :
  persists same_enrolment (W_enrolment_tokens w) (g (W_enrolment_tokens w)) ->
  table_ok et_id (enrolment_refs (w_db w)) n (g (W_enrolment_tokens w)) ->
  distinct et_token_key (g (W_enrolment_tokens w)) ->
  step_ok w (set_fresh n (set_db (on_enrolment_tokens g) w)).
Proof using Hw Hn. intros. write_one. Qed.
Lemma write_tokens g :
  persists same_token (W_device_tokens w) (g (W_device_tokens w)) ->
  table_ok dt_id (token_refs (w_db w)) n (g (W_device_tokens w)) ->
  distinct token_key (g (W_device_tokens w)) ->
  step_ok w (set_fresh n (set_db (on_device_tokens g) w)).
Proof using Hw Hn. intros. write_one. Qed.
End writing.

(** The identifiers, the blobs, the clock and the log outside transactions may
    move freely. *)
Lemma integral_later w w' : integral w -> w_db w' = w_db w -> (w_fresh w <= w_fresh w')%N -> integral w'.
Proof.
  unfold integral. intros H -> Hn. destruct H. split; first [assumption|by eapply table_ok_later].
Qed.

Lemma step_same w : integral w -> step_ok w w.
Proof. by split. Qed.

Lemma step_trans w1 w2 w3 : step_ok w1 w2 -> step_ok w2 w3 -> step_ok w1 w3.
Proof. intros [_ R12] [H R23]. split; [done|]. by etrans. Qed.

Lemma step_aside w w' :
  integral w -> w_db w' = w_db w -> (w_fresh w <= w_fresh w')%N -> w_pool_audit w `suffix_of` w_pool_audit w' ->
  step_ok w w'.
Proof.
  intros Hw Hd Hn Ha. split; [by eapply integral_later|].
  split; rewrite ?Hd; try done; first [apply persists_refl, _|apply lives_same; [by rewrite Hd|done]].
Qed.

Lemma step_audit w f : integral w -> (forall l, l `suffix_of` f l) -> step_ok w (set_db (on_audit f) w).
Proof.
  intros Hw Hf. split; [|split; simpl; first [by apply Hf|done|apply persists_refl, _|by apply lives_same]].
  unfold integral, intact in *. apply (intact_grows (w_db w)); [split; apply dom_le_refl|].
  destruct Hw. by split.
Qed.

(** ** Programs *)

Definition lawful {X} (f : world -> sqlerr + X * world) : Prop :=
  forall w x w', integral w -> f w = inr (x, w') -> step_ok w w'.

(** The states that may follow [w0]. *)
Definition follows (w0 w : world) : Prop := integral w /\ remembers w0 w.

Lemma follows_step w0 w w' : follows w0 w -> step_ok w w' -> follows w0 w'.
Proof. intros [_ R] [H R']. split; [done|]. by etrans. Qed.

Lemma follows_rollback w0 s0 s : follows w0 s0 -> follows w0 s -> follows w0 (rollback s0 s).
Proof.
  intros [H0 R0] [_ R]. destruct R0. split; [apply (integral_later s0); [done|done|simpl; lia]|].
  split; try done; [by apply R|]. eapply lives_later; [done|done|simpl; lia].
Qed.

(** Programs on the state [T], of which the tables are the part [v]. *)
Definition orderly_on {T E A} (v : T -> world) (p : prog T E A) : Prop :=
  forall w0, keeps (fun t => follows w0 (v t)) p.
Abbreviation orderly := (orderly_on (fun w => w)).

Create HintDb orderly discriminated.
Create HintDb lawful discriminated.

Section orderly.
Context {T E A : Type} (v : T -> world).

Lemma orderly_ret (a : A) : orderly_on v (Ret a : prog T E A).
Proof using. intros w0. apply keeps_ret. Qed.
Lemma orderly_throw (e : E) : orderly_on v (Throw e : prog T E A).
Proof using. intros w0. apply keeps_throw. Qed.
Lemma orderly_bind {B} (p : prog T E A) (f : A -> prog T E B) :
  orderly_on v p -> (forall a, orderly_on v (f a)) -> orderly_on v (p ≫= f).
Proof using. intros Hp Hf w0. apply keeps_bind; [apply Hp|intros a; apply Hf]. Qed.
Lemma orderly_attempt {E'} (p : prog T E A) : orderly_on v p -> orderly_on v (@attempt T E E' A p).
Proof using. intros Hp w0. apply keeps_attempt, Hp. Qed.
Lemma orderly_for {X} (l : list X) (body : X -> prog T E unit) :
  (forall x, orderly_on v (body x)) -> orderly_on v (for_ l body).
Proof using. intros Hb w0. apply keeps_for. intros x _. apply Hb. Qed.
Lemma orderly_fold {X B} (body : B -> X -> prog T E B) b l :
  (forall b x, orderly_on v (body b x)) -> orderly_on v (fold_ body b l).
Proof using. intros Hb w0. apply keeps_fold. intros b' x. apply Hb. Qed.
(** A statement or action that leaves the tables alone. *)
Lemma orderly_stmt_same {X} c (f : T -> sqlerr + X * T) (k : sqlerr + X -> prog T E A) :
  (forall t x t', f t = inr (x, t') -> v t' = v t) -> (forall o, orderly_on v (k o)) ->
  orderly_on v (Stmt c f k).
Proof using.
  intros Hf Hk w0. apply keeps_stmt; [|intros o; apply Hk]. intros t x t' Ht He. by rewrite (Hf _ _ _ He).
Qed.
Lemma orderly_get {X} (g : T -> X) : orderly_on v (get_ g : prog T E X).
Proof using. intros w0. apply keeps_act; [done|]. intros x. apply keeps_ret. Qed.
Lemma orderly_put (f : T -> T) : (forall t, v (f t) = v t) -> orderly_on v (put_ f : prog T E unit).
Proof using. intros Hf w0. apply keeps_act; [|intros x; apply keeps_ret]. intros t. simpl. by rewrite Hf. Qed.
End orderly.

Lemma orderly_reads {T E X} (v : T -> world) c (g : T -> X) : orderly_on v (@try_ T E X c (reads g)).
Proof. apply orderly_stmt_same; [by intros t x t' [= <- <-]|intros o; apply orderly_ret]. Qed.

Lemma orderly_stmt {E A X} c (f : world -> sqlerr + X * world) (k : sqlerr + X -> prog world E A) :
  lawful f -> (forall o, orderly (k o)) -> orderly (Stmt c f k).
Proof.
  intros Hf Hk w0. apply keeps_stmt; [|intros o; apply Hk].
  intros w x w' Hw He. eapply follows_step; [done|]. eapply Hf; [apply Hw|done].
Qed.
Lemma orderly_try {E X} c (f : world -> sqlerr + X * world) : lawful f -> orderly (@try_ _ E X c f).
Proof. intros Hf. apply orderly_stmt; [done|]. intros o. apply orderly_ret. Qed.
Lemma orderly_must {E X} c (f : world -> sqlerr + X * world) (e : sqlerr -> E) : lawful f -> orderly (must c f e).
Proof. intros Hf. apply orderly_stmt; [done|]. intros [er|x]; [apply orderly_throw|apply orderly_ret]. Qed.
Lemma orderly_act {E A X} (f : world -> X * world) (k : X -> prog world E A) :
  (forall w, integral w -> step_ok w (f w).2) -> (forall x, orderly (k x)) -> orderly (Act f k).
Proof.
  intros Hf Hk w0. apply keeps_act; [|intros x; apply Hk].
  intros w Hw. eapply follows_step; [done|]. by apply Hf, Hw.
Qed.
Lemma orderly_txn_with {E A} (be : E) (ce : A -> E) (p : prog world E A) :
  orderly p -> orderly (txn_with rollback be ce p).
Proof.
  intros Hp w0 s Hs. apply wp_txn_with; [done|]. eapply wp_mono; [|by apply Hp].
  intros [e|a] s' Hs'; [|split; [done|]]; by apply follows_rollback.
Qed.
Lemma orderly_txn {E A} (be ce : E) (p : prog world E A) : orderly p -> orderly (txn rollback be ce p).
Proof. apply orderly_txn_with. Qed.

Lemma orderly_zoom {S T E A} `{Lens S T} (v : S -> world) (p : prog S E A) :
  orderly_on v p -> orderly_on (fun t : T => v (lget t)) (zoom p).
Proof.
  intros Hp w0 t Ht. apply wp_zoom. eapply wp_mono; [|by apply Hp]. intros r s Hs. by rewrite lget_lset.
Qed.

(** The tables of a larger state. *)
Abbreviation tables := (lget (S := world)) (only parsing).

Lemma orderly_zoom_world {T E A} `{Lens world T} (p : prog world E A) : orderly p -> orderly_on tables (zoom p).
Proof. intros Hp. exact (orderly_zoom (fun w => w) p Hp). Qed.

Section disk.
Context {T E : Type} `{Lens host T}.
Local Abbreviation on_disk := (fun t : T => h_world (lget t)).

Lemma orderly_ReadJSON path : orderly_on on_disk (@ReadJSON T E _ path).
Proof using. apply orderly_bind; [apply orderly_reads|intros r; apply orderly_ret]. Qed.
Lemma orderly_WriteJSON path j : orderly_on on_disk (@WriteJSON T E _ path j).
Proof using.
  apply orderly_bind; [|intros r; apply orderly_ret].
  apply orderly_stmt_same; [|intros o; apply orderly_ret]. intros t x t' [= <- <-]. by rewrite lget_lset.
Qed.
Lemma orderly_WriteText path text : orderly_on on_disk (@WriteText T E _ path text).
Proof using.
  apply orderly_bind; [|intros r; apply orderly_ret].
  apply orderly_stmt_same; [|intros o; apply orderly_ret]. intros t x t' [= <- <-]. by rewrite lget_lset.
Qed.
End disk.

Lemma lawful_reads {X} (g : world -> X) : lawful (reads g).
Proof. intros w x w' Hw [= <- <-]. by apply step_same. Qed.

Lemma orderly_Record {E} actor action opts : orderly (@Record_ E actor action opts).
Proof.
  apply orderly_bind; [|intros; apply orderly_ret]. apply orderly_try. intros w [] w' Hw [= <-].
  apply step_aside; [done|done|simpl; lia|]. simpl. by apply suffix_cons_r.
Qed.
Lemma orderly_RecordTx {E} actor action opts (e : E) : orderly (RecordTx actor action opts e).
Proof.
  apply orderly_must. intros w [] w' Hw [= <-]. apply step_audit; [done|]. intros l. by apply suffix_cons_r.
Qed.
Lemma orderly_fresh {E} : orderly (@fresh_uuid E).
Proof. apply orderly_act; [|intros; apply orderly_ret]. intros w Hw. apply step_aside; [done|done|simpl; lia|done]. Qed.

Lemma lawful_draw : lawful (fun w => inr (w_fresh w, set_fresh (w_fresh w + 1)%N w)).
Proof. intros w x w' Hw [= <- <-]. apply step_aside; [done|done|simpl; lia|done]. Qed.

(** The steps of handlers. *)
Lemma orderly_need {X} c (f : world -> sqlerr + X * world) status message : lawful f -> orderly (need c f status message).
Proof. intros Hf. by apply orderly_must. Qed.
Lemma orderly_decode {A} (body : option A) : orderly (decodeJSON body).
Proof. destruct body; [apply orderly_ret|apply orderly_throw]. Qed.
Lemma orderly_fail {A} status message : orderly (@fail A status message).
Proof. apply orderly_throw. Qed.
Lemma orderly_ok status body : orderly (ok status body).
Proof. apply orderly_ret. Qed.

#[export] Hint Resolve lawful_reads lawful_draw : lawful.
#[export] Hint Resolve orderly_ret orderly_throw orderly_get orderly_reads orderly_Record orderly_RecordTx orderly_fresh
  orderly_need orderly_decode orderly_fail orderly_ok : orderly.

(** One structural step of the proof that a program is orderly; statements whose
    lawfulness is not known yet remain. *)
Ltac orderly_step :=
  match goal with
  | |- orderly_on _ (zoom _) => first [apply orderly_zoom_world|apply (orderly_zoom (fun w => w))]
  | |- orderly_on _ _ => solve [eauto 3 with orderly lawful nocore]
  | |- lawful _ => solve [eauto 2 with lawful nocore]
  | |- orderly_on _ (need _ _ _ _) => apply orderly_need
  | |- orderly_on _ (Act _ _) =>
      apply orderly_act; [solve [intros ? ?; apply step_aside; simpl; done || lia]|intros ?]
  | |- orderly_on _ (put_ _) => apply orderly_put; [done]
  | |- orderly_on _ (mret _) => apply orderly_ret
  | |- orderly_on _ (mbind _ _) => apply orderly_bind; [|intros ?]
  | |- orderly_on _ (must _ _ _) => apply orderly_must
  | |- orderly_on _ (try_ _ _) => apply orderly_try
  | |- orderly_on _ (Stmt _ _ _) => apply orderly_stmt; [|intros ?]
  | |- orderly_on _ (for_ _ _) => apply orderly_for; intros ?
  | |- orderly_on _ (fold_ _ _ _) => apply orderly_fold; intros ? ?
  | |- orderly_on _ (attempt _) => apply orderly_attempt
  | |- orderly_on _ (txn _ _ _ _) => apply orderly_txn
  | |- orderly_on _ (txn_with _ _ _ _) => apply orderly_txn_with
  | |- orderly_on _ (when ?b _) => unfold when; destruct b
  | |- orderly_on _ (if ?b then _ else _) => destruct b
  | |- orderly_on _ (match ?x with _ => _ end) => destruct x
  | |- orderly_on _ (let '(_, _) := ?x in _) => destruct x
  end.
Ltac orderly_prog := repeat (orderly_step; cbn beta zeta).
