(* ===== verification/IntegrityStatements.v ===== *)
(** Every statement of the program is lawful: what it inserts refers to rows that
    are there and clashes with none, what it rewrites keeps keys and references,
    what it deletes nothing refers to. *)
From S2P Require Import Prelude GoStrings GoTime Effects Schema AuditLog Jobs JobsInvariant Scheduler SchedulerSpec JobsLives Http Auth Agents Artifacts Retention Signing Refresh Base64 Host Accounts Sources Catalog Updates StoreInstall Certificates DevicesAdmin Integrity.

(** ** The queue *)

Lemma step_set_job w id j j' :
  integral w -> W_jobs w !! id = Some j -> row_step true j j' -> wf_job j' ->
  (points (j_claimed_by j) (W_agents w) -> points (j_claimed_by j') (W_agents w)) ->
  step_ok w (set_db (on_jobs (<[id := j']>)) w).
Proof.
  intros Hw Hj Hm Hwf Hc. pose proof Hm as [(Hid & _ & Hd & Ha & _ & Hk & _ & _ & _ & Hp) _].
  apply (write_jobs w Hw (w_fresh w)); [done|apply dom_le_insert|..].
  - eapply table_ok_set; [done|apply Hw|done..|].
    destruct (in_jobs _ _ _ Hw _ _ Hj) as (_ & _ & ? & ? & ? & ? & _).
    split_and!; rewrite ?Hd, ?Ha, ?Hp; auto.
  - eapply distinct_set; [apply Hw|done|]. unfold idempotency. congruence.
  - eapply lives_later; [by eapply lives_set, moves_step|done..].
Qed.

Lemma lawful_insert_job ty dev app params key mx retry parent purpose :
  lawful (insert_job (new_job ty dev app params key mx retry parent purpose)).
Proof.
  intros w x w' Hw. unfold insert_job. cbn zeta. case_cond; [intros [= <- <-]; by apply step_same|].
  case_cond; [|done]. intros [= <- <-]. unfold job_fks_ok in *. simpl in *. bools. destruct_and?.
  apply write_jobs; [done|lia|apply dom_le_insert|..].
  - eapply table_ok_insert; [|apply Hw|done|simpl; lia|]; [lia|].
    split_and!; simpl; auto with integrity. apply new_job_wf.
  - apply distinct_insert; [apply Hw|]. intros i s k Hs [= <-] [= Hk]. exfalso.
    pose proof (exists_row_false _ _ _ _ Heqb Hs) as Hno. simpl in Hno. bools. congruence.
  - apply lives_insert; [done..|]. eapply table_ok_fresh; [apply Hw|]. done.
Qed.

Lemma lawful_insert_strict ty dev app params key mx retry parent purpose :
  lawful (insert_job_strict (new_job ty dev app params key mx retry parent purpose)).
Proof.
  intros w x w' Hw. unfold insert_job_strict. destruct (insert_job _ w) as [e|[[j|] w1]] eqn:Hi; [done| |done].
  intros [= <- <-]. by eapply lawful_insert_job.
Qed.

(** A claim of a job that waits. *)
Lemma step_claim s agent id p w x w' :
  integral w -> (forall j, W_jobs w !! id = Some j -> p j = true -> j_state j = StatePending) ->
  claim_stmt s agent id p w = inr (x, w') -> step_ok w w'.
Proof.
  intros Hw Hp [[-> ->]|(j & Hj & Hpj & Ha & -> & ->)]%claim_stmt_inv; [by apply step_same|].
  apply (step_set_job w id j); [done|done|by apply claim_row_step, Hp| |].
  - apply claim_row_wf, (in_jobs _ _ _ Hw _ _ Hj).
  - by intros _ k [= <-].
Qed.

Lemma lawful_claim_pending s agent id : lawful (claim_stmt s agent id is_pending).
Proof. intros w x w' Hw. apply step_claim; [done|]. intros j _ Hj. by apply is_pending_true. Qed.

(** A job that is given up by its holder. *)
Lemma step_release w id j j' :
  integral w -> W_jobs w !! id = Some j -> row_step true j j' -> wf_job j' ->
  j_claimed_by j' = j_claimed_by j \/ j_claimed_by j' = None ->
  step_ok w (set_db (on_jobs (<[id := j']>)) w).
Proof.
  intros Hw Hj Hm Hwf Hc. apply (step_set_job w id j); [done..|].
  destruct Hc as [-> | ->]; [done|]. intros _. apply points_none.
Qed.

(** An accepted report. *)
Lemma step_update_stmt s id req w j j' w' :
  integral w -> W_jobs w !! id = Some j -> validTransition (j_state j) (ur_State req) = true ->
  update_stmt s id req w = inr (j', w') -> step_ok w w'.
Proof.
  intros Hw Hj Hv (x & Hx & -> & -> & _)%update_stmt_inv. simplify_eq.
  apply (step_release w id j); [done|done|by apply updated_row_step| |].
  - apply updated_row_wf; [done|]. apply (in_jobs _ _ _ Hw _ _ Hj).
  - left. apply updated_row_columns.
Qed.

#[export] Hint Resolve lawful_insert_job lawful_insert_strict lawful_claim_pending : lawful.

(** ** Deployments and installations *)

Lemma step_deployment w id f :
  integral w -> (forall d, dp_id (f d) = dp_id d /\ dp_device_id (f d) = dp_device_id d) ->
  (forall d, deployment_refs (w_db w) d -> points (dp_rollback_artifact_id (f d)) (W_artifacts w)) ->
  step_ok w (update_deployment id f w).
Proof.
  intros Hw Hf Hr. unfold update_deployment. destruct (W_deployments w !! id) as [d|] eqn:Hd; [|by apply step_same].
  destruct (Hf d) as [Hi Hv]. apply (write_deployments w Hw (w_fresh w)); [done|apply dom_le_insert|].
  eapply table_ok_set; [done|apply Hw|done..|]. pose proof (in_deployments _ _ _ Hw _ _ Hd) as (_ & _ & Hx).
  split; [rewrite Hv; apply Hx|by apply Hr].
Qed.

(** An assignment that leaves the keys and the artifact to fall back to. *)
Lemma lawful_deployment id f :
  (forall w d, dp_id (f w d) = dp_id d /\ dp_device_id (f w d) = dp_device_id d
     /\ dp_rollback_artifact_id (f w d) = dp_rollback_artifact_id d) ->
  lawful (writes (fun w => update_deployment id (f w) w)).
Proof.
  intros Hf w x w' Hw [= <- <-]. apply step_deployment; [done| |].
  - intros d. by destruct (Hf w d) as (? & ? & _).
  - intros d [_ Hd]. by destruct (Hf w d) as (_ & _ & ->).
Qed.

Lemma lawful_deployment_if (b : bool) e id f :
  (forall w d, dp_id (f w d) = dp_id d /\ dp_device_id (f w d) = dp_device_id d
     /\ dp_rollback_artifact_id (f w d) = dp_rollback_artifact_id d) ->
  lawful (fun w => if b then inr (tt, update_deployment id (f w) w) else inl e).
Proof. intros Hf. destruct b; [by apply lawful_deployment|done]. Qed.

Lemma lawful_set_rollback dep artifact : lawful (set_rollback dep artifact).
Proof.
  intros w x w' Hw. unfold set_rollback. destruct (W_deployments w !! dep); [|intros [= <- <-]; by apply step_same].
  case_cond; [|done]. intros [= <- <-]. apply step_deployment; [done|done|].
  intros dd _. simpl. by apply points_fk.
Qed.

Lemma step_installations w p f :
  integral w -> (forall i, p i = true -> installation_refs (w_db w) i ->
    ir_id (f i) = ir_id i /\ installation_refs (w_db w) (f i)) ->
  (forall i, ir_deployment_id (f i) = ir_deployment_id i) ->
  step_ok w (set_db (on_installations (update_where p f)) w).
Proof.
  intros Hw Hf Hd. apply (write_installations w Hw (w_fresh w)); [done|..].
  - eapply table_ok_update; [done|apply Hw|]. intros i r _. apply Hf.
  - apply distinct_update; [apply Hw|]. intros i. unfold installed_for. by rewrite Hd.
Qed.

Lemma lawful_record_install dep expiry signed install : lawful (record_install dep expiry signed install).
Proof.
  intros w x w' Hw. unfold record_install. case_cond; [done|]. intros [= <- <-].
  apply (write_installations w Hw (w_fresh w)); [done|..].
  - eapply table_ok_update; [done|apply Hw|]. intros k i Hi Hp (Hd & _). split; [done|].
    assert (exists_row (of_deployment dep) (W_installations w) = true) as Hex by (apply exists_row_true; eauto).
    rewrite Hex in Heqb. cbn [andb] in Heqb. bools. destruct_and?.
    split_and!; simpl; [exact Hd|by apply points_fk..].
  - by apply distinct_update; [apply Hw|].
Qed.

Lemma lawful_record_expiry dep expiry : lawful (writes (record_expiry dep expiry)).
Proof. intros w x w' Hw [= <- <-]. by apply step_installations. Qed.

#[export] Hint Resolve lawful_set_rollback lawful_record_install lawful_record_expiry : lawful.

(** ** Agents *)

Lemma step_agents w p f :
  integral w -> (forall a, p a = true -> agent_refs (w_db w) a -> agent_refs (w_db w) (f a)) ->
  (forall a, ag_id (f a) = ag_id a /\ same_agent a (f a)) ->
  step_ok w (set_db (on_agents (update_where p f)) w).
Proof.
  intros Hw Hr Hf. apply (write_agents w Hw (w_fresh w)); [done|..].
  - apply persists_update; [apply _|]. intros a _. apply Hf.
  - eapply table_ok_update; [done|apply Hw|]. intros i a _ Hp Ha. split; [apply Hf|by apply Hr].
  - apply distinct_update; [apply Hw|]. intros a. apply Hf.
Qed.

Lemma step_new_agent w a :
  integral w -> ag_id a = w_fresh w -> agent_refs (w_db w) a ->
  (forall i x k, W_agents w !! i = Some x -> ag_api_key_id x = Some k -> ag_api_key_id a <> Some k) ->
  step_ok w (set_fresh (w_fresh w + 1)%N (set_db (on_agents (<[ag_id a := a]>)) w)).
Proof.
  intros Hw Hi Hr Hu. apply write_agents; [done|lia|..].
  - apply persists_new; [apply _|]. eapply table_ok_fresh; [apply Hw|]. lia.
  - eapply table_ok_insert; [|apply Hw|done|lia|done]. lia.
  - apply distinct_insert; [apply Hw|]. intros i x k Hx Hk Ha. by destruct (Hu _ _ _ Hx Hk).
Qed.

Lemma lawful_insert_agent mk :
  (forall id now, ag_id (mk id now) = id) -> lawful (insert_agent mk).
Proof.
  intros Hid w x w' Hw. unfold insert_agent. cbn zeta. case_cond; [done|]. case_cond; [done|].
  intros [= <- <-]. apply step_new_agent; [done|apply Hid|by apply negb_false_iff|].
  intros i y k Hy Hk Ha. pose proof (exists_row_false _ _ _ _ Heqb0 Hy) as Hno. simpl in Hno.
  rewrite Hk, Ha in Hno. bools. destruct Hno as [Hno|Hno]; [by destruct Hno|done].
Qed.

Lemma lawful_insert_sentinel : lawful insert_sentinel.
Proof.
  intros w x w' Hw. unfold insert_sentinel. case_cond; [intros [= <- <-]; by apply step_same|].
  intros [= <- <-]. apply step_new_agent; [done|done|by vm_compute|].
  intros i y k Hy Hk [= Ha]. pose proof (exists_row_false _ _ _ _ Heqb Hy) as Hno. simpl in Hno.
  rewrite Hk, <- Ha in Hno. by rewrite (proj2 (opt_is_true _ _)) in Hno.
Qed.

Lemma lawful_heartbeat agentID caps : lawful (heartbeat_stmt agentID caps).
Proof.
  intros w x w' Hw. unfold heartbeat_stmt. destruct (W_agents w !! agentID) as [a|] eqn:Ha; [|intros [= <- <-]; by apply step_same].
  intros [= <- <-]. apply (write_agents w Hw (w_fresh w)); [done|..].
  - eapply persists_set; [apply _|done|done].
  - eapply table_ok_set; [done|apply Hw|done|done|]. apply (in_agents _ _ _ Hw _ _ Ha).
  - by eapply distinct_set; [apply Hw|done|].
Qed.

Lemma lawful_offline s : lawful (writes (mark_offline s)).
Proof. intros w x w' Hw [= <- <-]. by apply step_agents. Qed.

Lemma lawful_role agentID : lawful (writes (fun w => set_db (on_agents (update_where
  (fun x => bool_decide (ag_id x = agentID)) (set_ag_role "signing_worker"))) w)).
Proof. intros w x w' Hw [= <- <-]. by apply step_agents. Qed.

#[export] Hint Resolve lawful_insert_sentinel lawful_heartbeat lawful_offline lawful_role : lawful.

(** ** Tokens *)

Lemma lawful_store_token hash key label role expires : lawful (store_token hash key label role expires).
Proof.
  intros w x w' Hw. unfold store_token. case_cond; [done|]. cbn zeta. intros [= <- <-].
  apply write_enrolments; [done|lia|..].
  - apply persists_new; [apply _|]. eapply table_ok_fresh; [apply Hw|]. simpl. lia.
  - eapply table_ok_insert; [|apply Hw|done|simpl; lia|apply points_none]. lia.
  - apply distinct_insert; [apply Hw|]. intros i t k Ht Hk [= Hk']. exfalso. subst k.
    pose proof (exists_row_false _ _ _ _ Heqb Ht) as Hno. simpl in Hno.
    by rewrite (proj2 (opt_is_true _ _)) in Hno.
Qed.

Lemma lawful_consume tid agentID : lawful (consume_token tid agentID).
Proof.
  intros w x w' Hw. unfold consume_token. cbn zeta. case_cond; [done|]. intros [= <- <-].
  apply (write_enrolments w Hw (w_fresh w)); [done|..].
  - apply persists_update; [apply _|]. intros t Ht. bools. destruct Ht as [_ Hu].
    split_and!; [done|done|]. rewrite Hu. by intros [].
  - eapply table_ok_update; [done|apply Hw|]. intros i t Hi Hp _. split; [done|].
    apply (points_fk (Some agentID)). destruct (fk_ok (Some agentID) (W_agents w)); [done|].
    rewrite andb_true_r in Heqb. by rewrite (exists_row_false _ _ _ _ Heqb Hi) in Hp.
  - by apply distinct_update; [apply Hw|].
Qed.

Lemma step_tokens w p f :
  integral w -> (forall t, same_token t (f t) /\ dt_id (f t) = dt_id t) ->
  (forall t, token_refs (w_db w) t -> token_refs (w_db w) (f t)) ->
  step_ok w (set_db (on_device_tokens (update_where p f)) w).
Proof.
  intros Hw Hf Hr. apply (write_tokens w Hw (w_fresh w)); [done|..].
  - apply persists_update; [apply _|]. intros t _. apply Hf.
  - eapply table_ok_update; [done|apply Hw|]. intros i t _ _ Ht. split; [apply Hf|by apply Hr].
  - apply distinct_update; [apply Hw|]. intros t. unfold token_key. by destruct (Hf t) as [(-> & _) _].
Qed.

Lemma lawful_token_used id : lawful (writes (fun w => set_db (on_device_tokens (update_where
  (fun x => bool_decide (dt_id x = id)) (set_dt_last_used_at (Some (w_now w))))) w)).
Proof. intros w x w' Hw [= <- <-]. by apply step_tokens. Qed.

Lemma lawful_token_revoked id : lawful (writes (fun w => set_db (on_device_tokens (update_where
  (fun x => bool_decide (dt_id x = id)) (set_dt_revoked_at (Some (w_now w))))) w)).
Proof.
  intros w x w' Hw [= <- <-]. apply step_tokens; [done| |done]. intros t. split; [|done]. by split_and!.
Qed.

Lemma step_new_token w t :
  integral w -> dt_id t = w_fresh w -> fk_ok (dt_device_id t) (W_devices w) = true ->
  exists_row (fun x => dt_key_id x =s dt_key_id t) (W_device_tokens w) = false ->
  step_ok w (set_fresh (w_fresh w + 1)%N (set_db (on_device_tokens (<[dt_id t := t]>)) w)).
Proof.
  intros Hw Hi Hr Hu. apply write_tokens; [done|lia|..].
  - apply persists_new; [apply _|]. eapply table_ok_fresh; [apply Hw|]. lia.
  - eapply table_ok_insert; [|apply Hw|done|lia|by apply points_fk]. lia.
  - apply distinct_insert; [apply Hw|]. intros i x k Hx [= <-] [= Hk]. exfalso.
    pose proof (exists_row_false _ _ _ _ Hu Hx) as Hno. simpl in Hno. bools. congruence.
Qed.

#[export] Hint Resolve lawful_store_token lawful_consume lawful_token_used lawful_token_revoked : lawful.

(** ** Devices *)

Lemma step_set_device w i x x' :
  integral w -> W_devices w !! i = Some x -> dv_id x' = dv_id x -> dv_udid x' = dv_udid x ->
  (device_refs (w_db w) x -> device_refs (w_db w) x') ->
  step_ok w (set_db (on_devices (<[dv_id x := x']>)) w).
Proof.
  intros Hw Hx Hi Hu Hr. pose proof (in_devices _ _ _ Hw _ _ Hx) as (Hk & _ & Hp). rewrite Hk.
  apply (write_devices w Hw (w_fresh w)); [done|apply dom_le_insert|..].
  - eapply table_ok_set; [done|apply Hw|done|done|auto].
  - eapply distinct_set; [apply Hw|done|]. unfold udid. congruence.
Qed.

Lemma step_new_device w x :
  integral w -> dv_id x = w_fresh w -> device_refs (w_db w) x -> device_by_udid (dv_udid x) w = None ->
  step_ok w (set_fresh (w_fresh w + 1)%N (set_db (on_devices (<[dv_id x := x]>)) w)).
Proof.
  intros Hw Hi Hr Hu. unfold device_by_udid in Hu. rewrite find_row_None in Hu.
  apply write_devices; [done|lia|apply dom_le_insert|..].
  - eapply table_ok_insert; [|apply Hw|done|lia|done]. lia.
  - apply distinct_insert; [apply Hw|]. intros i y k Hy [= <-] [= Hk]. exfalso.
    specialize (Hu _ _ Hy). simpl in Hu. bools. congruence.
Qed.

Lemma lawful_report agentID d : lawful (report_device agentID d).
Proof.
  intros w x w' Hw. unfold report_device. cbn zeta. case_cond; [done|]. apply negb_false_iff, points_fk in Heqb.
  destruct (device_by_udid (rd_Udid d) w) as [y|] eqn:Hy; intros [= <- <-].
  - apply find_row_Some in Hy as (i & Hi & _). apply (step_set_device w i y); [done..|].
    unfold device_refs. simpl. destruct (dv_agent_id y) as [a|]; [|done]. by case_cond.
  - by apply step_new_device.
Qed.

Lemma lawful_upsert_device r : lawful (upsert_device r).
Proof.
  intros w x w' Hw. unfold upsert_device. case_cond; [|done]. cbn zeta.
  destruct (device_by_udid (cd_Udid r) w) as [y|] eqn:Hy; intros [= <- <-].
  - apply find_row_Some in Hy as (i & Hi & _). by apply (step_set_device w i y).
  - apply step_new_device; [done|done|apply points_none|done].
Qed.

Lemma lawful_connected id : lawful (writes (fun w => set_db (on_devices (update_where
  (fun x => bool_decide (dv_id x = id)) (set_dv_last_connected_at (Some (w_now w))))) w)).
Proof.
  intros w x w' Hw [= <- <-]. apply (write_devices w Hw (w_fresh w)); [done|apply dom_le_update|..].
  - by eapply table_ok_update; [done|apply Hw|].
  - by apply distinct_update; [apply Hw|].
Qed.

#[export] Hint Resolve lawful_report lawful_upsert_device lawful_connected : lawful.

(** ** Accounts and certificates *)

Lemma step_set_account w i a a' :
  integral w -> W_accounts w !! i = Some a -> ac_id a' = ac_id a -> ac_team_identifier a' = ac_team_identifier a ->
  step_ok w (set_db (on_accounts (<[ac_id a := a']>)) w).
Proof.
  intros Hw Ha Hi Ht. pose proof (in_accounts _ _ _ Hw _ _ Ha) as (Hk & _). rewrite Hk.
  apply (write_accounts w Hw (w_fresh w)); [done|apply dom_le_insert|..].
  - by eapply table_ok_set; [done|apply Hw|..].
  - by eapply distinct_set; [apply Hw|..].
Qed.

Lemma step_new_account w a :
  integral w -> ac_id a = w_fresh w ->
  (forall i x k, W_accounts w !! i = Some x -> ac_team_identifier x = Some k -> ac_team_identifier a <> Some k) ->
  step_ok w (set_fresh (w_fresh w + 1)%N (set_db (on_accounts (<[ac_id a := a]>)) w)).
Proof.
  intros Hw Hi Hu. apply write_accounts; [done|lia|apply dom_le_insert|..].
  - eapply table_ok_insert; [|apply Hw|done|lia|done]. lia.
  - apply distinct_insert; [apply Hw|]. intros i x k Hx Hk Ha. by destruct (Hu _ _ _ Hx Hk).
Qed.

Lemma lawful_upsert_account req team : lawful (upsert_account req team).
Proof.
  intros w x w' Hw. unfold upsert_account. case_cond; [done|]. cbn zeta.
  destruct (account_by_team team w) as [a|] eqn:Ha; intros [= <- <-].
  - apply find_row_Some in Ha as (i & Hi & _). by apply (step_set_account w i a).
  - unfold account_by_team in Ha. rewrite find_row_None in Ha. apply step_new_account; [done|done|].
    intros i y k Hy Hk [= <-]. specialize (Ha _ _ Hy). simpl in Ha. by rewrite (proj2 (opt_is_true _ _)) in Ha.
Qed.

Lemma lawful_insert_account label : lawful (insert_account label).
Proof.
  intros w x w' Hw. unfold insert_account. case_cond; [|done]. cbn zeta. intros [= <- <-].
  by apply step_new_account.
Qed.

Lemma lawful_authenticating id : lawful (writes (set_authenticating id)).
Proof.
  intros w x w' Hw [= <- <-]. apply (write_accounts w Hw (w_fresh w)); [done|apply dom_le_update|..].
  - by eapply table_ok_update; [done|apply Hw|].
  - by apply distinct_update; [apply Hw|].
Qed.

Lemma lawful_upsert_certificate serial accountID : lawful (upsert_certificate serial accountID).
Proof.
  intros w x w' Hw. unfold upsert_certificate. case_cond; [done|]. case_cond; [done|].
  apply negb_false_iff, points_fk in Heqb0.
  destruct (find_row _ (W_certificates w)) as [c|] eqn:Hc; intros [= <- <-].
  - apply find_row_Some in Hc as (i & Hi & _). pose proof (in_certificates _ _ _ Hw _ _ Hi) as (Hk & _). rewrite Hk.
    apply (write_certificates w Hw (w_fresh w)); [done|apply dom_le_insert|..].
    + by eapply table_ok_set; [done|apply Hw|..].
    + by eapply distinct_set; [apply Hw|..].
  - rewrite find_row_None in Hc. apply write_certificates; [done|lia|apply dom_le_insert|..].
    + eapply table_ok_insert; [|apply Hw|done|simpl; lia|done]. lia.
    + apply distinct_insert; [apply Hw|]. intros i y k Hy Hk [= <-]. exfalso.
      specialize (Hc _ _ Hy). simpl in Hc. by rewrite (proj2 (opt_is_true _ _)) in Hc.
Qed.

Lemma lawful_revoke id reason : lawful (revoke_stmt id reason).
Proof.
  intros w x w' Hw. unfold revoke_stmt. case_cond; [|done]. intros [= <- <-].
  apply (write_certificates w Hw (w_fresh w)); [done|apply dom_le_update|..].
  - by eapply table_ok_update; [done|apply Hw|].
  - by apply distinct_update; [apply Hw|].
Qed.

#[export] Hint Resolve lawful_upsert_account lawful_insert_account lawful_authenticating
  lawful_upsert_certificate lawful_revoke : lawful.

(** ** Artifacts *)

Lemma lawful_insert_artifact mk :
  (forall id now, ar_id (mk id now) = id) -> lawful (insert_artifact mk).
Proof.
  intros Hid w x w' Hw. unfold insert_artifact. cbn zeta. case_cond; [done|]. case_cond; [done|].
  intros [= <- <-]. rewrite Hid. apply write_artifacts; [done|lia|..].
  - apply persists_new; [apply _|]. eapply table_ok_fresh; [apply Hw|]. lia.
  - eapply table_ok_insert; [|apply Hw|apply Hid|lia|done]. lia.
  - apply distinct_insert; [apply Hw|]. intros i y k Hy [= <-] [= Hk]. exfalso.
    pose proof (exists_row_false _ _ _ _ Heqb0 Hy) as Hno. simpl in Hno. bools. congruence.
Qed.

Lemma lawful_upsert_artifact mk upd :
  (forall id now, ar_id (mk id now) = id) ->
  (forall a, ar_id (upd a) = ar_id a /\ ar_sha256 (upd a) = ar_sha256 a) -> lawful (upsert_artifact mk upd).
Proof.
  intros Hid Hu w x w' Hw. unfold upsert_artifact.
  destruct (insert_artifact mk w) as [e|[id w1]] eqn:Hi.
  - destruct e; try done. destruct (artifact_by_sha _ w) as [a|] eqn:Ha; [|done]. intros [= <- <-].
    apply find_row_Some in Ha as (i & Hi' & _). pose proof (in_artifacts _ _ _ Hw _ _ Hi') as (Hk & _). rewrite Hk.
    destruct (Hu a) as [Hui Hus]. apply (write_artifacts w Hw (w_fresh w)); [done|..].
    + by eapply persists_set; [apply _|..].
    + by eapply table_ok_set; [done|apply Hw|..].
    + eapply distinct_set; [apply Hw|done|]. unfold content. congruence.
  - intros [= <- <-]. by eapply lawful_insert_artifact.
Qed.

Lemma lawful_state id state : lawful (state_stmt id state).
Proof.
  intros w x w' Hw. unfold state_stmt. intros [= <- <-]. apply (write_artifacts w Hw (w_fresh w)); [done|..].
  - by apply persists_update; [apply _|].
  - by eapply table_ok_update; [done|apply Hw|].
  - by apply distinct_update; [apply Hw|].
Qed.

Lemma lawful_insert_signed mk : (forall id, sa_id (mk id) = id) -> lawful (insert_signed mk).
Proof.
  intros Hid w x w' Hw. unfold insert_signed. cbn zeta. case_cond; [done|]. case_cond; [done|].
  intros [= <- <-]. rewrite Hid. apply negb_false_iff in Heqb0. bools. destruct_and?.
  apply write_signed; [done|lia|apply dom_le_insert|].
  eapply table_ok_insert; [|apply Hw|apply Hid|lia|]; [lia|]. split_and!; by apply points_fk.
Qed.

Lemma lawful_blobs f : lawful (writes (set_blobs f)).
Proof. intros w x w' Hw [= <- <-]. by apply step_aside. Qed.

Lemma lawful_state_of_signed agent action opts : lawful (writes (fun w => set_db (on_audit (fun l =>
  new_event agent action opts (w_now w) :: l)) w)).
Proof. intros w x w' Hw [= <- <-]. apply step_audit; [done|]. intros l. by apply suffix_cons_r. Qed.

#[export] Hint Resolve lawful_state lawful_blobs lawful_state_of_signed : lawful.

(** ** Listings and subscriptions *)

Lemma step_others w f :
  integral w -> (forall d, on_subscriptions (fun _ => ∅) (on_listings (fun _ => ∅) (f d))
                   = on_subscriptions (fun _ => ∅) (on_listings (fun _ => ∅) d)) ->
  step_ok w (set_db f w).
Proof.
  intros Hw Hf. specialize (Hf (w_db w)). unfold on_subscriptions, on_listings in Hf. simpl in Hf.
  injection Hf as H1 H2 H3 H4 H5 H6 H7 H8 H9 H10 H11 H12 H13. split.
  - unfold integral, intact in *. simpl. apply (intact_grows (w_db w)).
    + split; rewrite ?H1, ?H2, ?H3, ?H4, ?H5, ?H6, ?H7, ?H8, ?H9; apply dom_le_refl.
    + destruct Hw. split; rewrite ?H1, ?H2, ?H3, ?H4, ?H5, ?H6, ?H7, ?H8, ?H9, ?H10, ?H11, ?H12; done.
  - split; simpl; rewrite ?H3, ?H7, ?H11, ?H12, ?H13; first [done|apply persists_refl, _|apply lives_same; [exact H1|done]].
Qed.

Lemma lawful_upsert_listing a : lawful (upsert_listing a).
Proof.
  intros w x w' Hw. unfold upsert_listing. cbn zeta. case_cond; [|done]. intros [= <- <-]. by apply step_others.
Qed.
Lemma lawful_seen_version bundle version : lawful (seen_version bundle version).
Proof. intros w x w' Hw. unfold seen_version. case_cond; [|done]. intros [= <- <-]. by apply step_others. Qed.
Lemma lawful_upsert_subscription bundle name seen : lawful (upsert_subscription bundle name seen).
Proof.
  intros w x w' Hw. unfold upsert_subscription. case_cond; [|done]. cbn zeta. intros [= <- <-]. by apply step_others.
Qed.
Lemma lawful_unsubscribe bundle : lawful (writes (set_db (on_subscriptions (delete bundle)))).
Proof. intros w x w' Hw [= <- <-]. by apply step_others. Qed.

#[export] Hint Resolve lawful_upsert_listing lawful_seen_version lawful_upsert_subscription lawful_unsubscribe : lawful.

(** ** Deletions *)

Lemma table_ok_delete {A} (key : A -> uuid) (refs refs' : A -> Prop) n p (t : gmap uuid A) :
  table_ok key refs n t -> (forall i r, t !! i = Some r -> p r = false -> refs r -> refs' r) ->
  table_ok key refs' n (delete_where p t).
Proof.
  intros Ht Hr i r [Hi Hp]%lookup_delete_where_Some. destruct (Ht _ _ Hi) as (? & ? & ?). split_and!; eauto.
Qed.

Lemma distinct_delete {A K} (col : A -> option K) p (t : gmap uuid A) :
  distinct col t -> distinct col (delete_where p t).
Proof. intros Ht. eapply distinct_sub; [done|]. intros i r [Hi _]%lookup_delete_where_Some. eauto. Qed.

Lemma points_delete {A} (r : option uuid) p (t : gmap uuid A) :
  points r t -> (forall i x, r = Some i -> t !! i = Some x -> p x = false) -> points r (delete_where p t).
Proof.
  intros Hr Hp i Hi. destruct (Hr _ Hi) as [x Hx]. exists x. apply lookup_delete_where_Some. eauto.
Qed.

(** The tables a deletion does not touch. *)
Ltac delete_rest := first [assumption|reflexivity|apply persists_refl, _|by apply lives_same].

Lemma points_cleared (gone : job -> bool) m r :
  points r m -> points (clear_ref gone m r) (delete_where gone m).
Proof.
  intros Hr k. unfold clear_ref. destruct r as [i|]; [|done]. destruct (Hr i eq_refl) as [j Hj]. rewrite Hj.
  case_cond; [done|]. intros [= <-]. exists j. by apply lookup_delete_where_Some.
Qed.

Lemma points_fmap {A B} r (f : A -> B) (t : gmap uuid A) : points r t -> points r (f <$> t).
Proof. intros Hr i Hi. destruct (Hr i Hi) as [x Hx]. rewrite lookup_fmap, Hx. by eexists. Qed.

Lemma table_ok_fmap {A} (key : A -> uuid) (refs refs' : A -> Prop) n f (t : gmap uuid A) :
  table_ok key refs n t -> (forall r, refs r -> key (f r) = key r /\ refs' (f r)) -> table_ok key refs' n (f <$> t).
Proof.
  intros Ht Hf i r. rewrite lookup_fmap. intros (r0 & Hr & ->)%fmap_Some.
  destruct (Ht _ _ Hr) as (? & ? & Hx). destruct (Hf _ Hx). split_and!; [congruence|done|done].
Qed.

Lemma lawful_delete_jobs gone : (forall j, gone j = true -> removable j) -> lawful (delete_jobs gone).
Proof.
  intros Hg w [] w' Hw Hd. pose proof (lives_delete _ _ _ Hg Hd) as Hl. revert Hl Hd.
  unfold delete_jobs. case_cond; [done|]. intros Hl [= <-].
  split; [|split; simpl; delete_rest]. unfold integral, intact in *. destruct Hw. split; simpl; try delete_rest.
  - eapply table_ok_fmap; [eapply (table_ok_delete _ _ (job_refs (w_db w))); [exact in_jobs|done]|].
    intros j (? & ? & ? & ? & ?). split; [done|]. split_and!; simpl; [done..| |by apply wf_job_parent].
    by apply points_fmap, points_cleared.
  - eapply table_ok_weaken; [reflexivity|exact in_signed|]. intros i sa Hsa (? & ? & ? & ? & Hj). split_and!; simpl; try done.
    apply points_fmap, points_delete; [done|]. intros k j Hk Hjk.
    pose proof (exists_row_false _ _ _ _ Heqb Hsa) as Hno. simpl in Hno. by rewrite Hk, Hjk in Hno.
  - eapply table_ok_fmap; [exact in_installations|]. intros r (? & ? & ?). split; [done|].
    split_and!; simpl; [done..|]. by apply points_fmap, points_cleared.
  - eapply distinct_sub; [apply distinct_delete, un_jobs|]. intros i j. rewrite lookup_fmap.
    intros (j0 & Hj & ->)%fmap_Some. by exists j0.
  - eapply distinct_sub; [exact un_installations|]. intros i j. rewrite lookup_fmap.
    intros (j0 & Hj & ->)%fmap_Some. by exists j0.
Qed.

Lemma lawful_delete_dead key : lawful (delete_jobs (dead_under key)).
Proof. apply lawful_delete_jobs. unfold dead_under. intros j Hj. bools. left. apply Hj. Qed.
Lemma lawful_delete_exports label : lawful (delete_jobs (fun j => j_idempotency_key j =s export_key label)).
Proof. apply lawful_delete_jobs. intros j Hj. bools. right. by rewrite Hj. Qed.

Lemma lawful_delete_signed p : lawful (delete_signed p).
Proof.
  intros w x w' Hw. unfold delete_signed. cbn zeta. intros [= <- <-].
  split; [|split; simpl; delete_rest]. unfold integral, intact in *. destruct Hw. split; simpl; try delete_rest.
  - by eapply table_ok_delete; [exact in_signed|].
  - eapply table_ok_fmap; [exact in_installations|]. intros r (? & Hs & ?).
    destruct (ir_signed_artifact_id r) as [k|] eqn:Ek; simpl; [|split; [done|]; split_and!; [done|rewrite Ek; by intros i|done]].
    destruct (Hs k eq_refl) as [sa Hsa]. rewrite Hsa. case_cond; (split; [done|]; split_and!; simpl; [done| |done]).
    + by intros i.
    + rewrite Ek. intros i [= <-]. exists sa. by apply lookup_delete_where_Some.
  - by apply distinct_update; [exact un_installations|].
Qed.

Lemma points_delete_one {A} (r : option uuid) id (t : gmap uuid A) :
  points r t -> r <> Some id -> points r (delete id t).
Proof. intros Hr Hne i Hi. destruct (Hr _ Hi) as [x Hx]. exists x. rewrite lookup_delete_ne; congruence. Qed.

Lemma table_ok_delete_one {A} (key : A -> uuid) (refs : A -> Prop) n id (t : gmap uuid A) :
  table_ok key refs n t -> table_ok key refs n (delete id t).
Proof. intros Ht i r [_ Hi]%lookup_delete_Some. by apply Ht. Qed.

Lemma distinct_delete_one {A K} (col : A -> option K) id (t : gmap uuid A) : distinct col t -> distinct col (delete id t).
Proof. intros Ht. eapply distinct_sub; [done|]. intros i r [_ Hi]%lookup_delete_Some. eauto. Qed.

Lemma lawful_delete_account id : lawful (delete_account id).
Proof.
  intros w x w' Hw. unfold delete_account. cbn zeta. case_cond; [done|]. intros [= <- <-].
  split; [|split; simpl; delete_rest]. unfold integral, intact in *. destruct Hw. split; simpl; try delete_rest.
  - by apply table_ok_delete_one.
  - eapply table_ok_delete; [exact in_certificates|]. intros i c _ Hc Hp. bools.
    apply points_delete_one; [done|]. congruence.
  - eapply table_ok_weaken; [reflexivity|exact in_signed|]. intros i sa Hsa (? & ? & Ha & Hc & ?).
    pose proof (exists_row_false _ _ _ _ Heqb Hsa) as Hno. simpl in Hno. bools. destruct Hno as [Hna Hnc].
    split_and!; simpl; try done.
    + apply points_delete_one; [done|]. congruence.
    + apply points_delete; [done|]. intros k c Hk Hck. by rewrite Hk, Hck in Hnc.
  - by apply distinct_delete_one.
  - by apply distinct_delete.
Qed.

Lemma lawful_delete_device id : lawful (delete_device id).
Proof.
  intros w x w' Hw. unfold delete_device. destruct (W_devices w !! id); [|intros [= <- <-]; by apply step_same].
  case_cond; [done|]. intros [= <- <-]. unfold device_held in Heqb. apply orb_false_iff in Heqb as [Hj Hs].
  split; [|split; simpl; try delete_rest; by apply persists_update; [apply _|]].
  unfold integral, intact in *. destruct Hw. split; simpl; try delete_rest.
  - eapply table_ok_weaken; [reflexivity|exact in_jobs|]. intros i j Hij (Hd & ? & ? & ? & ?). split_and!; simpl; try done.
    apply points_delete_one; [done|]. pose proof (exists_row_false _ _ _ _ Hj Hij) as Hno. simpl in Hno. by bools.
  - by apply table_ok_delete_one.
  - eapply table_ok_weaken; [reflexivity|exact in_signed|]. intros i sa Hsa (? & Hd & ? & ? & ?). split_and!; simpl; try done.
    apply points_delete_one; [done|]. pose proof (exists_row_false _ _ _ _ Hs Hsa) as Hno. simpl in Hno. bools. congruence.
  - eapply table_ok_delete; [exact in_deployments|]. intros i dep _ Hd [? ?]. split; simpl; [|done].
    apply points_delete_one; [done|]. unfold on_device in Hd. bools. congruence.
  - eapply table_ok_delete; [exact in_installations|]. intros i ir _ Hd (Hp & ? & ?). split_and!; simpl; [|done..].
    apply points_delete; [done|]. intros k dep [= <-] Hk. unfold installed_on in Hd. by rewrite Hk in Hd.
  - eapply table_ok_fmap; [exact in_tokens|]. intros t Ht. case_cond; (split; [done|]); [apply points_none|].
    apply points_delete_one; [done|]. by bools.
  - by apply distinct_delete_one.
  - by apply distinct_delete.
  - by apply distinct_update; [exact un_tokens|].
Qed.

#[export] Hint Resolve lawful_delete_dead lawful_delete_exports lawful_delete_signed lawful_delete_account lawful_delete_device : lawful.
