(* ===== verification/IntegrityPrograms.v ===== *)
(** Every program of the control plane is orderly: whatever it is asked and
    whatever fails, it keeps the database intact and forgets nothing. *)
From S2P Require Import Prelude GoStrings Effects GoTime Schema AuditLog Jobs JobsInvariant JobsCreate Scheduler Http Auth Agents Artifacts Retention Signing Refresh Base64 Net Host Accounts Sources Catalog Updates StoreInstall Discovery Certificates DevicesAdmin Dashboard Integrity IntegrityStatements.

(** ** The queue *)

Section queue.
Context `{UuidText}.

Lemma orderly_existing key : orderly (existing_job key).
Proof using. unfold existing_job. orderly_prog. Qed.
#[local] Hint Resolve orderly_existing : orderly.

Lemma orderly_Create actor req : orderly (Create actor req).
Proof using. unfold Create. orderly_prog. Qed.
Lemma orderly_CreateRefresh actor dev params key mx purpose : orderly (CreateRefresh actor dev params key mx purpose).
Proof using. unfold CreateRefresh. orderly_prog. Qed.
Lemma orderly_Get id : orderly (Get id).
Proof using. unfold Get. orderly_prog. Qed.
#[local] Hint Resolve orderly_Get : orderly.

(** A statement that acts on what was just read. *)
Lemma orderly_selected {E A X} c (g : world -> X) (k : sqlerr + X -> prog world E A) :
  (forall e, orderly (k (inl e))) -> (forall w0 w, follows w0 w -> wp (k (inr (g w))) (fun _ => follows w0) w) ->
  orderly (Stmt c (reads g) k).
Proof using. intros He Hk w0 w Hw. split; [by apply He|by apply Hk]. Qed.
Lemma follows_stmt {E A X} w0 w c (f : world -> sqlerr + X * world) (k : sqlerr + X -> prog world E A) :
  follows w0 w -> (forall x w', f w = inr (x, w') -> step_ok w w') -> (forall o, orderly (k o)) ->
  wp (Stmt c f k) (fun _ => follows w0) w.
Proof using.
  intros Hw Hf Hk. split; [by apply Hk|]. destruct (f w) as [er|[x w']] eqn:E0; [by apply Hk|].
  apply Hk. eapply follows_step; [exact Hw|by eapply Hf].
Qed.
Lemma step_claim_selected s agent p le w j x w' :
  integral w -> first_by le (select p (rows (W_jobs w))) = Some j -> (p j = true -> j_state j = StatePending) ->
  claim_selected s agent j w = inr (x, w') -> step_ok w w'.
Proof using.
  intros Hw [Hj Hp]%select_job_spec Hs; [|by apply integral_jobs].
  apply step_claim; [done|]. intros j' Hj' _. rewrite Hj in Hj'. injection Hj' as <-. auto.
Qed.
Lemma orderly_claim_deviceless s agent g devs types : orderly (claim_deviceless s agent g devs types).
Proof using.
  unfold claim_deviceless. case_cond; [|apply orderly_ret]. apply orderly_selected; [intros; orderly_prog|].
  intros w0 w Hw. simpl. destruct (deviceless_job types w) as [j|] eqn:Ej; [|done].
  apply (follows_stmt w0 w); [done| |intros; orderly_prog]. intros x w'.
  eapply step_claim_selected; [apply Hw|exact Ej|]. intros Hp. bools. rewrite is_pending_true in Hp. naive_solver.
Qed.
Lemma orderly_claim_device s agent types limit claimed d : orderly (claim_device s agent types limit claimed d).
Proof using.
  unfold claim_device. case_cond; [apply orderly_ret|]. apply orderly_selected; [intros; orderly_prog|].
  intros w0 w Hw. simpl. destruct (device_job _ _ w) as [j|] eqn:Ej; [|done].
  apply (follows_stmt w0 w); [done| |intros o; apply orderly_bind; [|intros ?]; orderly_prog]. intros x w'.
  eapply step_claim_selected; [apply Hw|exact Ej|]. intros Hp. bools. rewrite is_pending_true in Hp. naive_solver.
Qed.
#[local] Hint Resolve orderly_claim_deviceless orderly_claim_device : orderly.

Lemma orderly_claim_pending s agent id : orderly (claim_pending s agent id).
Proof using. unfold claim_pending. orderly_prog. Qed.
#[local] Hint Resolve orderly_claim_pending : orderly.
Lemma orderly_ClaimSpecific s agent id : orderly (ClaimSpecific s agent id).
Proof using.
  unfold ClaimSpecific. apply orderly_selected; [intros; orderly_prog|].
  intros w0 w Hw. cbn beta iota. unfold job_by_id. destruct (W_jobs w !! id) as [j|] eqn:Hj; [|done].
  case_cond; [by apply orderly_Get|]. case_cond; [case_cond; [by apply orderly_Get|done]|].
  case_cond; [|case_cond; [by apply orderly_claim_pending|done]].
  apply (follows_stmt w0 w); [done| |intros; orderly_prog]. intros x w' [= _ <-]. unfold update_job. rewrite Hj.
  bools. destruct Hw as [Hw _]. apply (step_release w id j); [done|done|by apply requeue_row_step| |by right].
  apply requeue_row_wf, (in_jobs _ _ _ Hw _ _ Hj).
Qed.

Lemma orderly_Claim s agent devs types limit : orderly (Claim s agent devs types limit).
Proof using. unfold Claim, claim_body, is_global_agent, claim_devices. orderly_prog. Qed.

Lemma orderly_outcome s j req : orderly (applyRefreshOutcome s j req).
Proof using.
  unfold applyRefreshOutcome, refresh_completed. orderly_prog; [by apply lawful_deployment|].
  by apply lawful_deployment_if.
Qed.
#[local] Hint Resolve orderly_outcome : orderly.

Lemma orderly_Update s agent id req : orderly (Update s agent id req).
Proof using.
  unfold Update. apply orderly_bind; [apply orderly_txn|intros [? ?]; orderly_prog].
  unfold update_body. apply orderly_selected; [intros; orderly_prog|].
  intros w0 w Hw. cbn beta iota. cbn [mbind prog_bind]. unfold job_by_id.
  destruct (W_jobs w !! id) as [j|] eqn:Hj; [|done].
  repeat (case_cond; [done|]). bools. apply (follows_stmt w0 w); [done| |intros o; apply orderly_bind; [|intros ?]; orderly_prog].
  intros j' w'. by eapply step_update_stmt; [apply Hw|..].
Qed.

Lemma orderly_Reap s : orderly (Reap s).
Proof using.
  intros w0. apply (keeps_reaping true).
  - intros w [Hw _]. by apply integral_jobs.
  - intros w j j' Hw Hj Hs Hwf Hc. eapply follows_step; [exact Hw|]. destruct Hw.
    apply (step_release w _ j); auto.
  - intros w e Hw. eapply follows_step; [exact Hw|]. destruct Hw. apply step_aside; [done..|]. simpl. by apply suffix_cons_r.
  - intros s' w Hw. eapply follows_step; [exact Hw|]. destruct Hw. by eapply (lawful_offline s').
  - apply follows_rollback.
Qed.
End queue.

#[export] Hint Resolve orderly_Create orderly_CreateRefresh orderly_Get orderly_ClaimSpecific orderly_Claim
  orderly_Update orderly_Reap : orderly.

(** ** The scheduler and the retention *)

Section scheduler.
Context `{UuidText}.

Lemma orderly_tick lead : orderly (Run lead).
Proof using.
  unfold Run, tick, dueDeployments, markUnrefreshable, expiryGuard, guard_one, createRefreshJob, recreate_cycle,
    enqueue, releaseDeadCycle, flagAttention, deadCycleTerminal. cbn [enqueue_refresh jobs_refresh_queue].
  orderly_prog.
  - apply lawful_deployment. intros w d. by case_cond.
  - by apply lawful_deployment_if.
Qed.

Lemma orderly_prune retention : orderly (PruneSignedArtifacts retention).
Proof using. unfold PruneSignedArtifacts, prune_one, Exists, Remove. orderly_prog. Qed.
End scheduler.
#[export] Hint Resolve orderly_tick orderly_prune : orderly.

(** ** Handlers *)

Section handlers.
Context `{UuidText} `{SecretOps} `{ArchiveOps}.

Lemma orderly_Secret {E} (e : E) : orderly (GenerateSecret e).
Proof using. unfold GenerateSecret. orderly_prog. Qed.
Lemma orderly_Hash {E} secret (e : E) : orderly (HashSecret secret e).
Proof using. unfold HashSecret. orderly_prog. Qed.
#[local] Hint Resolve orderly_Secret orderly_Hash : orderly.

(** *** Credentials *)

Lemma orderly_checkDeviceToken secret scope : orderly (checkDeviceToken secret scope).
Proof using. unfold checkDeviceToken. orderly_prog. Qed.
Lemma orderly_agent_of r : orderly (agent_of r).
Proof using. unfold agent_of. orderly_prog. Qed.
Lemma orderly_mint name scopes dev expires e : orderly (mintDeviceTokenRow name scopes dev expires e).
Proof using.
  unfold mintDeviceTokenRow. orderly_prog. intros w t w' Hw. case_cond; [done|]. case_cond; [done|].
  case_cond; [done|]. cbn zeta. intros [= <- <-]. apply step_new_token; [done|done|by apply negb_false_iff|done].
Qed.
#[local] Hint Resolve orderly_checkDeviceToken orderly_agent_of orderly_mint : orderly.
Lemma orderly_createDeviceToken body : orderly (handleCreateDeviceToken body).
Proof using. unfold handleCreateDeviceToken. orderly_prog. Qed.
Lemma orderly_listDeviceTokens : orderly handleListDeviceTokens.
Proof using. unfold handleListDeviceTokens. orderly_prog. Qed.
Lemma orderly_revokeDeviceToken id : orderly (handleRevokeDeviceToken id).
Proof using. unfold handleRevokeDeviceToken. orderly_prog. Qed.

(** *** Agents *)

Lemma orderly_createEnrolment body : orderly (handleCreateEnrolmentToken body).
Proof using. unfold handleCreateEnrolmentToken. orderly_prog. Qed.
Lemma orderly_enrol token body : orderly (handleEnrolAgent token body).
Proof using. unfold handleEnrolAgent, enrol_body, find_token. orderly_prog; by apply lawful_insert_agent. Qed.
Lemma orderly_agentRole id : orderly (agentRole id).
Proof using. unfold agentRole. orderly_prog. Qed.
#[local] Hint Resolve orderly_agentRole : orderly.
Lemma orderly_heartbeat id body : orderly (handleHeartbeat id body).
Proof using. unfold handleHeartbeat. orderly_prog. Qed.
Lemma orderly_reportDevices id body : orderly (handleReportDevices id body).
Proof using. unfold handleReportDevices, report_one. orderly_prog. Qed.
Lemma orderly_createJob body : orderly (handleCreateJob body).
Proof using. unfold handleCreateJob. orderly_prog. Qed.
Lemma orderly_claimJobs s id body : orderly (handleClaimJobs s id body).
Proof using. unfold handleClaimJobs. orderly_prog. Qed.
Lemma orderly_updateJob s id path body : orderly (handleUpdateJob s id path body).
Proof using. unfold handleUpdateJob. orderly_prog. Qed.
Lemma orderly_localID e : orderly (localDeviceServiceID e).
Proof using. unfold localDeviceServiceID. orderly_prog. Qed.
Lemma orderly_deviceMe id : orderly (handleDeviceMe id).
Proof using. unfold handleDeviceMe. orderly_prog. Qed.
Lemma orderly_deviceHealth : orderly handleDeviceHealth.
Proof using. unfold handleDeviceHealth. orderly_prog. Qed.

(** *** Artifacts *)

Lemma orderly_Publish {E} sha (e : E) : orderly (Publish sha e).
Proof using. unfold Publish, Exists. orderly_prog. Qed.
Lemma orderly_SaveToTemp {E} bytes (e : E) : orderly (SaveToTemp bytes e).
Proof using. unfold SaveToTemp. orderly_prog. Qed.
Lemma orderly_Remove {E} sha : orderly (@Remove E sha).
Proof using. unfold Remove. orderly_prog. Qed.
Lemma orderly_Exists {E} sha : orderly (@Exists E sha).
Proof using. unfold Exists. orderly_prog. Qed.
#[local] Hint Resolve orderly_Publish orderly_SaveToTemp orderly_Remove orderly_Exists : orderly.
Lemma orderly_Save {E} bytes (e : E) : orderly (Save bytes e).
Proof using. unfold Save. orderly_prog. Qed.
#[local] Hint Resolve orderly_Save : orderly.
Lemma orderly_uploadArtifact s name bytes : orderly (handleUploadArtifact s name bytes).
Proof using. unfold handleUploadArtifact, upload_body. orderly_prog; by apply lawful_insert_artifact. Qed.
Lemma orderly_setState path body : orderly (handleSetArtifactState path body).
Proof using. unfold handleSetArtifactState. orderly_prog. Qed.
Lemma orderly_serve actor action id f : orderly (serve actor action id f).
Proof using. unfold serve. orderly_prog. Qed.
#[local] Hint Resolve orderly_serve : orderly.
Lemma orderly_download path : orderly (handleDownloadArtifact path).
Proof using. unfold handleDownloadArtifact. orderly_prog. Qed.
Lemma orderly_storeInstallFile path : orderly (handleStoreArtifactInstall path).
Proof using. unfold handleStoreArtifactInstall. orderly_prog. Qed.

(** *** Signing *)

Lemma orderly_createSignJob body : orderly (handleCreateSignJob body).
Proof using. unfold handleCreateSignJob, create_sign_job. orderly_prog. Qed.
Lemma orderly_mayAccess agent id : orderly (agentMayAccessArtifact agent id).
Proof using. unfold agentMayAccessArtifact, bound_by. orderly_prog. Qed.
#[local] Hint Resolve orderly_mayAccess : orderly.
Lemma orderly_agentDownload agent path : orderly (handleAgentDownloadArtifact agent path).
Proof using. unfold handleAgentDownloadArtifact, serve_agent. orderly_prog. Qed.
Lemma orderly_or_drop {X} (f : world -> sqlerr + X * world) created sha message :
  lawful f -> orderly (or_drop f created sha message).
Proof using. intros Hf. unfold or_drop, drop_and_fail. orderly_prog. Qed.
Lemma orderly_signed_body agent req t m sha created : orderly (signed_body agent req t m sha created).
Proof using.
  unfold signed_body, certificate_of, enqueue_install, insert_install.
  repeat first [apply orderly_or_drop | orderly_step; cbn beta zeta]; by apply lawful_insert_signed.
Qed.
#[local] Hint Resolve orderly_signed_body : orderly.
Lemma orderly_lift {A} (p : prog world response A) : orderly p -> orderly (lift_answered p).
Proof using. intros Hp. unfold lift_answered. orderly_prog. Qed.
Lemma orderly_drop_and_fail {A} created sha message : orderly (@drop_and_fail A created sha message).
Proof using. unfold drop_and_fail. orderly_prog. Qed.
#[local] Hint Resolve orderly_drop_and_fail : orderly.
Lemma orderly_uploadSigned agent body : orderly (handleUploadSignedArtifact agent body).
Proof using.
  unfold handleUploadSignedArtifact, validateSignUploadBinding, check_and_store, store_signed.
  repeat first [apply orderly_lift | orderly_step; cbn beta zeta].
Qed.
End handlers.

#[export] Hint Resolve orderly_mint orderly_Publish orderly_SaveToTemp orderly_checkDeviceToken orderly_agent_of
  orderly_createDeviceToken orderly_listDeviceTokens orderly_revokeDeviceToken orderly_createEnrolment
  orderly_enrol orderly_heartbeat orderly_reportDevices orderly_createJob orderly_claimJobs orderly_updateJob
  orderly_localID orderly_deviceMe orderly_deviceHealth orderly_uploadArtifact orderly_setState orderly_download
  orderly_storeInstallFile orderly_createSignJob orderly_agentDownload orderly_uploadSigned : orderly.

(** * The endpoints for operators and companions *)

(** ** Refreshes *)

Section refresh.
Context `{UuidText}.

Lemma orderly_context id : orderly (loadRefreshContext id).
Proof using.
  unfold loadRefreshContext, update_for, account_for, resolveUpdateArtifact. orderly_prog.
Qed.
#[local] Hint Resolve orderly_context : orderly.
Lemma orderly_refreshSign path body : orderly (handleDeviceRefreshSign path body).
Proof using. unfold handleDeviceRefreshSign, refresh_sign. orderly_prog. Qed.
Lemma orderly_ensureInstall s agent path : orderly (handleDeviceEnsureInstall s agent path).
Proof using. unfold handleDeviceEnsureInstall, ensure_install, hand_out_install. orderly_prog. Qed.
Lemma orderly_getJob path : orderly (handleDeviceGetJob path).
Proof using. unfold handleDeviceGetJob. orderly_prog. Qed.
End refresh.

(** ** Accounts *)

Section accounts.
Context `{UuidText} `{SecretOps} `{ArchiveOps}.

Lemma lawful_auto : lawful auto_account.
Proof using. intros w x w' Hw. unfold auto_account. cbn zeta. case_cond; [done|]. intros [= <- <-]. by apply step_same. Qed.
#[local] Hint Resolve lawful_auto : lawful.
Lemma orderly_pick requested : orderly (pick_account requested).
Proof using. unfold pick_account. orderly_prog. Qed.
Lemma orderly_queue_job ty dev params mx message : orderly (queue_job ty dev params mx message).
Proof using. unfold queue_job. orderly_prog. Qed.
Lemma orderly_target id : orderly (target_device id).
Proof using. unfold target_device. orderly_prog. Qed.
#[local] Hint Resolve orderly_pick : orderly.

#[local] Hint Resolve orderly_queue_job orderly_target : orderly.

Lemma orderly_manageAppIDs body : orderly (handleManageAppIDs body).
Proof using. unfold handleManageAppIDs. orderly_prog. Qed.
Lemma orderly_deploy o body : orderly (handleAdminDeploy o body).
Proof using. unfold handleAdminDeploy, deploy_enqueue. orderly_prog. Qed.
Lemma orderly_manualRefresh body : orderly (handleManualRefresh body).
Proof using. unfold handleManualRefresh, manual_refresh. orderly_prog. Qed.
Lemma orderly_installLiveContainer o release body : orderly (handleInstallLiveContainer o release body).
Proof using.
  unfold handleInstallLiveContainer, download_livecontainer. orderly_prog; by apply lawful_upsert_artifact.
Qed.
Lemma orderly_push body : orderly (handleLiveContainerPush body).
Proof using. unfold handleLiveContainerPush. orderly_prog. Qed.
Lemma orderly_installedApps body : orderly (handleInstalledApps body).
Proof using. unfold handleInstalledApps. orderly_prog. Qed.

(** *** On the host *)

Lemma orderly_read path : orderly_on h_world (@ReadJSON host response (lens_id host) path).
Proof using. exact (orderly_ReadJSON (H := lens_id host) path). Qed.
Lemma orderly_write path j : orderly_on h_world (@WriteJSON host response (lens_id host) path j).
Proof using. exact (orderly_WriteJSON (H := lens_id host) path j). Qed.
Lemma orderly_write_text path text : orderly_on h_world (@WriteText host response (lens_id host) path text).
Proof using. exact (orderly_WriteText (H := lens_id host) path text). Qed.
Lemma orderly_from_world {A} (p : prog world response A) : orderly p -> orderly_on h_world (zoom (H := world_of_host) p).
Proof using. exact (orderly_zoom (H := world_of_host) (fun w => w) p). Qed.
#[local] Hint Resolve orderly_read orderly_write orderly_write_text : orderly.
Lemma orderly_write_code code : orderly_on h_world (write_code code).
Proof using. unfold write_code. orderly_prog. Qed.
#[local] Hint Resolve orderly_write_code : orderly.
Ltac host_prog := repeat first [apply orderly_from_world | orderly_step; cbn beta zeta].

Lemma orderly_submit2FA body : orderly_on h_world (handleSubmit2FACode body).
Proof using. unfold handleSubmit2FACode. host_prog. Qed.
Lemma orderly_credentials body : orderly_on h_world (handleUpdateAppleCredentials body).
Proof using. unfold handleUpdateAppleCredentials, store_password, upsert_by_label. host_prog. Qed.
Lemma orderly_deleteAccount path : orderly_on h_world (handleDeleteAppleAccount path).
Proof using. unfold handleDeleteAppleAccount, forget_password. host_prog. Qed.
End accounts.
#[export] Hint Resolve orderly_queue_job orderly_target : orderly.

(** ** The store *)

Section store.
Context `{UuidText} `{SecretOps} `{ArchiveOps} `{Sha1Ops} `{SortSlice}.

Lemma orderly_store_read {E} path : orderly_on tables (@ReadJSON store_state E host_of_store path).
Proof using. exact (orderly_ReadJSON (H := host_of_store) path). Qed.
Lemma orderly_store_write {E} path j : orderly_on tables (@WriteJSON store_state E host_of_store path j).
Proof using. exact (orderly_WriteJSON (H := host_of_store) path j). Qed.
#[local] Hint Resolve orderly_store_read orderly_store_write : orderly.

Lemma orderly_loadSources {E} : orderly_on tables (@loadStoreSources E).
Proof using. unfold loadStoreSources. orderly_prog. Qed.
Lemma orderly_saveSources {E} l : orderly_on tables (@saveCustomSources E l).
Proof using. unfold saveCustomSources. orderly_prog. Qed.
Lemma orderly_loadRemoved {E} : orderly_on tables (@loadDiscoveredRemoved E).
Proof using. unfold loadDiscoveredRemoved. orderly_prog. Qed.
Lemma orderly_saveRemoved {E} l : orderly_on tables (@saveDiscoveredRemoved E l).
Proof using. unfold saveDiscoveredRemoved. orderly_prog. Qed.
Lemma orderly_loadCustom {E} : orderly_on tables (@loadCustomSourcesFile E).
Proof using. unfold loadCustomSourcesFile, first_decodable. orderly_prog. Qed.
Lemma orderly_first_nonempty {E} l paths : orderly_on tables (@first_nonempty E l paths).
Proof using. revert l. induction paths; intros l; cbn [first_nonempty]; orderly_prog; auto. Qed.
#[local] Hint Resolve orderly_loadSources orderly_saveSources orderly_loadRemoved orderly_saveRemoved
  orderly_loadCustom orderly_first_nonempty : orderly.

Lemma orderly_sync answer : orderly_on tables (SyncDiscoveredSources answer).
Proof using. unfold SyncDiscoveredSources. orderly_prog. Qed.
Lemma orderly_listSources : orderly_on tables handleListStoreSources.
Proof using. unfold handleListStoreSources. orderly_prog. Qed.
Lemma orderly_addSource body : orderly_on tables (handleAddStoreSource body).
Proof using. unfold handleAddStoreSource. orderly_prog. Qed.
Lemma orderly_deleteSource path : orderly_on tables (handleDeleteStoreSource path).
Proof using. unfold handleDeleteStoreSource, bury. orderly_prog. Qed.

Lemma orderly_snapshot {E} apps : orderly (@snapshotListings E apps).
Proof using. unfold snapshotListings. orderly_prog. Qed.
#[local] Hint Resolve orderly_snapshot : orderly.
Lemma orderly_apps {E} up : orderly_on tables (@getStoreApps _ E up).
Proof using. unfold getStoreApps. orderly_prog. Qed.
#[local] Hint Resolve orderly_apps : orderly.
Lemma orderly_watch {E} up : orderly_on tables (@SnapshotSources _ E up).
Proof using. unfold SnapshotSources. orderly_prog. Qed.
Lemma orderly_listApps up : orderly_on tables (handleListStoreApps up).
Proof using. unfold handleListStoreApps. orderly_prog. Qed.
Lemma orderly_sourceJSON o up : orderly_on tables (handleStoreSourceJSON o up).
Proof using. unfold handleStoreSourceJSON, source_apps. orderly_prog. Qed.
Lemma orderly_listUpdates : orderly_on tables handleListUpdates.
Proof using.
  unfold handleListUpdates, list_updates, add_subscription_update, subscribed_listing. orderly_prog.
Qed.

Lemma orderly_listSubscriptions : orderly handleListSubscriptions.
Proof using. unfold handleListSubscriptions. orderly_prog. Qed.
Lemma orderly_addSubscription body : orderly (handleAddSubscription body).
Proof using. unfold handleAddSubscription. orderly_prog. Qed.
Lemma orderly_deleteSubscription path : orderly (handleDeleteSubscription path).
Proof using. unfold handleDeleteSubscription. orderly_prog. Qed.

Lemma lawful_store_auto : lawful store_auto_account.
Proof using. intros w x w' Hw. unfold store_auto_account. cbn zeta. case_cond; [done|]. intros [= <- <-]. by apply step_same. Qed.
#[local] Hint Resolve lawful_store_auto : lawful.
Lemma orderly_import req sha bytes : orderly (import_artifact req sha bytes).
Proof using. unfold import_artifact. orderly_prog; by apply lawful_upsert_artifact. Qed.
Lemma orderly_route o req mode a : orderly (route_install o req mode a).
Proof using. unfold route_install, device_texts, store_account. orderly_prog. Qed.
#[local] Hint Resolve orderly_import orderly_route : orderly.
Lemma orderly_storeInstall s o bad download body : orderly (handleStoreInstall s o bad download body).
Proof using. unfold handleStoreInstall, mark_seen. orderly_prog. Qed.
End store.

(** ** Certificates *)

Section certificates.
Context `{UuidText} `{SecretOps} `{ArchiveOps}.

Lemma orderly_revoke path body : orderly (handleRevokeCertificate path body).
Proof using. unfold handleRevokeCertificate, revoke_body. orderly_prog. Qed.

(** Whoever acts while a handler waits keeps the database as a statement does. *)
Definition honest (env : world -> world) : Prop := forall w, integral w -> step_ok w (env w).

Lemma orderly_create_export label : orderly (create_export label).
Proof using. unfold create_export. orderly_prog. Qed.
Lemma orderly_purge label : orderly (purge_export (export_key label)).
Proof using. unfold purge_export. orderly_prog. Qed.
#[local] Hint Resolve orderly_create_export orderly_purge : orderly.
Lemma orderly_turn label wait retried s :
  (forall r s, orderly (wait r s)) -> orderly (export_turn label wait retried s).
Proof using. intros Hw. unfold export_turn. orderly_prog; auto. Qed.
Lemma orderly_honest {E} env : honest env -> orderly (put_ env : prog world E unit).
Proof using. intros He. apply orderly_act; [done|]. intros x. apply orderly_ret. Qed.
Lemma orderly_snapshot_by id : orderly (exportJobSnapshot_by id).
Proof using. unfold exportJobSnapshot_by. orderly_prog. Qed.
Lemma orderly_poll label polls retried s : Forall honest polls -> orderly (poll_export label polls retried s).
Proof using.
  intros Hp. revert retried s. induction Hp as [|env polls He Hp IH]; intros retried s; cbn [poll_export];
    apply orderly_turn; intros r s'; [apply orderly_throw|].
  pose proof (orderly_snapshot_by (es_ID s')). pose proof (@orderly_honest export_error env He). orderly_prog; auto.
Qed.
Lemma orderly_await polls label : Forall honest polls -> orderly (awaitExportP12 polls label).
Proof using. intros Hp. unfold awaitExportP12. orderly_prog. by apply orderly_poll. Qed.

Lemma orderly_label id : orderly (account_label id).
Proof using. unfold account_label. orderly_prog. Qed.
#[local] Hint Resolve orderly_label : orderly.
Lemma orderly_certificate polls path : Forall honest polls -> orderly (handleAppleCertificateDownload polls path).
Proof using. intros Hp. unfold handleAppleCertificateDownload. orderly_prog. by apply orderly_await. Qed.
Lemma orderly_pushP12 polls body : Forall honest polls -> orderly (handleLiveContainerP12Push polls body).
Proof using. intros Hp. unfold handleLiveContainerP12Push. orderly_prog. by apply orderly_await. Qed.
End certificates.

(** ** Devices, companions, reports *)

Section others.
Context `{UuidText} `{SecretOps}.

Lemma orderly_createDevice body : orderly (handleAdminCreateDevice body).
Proof using. unfold handleAdminCreateDevice. orderly_prog. Qed.
Lemma orderly_deleteDevice path : orderly (handleAdminDeleteDevice path).
Proof using. unfold handleAdminDeleteDevice. orderly_prog. Qed.

Lemma orderly_identity identity : orderly (handleServerIdentity identity).
Proof using. unfold handleServerIdentity, serverIdentityRow. orderly_prog. Qed.
Lemma orderly_enroll identity body : orderly (enroll identity body).
Proof using. unfold enroll, serverIdentityRow. orderly_prog. Qed.
Lemma orderly_limit ip : orderly_on tables (Act (pass_limit ip) Ret : prog gate response bool).
Proof using.
  intros w0. apply keeps_act; [|intros x; apply keeps_ret].
  intros g. unfold pass_limit. by destruct (allow _ _ _).
Qed.
#[local] Hint Resolve orderly_enroll orderly_limit : orderly.
Lemma orderly_enrollDevice identity cidrs addr body : orderly_on tables (handleEnrollDevice identity cidrs addr body).
Proof using.
  unfold handleEnrollDevice. orderly_prog.
Qed.

Lemma orderly_table columns q : orderly (queryTable columns q).
Proof using. unfold queryTable. orderly_prog. Qed.
Lemma orderly_healthz : orderly handleHealthz.
Proof using. unfold handleHealthz. orderly_prog. Qed.
End others.

#[export] Hint Resolve orderly_refreshSign orderly_ensureInstall orderly_getJob orderly_manageAppIDs orderly_deploy
  orderly_manualRefresh orderly_installLiveContainer orderly_push orderly_installedApps orderly_submit2FA
  orderly_credentials orderly_deleteAccount orderly_sync orderly_listSources orderly_addSource
  orderly_deleteSource orderly_watch orderly_listApps orderly_sourceJSON orderly_listUpdates
  orderly_listSubscriptions orderly_addSubscription orderly_deleteSubscription orderly_storeInstall
  orderly_revoke orderly_certificate orderly_pushP12 orderly_createDevice orderly_deleteDevice
  orderly_identity orderly_enrollDevice orderly_table orderly_healthz : orderly.
