(* ===== verification/ListsSpec.v ===== *)
(** The lists of the dashboard lose nothing: with intact references the joins keep
    every row, and the certificates of the accounts add up. *)
From S2P Require Import Prelude GoStrings GoTime Effects Schema AuditLog Jobs Http Dashboard Lists Integrity.

(** ** Joins that lose nothing *)

Lemma omap_total {A B} (f : A -> option B) (l : list A) :
  (forall x, x ∈ l -> is_Some (f x)) -> Forall2 (fun x y => f x = Some y) l (omap f l).
Proof.
  induction l as [|x l IH]; intros Hf; [constructor|]. cbn [omap list_omap].
  destruct (Hf x) as [y Hy]; [apply list_elem_of_here|]. rewrite Hy. constructor; [done|].
  apply IH. intros z Hz. by apply Hf, list_elem_of_further.
Qed.

(** ** Sums over accounts *)

Definition total {A} (f : A -> Z) (l : list A) : Z := foldr (fun a s => f a + s) 0 l.

Lemma total_plus {A} (f g : A -> Z) l : total (fun a => f a + g a) l = total f l + total g l.
Proof. unfold total. induction l as [|a l IH]; simpl; [done|]. rewrite IH. lia. Qed.
Lemma total_zero {A} (f : A -> Z) l : (forall a, a ∈ l -> f a = 0) -> total f l = 0.
Proof.
  induction l as [|a l IH]; intros Hf; [done|]. simpl. rewrite (Hf a) by apply list_elem_of_here.
  apply IH. intros b Hb. by apply Hf, list_elem_of_further.
Qed.
Lemma total_ext {A} (f g : A -> Z) l : (forall a, f a = g a) -> total f l = total g l.
Proof. intros Hf. unfold total. induction l as [|a l IH]; simpl; [done|]. by rewrite IH, Hf. Qed.

(** One of them, once. *)
Lemma total_one {A} (key : A -> uuid) l k :
  NoDup (key <$> l) -> k ∈ key <$> l -> total (fun a => if bool_decide (k = key a) then 1 else 0) l = 1.
Proof.
  induction l as [|a l IH]; intros Hn Hin; [by apply not_elem_of_nil in Hin|].
  rewrite fmap_cons in Hn, Hin. apply NoDup_cons in Hn as [Ha Hn]. cbn [total foldr].
  case_bool_decide as Hk.
  - change (1 + total (fun a => if bool_decide (k = key a) then 1 else 0) l = 1). rewrite total_zero; [done|].
    intros b Hb. rewrite bool_decide_eq_false_2; [done|]. intros Heq. apply Ha. rewrite <- Hk, Heq. by apply list_elem_of_fmap_2.
  - apply IH; [done|]. apply elem_of_cons in Hin as [?|?]; done.
Qed.

Lemma counts_add_up {A C} (key : A -> uuid) (owner : C -> uuid) (live : C -> bool) (l : list A) (m : gmap uuid C) :
  NoDup (key <$> l) -> (forall i c, m !! i = Some c -> owner c ∈ key <$> l) ->
  total (fun a => count_where (fun c => bool_decide (owner c = key a) && live c) m) l = count_where live m.
Proof.
  intros Hn. induction m as [|i c m Hi IH] using map_ind; intros Hm; [by apply total_zero|].
  rewrite count_where_insert, <- IH by done || (intros j d Hj; apply (Hm j); rewrite lookup_insert_ne; congruence).
  rewrite (total_ext _ (fun a => (if bool_decide (owner c = key a) then (if live c then 1 else 0) else 0)
    + count_where (fun c => bool_decide (owner c = key a) && live c) m)).
  2: { intros a. rewrite count_where_insert by done. by case_bool_decide. }
  rewrite total_plus. f_equal. destruct (live c).
  - apply total_one; [done|]. apply (Hm i). apply lookup_insert_eq.
  - apply total_zero. intros a _. by case_bool_decide.
Qed.

Lemma NoDup_keys {A} (key : A -> uuid) (refs : A -> Prop) n (m : gmap uuid A) :
  table_ok key refs n m -> NoDup (key <$> rows m).
Proof.
  intros Hm. unfold rows. rewrite <- list_fmap_compose.
  rewrite (list_fmap_ext _ fst).
  - apply NoDup_fst_map_to_list.
  - intros k [i r] Hk. simpl. apply list_elem_of_lookup_2, elem_of_map_to_list in Hk.
    by destruct (Hm _ _ Hk) as (-> & _).
Qed.

Section spec.
Context `{UuidText} `{Unwritten}.

Lemma signed_joined w sa : integral w -> sa ∈ rows (W_signed w) -> is_Some (signed_cells w sa).
Proof using.
  intros Hw [i Hi]%elem_of_rows. destruct (in_signed _ _ _ Hw _ _ Hi) as (_ & _ & Ha & Hd & Hc & _).
  unfold signed_cells. destruct (Ha _ eq_refl) as [a ->], (Hd _ eq_refl) as [d ->], (Hc _ eq_refl) as [c ->].
  by eexists.
Qed.

Lemma certificate_joined w c : integral w -> c ∈ rows (W_certificates w) -> is_Some (certificate_cells w c).
Proof using.
  intros Hw [i Hi]%elem_of_rows. destruct (in_certificates _ _ _ Hw _ _ Hi) as (_ & _ & Ha).
  unfold certificate_cells. destruct (Ha _ eq_refl) as [a ->]. by eexists.
Qed.

(** C35. The lists lose nothing: on intact tables the dashboard shows a row for
    each of the 200 signed artifacts signed last, the newest first, and for every
    certificate, revoked or not; and the certificates counted for the accounts
    add up to all that are not revoked. *)
Theorem lists_lose_nothing w :
  integral w ->
  exec handleListSignedArtifacts w
    = (inr (writeJSON StatusOK (table_json signed_columns (signed_list w))), w)
  /\ Forall2 (fun sa row => signed_cells w sa = Some row)
       (take 200 (newest_first (fun sa => sa_signed_at (sa_id sa)) (rows (W_signed w)))) (signed_list w)
  /\ exec handleListCertificates w
    = (inr (writeJSON StatusOK (table_json certificate_columns (certificate_list w))), w)
  /\ Forall2 (fun c row => certificate_cells w c = Some row)
       (newest_first (fun c => ce_created_at (ce_id c)) (rows (W_certificates w))) (certificate_list w)
  /\ exec handleListAccounts w
    = (inr (writeJSON StatusOK (table_json account_columns (account_list w))), w)
  /\ total (cert_count w) (rows (W_accounts w)) = count_where (fun c => negb (ce_revoked c)) (W_certificates w).
Proof using.
  intros Hw. split_and!; try done.
  - apply Forall2_take, omap_total. intros sa Hin. apply signed_joined; [done|].
    unfold newest_first in Hin. by rewrite elem_of_sort_by in Hin.
  - apply omap_total. intros c Hin. apply certificate_joined; [done|].
    unfold newest_first in Hin. by rewrite elem_of_sort_by in Hin.
  - apply counts_add_up; [eapply NoDup_keys, (in_accounts _ _ _ Hw)|].
    intros i c Hc. destruct (in_certificates _ _ _ Hw _ _ Hc) as (_ & _ & Ha).
    destruct (Ha _ eq_refl) as [a Hac]. destruct (in_accounts _ _ _ Hw _ _ Hac) as (Hk & _).
    rewrite <- Hk. apply list_elem_of_fmap_2, elem_of_rows. eauto.
Qed.
End spec.
