(* ===== verification/System.v ===== *)
(** The whole control plane: every route of the public listener with the check in
    front of it (internal/api/api.go, Handler and its middlewares), every route
    of the device socket (internal/api/device.go, DeviceHandler), and the five
    loops (cmd/control-plane/main.go), on one state.

    A history is a list of occurrences: a request or a pass of a loop, the time it
    happens and the statements of it that fail. *)
From S2P Require Import Prelude GoStrings GoTime Effects Schema AuditLog Jobs Scheduler Http Auth Agents Artifacts Signing Refresh Host Accounts Sources Catalog Updates StoreInstall Certificates DevicesAdmin Net Discovery ControlPlane DeviceSocket Dashboard Lists.

(** ** State *)

Record system := MkSystem { sy_store : store_state; sy_limit : ipLimiter }.

#[global] Instance store_of_system : Lens store_state system.
Proof.
  refine {| lget := sy_store; lset := fun s t => MkSystem s (sy_limit t) |}; [done|by intros []|done].
Defined.
#[global] Instance host_of_system : Lens host system.
Proof.
  refine {| lget := fun t => ss_host (sy_store t);
            lset := fun h t => MkSystem (lset h (sy_store t)) (sy_limit t) |}; [done|by intros [[]]|done].
Defined.
#[global] Instance world_of_system : Lens world system.
Proof.
  refine {| lget := fun t => h_world (ss_host (sy_store t));
            lset := fun w t => MkSystem (lset w (sy_store t)) (sy_limit t) |}; [done|by intros [[[]]]|done].
Defined.
#[global] Instance gate_of_system : Lens gate system.
Proof.
  refine {| lget := fun t => MkGate (h_world (ss_host (sy_store t))) (sy_limit t);
            lset := fun g t => MkSystem (lset (gt_world g) (sy_store t)) (gt_limit g) |};
    [by intros []|by intros [[[]]]|done].
Defined.

(** ** Endpoints *)

(** The routes with what a handler reads of a request and of the outside. *)
Inductive endpoint :=
| Healthz | Config | ServerIdentity
| EnrollDevice (remote_addr : string) (body : option enrollRequest)
| Index                       (** the dashboard and its files, for every other GET *)
| CreateEnrolmentToken (body : option createEnrolmentTokenRequest)
| UpdateAppleCredentials (body : option updateAppleCredentialsRequest)
| Submit2FACode (body : option string)
| ManageAppIDs (body : option manageAppIDsRequest)
| DeleteAppleAccount (path_id : string)
| CertificateDownload (polls : list (world -> world)) (path_id : string)
| AdminDeploy (o : origin) (body : option adminDeployRequest)
| ManualRefresh (body : option manualRefreshRequest)
| InstallLiveContainer (o : origin) (release : option string) (body : option liveContainerInstallRequest)
| LiveContainerPush (body : option liveContainerPushRequest)
| LiveContainerP12Push (polls : list (world -> world)) (body : option liveContainerP12PushRequest)
| InstalledApps (body : option installedAppsRequest)
| AdminCreateDevice (body : option adminCreateDeviceRequest)
| AdminDeleteDevice (path_id : string)
| ListStoreSources
| AddStoreSource (body : option addSourceRequest)
| DeleteStoreSource (path_id : string)
| ListStoreApps (up : upstream)
| StoreInstall (o : origin) (bad_url : bool) (download : option string) (body : option storeInstallRequest)
| StoreSourceJSON (short : bool) (o : origin) (up : upstream)
| StoreArtifactInstall (path_id : string)
| UploadArtifact (query_filename bytes : string)
| SetArtifactState (path_id : string) (body : option string)
| DownloadArtifact (path_id : string)
| CreateSignJob (body : option createSignJobRequest)
| UploadSignedArtifact (body : multipart)
| AgentDownloadArtifact (path_id : string)
| RevokeCertificate (path_id : string) (body : option (option string))
| EnrolAgent (body : option enrolAgentRequest)
| Heartbeat (body : option (option json))
| ReportDevices (body : option (list reportedDevice))
| CreateJob (body : option CreateRequest)
| ClaimJobs (body : option claimRequest)
| UpdateJob (path_id : string) (body : option UpdateRequest)
| ListAgents | ListDevices | ListJobs | ListApplications | ListArtifacts | ListSignedArtifacts
| ListAccounts | ListCertificates | ListDeployments | ListRefresh | ListUpdates | ListSubscriptions
| AddSubscription (body : option addSubscriptionRequest)
| DeleteSubscription (path_bundle : string)
| ListDeviceTokens
| CreateDeviceToken (body : option createDeviceTokenRequest)
| RevokeDeviceToken (path_id : string).

(** The entry of the table a request of the endpoint is dispatched by. *)
Definition route_of (e : endpoint) : route :=
  match e with
  | Healthz => MkRoute "GET" "/healthz" Open
  | Config => MkRoute "GET" "/api/v1/config" Open
  | ServerIdentity => MkRoute "GET" "/api/v1/server-identity" Open
  | EnrollDevice _ _ => MkRoute "POST" "/api/v1/devices/enroll" Open
  | Index => MkRoute "GET" "/" Open
  | CreateEnrolmentToken _ => MkRoute "POST" "/api/v1/admin/enrolment-tokens" Admin
  | UpdateAppleCredentials _ => MkRoute "POST" "/api/v1/admin/apple-accounts/credentials" Admin
  | Submit2FACode _ => MkRoute "POST" "/api/v1/admin/apple-accounts/2fa-code" (AdminOrToken "control")
  | ManageAppIDs _ => MkRoute "POST" "/api/v1/admin/apple-app-ids" Admin
  | DeleteAppleAccount _ => MkRoute "DELETE" "/api/v1/admin/apple-accounts/{id}" Admin
  | CertificateDownload _ _ => MkRoute "GET" "/api/v1/admin/apple-accounts/{id}/certificate/download" Admin
  | AdminDeploy _ _ => MkRoute "POST" "/api/v1/admin/deploy" Admin
  | ManualRefresh _ => MkRoute "POST" "/api/v1/admin/refresh" (AdminOrToken "control")
  | InstallLiveContainer _ _ _ => MkRoute "POST" "/api/v1/admin/livecontainer/install" (AdminOrToken "control")
  | LiveContainerPush _ => MkRoute "POST" "/api/v1/admin/livecontainer/push" (AdminOrToken "control")
  | LiveContainerP12Push _ _ => MkRoute "POST" "/api/v1/admin/livecontainer/push-p12" (AdminOrToken "control")
  | InstalledApps _ => MkRoute "POST" "/api/v1/admin/livecontainer/installed-apps" (AdminOrToken "control")
  | AdminCreateDevice _ => MkRoute "POST" "/api/v1/admin/devices" Admin
  | AdminDeleteDevice _ => MkRoute "DELETE" "/api/v1/admin/devices/{id}" Admin
  | ListStoreSources => MkRoute "GET" "/api/v1/admin/store/sources" (AdminOrToken "read")
  | AddStoreSource _ => MkRoute "POST" "/api/v1/admin/store/sources" Admin
  | DeleteStoreSource _ => MkRoute "DELETE" "/api/v1/admin/store/sources/{id}" Admin
  | ListStoreApps _ => MkRoute "GET" "/api/v1/admin/store/apps" (AdminOrToken "read")
  | StoreInstall _ _ _ _ => MkRoute "POST" "/api/v1/admin/store/install" (AdminOrToken "control")
  | StoreSourceJSON short _ _ => MkRoute "GET" (if short then "/source.json" else "/api/v1/store/source.json") Open
  | StoreArtifactInstall _ => MkRoute "GET" "/api/v1/store/artifacts/{id}/install.ipa" Open
  | UploadArtifact _ _ => MkRoute "POST" "/api/v1/artifacts" (AdminOrToken "control")
  | SetArtifactState _ _ => MkRoute "PATCH" "/api/v1/artifacts/{id}" (AdminOrToken "control")
  | DownloadArtifact _ => MkRoute "GET" "/api/v1/artifacts/{id}/download" Admin
  | CreateSignJob _ => MkRoute "POST" "/api/v1/sign-jobs" Admin
  | UploadSignedArtifact _ => MkRoute "POST" "/api/v1/signed-artifacts" Agent
  | AgentDownloadArtifact _ => MkRoute "GET" "/api/v1/agents/artifacts/{id}/download" Agent
  | RevokeCertificate _ _ => MkRoute "POST" "/api/v1/certificates/{id}/revoke" Admin
  | EnrolAgent _ => MkRoute "POST" "/api/v1/agents/enrol" Enrolment
  | Heartbeat _ => MkRoute "POST" "/api/v1/agents/me/heartbeat" Agent
  | ReportDevices _ => MkRoute "POST" "/api/v1/agents/me/devices" Agent
  | CreateJob _ => MkRoute "POST" "/api/v1/jobs" Admin
  | ClaimJobs _ => MkRoute "POST" "/api/v1/jobs/claim" Agent
  | UpdateJob _ _ => MkRoute "POST" "/api/v1/jobs/{id}/status" Agent
  | ListAgents => MkRoute "GET" "/api/v1/dashboard/agents" (AdminOrToken "read")
  | ListDevices => MkRoute "GET" "/api/v1/dashboard/devices" (AdminOrToken "read")
  | ListJobs => MkRoute "GET" "/api/v1/dashboard/jobs" (AdminOrToken "read")
  | ListApplications => MkRoute "GET" "/api/v1/dashboard/applications" (AdminOrToken "read")
  | ListArtifacts => MkRoute "GET" "/api/v1/dashboard/artifacts" (AdminOrToken "read")
  | ListSignedArtifacts => MkRoute "GET" "/api/v1/dashboard/signed-artifacts" (AdminOrToken "read")
  | ListAccounts => MkRoute "GET" "/api/v1/dashboard/accounts" (AdminOrToken "read")
  | ListCertificates => MkRoute "GET" "/api/v1/dashboard/certificates" (AdminOrToken "read")
  | ListDeployments => MkRoute "GET" "/api/v1/dashboard/deployments" (AdminOrToken "read")
  | ListRefresh => MkRoute "GET" "/api/v1/dashboard/refresh" (AdminOrToken "read")
  | ListUpdates => MkRoute "GET" "/api/v1/dashboard/updates" (AdminOrToken "read")
  | ListSubscriptions => MkRoute "GET" "/api/v1/admin/store/subscriptions" (AdminOrToken "read")
  | AddSubscription _ => MkRoute "POST" "/api/v1/admin/store/subscriptions" (AdminOrToken "control")
  | DeleteSubscription _ => MkRoute "DELETE" "/api/v1/admin/store/subscriptions/{bundle}" (AdminOrToken "control")
  | ListDeviceTokens => MkRoute "GET" "/api/v1/admin/device-tokens" Admin
  | CreateDeviceToken _ => MkRoute "POST" "/api/v1/admin/device-tokens" Admin
  | RevokeDeviceToken _ => MkRoute "DELETE" "/api/v1/admin/device-tokens/{id}" Admin
  end.

Definition guard_of (e : endpoint) : guarded := ro_guard (route_of e).

(** The routes of the device socket. *)
Inductive device_endpoint :=
| DeviceHealth | DeviceMe
| DeviceHeartbeat (body : option (option json))
| DeviceReport (body : option (list reportedDevice))
| DeviceClaim (body : option claimRequest)
| DeviceUpdate (path_id : string) (body : option UpdateRequest)
| DeviceGetJob (path_id : string)
| DeviceRefreshSign (path_id : string) (body : option json)
| DeviceEnsureInstall (path_id : string)
| DeviceDownload (path_id : string).

Definition device_route (e : device_endpoint) : string * string :=
  match e with
  | DeviceHealth => ("GET", "/api/v1/device/health")
  | DeviceMe => ("GET", "/api/v1/device/me")
  | DeviceHeartbeat _ => ("POST", "/api/v1/device/me/heartbeat")
  | DeviceReport _ => ("POST", "/api/v1/device/me/devices")
  | DeviceClaim _ => ("POST", "/api/v1/device/jobs/claim")
  | DeviceUpdate _ _ => ("POST", "/api/v1/device/jobs/{id}/status")
  | DeviceGetJob _ => ("GET", "/api/v1/device/jobs/{id}")
  | DeviceRefreshSign _ _ => ("POST", "/api/v1/device/refresh/{id}/sign")
  | DeviceEnsureInstall _ => ("POST", "/api/v1/device/refresh/{id}/install")
  | DeviceDownload _ => ("GET", "/api/v1/device/artifacts/{id}/download")
  end.

(** What a handler writes: a document, the claimed jobs, a file, or a page of the
    dashboard with the cookie it sets. *)
Inductive reply :=
| Answered (r : response) | Claimed (l : list job) | File (f : served) | Archive (f : p12_file)
| Page (cookie : option string).

(** What a middleware passes on: the agent, the secret of an invitation, or nothing. *)
Definition credential (g : guarded) : Type :=
  match g with Agent => uuid | Enrolment => string | _ => unit end.

(** A handler of a part of the state. *)
Definition on {S A} `{Lens S system} (p : prog S response A) (f : A -> reply) : prog system response reply :=
  x ← zoom p; Ret (f x).

(** A panic is answered like an error of the server. *)
Definition recoverMiddleware {A} (p : prog system response A) : prog system response A :=
  r ← attempt p;
  match r with
  | inl e => Throw (if rs_status e =? rs_status panicked
                    then writeJSON InternalServerError (error_body "internal error") else e)
  | inr a => Ret a
  end.

Section system.
Context `{UuidText} `{SecretOps} `{ArchiveOps} `{Sha1Ops} `{SortSlice} `{RefreshQueue} `{Unwritten}.
Context (pg_uuid : string -> option uuid) (identity : list (uuid * string)) (st : settings).

(** The check in front of a handler. *)
Definition authorise (g : guarded) (r : request) : prog world response (credential g) :=
  match g with
  | Open => Ret tt
  | Admin => admin (st_server st) r (Ret tt)
  | AdminOrToken scope => adminOrToken (st_server st) scope r (Ret tt)
  | Agent => agent r (fun id => Ret id)
  | Enrolment => enrolmentToken r (fun token => Ret token)
  end.

Definition program (e : endpoint) : credential (guard_of e) -> prog system response reply :=
  let s := st_server st in
  match e with
  | Healthz => fun _ => on handleHealthz Answered
  | Config => fun _ => on (handleConfig s) Answered
  | ServerIdentity => fun _ => on (handleServerIdentity identity) Answered
  | EnrollDevice addr body => fun _ => on (handleEnrollDevice identity (st_cidrs st) addr body) Answered
  | Index => fun _ => Ret (Page (index_cookie s))
  | CreateEnrolmentToken body => fun _ => on (handleCreateEnrolmentToken body) Answered
  | UpdateAppleCredentials body => fun _ => on (handleUpdateAppleCredentials body) Answered
  | Submit2FACode body => fun _ => on (handleSubmit2FACode body) Answered
  | ManageAppIDs body => fun _ => on (handleManageAppIDs body) Answered
  | DeleteAppleAccount id => fun _ => on (handleDeleteAppleAccount id) Answered
  | CertificateDownload polls id => fun _ => on (handleAppleCertificateDownload polls id) Archive
  | AdminDeploy o body => fun _ => on (handleAdminDeploy o body) Answered
  | ManualRefresh body => fun _ => on (handleManualRefresh body) Answered
  | InstallLiveContainer o release body => fun _ => on (handleInstallLiveContainer o release body) Answered
  | LiveContainerPush body => fun _ => on (handleLiveContainerPush body) Answered
  | LiveContainerP12Push polls body => fun _ => on (handleLiveContainerP12Push polls body) Answered
  | InstalledApps body => fun _ => on (handleInstalledApps body) Answered
  | AdminCreateDevice body => fun _ => on (handleAdminCreateDevice body) Answered
  | AdminDeleteDevice id => fun _ => on (handleAdminDeleteDevice id) Answered
  | ListStoreSources => fun _ => on handleListStoreSources Answered
  | AddStoreSource body => fun _ => on (handleAddStoreSource body) Answered
  | DeleteStoreSource id => fun _ => on (handleDeleteStoreSource id) Answered
  | ListStoreApps up => fun _ => on (handleListStoreApps up) Answered
  | StoreInstall o bad download body => fun _ => on (handleStoreInstall s o bad download body) Answered
  | StoreSourceJSON _ o up => fun _ => on (handleStoreSourceJSON o up) Answered
  | StoreArtifactInstall id => fun _ => on (handleStoreArtifactInstall id) File
  | UploadArtifact name bytes => fun _ => on (handleUploadArtifact s name bytes) Answered
  | SetArtifactState id body => fun _ => on (handleSetArtifactState id body) Answered
  | DownloadArtifact id => fun _ => on (handleDownloadArtifact id) File
  | CreateSignJob body => fun _ => on (handleCreateSignJob body) Answered
  | UploadSignedArtifact body => fun agent => on (handleUploadSignedArtifact agent body) Answered
  | AgentDownloadArtifact id => fun agent => on (handleAgentDownloadArtifact agent id) File
  | RevokeCertificate id body => fun _ => on (handleRevokeCertificate id body) Answered
  | EnrolAgent body => fun token => on (handleEnrolAgent token body) Answered
  | Heartbeat body => fun agent => on (handleHeartbeat agent body) Answered
  | ReportDevices body => fun agent => on (handleReportDevices agent body) Answered
  | CreateJob body => fun _ => on (handleCreateJob body) Answered
  | ClaimJobs body => fun agent => on (handleClaimJobs s agent body) Claimed
  | UpdateJob id body => fun agent => on (handleUpdateJob s agent id body) Answered
  | ListAgents => fun _ => on handleListAgents Answered
  | ListDevices => fun _ => on handleListDevices Answered
  | ListJobs => fun _ => on handleListJobs Answered
  | ListApplications => fun _ => on handleListApplications Answered
  | ListArtifacts => fun _ => on handleListArtifacts Answered
  | ListSignedArtifacts => fun _ => on handleListSignedArtifacts Answered
  | ListAccounts => fun _ => on handleListAccounts Answered
  | ListCertificates => fun _ => on handleListCertificates Answered
  | ListDeployments => fun _ => on handleListDeployments Answered
  | ListRefresh => fun _ => on (handleListRefresh pg_uuid) Answered
  | ListUpdates => fun _ => on handleListUpdates Answered
  | ListSubscriptions => fun _ => on handleListSubscriptions Answered
  | AddSubscription body => fun _ => on (handleAddSubscription body) Answered
  | DeleteSubscription bundle => fun _ => on (handleDeleteSubscription bundle) Answered
  | ListDeviceTokens => fun _ => on handleListDeviceTokens Answered
  | CreateDeviceToken body => fun _ => on (handleCreateDeviceToken body) Answered
  | RevokeDeviceToken id => fun _ => on (handleRevokeDeviceToken id) Answered
  end.

(** The answer to a request, with a credential that is checked first. *)
Definition respond (r : request) (e : endpoint) : prog system response reply :=
  recoverMiddleware (c ← zoom (authorise (guard_of e) r); program e c).

Definition device_program (e : device_endpoint) (agent : uuid) : prog system response reply :=
  let s := st_server st in
  match e with
  | DeviceHealth => on handleDeviceHealth Answered
  | DeviceMe => on (handleDeviceMe agent) Answered
  | DeviceHeartbeat body => on (handleHeartbeat agent body) Answered
  | DeviceReport body => on (handleReportDevices agent body) Answered
  | DeviceClaim body => on (handleClaimJobs s agent body) Claimed
  | DeviceUpdate id body => on (handleUpdateJob s agent id body) Answered
  | DeviceGetJob id => on (handleDeviceGetJob id) Answered
  | DeviceRefreshSign id body => on (handleDeviceRefreshSign id body) Answered
  | DeviceEnsureInstall id => on (handleDeviceEnsureInstall s agent id) Answered
  | DeviceDownload id => on (handleAgentDownloadArtifact agent id) File
  end.

Definition respond_device (e : device_endpoint) : prog system response reply :=
  recoverMiddleware (agent ← zoom (deviceService (fun id => Ret id)); device_program e agent).

(** ** Histories *)

Inductive system_event := Asked (r : request) (e : endpoint) | AskedLocally (e : device_endpoint) | Pass (l : loop) (out : answers).

(** The program of an event; what it answers is with the caller. *)
Definition event_program (ev : system_event) : prog system unit unit :=
  match ev with
  | Asked r e => _ ← attempt (respond r e); Ret tt
  | AskedLocally e => _ ← attempt (respond_device e); Ret tt
  | Pass l out => zoom (pass st out l)
  end.

Record occurrence := MkOccurrence { oc_time : instant; oc_event : system_event; oc_faults : list bool }.

Definition at_time (t : instant) (y : system) : system := lset (set_now t (lget y)) y.

Definition occur (y : system) (o : occurrence) : system :=
  (run (oc_faults o) (event_program (oc_event o)) (at_time (oc_time o) y)).2.

Definition history (os : list occurrence) (y : system) : system := fold_left occur os y.
End system.
