(* ===== verification/SystemSpec.v ===== *)
(** What holds of the whole control plane, over every history: the database stays
    intact and nothing that must be remembered is forgotten. *)
From S2P Require Import Prelude GoStrings Effects GoTime Schema AuditLog Jobs JobsCreate Scheduler Http Auth Agents Artifacts Retention Signing Refresh Net Host Accounts Sources Catalog Updates StoreInstall Discovery Certificates DevicesAdmin ControlPlane DeviceSocket Dashboard Lists Integrity IntegrityStatements IntegrityPrograms System.

(** ** The table of routes *)

Definition some_origin : origin := MkOrigin false "" "".
Definition no_answers : upstream := MkUpstream (fun _ => None) (fun l => l).

(** One request of every route, in the order of the table. *)
Definition representatives : list endpoint :=
  [Healthz; Config; ServerIdentity; EnrollDevice "" None; Index; CreateEnrolmentToken None;
   UpdateAppleCredentials None; Submit2FACode None; ManageAppIDs None; DeleteAppleAccount "";
   CertificateDownload [] ""; AdminDeploy some_origin None; ManualRefresh None;
   InstallLiveContainer some_origin None None; LiveContainerPush None; LiveContainerP12Push [] None;
   InstalledApps None; AdminCreateDevice None; AdminDeleteDevice ""; ListStoreSources; AddStoreSource None;
   DeleteStoreSource ""; ListStoreApps no_answers; StoreInstall some_origin false None None;
   StoreSourceJSON true some_origin no_answers; StoreSourceJSON false some_origin no_answers;
   StoreArtifactInstall ""; UploadArtifact "" ""; SetArtifactState "" None; DownloadArtifact "";
   CreateSignJob None; UploadSignedArtifact BadForm; AgentDownloadArtifact ""; RevokeCertificate "" None;
   EnrolAgent None; Heartbeat None; ReportDevices None; CreateJob None; ClaimJobs None; UpdateJob "" None;
   ListAgents; ListDevices; ListJobs; ListApplications; ListArtifacts; ListSignedArtifacts; ListAccounts;
   ListCertificates; ListDeployments; ListRefresh; ListUpdates; ListSubscriptions; AddSubscription None;
   DeleteSubscription ""; ListDeviceTokens; CreateDeviceToken None; RevokeDeviceToken ""].

(** The endpoints are those of the table. *)
Lemma routes_represented : route_of <$> representatives = routes.
Proof. reflexivity. Qed.
Lemma endpoint_routed e : route_of e ∈ routes.
Proof. destruct e; try destruct short; repeat first [apply list_elem_of_here|apply list_elem_of_further]. Qed.
Lemma device_endpoint_routed e : device_route e ∈ DeviceHandler.
Proof. destruct e; repeat first [apply list_elem_of_here|apply list_elem_of_further]. Qed.

Section spec.
Context `{UuidText} `{SecretOps} `{ArchiveOps} `{Sha1Ops} `{SortSlice} `{Unwritten}.
Context (pg_uuid : string -> option uuid) (identity : list (uuid * string)) (st : settings).

(** ** Every program is orderly *)

Abbreviation in_system := (orderly_on (tables : system -> world)).

Lemma on_world {A} (p : prog world response A) f : orderly p -> in_system (on p f).
Proof using. intros Hp. apply orderly_bind; [by apply orderly_zoom_world|]. intros x. apply orderly_ret. Qed.
Lemma on_host {A} (p : prog host response A) f : orderly_on h_world p -> in_system (on p f).
Proof using.
  intros Hp. apply orderly_bind; [exact (orderly_zoom (H := host_of_system) h_world p Hp)|].
  intros x. apply orderly_ret.
Qed.
Lemma on_store {A} (p : prog store_state response A) f : orderly_on tables p -> in_system (on p f).
Proof using.
  intros Hp. apply orderly_bind; [exact (orderly_zoom (H := store_of_system) tables p Hp)|].
  intros x. apply orderly_ret.
Qed.
Lemma on_gate {A} (p : prog gate response A) f : orderly_on tables p -> in_system (on p f).
Proof using.
  intros Hp. apply orderly_bind; [exact (orderly_zoom (H := gate_of_system) tables p Hp)|].
  intros x. apply orderly_ret.
Qed.

(** What happens while a handler waits for an export keeps the database, as
    everything that can happen does ([occurrence_honest]). *)
Definition honest_endpoint (e : endpoint) : Prop :=
  match e with
  | CertificateDownload polls _ | LiveContainerP12Push polls _ => Forall honest polls
  | _ => True
  end.

Lemma orderly_program e c : honest_endpoint e -> in_system (program pg_uuid identity st e c).
Proof using.
  intros He. destruct e; cbn [program honest_endpoint] in *;
    first [apply on_world|apply on_host|apply on_store|apply on_gate|apply orderly_ret]; try solve [eauto 2 with orderly nocore].
Qed.

Lemma orderly_authorise g r : orderly (authorise st g r).
Proof using. destruct g; unfold authorise, admin, adminOrToken, agent, enrolmentToken; orderly_prog. Qed.

Lemma orderly_recover {A} (p : prog system response A) : in_system p -> in_system (recoverMiddleware p).
Proof using. intros Hp. unfold recoverMiddleware. orderly_prog. Qed.

Lemma orderly_respond r e : honest_endpoint e -> in_system (respond pg_uuid identity st r e).
Proof using.
  intros He. apply orderly_recover, orderly_bind; [apply orderly_zoom_world, orderly_authorise|].
  intros c. by apply orderly_program.
Qed.

Lemma orderly_device e agent : in_system (device_program st e agent).
Proof using. destruct e; cbn [device_program]; apply on_world; eauto 2 with orderly nocore. Qed.
Lemma orderly_respond_device e : in_system (respond_device st e).
Proof using.
  apply orderly_recover, orderly_bind; [|intros agent; apply orderly_device].
  apply orderly_zoom_world. unfold deviceService. orderly_prog.
Qed.

Lemma orderly_pass out l : orderly_on (tables : store_state -> world) (pass st out l).
Proof using. destruct l; unfold pass; orderly_prog. Qed.

Definition honest_event (ev : system_event) : Prop := match ev with Asked _ e => honest_endpoint e | _ => True end.

Lemma orderly_event ev : honest_event ev -> in_system (event_program pg_uuid identity st ev).
Proof using.
  destruct ev as [r e|e|l out]; intros He; unfold event_program.
  - apply orderly_bind; [by apply orderly_attempt, orderly_respond|intros x; apply orderly_ret].
  - apply orderly_bind; [by apply orderly_attempt, orderly_respond_device|intros x; apply orderly_ret].
  - exact (orderly_zoom (H := store_of_system) tables _ (orderly_pass out l)).
Qed.

(** ** Histories *)

Definition honest_occurrence (o : occurrence) : Prop := honest_event (oc_event o).

Lemma occur_follows w0 y o :
  honest_occurrence o -> follows w0 (lget y) -> follows w0 (lget (occur pg_uuid identity st y o)).
Proof using.
  intros Ho Hy. apply (keeps_run (fun y : system => follows w0 (lget y))); [by apply orderly_event|].
  unfold at_time. rewrite lget_lset. eapply follows_step; [done|]. by apply step_aside; [apply Hy|..].
Qed.

Lemma history_follows w0 os y :
  Forall honest_occurrence os -> follows w0 (lget y) -> follows w0 (lget (history pg_uuid identity st os y)).
Proof using.
  intros Hos. revert y. induction Hos as [|o os Ho Hos IH]; intros y Hy; [done|]. by apply IH, occur_follows.
Qed.

(** Whatever happens in the system is honest itself, so that what is assumed of
    the waits holds of everything that can happen in them. *)
Lemma occurrence_honest os y :
  Forall honest_occurrence os -> honest (fun w => lget (history pg_uuid identity st os (lset w y))).
Proof using.
  intros Hos w Hw. destruct (history_follows w os (lset w y) Hos) as [? ?]; [|by split].
  rewrite lget_lset. by split.
Qed.
End spec.

