(* ===== verification/SystemHistory.v ===== *)
(** The guarantees of the control plane over its whole life: intact tables,
    credentials that keep their meaning, requests without credential that change
    nothing, and what a device token for reading can make the control plane do. *)
From S2P Require Import Prelude GoStrings Effects GoTime Schema AuditLog Jobs JobsInvariant JobsCreate Scheduler SchedulerSpec JobsLives Http Auth Agents AuthSpec Artifacts Host Accounts Sources Catalog Updates StoreInstall Discovery ControlPlane Dashboard Lists Integrity System SystemSpec.

(** ** The check in front of the handlers *)

Section checks.
Context `{UuidText} `{SecretOps} (st : settings).

(** What lets a request through. *)
Definition entitled (w : world) (g : guarded) (r : request) : Prop :=
  match g with
  | Open => True
  | Admin => presents_admin (st_server st) r
  | AdminOrToken scope => presents_admin (st_server st) r \/ presents_token w scope r
  | Agent => exists key id a, bearerToken r = Some key /\ W_agents w !! id = Some a
      /\ (ag_api_key_id a = Some (KeyID key)
          \/ (ag_api_key_id a = None /\ exists h, ag_api_key_hash a = Some h /\ bcrypt_verify key h = true))
  | Enrolment => is_Some (bearerToken r)
  end.

(** The answers of the checks: 401, or 503 without an admin key, or 500 when the
    agents cannot be read. *)
Definition refusal (resp : response) : Prop :=
  exists code message, resp = writeJSON code (error_body message) /\ code ∈ [401; 503; 500].

Lemma refused code message : code ∈ [401; 503; 500] -> refusal (writeJSON code (error_body message)).
Proof using. intros Hc. by exists code, message. Qed.

Ltac refuse := split; [done|]; apply refused; set_solver.

Lemma wp_agent_of r w :
  wp (agent_of r) (fun x w' => w' = w /\ match x with inl resp => refusal resp | inr _ => entitled w Agent r end) w.
Proof using.
  unfold agent_of. destruct (bearerToken r) as [key|] eqn:Eb; [|refuse]. split; [refuse|]. simpl.
  destruct (agent_by_key (KeyID key) w) as [a|] eqn:Ea.
  - apply find_row_Some in Ea as (i & Hi & Hk). bools. split; [done|]. exists key, i, a. auto.
  - split; [refuse|]. simpl. destruct (legacy_agent key w) as [a|] eqn:El; [|refuse]. split; [done|].
    unfold legacy_agent in El. apply find_some in El as [Hin Hv].
    apply list_elem_of_In, elem_of_select in Hin as [[i Hi]%elem_of_rows Hp]. bools.
    destruct Hp as [Hnone [h Hh]]. rewrite Hh in Hv. exists key, i, a. eauto 10.
Qed.

Lemma wp_checkDeviceToken key scope r w :
  bearerToken r = Some key ->
  wp (checkDeviceToken key scope) (fun x w' => match x with
      | inr None => w' = w | inr (Some _) => presents_token w scope r | inl _ => False end) w.
Proof using.
  intros Hb. unfold checkDeviceToken. split; [done|]. simpl.
  destruct (token_by_key (KeyID key) w) as [t|] eqn:Et; [|done].
  destruct (token_usable (w_now w) key scope t) eqn:Eu; [|done].
  apply find_row_Some in Et as (i & Hi & Hk). bools.
  pose proof (token_usable_spec _ _ _ _ _ Hi Hk Eu _ Hb). by split.
Qed.

Lemma wp_admit g r w :
  wp (authorise st g r) (fun x w' => match x with
      | inl resp => w' = w /\ refusal resp
      | inr _ => entitled w g r end) w.
Proof using.
  destruct g as [| |scope| |]; simpl.
  - done.
  - unfold admin. case_cond; [refuse|]. destruct (checkAdmin _ r) eqn:Ea; simpl; [|refuse].
    bools. split; [done|]. by apply checkAdmin_true.
  - unfold adminOrToken. destruct (negb (adminKey (st_server st) =s "") && checkAdmin (st_server st) r) eqn:Ea.
    { apply andb_true_iff in Ea as [E1 E2%checkAdmin_true]. bools. left. by split. }
    destruct (bearerToken r) as [key|] eqn:Eb; [|refuse]. apply wp_bind.
    eapply wp_mono; [|by apply (wp_checkDeviceToken key scope r w)].
    intros [e|[id|]] w'; [done|by right|]. intros ->. refuse.
  - unfold agent. apply wp_bind. eapply wp_mono; [|apply wp_agent_of]. intros [e|id] w'; simpl; tauto.
  - unfold enrolmentToken. destruct (bearerToken r) as [key|] eqn:Eb; [|refuse]. by eexists.
Qed.
End checks.

Section history.
Context `{UuidText} `{SecretOps} `{ArchiveOps} `{Sha1Ops} `{SortSlice} `{Unwritten}.
Context (pg_uuid : string -> option uuid) (identity : list (uuid * string)) (st : settings).

Abbreviation respond := (respond pg_uuid identity st).
Abbreviation history := (history pg_uuid identity st).

(** C1. The database stays intact: whatever the routes of both listeners are
    asked, by whom and with what body, whatever the loops do, at any times and
    with any statements failing, every row stays under its key, every reference
    leads to a row, the unique columns stay unique; and nothing is forgotten:
    audit events, agents with their keys, artifacts with their bytes, used
    invitations and revoked tokens stay what they were. *)
Theorem database_integrity os y :
  Forall honest_occurrence os -> integral (lget y) ->
  integral (lget (history os y)) /\ remembers (lget y) (lget (history os y)).
Proof using. intros Hos Hy. by apply history_follows. Qed.

(** C3. No job is lost: over every such history the queue stays well formed, every
    job moves along its life cycle, keeping what it was created with but for the
    reference to a parent that has been removed, and counts its claims upwards; it
    is removed only when it is dead or was an export of a certificate, and its
    identifier is not used again; a row that appears began as a pending job
    without claims; and a completed job is there for good, with its result,
    unless it was an export. *)
Theorem every_job_lives_on os y :
  Forall honest_occurrence os -> integral (lget y) ->
  let w := lget y in let w' := lget (history os y) in
  wf_jobs w'
  /\ (forall id j, W_jobs w !! id = Some j -> exists j', rtc moves j j' /\ j_attempt j <= j_attempt j'
        /\ (W_jobs w' !! id = Some j' \/ W_jobs w' !! id = None /\ removable j'))
  /\ (forall id j', W_jobs w !! id = None -> W_jobs w' !! id = Some j' ->
        (w_fresh w <= id)%N /\ exists j, j_state j = StatePending /\ j_attempt j = 0 /\ rtc moves j j')
  /\ (forall id j, W_jobs w !! id = Some j -> j_state j = StateCompleted ->
        has_prefix "export_p12:" (j_idempotency_key j) = false ->
        exists j', W_jobs w' !! id = Some j' /\ same_but_parent j j').
Proof using.
  intros Hos Hy. cbn zeta. pose proof (integral_numbered _ Hy) as Hn.
  destruct (history_follows pg_uuid identity st (lget y) os y Hos) as [Hi Hm]; [by split|].
  pose proof (rm_jobs _ _ Hm) as Hl. pose proof (Hl Hn) as [_ _ Hold Hnew Hgone].
  split_and!; [by apply integral_jobs|..].
  - intros id j (j' & R & Hj')%Hold. exists j'. auto using moves_attempt.
  - intros id j' Hno Hj'. split; [|eauto]. destruct (decide (w_fresh (lget y) <= id)%N); [done|].
    rewrite Hgone in Hj' by (done || lia). done.
  - intros id j. by apply lives_completed.
Qed.

(** A request that is not entitled is refused before its handler runs. *)
Lemma wp_respond r e y :
  wp (respond r e) (fun x y' => entitled st (lget y) (guard_of e) r
      \/ exists resp, x = inl resp /\ refusal resp /\ y' = y) y.
Proof using.
  unfold System.respond, recoverMiddleware. apply wp_bind, wp_attempt, wp_bind, wp_zoom.
  eapply wp_mono; [|apply wp_admit]. intros [resp|c] w'.
  - intros [-> (code & message & -> & Hc)]. right. rewrite lset_lget.
    assert ((rs_status (writeJSON code (error_body message)) =? rs_status panicked) = false) as ->.
    { simpl. apply Z.eqb_neq. set_solver. }
    eexists. split; [done|]. split; [|done]. by apply refused.
  - intros He. apply wp_always. intros [x|x] y'; apply wp_always; auto.
Qed.

(** ** Revocation is for ever *)

Definition revoked (w : world) (secret : string) : Prop :=
  exists id t, W_device_tokens w !! id = Some t /\ dt_key_id t = KeyID secret /\ is_Some (dt_revoked_at t).

Lemma revoked_later w w' secret : remembers w w' -> revoked w secret -> revoked w' secret.
Proof using.
  intros Hm (id & t & Ht & Hk & Hr). destruct (rm_tokens _ _ Hm _ _ Ht) as (t' & Ht' & Hs).
  destruct Hs as (Hk' & _ & _ & _ & Hrev). exists id, t'. split_and!; [done|congruence|auto].
Qed.

Lemma revoked_presents w secret scope r :
  integral w -> revoked w secret -> bearerToken r = Some secret -> ~ presents_token w scope r.
Proof using.
  intros Hw (i & t & Ht & Hk & [x Hx]) Hb (key & j & u & Hb' & Hu & Hku & _ & Hr & _).
  rewrite Hb in Hb'. injection Hb' as <-.
  assert (i = j) as -> by (eapply (un_tokens _ _ _ Hw); unfold token_key; [done..|by rewrite Hk|by rewrite Hku]).
  congruence.
Qed.

(** C13. Revocation is for ever: after a device token was revoked, and whatever
    happened since, a request with it is refused on every route that asks for a
    credential of that kind, and changes nothing. *)
Theorem revocation_is_final os fl secret r e scope y :
  Forall honest_occurrence os -> integral (lget y) -> revoked (lget y) secret ->
  bearerToken r = Some secret -> ~ presents_admin (st_server st) r ->
  guard_of e = Admin \/ guard_of e = AdminOrToken scope ->
  exists resp, refusal resp /\ run fl (respond r e) (history os y) = (inl resp, history os y).
Proof using.
  intros Hos Hy Hrev Hb Ha Hg.
  destruct (history_follows pg_uuid identity st (lget y) os y Hos) as [Hw Hm]; [by split|].
  destruct (run fl (respond r e) (history os y)) as [x y'] eqn:Hr.
  destruct (wp_run_eq _ _ _ _ _ _ (wp_respond r e _) Hr) as [He|(resp & -> & ? & ->)]; [|by exists resp].
  exfalso. destruct Hg as [Hg|Hg]; rewrite Hg in He; simpl in He; [done|]. destruct He as [?|Hp]; [done|].
  eapply revoked_presents; [done|by eapply revoked_later|done..].
Qed.

(** ** Invitations and keys *)

Lemma integral_tokens w : integral w -> tokens_wf w.
Proof using. intros Hw. split; [intros i t Ht; apply (in_enrolments _ _ _ Hw _ _ Ht)|apply (un_enrolments _ _ _ Hw)]. Qed.

Lemma used_up_later w w' token : remembers w w' -> used_up w token -> used_up w' token.
Proof using.
  intros Hm (key & secret & t & Hp & Hk & Ht & Hu). destruct (rm_enrolments _ _ Hm _ _ Ht) as (t' & Ht' & _ & _ & Hs).
  rewrite Hs in Ht' by (by apply not_eq_None_Some). by exists key, secret, t.
Qed.

(** The key of an agent finds it as long as it lasts. *)
Lemma key_known w id a k :
  integral w -> W_agents w !! id = Some a -> ag_api_key_id a = Some (KeyID k) -> forall r, bearerToken r = Some k ->
  exec (agent_of r) w = (inr id, w).
Proof using.
  intros Hw Ha Hk r Hr. unfold exec, agent_of. rewrite Hr. simpl.
  destruct (agent_by_key (KeyID k) w) as [b|] eqn:Eb; simpl.
  - apply find_row_Some in Eb as (i & Hi & Hki). bools.
    assert (i = id) as -> by (eapply (un_agents _ _ _ Hw); [done..|]; by simpl).
    destruct (in_agents _ _ _ Hw _ _ Hi) as (-> & _). done.
  - unfold agent_by_key in Eb. rewrite find_row_None in Eb. specialize (Eb _ _ Ha). rewrite Hk in Eb.
    by rewrite (proj2 (opt_is_true _ _)) in Eb.
Qed.

Lemma wp_respond_enrol r body token (Q : response + reply -> system -> Prop) y :
  bearerToken r = Some token ->
  wp (handleEnrolAgent token body) (fun x w' => match x with
      | inl _ => forall e, Q (inl e) (lset w' y)
      | inr resp => Q (inr (Answered resp)) (lset w' y) end) (lget y) ->
  wp (respond r (EnrolAgent body)) Q y.
Proof using.
  intros Hr Hp. unfold System.respond, recoverMiddleware. apply wp_bind, wp_attempt, wp_bind, wp_zoom.
  unfold authorise. simpl guard_of. cbn [guard_of route_of ro_guard]. unfold enrolmentToken. rewrite Hr.
  cbn [wp program]. rewrite lset_lget. apply wp_bind, wp_zoom. eapply wp_mono; [|exact Hp].
  intros [e|resp] w' Hq; simpl; apply Hq.
Qed.

(** C12. An invitation admits one agent, for ever: the enrolment that succeeds
    with it adds the agent its row entitles to; whatever happens afterwards,
    every further attempt with the invitation is refused and changes no table,
    and the key that was issued identifies that agent. *)
Theorem invitation_admits_one fl1 fl2 r1 r2 token body1 body2 os y y1 rep x2 y2 :
  integral (lget y) -> is_Some (ParseEnrolmentToken token) ->
  bearerToken r1 = Some token -> bearerToken r2 = Some token ->
  run fl1 (respond r1 (EnrolAgent body1)) y = (inr rep, y1) ->
  Forall honest_occurrence os ->
  run fl2 (respond r2 (EnrolAgent body2)) (history os y1) = (x2, y2) ->
  exists req t id key a, body1 = Some req /\ enrolled_as (lget y) token req t id key a (lget y1)
    /\ rep = Answered (enrol_answer id key (et_role t))
    /\ (exists resp, x2 = inl resp) /\ w_db (lget y2) = w_db (lget (history os y1))
    /\ forall r, bearerToken r = Some key ->
         exec (agent_of r) (lget (history os y1)) = (inr id, lget (history os y1)).
Proof using.
  intros Hy Hp Hr1 Hr2 Hrun1 Hos Hrun2.
  assert (integral (lget y1)) as Hy1.
  { destruct (keeps_run (fun y' : system => follows (lget y) (lget y')) _ fl1 y
      (orderly_respond pg_uuid identity st r1 (EnrolAgent body1) I (lget y))) as [? _]; [by split|].
    by rewrite Hrun1 in *. }
  assert (exists req t id k a, body1 = Some req /\ enrolled_as (lget y) token req t id k a (lget y1)
            /\ rep = Answered (enrol_answer id k (et_role t))) as (req & t & id & k & a & -> & He & ->).
  { by_wp Hrun1. apply (wp_respond_enrol r1 body1 token _ y Hr1).
    eapply wp_mono; [|apply (wp_handleEnrolAgent (lget y) token body1 (integral_tokens _ Hy) Hp)].
    intros [resp|resp] w'; [done|]. intros (req & t & id & k & a & -> & He & ->). rewrite lget_lset. eauto 10. }
  destruct (enrolled_used_up _ _ _ _ _ _ _ _ (integral_tokens _ Hy) He) as [_ Hu].
  destruct (history_follows pg_uuid identity st (lget y1) os y1 Hos) as [Hw Hm]; [by split|].
  assert ((exists resp, x2 = inl resp) /\ w_db (lget y2) = w_db (lget (history os y1))) as [? ?].
  { refine (wp_run_eq _ (fun x z => (exists resp, x = inl resp) /\ w_db (lget z) = w_db (lget (history os y1))) _ _ _ _ _ Hrun2).
    apply (wp_respond_enrol r2 body2 token _ _ Hr2).
    eapply wp_mono; [|apply (wp_enrol_used_up _ token body2 (integral_tokens _ Hw) (used_up_later _ _ _ Hm Hu))].
    intros x w' [(resp & -> & _) Hd]. intros e. rewrite lget_lset. eauto. }
  exists req, t, id, k, a. split_and!; try done.
  assert (W_agents (lget y1) !! id = Some a) as Ha by (rewrite (en_agents _ _ _ _ _ _ _ _ He); apply lookup_insert_eq).
  destruct (rm_agents _ _ Hm _ _ Ha) as (a' & Ha' & Hk & _).
  eapply key_known; [done..|]. by rewrite Hk, (en_key _ _ _ _ _ _ _ _ He).
Qed.
End history.

(** * The read scope only reads *)

(** ** What reading may leave behind *)

(** Listings that were seen, and the time a token was used. *)
Record noted (w w' : world) : Prop := {
  no_db : w_db w' = on_listings (fun _ => W_listings w') (on_device_tokens (fun _ => W_device_tokens w') (w_db w));
  no_tokens i : set_dt_last_used_at None <$> W_device_tokens w' !! i
                = set_dt_last_used_at None <$> W_device_tokens w !! i;
  no_blobs : w_blobs w' = w_blobs w;
  no_audit : w_pool_audit w' = w_pool_audit w;
  no_ids : w_fresh w' = w_fresh w;
}.

(** The cache of the catalog besides; the files and the limiter stay. *)
Record observed (y y' : system) : Prop := {
  ob_world : noted (lget y) (lget y');
  ob_json : h_json (lget y') = h_json (lget y);
  ob_text : h_text (lget y') = h_text (lget y);
  ob_limit : sy_limit y' = sy_limit y;
}.

#[global] Instance noted_preorder : PreOrder noted.
Proof.
  split.
  - intros [[] ? ? ? ?]. by split.
  - intros w1 w2 w3 [] []. split; try congruence. by rewrite no_db1, no_db0; destruct (w_db w1).
Qed.
#[global] Instance observed_preorder : PreOrder observed.
Proof.
  split; [by split|]. intros y1 y2 y3 [] []. split; [by etrans|congruence..].
Qed.

(** ** Programs that only read *)

Definition reading {T E A} (R : T -> T -> Prop) (p : prog T E A) : Prop := forall t, keeps (R t) p.

Create HintDb reading discriminated.

Section reading.
Context {T E A : Type} (R : T -> T -> Prop) `{!PreOrder R}.

Lemma reading_ret (a : A) : reading R (Ret a : prog T E A).
Proof using. intros t. apply keeps_ret. Qed.
Lemma reading_throw (e : E) : reading R (Throw e : prog T E A).
Proof using. intros t. apply keeps_throw. Qed.
Lemma reading_bind {B} (p : prog T E A) (f : A -> prog T E B) :
  reading R p -> (forall a, reading R (f a)) -> reading R (p ≫= f).
Proof using. intros Hp Hf t. apply keeps_bind; [apply Hp|intros a; apply Hf]. Qed.
Lemma reading_stmt {X} c (f : T -> sqlerr + X * T) (k : sqlerr + X -> prog T E A) :
  (forall t x t', f t = inr (x, t') -> R t t') -> (forall o, reading R (k o)) -> reading R (Stmt c f k).
Proof using All.
  intros Hf Hk t. apply keeps_stmt; [|intros o; apply Hk]. intros t1 x t2 Ht Hs. etrans; [done|eauto].
Qed.
Lemma reading_fold {X B} (body : B -> X -> prog T E B) b l :
  (forall b x, reading R (body b x)) -> reading R (fold_ body b l).
Proof using. intros Hb t. apply keeps_fold. intros b' x. apply Hb. Qed.
Lemma reading_for {X} (body : X -> prog T E unit) l : (forall x, reading R (body x)) -> reading R (for_ l body).
Proof using. intros Hb t. apply keeps_for. intros x _. apply Hb. Qed.
Lemma reading_attempt {E'} (p : prog T E A) : reading R p -> reading R (@attempt T E E' A p).
Proof using. intros Hp t. apply keeps_attempt, Hp. Qed.
Lemma reading_run fl (p : prog T E A) t : reading R p -> R t (run fl p t).2.
Proof using All. intros Hp. apply (keeps_run (R t)); [apply Hp|done]. Qed.
End reading.

Section more.
Context {T E X : Type} (R : T -> T -> Prop) `{!PreOrder R}.
Lemma reading_try c (g : T -> X) : reading R (@try_ T E X c (reads g)).
Proof using All. apply reading_stmt; [done| |]; [by intros t x t' [= <- <-]|intros o; by apply reading_ret]. Qed.
Lemma reading_must c (g : T -> X) (e : sqlerr -> E) : reading R (must c (reads g) e).
Proof using All.
  apply reading_stmt; [done|by intros t x t' [= <- <-]|]. intros [er|x]; [by apply reading_throw|by apply reading_ret].
Qed.
Lemma reading_get (g : T -> X) : reading R (get_ g : prog T E X).
Proof using. intros t. apply keeps_act; [done|]. intros x. apply keeps_ret. Qed.
End more.

Lemma reading_put {T E} (R : T -> T -> Prop) `{!PreOrder R} (f : T -> T) :
  (forall t, R t (f t)) -> reading R (put_ f : prog T E unit).
Proof. intros Hf t. apply keeps_act; [|intros x; apply keeps_ret]. intros t' Ht. simpl. by etrans. Qed.

Lemma reading_zoom {S T E A} `{Lens S T} (R : S -> S -> Prop) (R' : T -> T -> Prop) `{!PreOrder R} `{!PreOrder R'}
    (p : prog S E A) :
  (forall t s, R (lget t) s -> R' t (lset s t)) -> reading R p -> reading R' (zoom p).
Proof.
  intros HR Hp t0 t Ht. apply wp_zoom. eapply wp_mono; [|by apply (Hp (lget t))].
  intros r s Hs. etrans; [exact Ht|by apply HR].
Qed.

#[export] Hint Resolve reading_ret reading_throw reading_try reading_must reading_get : reading.

(** One structural step; what is left are statements that write. *)
Ltac reading_step :=
  match goal with
  | |- reading _ _ => solve [eauto 2 with reading typeclass_instances nocore]
  | |- reading _ (need _ (reads _) _ _) => apply reading_must
  | |- reading _ (mret _) => apply reading_ret
  | |- reading _ (mbind _ _) => apply reading_bind; [|intros ?]
  | |- reading _ (for_ _ _) => apply reading_for; intros ?
  | |- reading _ (fold_ _ _ _) => apply reading_fold; intros ? ?
  | |- reading _ (attempt _) => apply reading_attempt
  | |- reading _ (if ?b then _ else _) => destruct b
  | |- reading _ (match ?x with _ => _ end) => destruct x
  end.
Ltac reading_prog := repeat (reading_step; cbn beta zeta).

(** ** The endpoints of the scope *)

(** On the state of the store. *)
Record seen (s s' : store_state) : Prop := {
  se_world : noted (lget s) (lget s');
  se_json : h_json (lget s') = h_json (lget s);
  se_text : h_text (lget s') = h_text (lget s);
}.
#[global] Instance seen_preorder : PreOrder seen.
Proof. split; [by split|]. intros s1 s2 s3 [] []. split; [by etrans|congruence..]. Qed.

Lemma noted_seen (s : store_state) w : noted (lget s) w -> seen s (lset w s).
Proof. intros Hn. by split. Qed.
Lemma noted_observed (y : system) w : noted (lget y) w -> observed y (lset w y).
Proof. intros Hn. by split. Qed.
Lemma seen_observed (y : system) s : seen (lget y) s -> observed y (lset s y).
Proof. intros []. by split. Qed.

Section programs.
Context `{UuidText} `{SecretOps} `{SortSlice}.

Lemma reading_table columns q : reading noted (queryTable columns q).
Proof using. unfold queryTable, ok. reading_prog. Qed.
Lemma reading_subscriptions : reading noted handleListSubscriptions.
Proof using. unfold handleListSubscriptions, ok. reading_prog. Qed.

Lemma reading_snapshot {E} apps : reading noted (@snapshotListings E apps).
Proof using.
  unfold snapshotListings. apply reading_for. intros a. apply reading_bind; [|intros x; apply reading_ret].
  refine (reading_stmt noted _ _ _ _ _); [|intros o; apply reading_ret]. intros w x w'. unfold upsert_listing. cbn zeta.
  case_cond; [|done]. intros [= <- <-]. by split.
Qed.

Lemma reading_from_world {E A} (p : prog world E A) : reading noted p -> reading seen (zoom p).
Proof using. apply reading_zoom; [apply _..|apply noted_seen]. Qed.
#[local] Hint Resolve reading_snapshot reading_from_world : reading.

Lemma reading_file {E} path : reading seen (@ReadJSON store_state E _ path).
Proof using. unfold ReadJSON. reading_prog. Qed.
#[local] Hint Resolve reading_file : reading.
Lemma reading_sources {E} : reading seen (@loadStoreSources E).
Proof using. unfold loadStoreSources. reading_prog. Qed.
#[local] Hint Resolve reading_sources : reading.
Lemma reading_apps {E} up : reading seen (@getStoreApps _ E up).
Proof using.
  unfold getStoreApps. reading_prog. apply (reading_put seen). intros s. by split.
Qed.
#[local] Hint Resolve reading_apps : reading.
Lemma reading_listApps up : reading seen (handleListStoreApps up).
Proof using. unfold handleListStoreApps. reading_prog. Qed.
Lemma reading_listSources : reading seen handleListStoreSources.
Proof using. unfold handleListStoreSources. reading_prog. Qed.
Lemma reading_updates : reading seen handleListUpdates.
Proof using.
  unfold handleListUpdates, list_updates, add_subscription_update, subscribed_listing.
  repeat first [apply reading_from_world | reading_step; cbn beta zeta].
Qed.

Lemma reading_token key scope : reading noted (checkDeviceToken key scope).
Proof using.
  unfold checkDeviceToken. reading_prog.
  refine (reading_stmt noted _ _ _ _ _); [|intros o; apply reading_ret]. intros w x w' [= <- <-]. split; try done.
  intros i. simpl. rewrite lookup_update_where. destruct (W_device_tokens w !! i) as [t|]; [|done].
  simpl. f_equal. by case_cond.
Qed.
End programs.

(** ** An invitation *)

Section invitations.
Context `{UuidText} `{SecretOps} (st : settings).

(** The secret is that of an invitation that is on record, unused and in time. *)
Definition invited (w : world) (token : string) : Prop :=
  exists i t, W_enrolment_tokens w !! i = Some t /\ et_used_at t = None /\ token_expired (w_now w) t = false
    /\ ((exists key secret, ParseEnrolmentToken token = Some (key, secret) /\ et_token_key t = Some key
          /\ bcrypt_verify secret (et_token_hash t) = true)
        \/ (ParseEnrolmentToken token = None /\ et_token_key t = None
           /\ bcrypt_verify token (et_token_hash t) = true)).

(** [entitled], and an invitation that counts. *)
Definition admitted (w : world) (g : guarded) (r : request) : Prop :=
  match g with
  | Enrolment => exists token, bearerToken r = Some token /\ invited w token
  | _ => entitled st w g r
  end.

(** The answers of the checks; the enrolment reads the body first, and may find
    it wanting. *)
Definition denied (g : guarded) (resp : response) : Prop :=
  refusal resp \/ (g = Enrolment /\ exists message, resp = writeJSON BadRequest (error_body message)).

Lemma denied_401 message : denied Enrolment (writeJSON Unauthorized (error_body message)).
Proof using. left. apply refused. set_solver. Qed.
Lemma denied_500 message : denied Enrolment (writeJSON InternalServerError (error_body message)).
Proof using. left. apply refused. set_solver. Qed.
Lemma denied_400 message : denied Enrolment (writeJSON BadRequest (error_body message)).
Proof using. right. eauto. Qed.

Lemma denied_answered g resp : denied g resp -> (rs_status resp =? rs_status panicked) = false.
Proof using.
  intros [(code & message & -> & Hc)|(_ & message & ->)]; [|done]. simpl. apply Z.eqb_neq. set_solver.
Qed.

Ltac deny := split; [done|]; first [apply denied_401|apply denied_500].

Lemma wp_find_token_invited token w :
  wp (find_token token) (fun x w' => w' = w /\ match x with
      | inl resp => denied Enrolment resp | inr _ => invited w token end) w.
Proof using.
  unfold find_token. destruct (ParseEnrolmentToken token) as [[key secret]|] eqn:Ep.
  - split; [deny|]. simpl. destruct (enrolment_by_key key w) as [t|] eqn:Et; [|deny].
    apply find_row_Some in Et as (i & Hi & Hk). bools.
    case_cond; [deny|]. case_cond; [deny|]. case_cond; [deny|]. bools. split; [done|].
    exists i, t. split_and!; [done|by apply eq_None_not_Some|done|]. left. by exists key, secret.
  - split; [deny|]. simpl. destruct (legacy_token token w) as [t|] eqn:Et; [|deny].
    case_cond; [deny|]. split; [done|]. unfold legacy_token in Et. apply find_some in Et as [Hin Hv].
    apply list_elem_of_In, elem_of_select in Hin as [[i Hi]%elem_of_rows Hp].
    apply andb_true_iff in Hv as [Hx Hv]. apply negb_true_iff in Hx. bools. destruct Hp as [Hk Hu].
    exists i, t. split_and!; try done. by right.
Qed.

Lemma rollback_refl w : rollback w w = w.
Proof using. unfold rollback. rewrite N.max_id. by destruct w. Qed.

Lemma wp_enrol_uninvited token body w :
  wp (handleEnrolAgent token body) (fun x w' => invited w token
      \/ exists resp, x = inl resp /\ denied Enrolment resp /\ w' = w) w.
Proof using.
  assert (Hno : forall resp, denied Enrolment resp -> invited w token
    \/ exists resp', @inl response response resp = inl resp' /\ denied Enrolment resp' /\ w = w).
  { intros resp Hd. right. by exists resp. }
  unfold handleEnrolAgent. destruct body as [req|]; [|apply Hno, denied_400].
  apply wp_bind. cbn [decodeJSON wp]. case_cond; [apply Hno, denied_400|].
  apply wp_bind, wp_txn; [apply Hno, denied_500|].
  unfold enrol_body. apply wp_bind. eapply wp_mono; [|apply wp_find_token_invited].
  intros [resp|[tid role]] w1 [-> Hi].
  - rewrite rollback_refl. right. by exists resp.
  - apply wp_always. intros [e|[[id k] ro]] w'; [by left|]. split; [|by left]. by left.
Qed.
End invitations.

Section reads.
Context `{UuidText} `{SecretOps} `{ArchiveOps} `{Sha1Ops} `{SortSlice} `{Unwritten}.
Context (pg_uuid : string -> option uuid) (identity : list (uuid * string)) (st : settings).

Lemma on_reading_world {A} (p : prog world response A) f : reading noted p -> reading observed (on p f).
Proof using.
  intros Hp. apply reading_bind; [|intros x; apply reading_ret].
  by apply (reading_zoom noted observed); [apply _..|apply noted_observed|].
Qed.
Lemma on_reading_store {A} (p : prog store_state response A) f : reading seen p -> reading observed (on p f).
Proof using.
  intros Hp. apply reading_bind; [|intros x; apply reading_ret].
  by apply (reading_zoom seen observed); [apply _..|apply seen_observed|].
Qed.

Lemma reading_program e c :
  guard_of e = AdminOrToken "read" -> reading observed (program pg_uuid identity st e c).
Proof using.
  intros Hg. destruct e; try discriminate Hg; cbn [program];
    first [apply on_reading_world|apply on_reading_store];
    first [apply reading_listApps|apply reading_listSources|apply reading_updates|apply reading_subscriptions
          |apply reading_table].
Qed.

(** C20. The read scope only reads: whatever a request to a route of that scope
    asks and whatever fails, all it leaves behind is the time its token was
    used, listings of the catalog and the cache; every other table, the blobs,
    the audit, the files and the limiter are as before. *)
Theorem read_scope_only_reads fl r e y :
  guard_of e = AdminOrToken "read" -> observed y (run fl (respond pg_uuid identity st r e) y).2.
Proof using.
  intros Hg. apply (reading_run observed). unfold respond, recoverMiddleware.
  apply reading_bind; [|intros [x|x]; [apply reading_throw|apply reading_ret]].
  apply reading_attempt, reading_bind; [|intros c; by apply reading_program].
  apply (reading_zoom noted observed); [apply noted_observed|]. rewrite Hg. simpl. unfold adminOrToken.
  pose proof reading_token. reading_prog.
Qed.

(** ** The routes that ask for nothing *)

(** As [observed], and the audit may have grown. *)
Definition browsed (y y' : system) : Prop :=
  observed y (lset (set_pool_audit (fun _ => w_pool_audit (lget y)) (lget y')) y').

#[local] Instance browsed_preorder : PreOrder browsed.
Proof using.
  split; [intros [[[[[]]]]]; by repeat split|]. intros y1 y2 y3 [[] ? ? ?] [[] ? ? ?].
  split; [split|..]; simpl in *; try congruence. by rewrite no_db1, no_db0; destruct (w_db _).
Qed.

Lemma observed_browsed y y' : observed y y' -> browsed y y'.
Proof using. intros [[] ? ? ?]. by split. Qed.

Lemma browsed_audit y f : browsed y (lset (set_pool_audit f (lget y)) y).
Proof using. destruct y as [[[[[]]]]]. by repeat split. Qed.

Lemma reading_browsed (p : prog system response reply) : reading observed p -> reading browsed p.
Proof using.
  intros Hp y0 y Hy. eapply wp_mono; [|apply (Hp y y); reflexivity].
  intros r y' Hy'. etrans; [exact Hy|]. by apply observed_browsed.
Qed.

Lemma reading_sourceJSON o up : reading seen (handleStoreSourceJSON o up).
Proof using.
  unfold handleStoreSourceJSON, source_apps. pose proof (fun E => reading_apps (E := E) up).
  repeat first [apply reading_from_world | reading_step; cbn beta zeta].
Qed.

Lemma reading_install id : reading browsed (on (handleStoreArtifactInstall id) File).
Proof using.
  apply reading_bind; [|intros x; apply reading_ret].
  intros y0 y Hy. apply wp_zoom. unfold handleStoreArtifactInstall, serve.
  assert (Hsame : browsed y0 (lset (lget y) y)) by by rewrite lset_lget.
  destruct (uuid_parse id) as [u|]; [|exact Hsame]. apply wp_try_bind; [exact Hsame|]. cbn [reads].
  destruct (approved_file u (lget y)) as [f|]; [|exact Hsame].
  unfold Exists. apply wp_bind, wp_try_bind; [exact Hsame|]. cbn [reads wp].
  destruct (bool_decide _); [|exact Hsame]. apply wp_Record_bind; [exact Hsame|]. intros g.
  cbn [wp]. etrans; [exact Hy|apply browsed_audit].
Qed.

Lemma reading_open e c :
  guard_of e = Open -> (forall addr body, e <> EnrollDevice addr body) ->
  reading browsed (program pg_uuid identity st e c).
Proof using.
  intros Hg Hne. destruct e; try discriminate Hg; cbn [program].
  - apply reading_browsed, on_reading_world. unfold handleHealthz, ok. reading_prog.
  - apply reading_browsed, on_reading_world. unfold handleConfig, ok. reading_prog.
  - apply reading_browsed, on_reading_world. unfold handleServerIdentity, serverIdentityRow, ok. reading_prog.
  - by destruct (Hne remote_addr body).
  - apply reading_ret.
  - apply reading_browsed, on_reading_store, reading_sourceJSON.
  - apply reading_install.
Qed.

Lemma open_routes_only_read fl r e y :
  guard_of e = Open -> (forall addr body, e <> EnrollDevice addr body) ->
  browsed y (run fl (respond pg_uuid identity st r e) y).2.
Proof using.
  intros Hg Hne. apply (reading_run browsed). unfold respond, recoverMiddleware.
  apply reading_bind; [|intros [x|x]; [apply reading_throw|apply reading_ret]].
  apply reading_attempt, reading_bind; [|intros c; by apply reading_open].
  apply (reading_zoom noted browsed); [intros y' w Hn; by apply observed_browsed, noted_observed|].
  rewrite Hg. apply reading_ret.
Qed.

(** Without the credential the answer is an error and nothing changes. *)
Lemma wp_respond_unadmitted r e y :
  wp (respond pg_uuid identity st r e) (fun x y' => admitted st (lget y) (guard_of e) r
      \/ exists resp, x = inl resp /\ denied (guard_of e) resp /\ y' = y) y.
Proof using.
  assert ((exists body, e = EnrolAgent body) \/ guard_of e <> Enrolment) as [[body ->]|Hg].
  { destruct e; try (right; discriminate). by left; eexists. }
  - destruct (bearerToken r) as [token|] eqn:Hr.
    + unfold respond, recoverMiddleware. apply wp_bind, wp_attempt, wp_bind, wp_zoom.
      unfold authorise. cbn [guard_of route_of ro_guard]. unfold enrolmentToken. rewrite Hr.
      cbn [wp program]. rewrite lset_lget. apply wp_bind, wp_zoom.
      eapply wp_mono; [|apply (wp_enrol_uninvited token body (lget y))].
      intros x w' [Hi|(resp & -> & Hd & ->)].
      * destruct x as [x|x]; left; by exists token.
      * right. rewrite lset_lget, (denied_answered _ _ Hd). by exists resp.
    + eapply wp_mono; [|apply wp_respond]. intros x y' [He|(resp & -> & Hd & ->)].
      * destruct He as [t Ht]. by rewrite Hr in Ht.
      * right. exists resp. split; [done|]. split; [by left|done].
  - eapply wp_mono; [|apply wp_respond]. intros x y' [He|(resp & -> & Hd & ->)].
    + left. by destruct (guard_of e).
    + right. exists resp. split; [done|]. split; [by left|done].
Qed.

(** The routes that ask for nothing. *)
Definition open_routes : list (string * string) :=
  [("GET", "/healthz"); ("GET", "/api/v1/config"); ("GET", "/api/v1/server-identity");
   ("POST", "/api/v1/devices/enroll"); ("GET", "/"); ("GET", "/source.json");
   ("GET", "/api/v1/store/source.json"); ("GET", "/api/v1/store/artifacts/{id}/install.ipa")].

Lemma open_path e : (ro_method (route_of e), ro_path (route_of e)) ∈ open_routes -> guard_of e = Open.
Proof using.
  intros Hin. apply (bool_decide_eq_true_2 _) in Hin. revert Hin.
  destruct e; try destruct short; vm_compute; done.
Qed.

(** C7. No access without a credential.  The endpoints are the routes of the public
    listener, no more and no less.
    - On every route but eight, a request that carries neither the admin key nor,
      where the route takes them, a stored, unrevoked, unexpired device token of
      the scope, the key of an agent, or the secret of an invitation that is on
      record, unused and in time, is answered with an error and changes nothing at
      all, whatever its body and whatever fails.
    - The eight open routes are those of [open_routes].  A request to them, but for
      [POST /api/v1/devices/enroll], leaves the tables as they are except for
      listings of the catalog, and files, blobs and the limiter too; the audit may
      grow.  The enrolment of devices, which mints a token, is bounded by the
      caller's network and the limiter ([enrolment_opens_control]).
    That [GET /] hands the admin key itself to everyone is a flaw of the code, not
    excluded here ([index_page_grants_admin]). *)
Theorem routes_are_guarded fl r e y :
  (forall ro, ro ∈ routes <-> exists e', route_of e' = ro)
  /\ (guard_of e = Open <-> (ro_method (route_of e), ro_path (route_of e)) ∈ open_routes)
  /\ (~ admitted st (lget y) (guard_of e) r ->
      exists resp, denied (guard_of e) resp /\ run fl (respond pg_uuid identity st r e) y = (inl resp, y))
  /\ (guard_of e = Open -> (forall addr body, e <> EnrollDevice addr body) ->
      browsed y (run fl (respond pg_uuid identity st r e) y).2).
Proof using.
  split_and!.
  - intros ro. split; [|intros [e' <-]; apply endpoint_routed].
    rewrite <- routes_represented. intros (e' & -> & _)%list_elem_of_fmap. by exists e'.
  - split; [|apply open_path]. intros Hg. destruct e; try discriminate Hg; try destruct short;
      repeat first [apply list_elem_of_here|apply list_elem_of_further].
  - intros Hne. destruct (run fl _ y) as [x y'] eqn:Hr.
    destruct (wp_run_eq _ _ _ _ _ _ (wp_respond_unadmitted r e y) Hr) as [?|(resp & -> & ? & ->)]; [done|]. by exists resp.
  - apply open_routes_only_read.
Qed.
End reads.
