(* ===== verification/SystemWitness.v ===== *)
(** A database with a row of every kind, and lives of the control plane on it, to
    which the theorems about the whole system apply; at the end a refresh that runs
    from the scheduler's tick to the report, and one whose report is refused. *)
From S2P Require Import Prelude GoStrings Effects GoTime Schema Samples AuditLog Jobs JobsInvariant JobsSpec JobsCreate JobsWitness Scheduler SchedulerSpec JobsLives SchedulerWitness Http Auth Agents AuthSpec AuthWitness Artifacts ArtifactsWitness Signing SigningSpec Net Host Accounts Sources Catalog StoreWitness Discovery ControlPlane ControlPlaneSpec Dashboard Lists Integrity IntegrityPrograms ListsSpec System SystemSpec SystemHistory.

#[local] Existing Instance sample_uuid.
#[local] Existing Instance sample_secrets.
#[local] Existing Instance sample_archives.
#[local] Existing Instance sample_sha1.
#[local] Existing Instance sample_sort.

#[local] Instance sample_columns : Unwritten := {
  ag_enrolled_at := fun _ => 0; ag_created_at := fun _ => 0; dv_last_inventory_scan_at := fun _ => None;
  dv_created_at := fun _ => 0; ac_team_type := fun _ => "free"; ac_locked := fun _ => false;
  ac_failure_count := fun _ => 0; ac_created_at := fun _ => 0; ce_expiry_at := fun _ => None;
  ce_created_at := fun _ => 0; sa_signed_at := fun _ => 0; dp_channel_id := fun _ => 90%N;
  dp_target := fun _ => "direct"; dp_desired_version := fun _ => None;
  dp_update_policy := fun _ => "next_refresh"; dp_current_state := fun _ => "pending";
  dp_updated_at := fun _ => 0; the_application := fun _ => MkApplication "A" None None None "next_refresh" "x" 0;
}.

(** ** A full database *)

Definition lost_phone : device_token :=
  MkDeviceToken 10 "phone" (KeyID "tok") (bcrypt_hash 5 "tok") ["control"] (Some 2%N) None (Some Hour) None 0.
Definition reader : device_token :=
  MkDeviceToken 13 "tablet" (KeyID "eye") (bcrypt_hash 5 "eye") ["read"] None None None None 0.
Definition invitation_secret : string := "invite".
Definition invitation : enrolment_token :=
  MkEnrolToken 9 (bcrypt_hash 4 invitation_secret) (Some (KeyID invitation_secret)) "mini" "device_agent" "admin" None None None.
Definition the_cert (id : uuid) (serial : string) (revoked : bool) : certificate :=
  MkCert id (Some serial) 3 "key" revoked None None.

Definition held_job : job :=
  claim_row 1 (5 * Minute) Hour (new_job JobTypeInstall (Some 2%N) None JNull "k" 5 None None None 11 0).
Definition finished_job : job :=
  updated_row svc (MkUpdateRequest StateCompleted None None None (Some (JObj []))) Hour
    (claim_row 1 (5 * Minute) Minute (new_job JobTypeInstall (Some 2%N) None JNull "first" 5 None None None 14 0)).

Definition full_db : db := MkDb
  (<[11%N := held_job]> (<[14%N := finished_job]> ∅))
  ∅
  (<[1%N := MkAgent 1 "mini" None None None None "online" None (JObj []) "device_agent" None (Some (KeyID "agent-key")) 0]> ∅)
  (<[2%N := MkDevice 2 "UDID-1" "ios" (Some "Phone") None None (Some 1%N) "paired" None None]> ∅)
  (<[3%N := MkAccount 3 "a@example" (Some "TEAM") "authenticated" None 0 0 None None]> ∅)
  (<[4%N := the_cert 4 "S1" false]> (<[12%N := the_cert 12 "S2" true]> ∅))
  (<[5%N := MkArtifact 5 "sha" "A.ipa" (Some "1.0") None (Some "com.a") (Some "ios") None [] None "approved" 0]> ∅)
  (<[6%N := MkSigned 6 5 2 3 (Some 4%N) None (Some "com.a") (Some Day) (Some "signed") (Some 11%N)]> ∅)
  (<[7%N := MkDeployment 7 2 None (Some 5%N) (Some Hour) None None None]> ∅)
  (<[8%N := MkInstallation 8 7 (Some Day) None (Some 6%N) (Some 11%N)]> ∅)
  (<[9%N := invitation]> ∅)
  (<[10%N := lost_phone]> (<[13%N := reader]> ∅))
  ∅ ∅ [].

Definition full_world : world := MkWorld full_db [] ∅ (12 * Hour) 100.
Definition full : system := MkSystem (MkStore (MkHost full_world ∅ ∅) [] 0) enroll_limiter.

Lemma table_ok_empty {A} (key : A -> uuid) (refs : A -> Prop) n : table_ok key refs n (∅ : gmap uuid A).
Proof. intros i r Hi. by rewrite lookup_empty in Hi. Qed.
Lemma table_ok_add {A} (key : A -> uuid) (refs : A -> Prop) n i r (t : gmap uuid A) :
  key r = i -> (i < n)%N -> refs r -> table_ok key refs n t -> table_ok key refs n (<[i := r]> t).
Proof. intros. by apply (table_ok_insert key refs n n). Qed.
Lemma distinct_empty {A K} (col : A -> option K) : distinct col (∅ : gmap uuid A).
Proof. intros i j r s k Hr. by rewrite lookup_empty in Hr. Qed.
Lemma distinct_add {A K} (col : A -> option K) i r (t : gmap uuid A) :
  (forall k, col r = Some k -> k ∉ omap col (rows t)) -> distinct col t -> distinct col (<[i := r]> t).
Proof.
  intros Hr Ht. apply distinct_insert; [done|]. intros j s k Hj Hk Hrk. destruct (Hr k Hrk).
  apply list_elem_of_omap. exists s. split; [apply elem_of_rows; eauto|done].
Qed.

Ltac row_ok :=
  unfold job_refs, agent_refs, device_refs, account_refs, certificate_refs, artifact_refs, signed_refs,
    deployment_refs, installation_refs, enrolment_refs, token_refs;
  split_and?; try done; first [by apply updated_row_wf, claim_row_wf, new_job_wf|apply claim_row_wf, new_job_wf|intros ? [= <-]; vm_compute; by eexists].
Ltac column_ok := intros ? [= <-]; vm_compute; intros Hin; repeat (apply elem_of_cons in Hin as [Hin|Hin]; [discriminate Hin|]); by apply not_elem_of_nil in Hin.

Lemma full_integral : integral full_world.
Proof.
  split; simpl;
    first [ repeat (apply table_ok_add; [done|lia|row_ok|]); apply table_ok_empty
          | repeat (apply distinct_add; [column_ok|]); apply distinct_empty ].
Qed.

(** ** A day of the system *)

Definition st1 : settings :=
  MkSettings server1 (2 * Day) "/var/lib/sidey/artifacts" initial_cidrs (5 * Minute) (15 * Second) (12 * Hour) (7 * Day)
    (30 * Day) Day "8080" None "".

Definition by_key (key : string) : request := MkRequest ("Bearer " ++s key) None.

Definition life : list occurrence -> system -> system := history (fun _ => None) [] st1.
Definition answer_to : request -> endpoint -> prog system response reply := respond (fun _ => None) [] st1.

Definition busy_day : list occurrence :=
  [MkOccurrence (13 * Hour) (Asked (by_key "admin-key") (AdminDeleteDevice (sample_text 2))) [];
   MkOccurrence (13 * Hour) (Asked (by_key "admin-key") (DeleteAppleAccount (sample_text 3))) [];
   MkOccurrence (14 * Hour) (Asked (by_key "agent-key") (Heartbeat (Some None))) [false; true];
   MkOccurrence (14 * Hour) (Asked (by_key "eye") (ManualRefresh (Some (MkManualRefresh 7 "now")))) [];
   MkOccurrence (15 * Hour) (AskedLocally DeviceMe) [];
   MkOccurrence (15 * Hour) (AskedLocally (DeviceClaim (Some (MkClaimRequest [2%N] [] 1)))) [];
   MkOccurrence (16 * Hour) (Pass Reaping outage) [];
   MkOccurrence (17 * Hour) (Pass Scheduling outage) [];
   MkOccurrence (40 * Day) (Pass Pruning outage) [];
   MkOccurrence (40 * Day) (Asked (by_key "admin-key") (RevokeDeviceToken (sample_text 13))) []].

Lemma busy_day_honest : Forall honest_occurrence busy_day.
Proof. repeat constructor. Qed.

(** The device and the account are held back by what refers to them; the socket's
    agent is new; the pass of the retention has cut the installation from the
    signed artifact it deleted. *)
Lemma database_integrity_witness :
  let w' := lget (life busy_day full) : world in
  integral w' /\ remembers full_world w'
  /\ is_Some (W_devices w' !! 2%N) /\ is_Some (W_accounts w' !! 3%N)
  /\ W_signed w' !! 6%N = None /\ (ir_signed_artifact_id <$> W_installations w' !! 8%N) = Some None
  /\ size (W_agents w') = 2%nat /\ (0 < length (w_pool_audit w'))%nat.
Proof.
  destruct (database_integrity (fun _ => None) [] st1 busy_day full busy_day_honest full_integral) as [Hi Hr].
  split; [exact Hi|]. split; [exact Hr|].
  vm_compute. split_and!; try reflexivity; by eexists || lia.
Defined.

(** The job whose lease ran out waits again, with its claim counted; the finished
    one is as it was; a refresh was added. *)
Lemma every_job_lives_on_witness :
  let w' := lget (life busy_day full) : world in
  (exists j', rtc moves held_job j' /\ W_jobs w' !! 11%N = Some j' /\ j_state j' = StatePending /\ j_attempt j' = 1)
  /\ (exists j', W_jobs w' !! 14%N = Some j' /\ same_but_parent finished_job j')
  /\ size (W_jobs w') = 3%nat.
Proof.
  destruct (every_job_lives_on (fun _ => None) [] st1 busy_day full busy_day_honest full_integral) as (_ & Hold & _ & Hdone).
  split; [|split].
  - destruct (Hold 11%N held_job eq_refl) as (j' & R & _ & [Hj|[Hj _]]); [|vm_compute in Hj; discriminate Hj].
    exists j'. split; [exact R|]. split; [exact Hj|]. revert Hj. vm_compute. intros [= <-]. done.
  - exact (Hdone 14%N finished_job eq_refl eq_refl eq_refl).
  - vm_compute. reflexivity.
Defined.

(** The key of an agent opens no route of the operators; a made-up invitation
    enrols nobody; a file for a phone leaves everything but the audit. *)
Lemma routes_are_guarded_witness :
  (exists resp, denied Admin resp
     /\ exec (answer_to (by_key "agent-key") (AdminDeleteDevice (sample_text 2))) full = (inl resp, full))
  /\ (exists resp, denied Enrolment resp
     /\ exec (answer_to (by_key "made-up") (EnrolAgent (Some (MkEnrolAgent "x" "" "" "" "" None)))) full = (inl resp, full))
  /\ browsed full (exec (answer_to (by_key "") (StoreArtifactInstall (sample_text 5))) full).2.
Proof.
  split; [|split].
  - apply (routes_are_guarded (fun _ => None) [] st1 [] _ (AdminDeleteDevice (sample_text 2)) full).
    intros [_ [Hk|Hk]]; vm_compute in Hk; discriminate Hk.
  - apply (routes_are_guarded (fun _ => None) [] st1 [] _ (EnrolAgent (Some (MkEnrolAgent "x" "" "" "" "" None))) full).
    intros (token & [= <-] & i & t & Ht & _ & _ & Hor). revert Ht Hor. clear.
    intros Ht [(key & secret & Hp & _)|(_ & Hk & _)]; [vm_compute in Hp; discriminate Hp|].
    change (W_enrolment_tokens (lget full)) with (<[9%N := invitation]> ∅ : gmap uuid enrolment_token) in Ht.
    apply lookup_insert_Some in Ht as [[_ <-]|[_ Ht]]; [discriminate Hk|by rewrite lookup_empty in Ht].
  - apply (routes_are_guarded (fun _ => None) [] st1 [] _ (StoreArtifactInstall (sample_text 5)) full);
      [reflexivity|discriminate].
Defined.

(** The page hands its cookie, the admin key, to whoever asks, and with it every
    route of the operators opens. *)
Example index_opens_admin :
  (exec (answer_to (MkRequest "" None) Index) full).1 = inr (Page (Some "admin-key"))
  /\ (exists resp, (exec (answer_to (MkRequest "" None) ListDeviceTokens) full).1 = inl resp)
  /\ (exists rep, (exec (answer_to (MkRequest "" (Some "admin-key")) ListDeviceTokens) full).1 = inr rep).
Proof. vm_compute. split_and!; try reflexivity; eexists; reflexivity. Qed.

Lemma revocation_is_final_witness :
  exists resp, refusal resp
    /\ exec (answer_to (by_key "tok") (ManualRefresh (Some (MkManualRefresh 7 "now")))) (life busy_day full)
       = (inl resp, life busy_day full).
Proof.
  apply (revocation_is_final (fun _ => None) [] st1 busy_day [] "tok" _ _ "control" full busy_day_honest full_integral).
  - exists 10%N, lost_phone. split_and!; [by vm_compute|done|by eexists].
  - done.
  - intros [_ [Hk|Hk]]; vm_compute in Hk; discriminate Hk.
  - by right.
Defined.

Definition mini : enrolAgentRequest := MkEnrolAgent "second" "arm64" "linux" "1" "" None.

Lemma invitation_admits_one_witness :
  let r := by_key (FormatEnrolmentToken invitation_secret) in
  exists y1 key id, exec (answer_to r (EnrolAgent (Some mini))) full = (inr (Answered (enrol_answer id key "device_agent")), y1)
    /\ W_agents (lget y1) !! id <> None
    /\ (exists resp, (exec (answer_to r (EnrolAgent (Some mini))) (life busy_day y1)).1 = inl resp)
    /\ forall r', bearerToken r' = Some key ->
         (exec (agent_of r') (lget (life busy_day y1))).1 = inr id.
Proof.
  set (r := by_key (FormatEnrolmentToken invitation_secret)).
  destruct (exec (answer_to r (EnrolAgent (Some mini))) full) as [[resp|rep] y1] eqn:E1; [vm_compute in E1; discriminate E1|].
  destruct (exec (answer_to r (EnrolAgent (Some mini))) (life busy_day y1)) as [x2 y2] eqn:E2.
  destruct (invitation_admits_one (fun _ => None) [] st1 [] [] r r (FormatEnrolmentToken invitation_secret) _ _ busy_day full y1
    rep x2 y2 full_integral ltac:(vm_compute; by eexists) eq_refl eq_refl E1 busy_day_honest E2)
    as (req & t & id & key & a & _ & He & -> & Hx & _ & Hk).
  assert (et_role t = "device_agent") as Ht.
  { destruct (en_grants _ _ _ _ _ _ _ _ He) as (k & s & _ & _ & Ht & _).
    change (W_enrolment_tokens (lget full)) with (<[9%N := invitation]> ∅ : gmap uuid enrolment_token) in Ht.
    apply lookup_insert_Some in Ht as [[_ <-]|[_ Ht]]; [done|by rewrite lookup_empty in Ht]. }
  exists y1, key, id. split_and!.
  - by rewrite <- Ht.
  - rewrite (en_agents _ _ _ _ _ _ _ _ He), lookup_insert_eq. done.
  - by rewrite E2.
  - intros r' Hr'. exact (f_equal fst (Hk r' Hr')).
Defined.

Lemma read_scope_only_reads_witness :
  let y' := (exec (answer_to (by_key "eye") ListSignedArtifacts) full).2 in
  observed full y' /\ (dt_last_used_at <$> W_device_tokens (lget y') !! 13%N) = Some (Some (12 * Hour)).
Proof.
  split; [|by vm_compute]. exact (read_scope_only_reads (fun _ => None) [] st1 [] (by_key "eye") ListSignedArtifacts full eq_refl).
Defined.

Lemma lists_lose_nothing_witness :
  length (signed_list full_world) = 1%nat /\ length (certificate_list full_world) = 2%nat
  /\ total (cert_count full_world) (rows (W_accounts full_world)) = 1.
Proof.
  destruct (lists_lose_nothing full_world full_integral) as (_ & Hs & _ & Hc & _ & Ht).
  split_and!; [by vm_compute|by vm_compute|]. rewrite Ht. by vm_compute.
Defined.

(** ** A refresh from the tick to the report *)

(** The archive is on the disk, and a signing worker has enrolled. *)
Definition signer : Schema.agent :=
  MkAgent 15 "signer" None None None None "online" None (JObj []) "signing_worker" None (Some (KeyID "sign-key")) 0.
Definition workshop : system :=
  lset (set_blobs (fun _ => {["sha"]}) (set_db (fun d =>
    on_artifacts (update_where (fun _ => true) (fun a =>
      MkArtifact (ar_id a) (ar_sha256 a) "A.ipa" (Some "1.0") None (Some "com.a") (Some "iPhoneOS") None [] None "approved" 0))
      (on_agents (<[15%N := signer]>) d)) full_world)) full.

(** The form of the upload for the sign job, which gets the identifier 102. *)
Definition refresh_form (k : string) : string :=
  if k =s "job_id" then sample_text 102 else if k =s "source_artifact_id" then sample_text 5
  else if k =s "device_id" then sample_text 2 else if k =s "cert_serial" then "S1"
  else if k =s "account_email" then "a@example" else if k =s "team_id" then "TEAM" else "".

Definition finished (result : list (string * json)) : option UpdateRequest :=
  Some (MkUpdateRequest StateCompleted None None None (Some (JObj result))).

Definition after (minutes : Z) (ev : system_event) : occurrence := MkOccurrence (17 * Hour + minutes * Minute) ev [].
Definition as_signer (e : endpoint) : system_event := Asked (by_key "sign-key") e.

(** The device agent claims the refresh and asks for its archive, the worker signs
    and uploads, the agent installs and reports with [result]; and the scheduler
    looks again. *)
Definition refresh_day (result : list (string * json)) : list occurrence :=
  [after 0 (Pass Scheduling outage);
   after 1 (AskedLocally (DeviceClaim (Some (MkClaimRequest [] ["refresh"] 1))));
   after 2 (AskedLocally (DeviceRefreshSign (sample_text 100) None));
   after 3 (as_signer (ClaimJobs (Some (MkClaimRequest [] ["sign"] 1))));
   after 4 (as_signer (AgentDownloadArtifact (sample_text 5)));
   after 5 (as_signer (UploadSignedArtifact (Form refresh_form (Some signed_ipa))));
   after 6 (as_signer (UpdateJob (sample_text 102) (finished [("signed_artifact_id", JStr (sample_text 103))])));
   after 7 (AskedLocally (DeviceEnsureInstall (sample_text 100)));
   after 8 (AskedLocally (DeviceDownload (sample_text 103)));
   after 9 (AskedLocally (DeviceUpdate (sample_text 105) (finished [])));
   after 10 (AskedLocally (DeviceUpdate (sample_text 100) (finished result)));
   after 15 (Pass Scheduling outage)].

Definition job_states (y : system) : list (uuid * string * string) :=
  (fun j => (j_id j, j_job_type j, j_state j)) <$> sort_by (fun a b => (j_id a <=? j_id b)%N) (rows (W_jobs (lget (S := world) y))).

(** A report with the new expiry alone completes the cycle: the deployment is due
    again two days before, and the second pass adds nothing. *)
Example refresh_runs_through :
  let y := life (refresh_day [("profile_expiry_at", time_json (40 * Day))]) workshop in
  job_states y = [(11%N, "install", "claimed"); (14%N, "install", "completed"); (100%N, "refresh", "completed");
                  (102%N, "sign", "completed"); (105%N, "install", "completed")]
  /\ (ir_provisioning_expiry_at <$> W_installations (lget (S := world) y) !! 8%N) = Some (Some (40 * Day))
  /\ (dp_next_refresh_due_at <$> W_deployments (lget (S := world) y) !! 7%N) = Some (Some (38 * Day))
  /\ (sa_job_id <$> W_signed (lget (S := world) y) !! 103%N) = Some (Some 102%N).
Proof. vm_compute. done. Qed.

(** A report that names what was installed, as the device agent's does, is refused:
    the archive that was installed before is no row of artifacts, so it cannot be
    the one to fall back to.  The refresh is never completed. *)
Example named_refresh_is_refused :
  let y := life (refresh_day [("profile_expiry_at", time_json (40 * Day)); ("signed_artifact_id", JStr (sample_text 103));
                              ("install_job_id", JStr (sample_text 105))]) workshop in
  job_states y = [(11%N, "install", "claimed"); (14%N, "install", "completed"); (100%N, "refresh", "claimed");
                  (102%N, "sign", "completed"); (105%N, "install", "completed")]
  /\ (ir_provisioning_expiry_at <$> W_installations (lget (S := world) y) !! 8%N) = Some (Some Day).
Proof. vm_compute. done. Qed.
